(** * A shallow embedding of [RawMemory<T>] and [Vector<T>] (vector.h)

    The C++ container is modelled over an explicit store:

    - a heap of storage blocks, one per [operator new]; a block is a list of
      slots, each either raw storage or a live object of the element type;
    - a table of [Vector] objects, so that [this] and [&rhs] can be compared;
    - the static state of the element type (counters, countdowns of the
      instrumented probes);
    - a trace of the element-level operations performed, in program order.

    Every member function is a computation in a state monad whose results
    are: normal return, a C++ exception in flight, a failed [assert], or
    undefined behaviour. *)

From Stdlib Require Import ZArith Lia.
From stdpp Require Import base list numbers.

(** ** [size_t] *)

(** Arithmetic on [size_t] is modulo [2^64]; values are kept as [nat] so that
    they index lists directly. *)
Definition size_t (z : Z) : nat := Z.to_nat (z mod 2 ^ 64).

(** ** Pointers, events, results *)

(** [T*]: the block pointed into ([None] is [nullptr]) and an element offset. *)
Record ptr := Ptr { base : option nat; off : Z }.

Definition ptr_add (p : ptr) (k : Z) : ptr := Ptr (base p) (off p + k).
Infix "+ₚ" := ptr_add (at level 50, left associativity).

Definition ptr_eqb (p q : ptr) : bool :=
  bool_decide (base p = base q) && (off p =? off q)%Z.

(** [p <= q] on pointers; meaningful inside one block only. *)
Definition ptr_leb (p q : ptr) : bool :=
  bool_decide (base p = base q) && (off p <=? off q)%Z.

Definition ptr_ltb (p q : ptr) : bool :=
  bool_decide (base p = base q) && (off p <? off q)%Z.

Inductive place := InHeap (p : ptr) | Local.

Inductive ctor := ValueInit | CopyCtor | MoveCtor | OtherCtor.
Inductive assign := CopyAssign | MoveAssign.

Inductive event :=
| EvNew (a : nat) (slots : nat)
| EvDelete (a : nat)
| EvConstruct (how : ctor) (at_ : place)
| EvAssign (how : assign) (at_ : place)
| EvDestroy (at_ : place).

Inductive exn (X : Type) := bad_alloc | thrown (x : X).
Arguments bad_alloc {X}.
Arguments thrown {X} x.

Inductive result (X A : Type) :=
| Ok (a : A)
| Throw (e : exn X)
| AssertFail
| Undefined.
Arguments Ok {X A} a.
Arguments Throw {X A} e.
Arguments AssertFail {X A}.
Arguments Undefined {X A}.

(** ** Containers *)

Record RawMemory := { buffer_ : option nat; capacity_ : nat }.
Record Vector := { data_ : RawMemory; size_ : nat }.

Declare Scope cxx_scope.
Delimit Scope cxx_scope with cxx.

Section Model.

(** [T]: values of the element type; [P]: the static state the element type's
    members read and write; [X]: what they throw. *)
Context {T P X : Type}.

(** The members of the element type that the container calls.  A constructor
    or assignment either throws or yields the object it built; a move also
    yields what is left in its source.  A member that throws leaves its
    operands as they were, as the members of the probes of main.cpp do,
    which throw before they write to an object.  The copy assignment operator
    can test [this == &other]: [T_copy_assign_self] is what it does when it
    is entered with its own object as the argument, [T_copy_assign] what it
    does with another one. *)
Record ElemType := {
  sizeof_T : Z;
  is_nothrow_move_constructible : bool;
  is_copy_constructible : bool;
  T_value : P -> (X + T) * P;
  T_copy : T -> P -> (X + T) * P;
  T_move : T -> P -> (X + T * T) * P;
  T_copy_assign : T -> T -> P -> (X + T) * P;
  T_copy_assign_self : T -> P -> (X + T) * P;
  T_move_assign : T -> T -> P -> (X + T * T) * P;
  T_dtor : T -> P -> P;
}.

(** The build configuration and the platform allocator: [NDEBUG] compiles
    [assert] out; [operator new] refuses requests above [heap_limit] bytes. *)
Record Platform := { NDEBUG : bool; heap_limit : Z }.

Variable E : ElemType.
Variable Pl : Platform.

(** A slot is raw storage ([None]) or holds a live object; a block is the
    array of slots one [operator new] returned. *)
Abbreviation slot := (option T).
Abbreviation block := (list (option T)).

Record World := mkWorld {
  vectors : list Vector;
  heap : list (option block);
  statics : P;
  trace : list event;
}.

Definition with_vectors (f : list Vector -> list Vector) (w : World) : World :=
  {| vectors := f (vectors w); heap := heap w; statics := statics w; trace := trace w |}.
Definition with_heap (f : list (option block) -> list (option block)) (w : World) : World :=
  {| vectors := vectors w; heap := f (heap w); statics := statics w; trace := trace w |}.
Definition with_statics (s : P) (w : World) : World :=
  {| vectors := vectors w; heap := heap w; statics := s; trace := trace w |}.
Definition with_event (e : event) (w : World) : World :=
  {| vectors := vectors w; heap := heap w; statics := statics w; trace := trace w ++ [e] |}.

(** ** The monad *)

Definition M (A : Type) : Type := World -> result X A * World.

Definition ret {A} (a : A) : M A := fun w => (Ok a, w).

Definition bind {A B} (m : M A) (k : A -> M B) : M B := fun w =>
  match m w with
  | (Ok a, w') => k a w'
  | (Throw e, w') => (Throw e, w')
  | (AssertFail, w') => (AssertFail, w')
  | (Undefined, w') => (Undefined, w')
  end.

Notation "x <- c1 ;; c2" := (bind c1 (fun x => c2))
  (at level 100, c1 at next level, right associativity) : cxx_scope.
Notation "c1 ;; c2" := (bind c1 (fun _ => c2))
  (at level 100, right associativity) : cxx_scope.
Local Open Scope cxx_scope.

Definition throw {A} (e : exn X) : M A := fun w => (Throw e, w).
Definition undefined {A} : M A := fun w => (Undefined, w).

(** [try { m } catch (...) { h }] *)
Definition try_catch {A} (m : M A) (h : exn X -> M A) : M A := fun w =>
  match m w with
  | (Throw e, w') => h e w'
  | r => r
  end.

(** [assert(c)] *)
Definition assert_ (c : bool) : M unit := fun w =>
  if NDEBUG Pl then (Ok tt, w) else if c then (Ok tt, w) else (AssertFail, w).

Definition log (e : event) : M unit := fun w => (Ok tt, with_event e w).

(** A call of a member of the element type. *)
Definition member {A} (f : P -> (X + A) * P) : M A := fun w =>
  match f (statics w) with
  | (inl x, s) => (Throw (thrown x), with_statics s w)
  | (inr a, s) => (Ok a, with_statics s w)
  end.

(** ** Storage *)

Definition block_at (h : list (option block)) (a : nat) : option block :=
  match h !! a with Some (Some b) => Some b | _ => None end.

(** The slot a pointer designates, if it points into an allocated block. *)
Definition slot_at (h : list (option block)) (p : ptr) : option slot :=
  match base p with
  | Some a =>
      match block_at h a with
      | Some b => if (0 <=? off p)%Z then b !! Z.to_nat (off p) else None
      | None => None
      end
  | None => None
  end.

Definition set_slot (h : list (option block)) (p : ptr) (s : slot) : list (option block) :=
  match base p with
  | Some a =>
      match block_at h a with
      | Some b => <[a := Some (<[Z.to_nat (off p) := s]> b)]> h
      | None => h
      end
  | None => h
  end.

(** Access to the object at [p]; undefined unless a live object is there. *)
Definition load (p : ptr) : M T := fun w =>
  match slot_at (heap w) p with
  | Some (Some x) => (Ok x, w)
  | _ => (Undefined, w)
  end.

(** Write of a slot; undefined unless [p] designates a slot. *)
Definition put (p : ptr) (s : slot) : M unit := fun w =>
  match slot_at (heap w) p with
  | Some _ => (Ok tt, with_heap (fun h => set_slot h p s) w)
  | None => (Undefined, w)
  end.

(** [::operator new(bytes)] *)
Definition operator_new (bytes : nat) : M nat := fun w =>
  if (heap_limit Pl <? Z.of_nat bytes)%Z then (Throw bad_alloc, w)
  else
    let a := length (heap w) in
    let n := Z.to_nat (Z.of_nat bytes / sizeof_T E) in
    (Ok a, with_event (EvNew a n) (with_heap (fun h => h ++ [Some (replicate n None)]) w)).

(** [::operator delete(buf)]; the block goes away with whatever it holds. *)
Definition operator_delete (a : nat) : M unit := fun w =>
  match block_at (heap w) a with
  | Some _ => (Ok tt, with_event (EvDelete a) (with_heap (fun h => <[a := None]> h) w))
  | None => (Undefined, w)
  end.

(** ** Construction, assignment and destruction of elements *)

(** What a reference argument refers to: an object outside every block (its
    value is given), or an object in a block, which may be an element of the
    very vector the call is made on. *)
Inductive ref := External (x : T) | Internal (p : ptr).

(** The argument pack of [T(std::forward<Args>(args)...)]: an lvalue of [T]
    (copy constructor), an rvalue of [T] (move constructor), nothing (value
    initialisation), or anything else (some other constructor). *)
Inductive args :=
| ByCopy (r : ref)
| ByMove (r : ref)
| NoArgs
| Convert (mk : P -> (X + T) * P).

Definition ctor_of (a : args) : ctor :=
  match a with
  | ByCopy _ => CopyCtor
  | ByMove _ => MoveCtor
  | NoArgs => ValueInit
  | Convert _ => OtherCtor
  end.

(** Runs the constructor selected by the arguments and yields the new
    object's value; a move from an object in a block leaves the moved-from
    state in that object. *)
Definition make (a : args) : M T :=
  match a with
  | ByCopy (External x) => member (T_copy E x)
  | ByCopy (Internal p) => x <- load p ;; member (T_copy E x)
  | ByMove (External x) => ys <- member (T_move E x) ;; ret (fst ys)
  | ByMove (Internal p) =>
      x <- load p ;;
      ys <- member (T_move E x) ;;
      put p (Some (snd ys)) ;;
      ret (fst ys)
  | NoArgs => member (T_value E)
  | Convert mk => member mk
  end.

(** [new (p) T(args...)] *)
Definition construct_at (p : ptr) (a : args) : M unit :=
  x <- make a ;;
  put p (Some x) ;;
  log (EvConstruct (ctor_of a) (InHeap p)).

(** [std::destroy_at(p)] *)
Definition destroy_at (p : ptr) : M unit :=
  x <- load p ;;
  (fun w => (Ok tt, with_statics (T_dtor E x (statics w)) w)) ;;
  put p None ;;
  log (EvDestroy (InHeap p)).

(** Copy assignment of the object at [src] to the object at [dst]; the
    operator can tell whether the two are one object ([this == &other]). *)
Definition copy_assign (dst src : ptr) : M unit :=
  d <- load dst ;;
  x <- load src ;;
  d' <- member (if ptr_eqb dst src then T_copy_assign_self E d
                else T_copy_assign E d x) ;;
  put dst (Some d') ;;
  log (EvAssign CopyAssign (InHeap dst)).

(** Move assignment of the object at [src] to the object at [dst]. *)
Definition move_assign (dst src : ptr) : M unit :=
  d <- load dst ;;
  x <- load src ;;
  ds <- member (T_move_assign E d x) ;;
  put src (Some (snd ds)) ;;
  put dst (Some (fst ds)) ;;
  log (EvAssign MoveAssign (InHeap dst)).

(** ** The standard algorithms used by the container *)

(** [std::destroy_n(first, n)] *)
Fixpoint destroy_n (first : ptr) (n : nat) : M unit :=
  match n with
  | O => ret tt
  | S n' => destroy_at first ;; destroy_n (first +ₚ 1) n'
  end.

(** The common shape of the [std::uninitialized_*_n] family: construct
    element after element; when a construction throws, destroy the elements
    this call has constructed and rethrow. *)
Fixpoint uninitialized_loop (construct : nat -> M unit) (result : ptr)
    (i n : nat) : M unit :=
  match n with
  | O => ret tt
  | S n' =>
      try_catch (construct i) (fun e => destroy_n result i ;; throw e) ;;
      uninitialized_loop construct result (S i) n'
  end.

Definition uninitialized_copy_n (first : ptr) (n : nat) (result : ptr) : M unit :=
  uninitialized_loop
    (fun i => construct_at (result +ₚ Z.of_nat i) (ByCopy (Internal (first +ₚ Z.of_nat i))))
    result 0 n.

Definition uninitialized_move_n (first : ptr) (n : nat) (result : ptr) : M unit :=
  uninitialized_loop
    (fun i => construct_at (result +ₚ Z.of_nat i) (ByMove (Internal (first +ₚ Z.of_nat i))))
    result 0 n.

Definition uninitialized_value_construct_n (first : ptr) (n : nat) : M unit :=
  uninitialized_loop (fun i => construct_at (first +ₚ Z.of_nat i) NoArgs) first 0 n.

(** The length of the range [[first, last)]; forming it from pointers into
    different blocks, or with [last] before [first], is undefined. *)
Definition range (first last : ptr) : M nat :=
  if ptr_leb first last then ret (Z.to_nat (off last - off first)) else undefined.

Fixpoint assign_forward (f : ptr -> ptr -> M unit) (first : ptr) (n : nat)
    (d_first : ptr) : M unit :=
  match n with
  | O => ret tt
  | S n' => f d_first first ;; assign_forward f (first +ₚ 1) n' (d_first +ₚ 1)
  end.

Fixpoint assign_backward (f : ptr -> ptr -> M unit) (last : ptr) (n : nat)
    (d_last : ptr) : M unit :=
  match n with
  | O => ret tt
  | S n' =>
      f (d_last +ₚ -1) (last +ₚ -1) ;;
      assign_backward f (last +ₚ -1) n' (d_last +ₚ -1)
  end.

(** [std::move(first, last, d_first)] *)
Definition std_move (first last d_first : ptr) : M unit :=
  n <- range first last ;; assign_forward move_assign first n d_first.

(** [std::copy(first, last, d_first)] *)
Definition std_copy (first last d_first : ptr) : M unit :=
  n <- range first last ;; assign_forward copy_assign first n d_first.

(** [std::move_backward(first, last, d_last)] *)
Definition std_move_backward (first last d_last : ptr) : M unit :=
  n <- range first last ;; assign_backward move_assign last n d_last.

(** ** [RawMemory<T>] *)

(** [RawMemory::Allocate]; the byte count [n * sizeof(T)] is a [size_t]. *)
Definition Allocate (n : nat) : M (option nat) :=
  if n =? 0 then ret None
  else a <- operator_new (size_t (Z.of_nat n * sizeof_T E)) ;; ret (Some a).

(** [RawMemory::Deallocate] *)
Definition Deallocate (buf : option nat) : M unit :=
  match buf with
  | Some a => operator_delete a
  | None => ret tt
  end.

(** [RawMemory::RawMemory(size_t capacity)] *)
Definition RawMemory_new (capacity : nat) : M RawMemory :=
  buf <- Allocate capacity ;;
  ret {| buffer_ := buf; capacity_ := capacity |}.

(** [RawMemory::~RawMemory] *)
Definition RawMemory_delete (m : RawMemory) : M unit := Deallocate (buffer_ m).

(** [RawMemory::RawMemory(RawMemory&& other)]: the new object, and [other]
    as it is left. *)
Definition RawMemory_move (other : RawMemory) : RawMemory * RawMemory :=
  ({| buffer_ := buffer_ other; capacity_ := capacity_ other |},
   {| buffer_ := None; capacity_ := 0 |}).

(** [RawMemory::Swap] *)
Definition RawMemory_Swap (a b : RawMemory) : RawMemory * RawMemory := (b, a).

(** [RawMemory::GetAddress] *)
Definition GetAddress (m : RawMemory) : ptr := Ptr (buffer_ m) 0.

(** [RawMemory::operator[]]: the reference [buffer_[index]]. *)
Definition RawMemory_index (m : RawMemory) (index : nat) : M ptr :=
  assert_ (index <? capacity_ m) ;;
  ret (GetAddress m +ₚ Z.of_nat index).

(** A local [RawMemory new_data(capacity)] and its scope: the body hands
    back the state of the local at the end of the scope (the body may have
    swapped it); the local's destructor runs when the scope is left, also
    by an exception. *)
Definition local_RawMemory {A} (capacity : nat)
    (body : RawMemory -> M (RawMemory * A)) : M A :=
  new_data <- RawMemory_new capacity ;;
  r <- try_catch (body new_data) (fun e => RawMemory_delete new_data ;; throw e) ;;
  RawMemory_delete (fst r) ;;
  ret (snd r).

(** A local [T new_type(args...)] and its scope; the body hands back the
    state of the local at the end of the scope. *)
Definition destroy_local (x : T) : M unit :=
  (fun w => (Ok tt, with_statics (T_dtor E x (statics w)) w)) ;;
  log (EvDestroy Local).

Definition local_T {A} (a : args) (body : T -> M (T * A)) : M A :=
  x <- make a ;;
  log (EvConstruct (ctor_of a) Local) ;;
  r <- try_catch (body x) (fun e => destroy_local x ;; throw e) ;;
  destroy_local (fst r) ;;
  ret (snd r).

(** Move assignment of a local object [x] to the object at [dst]; yields
    what is left in the local. *)
Definition move_assign_from (dst : ptr) (x : T) : M T :=
  d <- load dst ;;
  ds <- member (T_move_assign E d x) ;;
  put dst (Some (fst ds)) ;;
  log (EvAssign MoveAssign (InHeap dst)) ;;
  ret (snd ds).

(** ** [Vector<T>] *)

(** The condition of every [if constexpr] of vector.h:
    [std::is_nothrow_move_constructible_v<T> || !std::is_copy_constructible_v<T>]. *)
Definition nothrow_move_or_no_copy : bool :=
  is_nothrow_move_constructible E || negb (is_copy_constructible E).

(** Access to the object [*this]. *)
Definition self (this : nat) : M Vector := fun w =>
  match vectors w !! this with
  | Some v => (Ok v, w)
  | None => (Undefined, w)
  end.

Definition set_data (this : nat) (d : RawMemory) : M unit := fun w =>
  match vectors w !! this with
  | Some v => (Ok tt, with_vectors (fun vs => <[this := {| data_ := d; size_ := size_ v |}]> vs) w)
  | None => (Undefined, w)
  end.

Definition set_size (this : nat) (n : nat) : M unit := fun w =>
  match vectors w !! this with
  | Some v => (Ok tt, with_vectors (fun vs => <[this := {| data_ := data_ v; size_ := n |}]> vs) w)
  | None => (Undefined, w)
  end.

(** A complete object comes into existence; yields its identity. *)
Definition declare (v : Vector) : M nat := fun w =>
  (Ok (length (vectors w)), with_vectors (fun vs => vs ++ [v]) w).

(** [Vector::Vector()] *)
Definition Vector_default : Vector :=
  {| data_ := {| buffer_ := None; capacity_ := 0 |}; size_ := 0 |}.

(** [Vector::Vector(size_t size)]; when the body throws, the member [data_]
    is destroyed and no object comes into existence. *)
Definition Vector_sized (size : nat) : M Vector :=
  data <- RawMemory_new size ;;
  try_catch (uninitialized_value_construct_n (GetAddress data) size)
    (fun e => RawMemory_delete data ;; throw e) ;;
  ret {| data_ := data; size_ := size |}.

(** [Vector::Vector(const Vector& other)] *)
Definition Vector_copy (other : nat) : M Vector :=
  o <- self other ;;
  data <- RawMemory_new (size_ o) ;;
  let size := size_ o in
  try_catch (uninitialized_copy_n (GetAddress (data_ o)) size (GetAddress data))
    (fun e => RawMemory_delete data ;; throw e) ;;
  ret {| data_ := data; size_ := size |}.

(** [Vector::Vector(Vector&& other) noexcept] *)
Definition Vector_move (other : nat) : M Vector :=
  o <- self other ;;
  let dd := RawMemory_move (data_ o) in
  set_data other (snd dd) ;;
  let size := size_ o in
  set_size other 0 ;;
  ret {| data_ := fst dd; size_ := size |}.

(** [Vector::Swap] *)
Definition Swap (this other : nat) : M unit :=
  v <- self this ;;
  o <- self other ;;
  let dd := RawMemory_Swap (data_ v) (data_ o) in
  set_data this (fst dd) ;;
  set_data other (snd dd) ;;
  v <- self this ;;
  o <- self other ;;
  set_size this (size_ o) ;;
  set_size other (size_ v).

(** [Vector::operator=(Vector&& rhs) noexcept] *)
Definition Vector_move_assign (this rhs : nat) : M unit :=
  if negb (this =? rhs) then Swap this rhs else ret tt.

(** [Vector::~Vector] followed by the destructor of the member [data_]. *)
Definition Vector_delete (this : nat) : M unit :=
  v <- self this ;;
  destroy_n (GetAddress (data_ v)) (size_ v) ;;
  RawMemory_delete (data_ v).

(** [begin()], [cbegin()] and [end()], [cend()] *)
Definition begin_ (v : Vector) : ptr := GetAddress (data_ v).
Definition end_ (v : Vector) : ptr := GetAddress (data_ v) +ₚ Z.of_nat (size_ v).

(** [Size()] and [Capacity()] *)
Definition Size (v : Vector) : nat := size_ v.
Definition Capacity (v : Vector) : nat := capacity_ (data_ v).

(** [std::distance(first, last)] converted to [size_t]. *)
Definition distance (first last : ptr) : M nat :=
  if bool_decide (base first = base last) then ret (size_t (off last - off first))
  else undefined.

(** [Vector::Reserve] *)
Definition Reserve (this : nat) (new_capacity : nat) : M unit :=
  v <- self this ;;
  if new_capacity <=? capacity_ (data_ v) then ret tt
  else
    local_RawMemory new_capacity (fun new_data =>
      (if nothrow_move_or_no_copy
       then uninitialized_move_n (GetAddress (data_ v)) (size_ v) (GetAddress new_data)
       else uninitialized_copy_n (GetAddress (data_ v)) (size_ v) (GetAddress new_data)) ;;
      destroy_n (GetAddress (data_ v)) (size_ v) ;;
      let dd := RawMemory_Swap (data_ v) new_data in
      set_data this (fst dd) ;;
      ret (snd dd, tt)).

(** [Vector::Resize] *)
Definition Resize (this : nat) (new_size : nat) : M unit :=
  v <- self this ;;
  (if size_ v <? new_size then
     Reserve this new_size ;;
     v <- self this ;;
     uninitialized_value_construct_n (GetAddress (data_ v) +ₚ Z.of_nat (size_ v))
       (size_t (Z.of_nat new_size - Z.of_nat (size_ v)))
   else
     destroy_n (GetAddress (data_ v) +ₚ Z.of_nat new_size)
       (size_t (Z.of_nat (size_ v) - Z.of_nat new_size))) ;;
  set_size this new_size.

(** [Vector::EmplaceBack]; yields the reference [data_[size_ - 1]]. *)
Definition EmplaceBack (this : nat) (a : args) : M ptr :=
  v <- self this ;;
  (if capacity_ (data_ v) =? size_ v then
     local_RawMemory (if size_ v =? 0 then 1 else size_t (Z.of_nat (size_ v) * 2))
       (fun new_data =>
          construct_at (GetAddress new_data +ₚ Z.of_nat (size_ v)) a ;;
          (if nothrow_move_or_no_copy
           then uninitialized_move_n (GetAddress (data_ v)) (size_ v) (GetAddress new_data)
           else uninitialized_copy_n (GetAddress (data_ v)) (size_ v) (GetAddress new_data)) ;;
          destroy_n (GetAddress (data_ v)) (size_ v) ;;
          let dd := RawMemory_Swap (data_ v) new_data in
          set_data this (fst dd) ;;
          ret (snd dd, tt))
   else
     construct_at (GetAddress (data_ v) +ₚ Z.of_nat (size_ v)) a) ;;
  v <- self this ;;
  set_size this (size_t (Z.of_nat (size_ v) + 1)) ;;
  v <- self this ;;
  RawMemory_index (data_ v) (size_t (Z.of_nat (size_ v) - 1)).

(** [Vector::PushBack] *)
Definition PushBack (this : nat) (value : args) : M unit :=
  v <- self this ;;
  (if capacity_ (data_ v) =? size_ v then
     local_RawMemory (if size_ v =? 0 then 1 else size_t (Z.of_nat (size_ v) * 2))
       (fun new_data =>
          construct_at (GetAddress new_data +ₚ Z.of_nat (size_ v)) value ;;
          (if nothrow_move_or_no_copy
           then uninitialized_move_n (GetAddress (data_ v)) (size_ v) (GetAddress new_data)
           else uninitialized_copy_n (GetAddress (data_ v)) (size_ v) (GetAddress new_data)) ;;
          destroy_n (GetAddress (data_ v)) (size_ v) ;;
          let dd := RawMemory_Swap (data_ v) new_data in
          set_data this (fst dd) ;;
          ret (snd dd, tt))
   else
     construct_at (GetAddress (data_ v) +ₚ Z.of_nat (size_ v)) value) ;;
  v <- self this ;;
  set_size this (size_t (Z.of_nat (size_ v) + 1)).

(** [Vector::PopBack] *)
Definition PopBack (this : nat) : M unit :=
  v <- self this ;;
  destroy_at (GetAddress (data_ v) +ₚ Z.of_nat (size_ v) +ₚ -1) ;;
  set_size this (size_t (Z.of_nat (size_ v) - 1)).

(** [Vector::operator[]]: the reference [data_[index]]. *)
Definition Vector_index (this : nat) (index : nat) : M ptr :=
  v <- self this ;;
  assert_ (index <? size_ v) ;;
  RawMemory_index (data_ v) index.

(** [Vector::Erase] *)
Definition Erase (this : nat) (pos : ptr) : M ptr :=
  v <- self this ;;
  assert_ (ptr_leb (begin_ v) pos && ptr_ltb pos (end_ v)) ;;
  pos_distance <- distance (begin_ v) pos ;;
  (if nothrow_move_or_no_copy
   then std_move (GetAddress (data_ v) +ₚ Z.of_nat pos_distance +ₚ 1)
          (GetAddress (data_ v) +ₚ Z.of_nat (size_ v))
          (GetAddress (data_ v) +ₚ Z.of_nat pos_distance)
   else std_copy (GetAddress (data_ v) +ₚ Z.of_nat pos_distance +ₚ 1)
          (GetAddress (data_ v) +ₚ Z.of_nat (size_ v))
          (GetAddress (data_ v) +ₚ Z.of_nat pos_distance)) ;;
  destroy_at (GetAddress (data_ v) +ₚ Z.of_nat (size_ v) +ₚ -1) ;;
  set_size this (size_t (Z.of_nat (size_ v) - 1)) ;;
  v <- self this ;;
  ret (begin_ v +ₚ Z.of_nat pos_distance).

(** [Vector::Emplace] *)
Definition Emplace (this : nat) (pos : ptr) (a : args) : M ptr :=
  v <- self this ;;
  assert_ (ptr_leb (begin_ v) pos && ptr_leb pos (end_ v)) ;;
  pos_distance <- distance (begin_ v) pos ;;
  (if capacity_ (data_ v) =? size_ v then
     local_RawMemory (if size_ v =? 0 then 1 else size_t (Z.of_nat (size_ v) * 2))
       (fun new_data =>
          construct_at (GetAddress new_data +ₚ Z.of_nat pos_distance) a ;;
          (if nothrow_move_or_no_copy
           then
             uninitialized_move_n (GetAddress (data_ v)) pos_distance (GetAddress new_data) ;;
             uninitialized_move_n (GetAddress (data_ v) +ₚ Z.of_nat pos_distance)
               (size_t (Z.of_nat (size_ v) - Z.of_nat pos_distance))
               (GetAddress new_data +ₚ Z.of_nat pos_distance +ₚ 1)
           else
             uninitialized_copy_n (GetAddress (data_ v)) pos_distance (GetAddress new_data) ;;
             uninitialized_copy_n (GetAddress (data_ v) +ₚ Z.of_nat pos_distance)
               (size_t (Z.of_nat (size_ v) - Z.of_nat pos_distance))
               (GetAddress new_data +ₚ Z.of_nat pos_distance +ₚ 1)) ;;
          destroy_n (GetAddress (data_ v)) (size_ v) ;;
          let dd := RawMemory_Swap (data_ v) new_data in
          set_data this (fst dd) ;;
          set_size this (size_t (Z.of_nat (size_ v) + 1)) ;;
          ret (snd dd, tt))
   else
     (if negb (ptr_eqb pos (GetAddress (data_ v) +ₚ Z.of_nat (size_ v))) then
        local_T a (fun new_type =>
          last <- RawMemory_index (data_ v) (size_t (Z.of_nat (size_ v) - 1)) ;;
          construct_at (GetAddress (data_ v) +ₚ Z.of_nat (size_ v)) (ByMove (Internal last)) ;;
          std_move_backward (GetAddress (data_ v) +ₚ Z.of_nat pos_distance)
            (GetAddress (data_ v) +ₚ Z.of_nat (size_ v) +ₚ -1)
            (GetAddress (data_ v) +ₚ Z.of_nat (size_ v)) ;;
          left <- move_assign_from (GetAddress (data_ v) +ₚ Z.of_nat pos_distance) new_type ;;
          ret (left, tt))
      else
        construct_at (GetAddress (data_ v) +ₚ Z.of_nat (size_ v)) a) ;;
     set_size this (size_t (Z.of_nat (size_ v) + 1))) ;;
  v <- self this ;;
  ret (begin_ v +ₚ Z.of_nat pos_distance).

(** [Vector::Insert] *)
Definition Insert (this : nat) (pos : ptr) (value : args) : M ptr :=
  Emplace this pos value.

(** The elements of [*this], slot by slot; [None] where a slot in
    [[0, size)] holds no live object. *)
Definition elements (w : World) (v : Vector) : list slot :=
  match buffer_ (data_ v) with
  | Some a =>
      match block_at (heap w) a with
      | Some b => take (size_ v) b
      | None => []
      end
  | None => []
  end.

End Model.

Notation "x <- c1 ;; c2" := (bind c1 (fun x => c2))
  (at level 100, c1 at next level, right associativity) : cxx_scope.
Notation "c1 ;; c2" := (bind c1 (fun _ => c2))
  (at level 100, right associativity) : cxx_scope.

(** ** Cells, event lists and the representation of a vector *)

(** The pointer to slot [i] of block [a]. *)
Definition cell (a i : nat) : ptr := Ptr (Some a) (Z.of_nat i).

(** The pointers to [n] consecutive slots of block [a] from slot [o] on. *)
Fixpoint cells (a o n : nat) : list ptr :=
  match n with
  | O => []
  | S n' => cell a o :: cells a (S o) n'
  end.

Definition constructions (how : ctor) (a o n : nat) : list event :=
  (fun p => EvConstruct how (InHeap p)) <$> cells a o n.

Definition destructions (a o n : nat) : list event :=
  (fun p => EvDestroy (InHeap p)) <$> cells a o n.

Definition assignments (how : assign) (ps : list ptr) : list event :=
  (fun p => EvAssign how (InHeap p)) <$> ps.

(** Number of objects constructed minus number of objects destroyed. *)
Fixpoint alive (t : list event) : Z :=
  match t with
  | [] => 0
  | EvConstruct _ _ :: t' => alive t' + 1
  | EvDestroy _ :: t' => alive t' - 1
  | _ :: t' => alive t'
  end.

Section Representation.

Context {T P X : Type}.
Variable E : @ElemType T P X.
Variable Pl : Platform.

(** A block of [cap] slots whose first slots hold the objects [xs]. *)
Definition live_block (xs : list T) (cap : nat) : list (option T) :=
  (Some <$> xs) ++ replicate (cap - length xs) None.

(** The block of the [RawMemory] [m] holds exactly the objects [xs], in its
    first slots; its other slots are raw. *)
Definition holds (h : list (option (list (option T)))) (m : RawMemory)
    (xs : list T) : Prop :=
  match buffer_ m with
  | Some a => block_at h a = Some (live_block xs (capacity_ m))
  | None => capacity_ m = 0
  end.

(** The element type and the platform are sane: [sizeof(T)] is a positive
    [size_t], and no allocation exceeds [PTRDIFF_MAX] bytes. *)
Definition sane : Prop :=
  (0 < sizeof_T E < 2 ^ 64)%Z ∧ (heap_limit Pl < 2 ^ 63)%Z.

(** The representation invariant of §3: the vector object [this] is [v], it
    owns a block of [Capacity] slots of which the first [Size] hold the live
    objects [xs] and the others are raw. *)
Record owns (w : @World T P) (this : nat) (v : Vector) (xs : list T) : Prop := {
  owns_self : vectors w !! this = Some v;
  owns_size : size_ v = length xs;
  owns_room : length xs ≤ capacity_ (data_ v);
  owns_bytes : (Z.of_nat (capacity_ (data_ v)) * sizeof_T E <= heap_limit Pl)%Z;
  owns_block : holds (heap w) (data_ v) xs;
}.

(** What the element type's members say about one relocated element: [y] is
    the new object, [z] what is left in the source [x]. *)
Definition relocated (mv : bool) (x y z : T) : Prop :=
  if mv then ∃ s s', T_move E x s = (inr (y, z), s')
  else (∃ s s', T_copy E x s = (inr y, s')) ∧ z = x.

(** The element type has value semantics for the member in question: the
    object built or assigned holds the value of the source. *)
Definition copy_faithful : Prop :=
  ∀ x s y s', T_copy E x s = (inr y, s') → y = x.
Definition move_faithful : Prop :=
  ∀ x s y z s', T_move E x s = (inr (y, z), s') → y = x.
Definition copy_assign_faithful : Prop :=
  ∀ d x s y s', T_copy_assign E d x s = (inr y, s') → y = x.
Definition move_assign_faithful : Prop :=
  ∀ d x s y z s', T_move_assign E d x s = (inr (y, z), s') → y = x.

(** [noexcept] on the move constructor is honoured. *)
Definition nothrow_move_honoured : Prop :=
  is_nothrow_move_constructible E = true →
  ∀ x s, ∃ yz s', T_move E x s = (inr yz, s').

(** The reference arguments refer to live objects. *)
Definition arg_ok (h : list (option (list (option T)))) (a : @args T P X) : Prop :=
  match a with
  | ByCopy (Internal q) | ByMove (Internal q) => ∃ x, slot_at h q = Some (Some x)
  | _ => True
  end.

(** [made h a y h']: in heap [h], the constructor selected by [a] builds an
    object of value [y] and leaves the heap [h']. *)
Inductive made (h : list (option (list (option T)))) :
    @args T P X → T → list (option (list (option T))) → Prop :=
| made_copy_ext x s s' y :
    T_copy E x s = (inr y, s') → made h (ByCopy (External x)) y h
| made_copy_int q x s s' y :
    slot_at h q = Some (Some x) → T_copy E x s = (inr y, s') →
    made h (ByCopy (Internal q)) y h
| made_move_ext x s s' y z :
    T_move E x s = (inr (y, z), s') → made h (ByMove (External x)) y h
| made_move_int q x s s' y z :
    slot_at h q = Some (Some x) → T_move E x s = (inr (y, z), s') →
    made h (ByMove (Internal q)) y (set_slot h q (Some z))
| made_value s s' y :
    T_value E s = (inr y, s') → made h NoArgs y h
| made_convert mk s s' y :
    mk s = (inr y, s') → made h (Convert mk) y h.

(** [threw h a x]: in heap [h], the constructor selected by [a] throws [x]. *)
Inductive threw (h : list (option (list (option T)))) : @args T P X → X → Prop :=
| threw_copy_ext x0 s s' x :
    T_copy E x0 s = (inl x, s') → threw h (ByCopy (External x0)) x
| threw_copy_int q x0 s s' x :
    slot_at h q = Some (Some x0) → T_copy E x0 s = (inl x, s') →
    threw h (ByCopy (Internal q)) x
| threw_move_ext x0 s s' x :
    T_move E x0 s = (inl x, s') → threw h (ByMove (External x0)) x
| threw_move_int q x0 s s' x :
    slot_at h q = Some (Some x0) → T_move E x0 s = (inl x, s') →
    threw h (ByMove (Internal q)) x
| threw_value s s' x :
    T_value E s = (inl x, s') → threw h NoArgs x
| threw_convert mk s s' x :
    mk s = (inl x, s') → threw h (Convert mk) x.

(** The argument pack, constructor kind and exception of the relocation of
    one element, by move ([mv = true]) or by copy. *)
Definition reloc_arg (mv : bool) (q : ptr) : @args T P X :=
  if mv then ByMove (Internal q) else ByCopy (Internal q).
Definition reloc_ctor (mv : bool) : ctor := if mv then MoveCtor else CopyCtor.
Definition reloc_threw (mv : bool) (x0 : T) (x : X) : Prop :=
  ∃ s s', if mv then T_move E x0 s = (inl x, s') else T_copy E x0 s = (inl x, s').

Definition assign_kind (mv : bool) : assign := if mv then MoveAssign else CopyAssign.

(** What the element type's members say about one assignment: the target
    receives [y] from the source [x], in which [z] is left. *)
Definition assigned (mv : bool) (x y z : T) : Prop :=
  if mv then ∃ d s s', T_move_assign E d x s = (inr (y, z), s')
  else (∃ d s s', T_copy_assign E d x s = (inr y, s')) ∧ z = x.

(** The assignment from the source [x0] throws [x]. *)
Definition assign_threw (mv : bool) (x0 : T) (x : X) : Prop :=
  ∃ d s s',
    if mv then T_move_assign E d x0 s = (inl x, s')
    else T_copy_assign E d x0 s = (inl x, s').

Definition assign_via (mv : bool) : ptr → ptr → @M T P X unit :=
  if mv then move_assign E else copy_assign E.

(** The copy constructor throws [x] on [x0], or returns on [x0], whatever the
    static state. *)
Definition copy_throws (x0 : T) (x : X) : Prop :=
  ∀ s, ∃ s', T_copy E x0 s = (inl x, s').
Definition copy_returns (x0 : T) : Prop :=
  ∀ s, ∃ y s', T_copy E x0 s = (inr y, s').

(** The move constructor returns on [x0], and the move assignment from
    [x0] throws [x], whatever the target and the static state. *)
Definition move_returns (x0 : T) : Prop :=
  ∀ s, ∃ y z s', T_move E x0 s = (inr (y, z), s').
Definition move_assign_throws (x0 : T) (x : X) : Prop :=
  ∀ d s, ∃ s', T_move_assign E d x0 s = (inl x, s').

(** The constructor selected by the arguments cannot throw, whatever the
    static state. *)
Definition cannot_throw (h : list (option (list (option T)))) (a : @args T P X) : Prop :=
  ∀ x, ¬ threw h a x.

(** [y] is a value the default constructor yields; [x] is an exception the
    default constructor throws. *)
Definition value_initialised (y : T) : Prop :=
  ∃ s s', T_value E s = (inr y, s').
Definition value_threw (x : X) : Prop :=
  ∃ s s', T_value E s = (inl x, s').

(** The arguments do not move from an object in a block. *)
Definition pure_arg (arg : @args T P X) : Prop :=
  match arg with ByMove (Internal _) => False | _ => True end.

(** The heap after the block of a [RawMemory] has been deallocated, and the
    events of the destruction of its objects and of its deallocation. *)
Definition release (buf : option nat) (h : list (option (list (option T)))) :
    list (option (list (option T))) :=
  match buf with Some a => <[a := None]> h | None => h end.

Definition deletions (buf : option nat) : list event :=
  match buf with Some a => [EvDelete a] | None => [] end.

Definition destructions_of (buf : option nat) (n : nat) : list event :=
  match buf with Some a => destructions a 0 n | None => [] end.

End Representation.

(** ** The element types and scenarios of the test programme (main.cpp) *)

(** The platform of the tests: assertions enabled. *)
Definition debug : Platform := {| NDEBUG := false; heap_limit := 2 ^ 40 |}.

(** [int] never throws, and moving it copies it. *)
Definition int_type : @ElemType Z unit Empty_set := {|
  sizeof_T := 4;
  is_nothrow_move_constructible := true;
  is_copy_constructible := true;
  T_value := fun s => (inr 0%Z, s);
  T_copy := fun x s => (inr x, s);
  T_move := fun x s => (inr (x, x), s);
  T_copy_assign := fun _ x s => (inr x, s);
  T_copy_assign_self := fun x s => (inr x, s);
  T_move_assign := fun _ x s => (inr (x, x), s);
  T_dtor := fun _ s => s;
|}.

(** [std::runtime_error("Oops")], all that the probes throw. *)
Inductive runtime_error := Oops.

(** [struct Obj]: its non-static members, without the name, which the
    vector never reads and no member modelled here tests; and its static
    members, without the counts of [Obj(int)] and [Obj(int, std::string)]. *)
Record Obj := { throw_on_copy : bool; id : Z }.

Record Obj_statics := {
  default_construction_throw_countdown : Z;
  num_default_constructed : Z;
  num_copied : Z;
  num_moved : Z;
  num_destroyed : Z;
  num_assigned : Z;
  num_move_assigned : Z;
}.

Definition Obj_reset : Obj_statics := {|
  default_construction_throw_countdown := 0;
  num_default_constructed := 0; num_copied := 0; num_moved := 0;
  num_destroyed := 0; num_assigned := 0; num_move_assigned := 0;
|}.

Definition Obj_countdown (c : Z) (s : Obj_statics) : Obj_statics := {|
  default_construction_throw_countdown := c;
  num_default_constructed := num_default_constructed s;
  num_copied := num_copied s; num_moved := num_moved s;
  num_destroyed := num_destroyed s; num_assigned := num_assigned s;
  num_move_assigned := num_move_assigned s;
|}.

(** [Obj::Obj()] *)
Definition Obj_default (s : Obj_statics) : (runtime_error + Obj) * Obj_statics :=
  let c := default_construction_throw_countdown s in
  if (0 <? c)%Z && (c - 1 =? 0)%Z then (inl Oops, Obj_countdown (c - 1) s)
  else
    let s := if (0 <? c)%Z then Obj_countdown (c - 1) s else s in
    (inr {| throw_on_copy := false; id := 0 |},
     {| default_construction_throw_countdown := default_construction_throw_countdown s;
        num_default_constructed := num_default_constructed s + 1;
        num_copied := num_copied s; num_moved := num_moved s;
        num_destroyed := num_destroyed s; num_assigned := num_assigned s;
        num_move_assigned := num_move_assigned s |}).

(** [Obj::Obj(const Obj& other)] *)
Definition Obj_copy (other : Obj) (s : Obj_statics) : (runtime_error + Obj) * Obj_statics :=
  if throw_on_copy other then (inl Oops, s)
  else
    (inr {| throw_on_copy := false; id := id other |},
     {| default_construction_throw_countdown := default_construction_throw_countdown s;
        num_default_constructed := num_default_constructed s;
        num_copied := num_copied s + 1; num_moved := num_moved s;
        num_destroyed := num_destroyed s; num_assigned := num_assigned s;
        num_move_assigned := num_move_assigned s |}).

(** [Obj::Obj(Obj&& other) noexcept] *)
Definition Obj_move (other : Obj) (s : Obj_statics) :
    (runtime_error + Obj * Obj) * Obj_statics :=
  (inr ({| throw_on_copy := false; id := id other |}, other),
   {| default_construction_throw_countdown := default_construction_throw_countdown s;
      num_default_constructed := num_default_constructed s;
      num_copied := num_copied s; num_moved := num_moved s + 1;
      num_destroyed := num_destroyed s; num_assigned := num_assigned s;
      num_move_assigned := num_move_assigned s |}).

(** [Obj::operator=(const Obj& other)]; [same] is its test
    [this == &other], under which it does nothing. *)
Definition Obj_copy_assign (same : bool) (this other : Obj) (s : Obj_statics) :
    (runtime_error + Obj) * Obj_statics :=
  if same then (inr this, s)
  else
    (inr {| throw_on_copy := throw_on_copy this; id := id other |},
     {| default_construction_throw_countdown := default_construction_throw_countdown s;
        num_default_constructed := num_default_constructed s;
        num_copied := num_copied s; num_moved := num_moved s;
        num_destroyed := num_destroyed s; num_assigned := num_assigned s + 1;
        num_move_assigned := num_move_assigned s |}).

(** [Obj::operator=(Obj&& other) noexcept] *)
Definition Obj_move_assign (this other : Obj) (s : Obj_statics) :
    (runtime_error + Obj * Obj) * Obj_statics :=
  (inr ({| throw_on_copy := throw_on_copy this; id := id other |}, other),
   {| default_construction_throw_countdown := default_construction_throw_countdown s;
      num_default_constructed := num_default_constructed s;
      num_copied := num_copied s; num_moved := num_moved s;
      num_destroyed := num_destroyed s; num_assigned := num_assigned s;
      num_move_assigned := num_move_assigned s + 1 |}).

(** [Obj::~Obj()] *)
Definition Obj_dtor (this : Obj) (s : Obj_statics) : Obj_statics :=
  {| default_construction_throw_countdown := default_construction_throw_countdown s;
     num_default_constructed := num_default_constructed s;
     num_copied := num_copied s; num_moved := num_moved s;
     num_destroyed := num_destroyed s + 1; num_assigned := num_assigned s;
     num_move_assigned := num_move_assigned s |}.

(** [Obj::GetAliveObjectCount()] *)
Definition GetAliveObjectCount (s : Obj_statics) : Z :=
  num_default_constructed s + num_copied s + num_moved s - num_destroyed s.

Definition Obj_type : @ElemType Obj Obj_statics runtime_error := {|
  sizeof_T := 40;
  is_nothrow_move_constructible := true;
  is_copy_constructible := true;
  T_value := Obj_default;
  T_copy := Obj_copy;
  T_move := Obj_move;
  T_copy_assign := Obj_copy_assign false;
  T_copy_assign_self := fun this => Obj_copy_assign true this this;
  T_move_assign := Obj_move_assign;
  T_dtor := Obj_dtor;
|}.

(** [struct ThrowObj]: a live object is its cookie; the static members are
    the countdown and the two switches. *)
Record ThrowObj_statics := {
  ThrowObj_countdown : Z;
  ThrowObj_throw_on_copy : bool;
  throw_on_copy_val : bool;
}.

Definition DEFAULT_COOKIE : Z := 0xdeadbeef.

(** [ThrowObj::ThrowObj(const int&)] *)
Definition ThrowObj_of_int (s : ThrowObj_statics) : (runtime_error + Z) * ThrowObj_statics :=
  if throw_on_copy_val s then (inl Oops, s) else (inr DEFAULT_COOKIE, s).

Definition ThrowObj_type : @ElemType Z ThrowObj_statics runtime_error := {|
  sizeof_T := 4;
  is_nothrow_move_constructible := true;
  is_copy_constructible := true;
  T_value := fun s =>
    let c := ThrowObj_countdown s in
    let s' := {| ThrowObj_countdown := c - 1;
                 ThrowObj_throw_on_copy := ThrowObj_throw_on_copy s;
                 throw_on_copy_val := throw_on_copy_val s |} in
    if (0 <? c)%Z then
      if (c - 1 =? 0)%Z then (inl Oops, s') else (inr DEFAULT_COOKIE, s')
    else (inr DEFAULT_COOKIE, s);
  T_copy := fun _ s =>
    if ThrowObj_throw_on_copy s then (inl Oops, s) else (inr DEFAULT_COOKIE, s);
  T_move := fun x s => (inr (x, x), s);
  T_copy_assign := fun this _ s =>
    if ThrowObj_throw_on_copy s then (inl Oops, s) else (inr this, s);
  T_copy_assign_self := fun this s =>
    if ThrowObj_throw_on_copy s then (inl Oops, s) else (inr this, s);
  T_move_assign := fun _ x s => (inr (x, x), s);
  T_dtor := fun _ s => s;
|}.

(** [WithCopy<MoveNoexcept>]: an empty probe whose members only count; its
    move constructor is [noexcept(MoveNoexcept)].  The calls are in the
    trace. *)
Definition WithCopy (MoveNoexcept : bool) : @ElemType unit unit Empty_set := {|
  sizeof_T := 1;
  is_nothrow_move_constructible := MoveNoexcept;
  is_copy_constructible := true;
  T_value := fun s => (inr tt, s);
  T_copy := fun x s => (inr x, s);
  T_move := fun x s => (inr (x, x), s);
  T_copy_assign := fun _ x s => (inr x, s);
  T_copy_assign_self := fun x s => (inr x, s);
  T_move_assign := fun _ x s => (inr (x, x), s);
  T_dtor := fun _ s => s;
|}.

(** A programme with one vector, default constructed, as object [0]. *)
Definition start {T P : Type} (s : P) : @World T P :=
  {| vectors := [Vector_default]; heap := []; statics := s; trace := [] |}.

(** The state after a computation, and its result. *)
Definition after {T P X A : Type} (m : @M T P X A) (w : @World T P) : @World T P :=
  snd (m w).
Definition outcome {T P X A : Type} (m : @M T P X A) (w : @World T P) : result X A :=
  fst (m w).

(** The events a computation adds to the trace. *)
Definition events {T P X A : Type} (m : @M T P X A) (w : @World T P) : list event :=
  drop (length (trace w)) (trace (after m w)).

(** ** Scenarios *)

(** [Vector<int> v; v.PushBack(1); v.PushBack(2); v.PushBack(3);] *)
Definition push_int (x : Z) : @M Z unit Empty_set unit :=
  PushBack int_type debug 0 (ByCopy (External x)).
Definition ints_1 : @World Z unit := after (push_int 1) (start tt).
Definition ints_12 : @World Z unit := after (push_int 2) ints_1.
Definition ints_123 : @World Z unit := after (push_int 3) ints_12.

(** [Vector<int> v; v.Reserve(4); v.PushBack(1); v.PushBack(2);] *)
Definition ints_12_of_4 : @World Z unit :=
  after (push_int 2) (after (push_int 1) (after (Reserve int_type debug 0 4) (start tt))).

(** Two vectors of [int]: object [0] holds [[7]], object [1] holds [[8; 9]]. *)
Definition two_vectors : @World Z unit :=
  after (PushBack int_type debug 1 (ByCopy (External 9%Z)))
    (after (PushBack int_type debug 1 (ByCopy (External 8%Z)))
       (after (PushBack int_type debug 0 (ByCopy (External 7%Z)))
          {| vectors := [Vector_default; Vector_default]; heap := [];
             statics := tt; trace := [] |})).

(** [Vector<Obj> v(3); v[1].throw_on_copy = true;] *)
Definition Objs_second_throws : @World Obj Obj_statics :=
  after (put (X:=runtime_error) (cell 0 1) (Some {| throw_on_copy := true; id := 0 |}))
    (after (bind (Vector_sized Obj_type debug 3) declare)
       {| vectors := []; heap := []; statics := Obj_reset; trace := [] |}).

(** ** Postconditions *)

Section Postconditions.

Context {T P X : Type}.
Variable E : @ElemType T P X.
Variable Pl : Platform.

(** The element type has value semantics. *)
Definition value_semantics : Prop :=
  copy_faithful E ∧ move_faithful E ∧ copy_assign_faithful E ∧ move_assign_faithful E.

(** What [Insert] of the value [x] at offset [p] of the elements [xs] of the
    vector [v] has achieved when it returns: the vector owns [xs] with [x]
    put in at [p], and the iterator returned points there. *)
Definition inserted_at (this : nat) (v : Vector) (xs : list T) (p : nat) (x : T)
    (rw : result X ptr * @World T P) : Prop :=
  match rw with
  | (Ok it, w') => ∃ v',
      owns E Pl w' this v' (take p xs ++ x :: drop p xs) ∧
      size_ v' = size_ v + 1 ∧
      it = begin_ v' +ₚ Z.of_nat p ∧
      slot_at (heap w') it = Some (Some x)
  | (Throw _, _) => True
  | _ => False
  end.

(** What [Erase] at offset [p] has achieved when it returns: the vector owns
    [xs] without its element [p], and the iterator returned points to the
    element that followed it, or is [end()]. *)
Definition erased_at (this : nat) (v : Vector) (xs : list T) (p : nat)
    (rw : result X ptr * @World T P) : Prop :=
  match rw with
  | (Ok it, w') => ∃ v',
      owns E Pl w' this v' (take p xs ++ drop (S p) xs) ∧
      size_ v' + 1 = size_ v ∧
      it = begin_ v' +ₚ Z.of_nat p ∧
      match xs !! S p with
      | Some y => slot_at (heap w') it = Some (Some y)
      | None => it = end_ v'
      end
  | (Throw _, _) => True
  | _ => False
  end.

End Postconditions.

Section Growth.

Context {T P X : Type}.
Variable E : @ElemType T P X.
Variable Pl : Platform.

(** What an insertion into a full vector [v] has achieved when it returns:
    the capacity is [max(1, 2 * Capacity)], and the vector owns the
    elements [shape y], for the new element [y]. *)
Definition grown {A : Type} (this : nat) (v : Vector) (shape : T → list T)
    (rw : result X A * @World T P) : Prop :=
  match rw with
  | (Ok _, w') => ∃ v' y,
      owns E Pl w' this v' (shape y) ∧
      Capacity v' = Nat.max 1 (2 * Capacity v)
  | (Throw _, _) => True
  | _ => False
  end.

(** What the insertion at offset [p] of the vector's own element [q], of
    value [x0], has achieved when it returns: every slot holds a live
    object; the new element is [x0]; the element [q] is [x0] when it was
    copied from, and what the move constructor left of [x0] when it was
    moved from; the other elements are as they were. *)
Definition self_inserted {A : Type} (this : nat) (xs : list T) (q p : nat) (x0 : T)
    (moved : bool) (rw : result X A * @World T P) : Prop :=
  match rw with
  | (Ok _, w') => ∃ v' z,
      owns E Pl w' this v' (take p (<[q := z]> xs) ++ x0 :: drop p (<[q := z]> xs)) ∧
      if moved then ∃ s s' y, T_move E x0 s = (inr (y, z), s') else z = x0
  | (Throw _, _) => True
  | _ => False
  end.

End Growth.

(** ** The other members of [RawMemory<T>] and [Vector<T>] *)

Section Assignment.

Context {T P X : Type}.
Variable E : @ElemType T P X.
Variable Pl : Platform.

Local Open Scope cxx_scope.

(** [RawMemory::operator+]: the address [buffer_ + offset]; the address
    one past the last slot is allowed. *)
Definition RawMemory_plus (m : RawMemory) (offset : nat) : @M T P X ptr :=
  assert_ Pl (offset <=? capacity_ m) ;;
  ret (GetAddress m +ₚ Z.of_nat offset).

(** [RawMemory::Capacity] *)
Definition RawMemory_Capacity (m : RawMemory) : nat := capacity_ m.

(** [RawMemory::operator=(RawMemory&& rhs)]: the two objects as they are
    left. *)
Definition RawMemory_move_assign (this rhs : RawMemory) : RawMemory * RawMemory :=
  RawMemory_Swap this rhs.

(** [std::copy_n(first, count, result)] *)
Definition std_copy_n (first : ptr) (count : nat) (result : ptr) : @M T P X unit :=
  assign_forward (copy_assign E) first count result.

(** [Vector::operator=(const Vector& rhs)]; the local [new_vec] is a vector
    object of its own, destroyed at the end of its scope. *)
Definition Vector_copy_assign (this rhs : nat) : @M T P X unit :=
  v <- self this ;;
  r <- self rhs ;;
  if RawMemory_Capacity (data_ v) <? size_ r then
    new_vec <- (nv <- Vector_copy E Pl rhs ;; declare nv) ;;
    Swap this new_vec ;;
    Vector_delete E new_vec
  else
    (if size_ v <? size_ r then
       std_copy_n (GetAddress (data_ r)) (size_ v) (GetAddress (data_ v)) ;;
       uninitialized_copy_n E (GetAddress (data_ r) +ₚ Z.of_nat (size_ v))
         (size_t (Z.of_nat (size_ r) - Z.of_nat (size_ v)))
         (GetAddress (data_ v) +ₚ Z.of_nat (size_ v))
     else
       std_copy_n (GetAddress (data_ r)) (size_ r) (GetAddress (data_ v)) ;;
       destroy_n E (GetAddress (data_ v) +ₚ Z.of_nat (size_ r))
         (size_t (Z.of_nat (size_ v) - Z.of_nat (size_ r)))) ;;
    set_size this (size_ r).


End Assignment.

(** The events added to the trace between the worlds [w] and [w']. *)
Definition added {T P : Type} (w w' : @World T P) : list event :=
  drop (length (trace w)) (trace w').

(** The assignment [Erase] closes the gap with: the [if constexpr] of
    [Erase] tests the constructors. *)
Definition Erase_assignment {T P X : Type} (E : @ElemType T P X) : assign :=
  if is_nothrow_move_constructible E || negb (is_copy_constructible E)
  then MoveAssign else CopyAssign.

(** An element type that is relocated by copy and whose copy constructor
    throws on the objects that say so: a [bool] wrapped like [Obj], with the
    move constructor of [WithCopy<false>]. *)
Definition Fragile : @ElemType bool unit runtime_error := {|
  sizeof_T := 1;
  is_nothrow_move_constructible := false;
  is_copy_constructible := true;
  T_value := fun s => (inr false, s);
  T_copy := fun x s => if x then (inl Oops, s) else (inr x, s);
  T_move := fun x s => (inr (x, x), s);
  T_copy_assign := fun _ x s => (inr x, s);
  T_copy_assign_self := fun x s => (inr x, s);
  T_move_assign := fun _ x s => (inr (x, x), s);
  T_dtor := fun _ s => s;
|}.

(** A full vector of two [Fragile] objects, the second of which throws when
    copied. *)
Definition fragile_2 : @World bool unit :=
  after (PushBack Fragile debug 0 (ByMove (External true)))
    (after (PushBack Fragile debug 0 (ByMove (External false))) (start tt)).

(** [Vector<Obj> v(1);] with the countdown of the default constructor set
    to throw at once. *)
Definition Obj_1_armed : @World Obj Obj_statics :=
  let w := after (bind (Vector_sized Obj_type debug 1) declare)
             {| vectors := []; heap := []; statics := Obj_reset; trace := [] |} in
  with_statics (Obj_countdown 1 (statics w)) w.

(** [Obj::default_construction_throw_countdown = 3;] in a programme without
    vectors, as in Test2 of main.cpp with a smaller number. *)
Definition Obj_armed_3 : @World Obj Obj_statics :=
  {| vectors := []; heap := []; statics := Obj_countdown 3 Obj_reset; trace := [] |}.

(** A platform whose allocator refuses more than eight bytes. *)
Definition tiny : Platform := {| NDEBUG := false; heap_limit := 8 |}.

(** What the copy assignment operator of the element type says about one
    assignment: the target [d] becomes [y] when [x] is assigned to it. *)
Definition copy_assigned {T P X : Type} (E : @ElemType T P X) (d x y : T) : Prop :=
  ∃ s s', T_copy_assign E d x s = (inr y, s').

(** The same for the assignment of an object to itself: [x] becomes [y]. *)
Definition self_assigned {T P X : Type} (E : @ElemType T P X) (x y : T) : Prop :=
  ∃ s s', T_copy_assign_self E x s = (inr y, s').

(** An object assigned to itself keeps its value. *)
Definition copy_assign_self_faithful {T P X : Type} (E : @ElemType T P X) : Prop :=
  ∀ x s y s', T_copy_assign_self E x s = (inr y, s') → y = x.

(** The two vectors do not name the same block. *)
Definition distinct_blocks (v r : Vector) : Prop :=
  ∀ a, buffer_ (data_ v) = Some a → buffer_ (data_ r) ≠ Some a.

(** The element operations of a copy assignment that reuses the storage of
    a vector of [m] elements for [n] elements: assignments over the common
    prefix, then constructions of the elements beyond it or destructions of
    the elements no longer needed. *)
Definition reuse_events (buf : option nat) (m n : nat) : list event :=
  match buf with
  | Some a =>
      assignments CopyAssign (cells a 0 (m `min` n)) ++
      constructions CopyCtor a m (n - m) ++ destructions a n (m - n)
  | None => []
  end.

(** [Vector<Obj> v(3); v[1].throw_on_copy = true; Vector<Obj> u;] *)
Definition Objs_and_empty : @World Obj Obj_statics :=
  after (declare (X:=runtime_error) Vector_default) Objs_second_throws.

(** An element type with a copy constructor and a copy assignment only,
    which serve for moves too, and whose assignment throws on the sources
    that say so: a [bool] wrapped like [Obj]. *)
Definition Brittle : @ElemType bool unit runtime_error := {|
  sizeof_T := 1;
  is_nothrow_move_constructible := false;
  is_copy_constructible := true;
  T_value := fun s => (inr false, s);
  T_copy := fun x s => (inr x, s);
  T_move := fun x s => (inr (x, x), s);
  T_copy_assign := fun _ x s => if x then (inl Oops, s) else (inr x, s);
  T_copy_assign_self := fun x s => if x then (inl Oops, s) else (inr x, s);
  T_move_assign := fun _ x s => if x then (inl Oops, s) else (inr (x, x), s);
  T_dtor := fun _ s => s;
|}.

(** Two vectors of [Brittle] objects: object [0] holds [[true; true]],
    object [1] holds [[false; true]]. *)
Definition brittle_pair : @World bool unit :=
  after (PushBack Brittle debug 1 (ByMove (External true)))
    (after (PushBack Brittle debug 1 (ByMove (External false)))
      (after (PushBack Brittle debug 0 (ByMove (External true)))
        (after (PushBack Brittle debug 0 (ByMove (External true)))
          {| vectors := [Vector_default; Vector_default]; heap := [];
             statics := tt; trace := [] |}))).

(** Two vectors of [Fragile] objects: object [0] holds [[false]], object [1]
    holds [[false; true]]. *)
Definition fragile_pair : @World bool unit :=
  after (PushBack Fragile debug 1 (ByMove (External true)))
    (after (PushBack Fragile debug 1 (ByMove (External false)))
      (after (PushBack Fragile debug 0 (ByMove (External false)))
        {| vectors := [Vector_default; Vector_default]; heap := [];
           statics := tt; trace := [] |})).

(** A full vector of two [Fragile] objects, both of which throw when
    copied: [v.Reserve(2)] and two [PushBack]s of rvalues. *)
Definition fragile_tt : @World bool unit :=
  after (PushBack Fragile debug 0 (ByMove (External true)))
    (after (PushBack Fragile debug 0 (ByMove (External true)))
      (after (Reserve Fragile debug 0 2) (start tt))).

(** The operations of an [Emplace] at offset [p] into a full vector that
    fails when the copy constructor of the element of index [k] throws: the
    allocation of the new block [b], the construction of the new element in
    its slot [p], the copies made, the destruction of those the failing
    [std::uninitialized_copy_n] has made itself, and the deallocation. *)
Definition Emplace_rollback (new_element : ctor) (b cap p k : nat) : list event :=
  [EvNew b cap; EvConstruct new_element (InHeap (cell b p))] ++
  (if k <? p then constructions CopyCtor b 0 k ++ destructions b 0 k
   else constructions CopyCtor b 0 p ++ constructions CopyCtor b (S p) (k - p) ++
        destructions b (S p) (k - p)) ++
  [EvDelete b].

(** A full vector of four [Brittle] objects, the second and the last of
    which throw when assigned from. *)
Definition brittle_4 : @World bool unit :=
  after (PushBack Brittle debug 0 (ByMove (External true)))
    (after (PushBack Brittle debug 0 (ByMove (External false)))
      (after (PushBack Brittle debug 0 (ByMove (External true)))
        (after (PushBack Brittle debug 0 (ByMove (External false))) (start tt)))).

(** A vector of three [Brittle] objects in a block of four slots, the
    second and the last of which throw when assigned from. *)
Definition brittle_3 : @World bool unit :=
  after (PushBack Brittle debug 0 (ByMove (External true)))
    (after (PushBack Brittle debug 0 (ByMove (External true)))
      (after (PushBack Brittle debug 0 (ByMove (External false))) (start tt))).

(** ** Basic facts *)

Section Basics.

Context {T P X : Type}.
Variable E : @ElemType T P X.
Variable Pl : Platform.
Abbreviation World := (@World T P).
Abbreviation M := (@M T P X).
Implicit Types (w : World) (h : list (option (list (option T)))).
Implicit Types (b : list (option T)) (a c i j n o : nat) (xs ys zs : list T).

Lemma cell_add a i k : cell a i +ₚ Z.of_nat k = cell a (i + k).
Proof. unfold cell, ptr_add; simpl. f_equal. lia. Qed.

Lemma cell_succ a i : cell a i +ₚ 1 = cell a (S i).
Proof. unfold cell, ptr_add; simpl. f_equal. lia. Qed.

Lemma cell_pred a i : cell a (S i) +ₚ -1 = cell a i.
Proof. unfold cell, ptr_add; simpl. f_equal. lia. Qed.

Lemma size_t_small (z : Z) : (0 <= z < 2 ^ 64)%Z → size_t z = Z.to_nat z.
Proof. intros Hz. unfold size_t. rewrite Z.mod_small by lia. reflexivity. Qed.

Lemma size_t_of_nat n : (Z.of_nat n < 2 ^ 64)%Z → size_t (Z.of_nat n) = n.
Proof. intros Hn. rewrite size_t_small by lia. apply Nat2Z.id. Qed.

Lemma block_at_lt h a b : block_at h a = Some b → a < length h.
Proof.
  unfold block_at. destruct (h !! a) as [[?|]|] eqn:Ha; [|done..].
  intros _. by apply lookup_lt_Some in Ha.
Qed.

Lemma block_at_insert_eq h a ob : a < length h → block_at (<[a := ob]> h) a = ob.
Proof.
  intros Hlt. unfold block_at. rewrite list_lookup_insert_eq by done. by destruct ob.
Qed.

Lemma block_at_insert_ne h a c ob : a ≠ c → block_at (<[a := ob]> h) c = block_at h c.
Proof. intros Hne. unfold block_at. by rewrite list_lookup_insert_ne. Qed.

Lemma block_at_app_l h k a : a < length h → block_at (h ++ k) a = block_at h a.
Proof. intros Hlt. unfold block_at. by rewrite lookup_app_l. Qed.

Lemma block_at_app_new h ob : block_at (h ++ [ob]) (length h) = ob.
Proof.
  unfold block_at. rewrite lookup_app_r by lia. rewrite Nat.sub_diag. simpl. by destruct ob.
Qed.

Lemma block_at_length h a : block_at h (length h + a) = None.
Proof. unfold block_at. rewrite lookup_ge_None_2; [done | lia]. Qed.

Lemma slot_at_cell h a i b : block_at h a = Some b → slot_at h (cell a i) = b !! i.
Proof.
  intros Hb. unfold slot_at, cell; simpl. rewrite Hb.
  rewrite Nat2Z.id. by rewrite (proj2 (Z.leb_le 0 (Z.of_nat i))) by lia.
Qed.

Lemma set_slot_cell h a i b s :
  block_at h a = Some b → set_slot h (cell a i) s = <[a := Some (<[i := s]> b)]> h.
Proof. intros Hb. unfold set_slot, cell; simpl. by rewrite Hb, Nat2Z.id. Qed.

Lemma cells_snoc a n : ∀ o, cells a o (S n) = cells a o n ++ [cell a (o + n)].
Proof.
  induction n as [|n IH]; intros o.
  - simpl. by rewrite Nat.add_0_r.
  - change (cells a o (S (S n))) with (cell a o :: cells a (S o) (S n)).
    rewrite (IH (S o)). simpl. by rewrite Nat.add_succ_r.
Qed.

Lemma length_cells a n : ∀ o, length (cells a o n) = n.
Proof. induction n as [|n IH]; intros o; simpl; [done | by rewrite IH]. Qed.

Lemma alive_app (t u : list event) : alive (t ++ u) = (alive t + alive u)%Z.
Proof.
  induction t as [|e t IH]; simpl; [done|].
  destruct e; rewrite IH; lia.
Qed.

Lemma alive_constructions how a n : ∀ o, alive (constructions how a o n) = Z.of_nat n.
Proof.
  induction n as [|n IH]; intros o; [done|].
  unfold constructions in *. simpl cells. rewrite fmap_cons. simpl alive. rewrite IH. lia.
Qed.

Lemma alive_destructions a n : ∀ o, alive (destructions a o n) = (- Z.of_nat n)%Z.
Proof.
  induction n as [|n IH]; intros o; [done|].
  unfold destructions in *. simpl cells. rewrite fmap_cons. simpl alive. rewrite IH. lia.
Qed.

Lemma alive_assignments how ps : alive (assignments how ps) = 0%Z.
Proof. induction ps as [|p ps IH]; simpl; [done | by rewrite IH]. Qed.

(** *** Running the primitives *)

Lemma load_cell w a i b x :
  block_at (heap w) a = Some b → b !! i = Some (Some x) →
  load (X:=X) (cell a i) w = (Ok x, w).
Proof. intros Hb Hi. unfold load. by rewrite (slot_at_cell _ _ _ _ Hb), Hi. Qed.

Lemma put_cell w a i b s :
  block_at (heap w) a = Some b → i < length b →
  put (X:=X) (cell a i) s w =
    (Ok tt, mkWorld (vectors w) (<[a := Some (<[i := s]> b)]> (heap w))
              (statics w) (trace w)).
Proof.
  intros Hb Hi. unfold put. rewrite (slot_at_cell _ _ _ _ Hb).
  destruct (lookup_lt_is_Some_2 b i Hi) as [s0 ->].
  unfold with_heap. by rewrite (set_slot_cell _ _ _ _ _ Hb).
Qed.

Lemma destroy_at_cell w a i b x :
  block_at (heap w) a = Some b → b !! i = Some (Some x) →
  destroy_at E (cell a i) w =
    (Ok tt, mkWorld (vectors w) (<[a := Some (<[i := None]> b)]> (heap w))
              (T_dtor E x (statics w)) (trace w ++ [EvDestroy (InHeap (cell a i))])).
Proof.
  intros Hb Hi. unfold destroy_at, bind.
  rewrite (load_cell _ _ _ _ _ Hb Hi). simpl.
  erewrite put_cell; [| exact Hb | by eapply lookup_lt_Some].
  reflexivity.
Qed.

Lemma destroy_n_live a : ∀ ys pre post w,
  block_at (heap w) a = Some (pre ++ (Some <$> ys) ++ post) →
  ∃ s', destroy_n E (cell a (length pre)) (length ys) w =
    (Ok tt, mkWorld (vectors w)
              (<[a := Some (pre ++ replicate (length ys) None ++ post)]> (heap w))
              s' (trace w ++ destructions a (length pre) (length ys))).
Proof.
  induction ys as [|y ys IH]; intros pre post w Hb.
  - exists (statics w). simpl. unfold ret. f_equal. destruct w; simpl in *.
    f_equal.
    + symmetry. apply list_insert_id. unfold block_at in Hb.
      destruct (heap0 !! a) as [[?|]|]; by simplify_eq.
    + by rewrite app_nil_r.
  - simpl length. simpl destroy_n. unfold bind.
    erewrite destroy_at_cell; [| exact Hb | by apply list_lookup_middle].
    rewrite cell_succ.
    set (w1 := mkWorld _ _ _ _).
    destruct (IH (pre ++ [None]) post w1) as [s' Hrun].
    { unfold w1; simpl. rewrite block_at_insert_eq by (by eapply block_at_lt).
      f_equal. rewrite insert_app_r_alt by lia. rewrite Nat.sub_diag. simpl.
      by rewrite <- app_assoc. }
    rewrite length_app in Hrun. simpl in Hrun. rewrite Nat.add_1_r in Hrun.
    rewrite Hrun. exists s'. unfold w1; simpl. f_equal. f_equal.
    + rewrite list_insert_insert_eq. by rewrite <- app_assoc.
    + by rewrite <- app_assoc.
Qed.

Lemma insert_block_id h a b : block_at h a = Some b → <[a := Some b]> h = h.
Proof.
  intros Hb. apply list_insert_id. unfold block_at in Hb.
  destruct (h !! a) as [[?|]|]; by simplify_eq.
Qed.

Lemma slot_at_set_slot_is_Some h p q s :
  is_Some (slot_at h q) → is_Some (slot_at (set_slot h p s) q) .
Proof.
  unfold slot_at, set_slot. destruct (base q) as [c|]; [|done].
  destruct (base p) as [a|]; [|done].
  destruct (block_at h c) as [bc|] eqn:Hc; [|by intros [? ?]].
  destruct (block_at h a) as [ba|] eqn:Ha; [|by rewrite Hc].
  destruct (decide (a = c)) as [->|Hne].
  - rewrite block_at_insert_eq by (by eapply block_at_lt).
    destruct (0 <=? off q)%Z; [|done].
    intros Hq. apply lookup_lt_is_Some. rewrite length_insert.
    apply lookup_lt_is_Some. by simplify_eq.
  - by rewrite block_at_insert_ne, Hc.
Qed.

Lemma made_block h arg y h1 c bc :
  made E h arg y h1 → block_at h c = Some bc →
  ∃ bc1, block_at h1 c = Some bc1 ∧ length bc1 = length bc.
Proof.
  intros Hm Hc. destruct Hm; try by eauto.
  unfold set_slot. destruct (base q) as [a|]; [|by eauto].
  destruct (block_at h a) as [ba|] eqn:Ha; [|by eauto].
  destruct (decide (a = c)) as [->|Hne].
  - rewrite block_at_insert_eq by (by eapply block_at_lt).
    eexists; split; [done|]. rewrite length_insert. congruence.
  - rewrite block_at_insert_ne by done. eauto.
Qed.

Lemma made_length h arg y h1 : made E h arg y h1 → length h1 = length h.
Proof.
  intros Hm. destruct Hm; try done.
  unfold set_slot. destruct (base q); [|done].
  destruct (block_at h n); [|done]. by rewrite length_insert.
Qed.

Lemma make_cases arg w r w' :
  arg_ok (heap w) arg → make E arg w = (r, w') →
  vectors w' = vectors w ∧ trace w' = trace w ∧
  match r with
  | Ok y => made E (heap w) arg y (heap w')
  | Throw e => heap w' = heap w ∧ ∃ x, e = thrown x ∧ threw E (heap w) arg x
  | _ => False
  end.
Proof.
  intros Hok. destruct arg as [[x|q]|[x|q]| |mk]; simpl in *.
  - unfold member. destruct (T_copy E x (statics w)) as [[x'|y] s'] eqn:Hc;
      intros [= <- <-]; simpl; repeat split; eauto using made, threw.
  - destruct Hok as [x Hq]. unfold bind, load, member. rewrite Hq.
    destruct (T_copy E x (statics w)) as [[x'|y] s'] eqn:Hc;
      intros [= <- <-]; simpl; repeat split; eauto using made, threw.
  - unfold bind, member, ret.
    destruct (T_move E x (statics w)) as [[x'|[y z]] s'] eqn:Hc;
      intros [= <- <-]; simpl; repeat split; eauto using made, threw.
  - destruct Hok as [x Hq]. unfold bind, load, member, put, ret. rewrite Hq.
    destruct (T_move E x (statics w)) as [[x'|[y z]] s'] eqn:Hc; simpl.
    + intros [= <- <-]; simpl; repeat split; eauto using made, threw.
    + rewrite Hq. intros [= <- <-]; simpl; repeat split; eauto using made, threw.
  - unfold member. destruct (T_value E (statics w)) as [[x'|y] s'] eqn:Hc;
      intros [= <- <-]; simpl; repeat split; eauto using made, threw.
  - unfold member. destruct (mk (statics w)) as [[x'|y] s'] eqn:Hc;
      intros [= <- <-]; simpl; repeat split; eauto using made, threw.
Qed.

Lemma construct_at_cases (b : nat) i arg w r w' (db : list (option T)) :
  arg_ok (heap w) arg →
  block_at (heap w) b = Some db → i < length db →
  construct_at E (cell b i) arg w = (r, w') →
  vectors w' = vectors w ∧
  match r with
  | Ok _ => ∃ y h1 db1,
      made E (heap w) arg y h1 ∧ block_at h1 b = Some db1 ∧
      heap w' = <[b := Some (<[i := Some y]> db1)]> h1 ∧
      trace w' = trace w ++ [EvConstruct (ctor_of arg) (InHeap (cell b i))]
  | Throw e =>
      heap w' = heap w ∧ trace w' = trace w ∧
      ∃ x, e = thrown x ∧ threw E (heap w) arg x
  | _ => False
  end.
Proof.
  intros Hok Hb Hi. unfold construct_at, bind.
  destruct (make E arg w) as [r1 w1] eqn:Hmake.
  destruct (make_cases _ _ _ _ Hok Hmake) as (Hv & Ht & Hr).
  destruct r1 as [y|e| |]; try done.
  - destruct (made_block _ _ _ _ _ _ Hr Hb) as (db1 & Hb1 & Hlen).
    erewrite put_cell; [| exact Hb1 | lia]. unfold log, with_event; simpl.
    intros [= <- <-]; simpl. split; [done|].
    exists y, (heap w1), db1. by rewrite Ht.
  - intros [= <- <-]. destruct Hr as (Hh & x & -> & Hx). eauto 10.
Qed.

End Basics.

(** ** The element-wise algorithms *)

Section Algorithms.

Context {T P X : Type}.
Variable E : @ElemType T P X.
Variable Pl : Platform.
Implicit Types (w : @World T P) (h : list (option (list (option T)))).
Implicit Types (a b c i j n o : nat) (xs ys zs : list T).

Lemma insert_insert_pair {A} (l : list A) a b A1 B1 A2 B2 :
  a ≠ b →
  <[b := B2]> (<[a := A2]> (<[b := B1]> (<[a := A1]> l))) = <[b := B2]> (<[a := A2]> l).
Proof.
  intros Hne. rewrite (list_insert_insert_ne _ a b) by done.
  by rewrite list_insert_insert_eq, list_insert_insert_eq.
Qed.

Lemma lookup_mid3 {A} {B} (f : B → A) (l1 l3 : list A) (l2 : list B) x n :
  n = length l1 + length l2 → (l1 ++ (f <$> l2) ++ x :: l3) !! n = Some x.
Proof.
  intros ->. rewrite app_assoc. apply list_lookup_middle.
  by rewrite length_app, length_fmap.
Qed.

Lemma insert_mid3 {A} {B} (f : B → A) (l1 l3 : list A) (l2 : list B) x y n :
  n = length l1 + length l2 →
  <[n := y]> (l1 ++ (f <$> l2) ++ x :: l3) = l1 ++ (f <$> l2) ++ y :: l3.
Proof.
  intros ->. rewrite insert_app_r. f_equal.
  rewrite <- (length_fmap f l2), <- (Nat.add_0_r (length (f <$> l2))).
  by rewrite insert_app_r.
Qed.

Lemma length_mid3 {A} {B} (f : B → A) (l1 l3 : list A) (l2 : list B) x n :
  n = length l1 + length l2 → n < length (l1 ++ (f <$> l2) ++ x :: l3).
Proof. intros ->. rewrite !length_app, length_fmap. simpl. lia. Qed.

Lemma ctor_of_reloc_arg mv q :
  ctor_of (reloc_arg (T:=T) (P:=P) (X:=X) mv q) = reloc_ctor mv.
Proof. by destruct mv. Qed.

Lemma reloc_made mv a i sb x h y h1 :
  block_at h a = Some sb → sb !! i = Some (Some x) →
  made E h (reloc_arg mv (cell a i)) y h1 →
  ∃ z, relocated E mv x y z ∧ h1 = <[a := Some (<[i := Some z]> sb)]> h.
Proof.
  intros Ha Hi Hm. destruct mv; simpl in Hm.
  - inversion Hm as [ | | | q x1 s s' y1 z Hs Hc | | ]; subst.
    rewrite (slot_at_cell _ _ _ _ Ha), Hi in Hs. simplify_eq.
    eexists. split; [simpl; eauto|]. by apply set_slot_cell.
  - inversion Hm as [ | q x1 s s' y1 Hs Hc | | | | ]; subst.
    rewrite (slot_at_cell _ _ _ _ Ha), Hi in Hs. simplify_eq.
    eexists. split; [simpl; eauto|].
    rewrite (list_insert_id sb) by done. symmetry. by apply insert_block_id.
Qed.

Lemma reloc_loop mv a b sp0 dp0 : a ≠ b →
  ∀ xs moved built dm sq dq w r w',
  length moved = length built → length dm = length xs →
  block_at (heap w) a = Some (sp0 ++ (Some <$> moved) ++ (Some <$> xs) ++ sq) →
  block_at (heap w) b = Some (dp0 ++ (Some <$> built) ++ dm ++ dq) →
  uninitialized_loop E
    (λ j, construct_at E (cell b (length dp0) +ₚ Z.of_nat j)
            (reloc_arg mv (cell a (length sp0) +ₚ Z.of_nat j)))
    (cell b (length dp0)) (length built) (length xs) w = (r, w') →
  vectors w' = vectors w ∧
  match r with
  | Ok _ => ∃ ys zs,
      Forall3 (relocated E mv) xs ys zs ∧
      heap w' =
        <[b := Some (dp0 ++ (Some <$> built) ++ (Some <$> ys) ++ dq)]>
          (<[a := Some (sp0 ++ (Some <$> moved) ++ (Some <$> zs) ++ sq)]> (heap w)) ∧
      trace w' = trace w ++
        constructions (reloc_ctor mv) b (length dp0 + length built) (length xs)
  | Throw e => ∃ k x0 x ys zs,
      xs !! k = Some x0 ∧ e = thrown x ∧ reloc_threw E mv x0 x ∧
      Forall3 (relocated E mv) (take k xs) ys zs ∧
      heap w' =
        <[b := Some (dp0 ++ replicate (length built + k) None ++ drop k dm ++ dq)]>
          (<[a := Some (sp0 ++ (Some <$> moved) ++ (Some <$> zs) ++
                        (Some <$> drop k xs) ++ sq)]> (heap w)) ∧
      trace w' = trace w ++
        constructions (reloc_ctor mv) b (length dp0 + length built) k ++
        destructions b (length dp0) (length built + k)
  | _ => False
  end.
Proof.
  intros Hne. induction xs as [|x xs IH]; intros moved built dm sq dq w r w' Hmb Hdm Ha Hb.
  - simpl. intros [= <- <-]. split; [done|]. exists [], []. split; [constructor|].
    destruct dm; [|done]. simpl in *.
    rewrite (insert_block_id _ _ _ Ha), (insert_block_id _ _ _ Hb).
    unfold constructions. simpl. by rewrite app_nil_r.
  - destruct dm as [|d dm]; [done|]. simpl in Hdm.
    change (block_at (heap w) a =
      Some (sp0 ++ (Some <$> moved) ++ Some x :: (Some <$> xs) ++ sq)) in Ha.
    change (block_at (heap w) b =
      Some (dp0 ++ (Some <$> built) ++ d :: dm ++ dq)) in Hb.
    simpl length. simpl uninitialized_loop. unfold bind at 1, try_catch.
    rewrite !cell_add.
    destruct (construct_at E _ _ w) as [r1 w1] eqn:Hc.
    eapply construct_at_cases in Hc as (Hv1 & Hr1);
      [ | | exact Hb | by apply length_mid3 ].
    2:{ simpl. destruct mv; simpl; exists x;
        rewrite (slot_at_cell _ _ _ _ Ha); apply lookup_mid3; lia. }
    destruct r1 as [[]|e| |]; try done.
    + destruct Hr1 as (y & h1 & db1 & Hm & Hb1 & Hh1 & Ht1).
      eapply reloc_made in Hm as (z & Hrel & Heq); [| exact Ha |].
      2:{ apply lookup_mid3; lia. }
      subst h1.
      rewrite block_at_insert_ne in Hb1 by done. rewrite Hb in Hb1. simplify_eq.
      rewrite (insert_mid3 _ sp0), (insert_mid3 _ dp0) in Hh1 by lia.
      intros Hloop.
      specialize (IH (moved ++ [z]) (built ++ [y]) dm sq dq w1 r w').
      rewrite !length_app in IH. simpl in IH. rewrite !Nat.add_1_r in IH.
      destruct IH as (Hv & Hr); [lia | lia | | | exact Hloop | ].
      { rewrite Hh1. rewrite block_at_insert_ne by done.
        rewrite block_at_insert_eq by (by eapply block_at_lt).
        by rewrite fmap_app, <- !app_assoc. }
      { rewrite Hh1. rewrite block_at_insert_eq.
        - by rewrite fmap_app, <- !app_assoc.
        - rewrite length_insert. by eapply block_at_lt. }
      split; [congruence|].
      destruct r as [[]|e| |]; try done.
      * destruct Hr as (ys & zs & HF & Hh & Ht).
        exists (y :: ys), (z :: zs). split; [by constructor|].
        rewrite Hh, Hh1, Ht, Ht1. split.
        -- rewrite insert_insert_pair by done.
           rewrite !fmap_app, <- !app_assoc. reflexivity.
        -- rewrite <- app_assoc. f_equal. unfold constructions. simpl.
           by rewrite ctor_of_reloc_arg, Nat.add_succ_r.
      * destruct Hr as (k & x0 & x' & ys & zs & Hk & -> & Hth & HF & Hh & Ht).
        exists (S k), x0, x', (y :: ys), (z :: zs).
        split; [done|]. split; [done|]. split; [done|].
        split; [by constructor|].
        rewrite Hh, Hh1, Ht, Ht1. split.
        -- rewrite insert_insert_pair by done.
           rewrite !fmap_app, <- !app_assoc. simpl.
           rewrite !Nat.add_succ_r. reflexivity.
        -- rewrite <- app_assoc. f_equal. unfold constructions. simpl.
           by rewrite ctor_of_reloc_arg, !Nat.add_succ_r.
    + destruct Hr1 as (Hh1 & Ht1 & x' & -> & Hth).
      unfold bind.
      destruct (destroy_n_live E b built dp0 (d :: dm ++ dq) w1) as [s' Hd].
      { by rewrite Hh1. }
      rewrite Hd. unfold throw. intros [= <- <-]. simpl. split; [done|].
      exists 0, x, x', [], []. split; [done|]. split; [done|]. split.
      { destruct mv; simpl in Hth;
          [ inversion Hth as [ | | | q x1 s1 s2 x2 Hs Hc | | ]
          | inversion Hth as [ | q x1 s1 s2 x2 Hs Hc | | | | ] ]; subst;
          rewrite (slot_at_cell _ _ _ _ Ha), lookup_mid3 in Hs by lia;
          simplify_eq; red; eauto. }
      split; [constructor|].
      rewrite Hh1, Ht1, Nat.add_0_r. simpl. split.
      * f_equal. symmetry. by apply insert_block_id.
      * unfold constructions; simpl. done.
Qed.


Lemma value_loop b dp0 : ∀ dm built dq w r w',
  block_at (heap w) b = Some (dp0 ++ (Some <$> built) ++ dm ++ dq) →
  uninitialized_loop E
    (λ j, construct_at E (cell b (length dp0) +ₚ Z.of_nat j) NoArgs)
    (cell b (length dp0)) (length built) (length dm) w = (r, w') →
  vectors w' = vectors w ∧
  match r with
  | Ok _ => ∃ ys,
      length ys = length dm ∧ Forall (value_initialised E) ys ∧
      heap w' = <[b := Some (dp0 ++ (Some <$> built) ++ (Some <$> ys) ++ dq)]> (heap w) ∧
      trace w' = trace w ++
        constructions ValueInit b (length dp0 + length built) (length dm)
  | Throw e => ∃ k x,
      k < length dm ∧ e = thrown x ∧ threw E (heap w) NoArgs x ∧
      heap w' =
        <[b := Some (dp0 ++ replicate (length built + k) None ++ drop k dm ++ dq)]> (heap w) ∧
      trace w' = trace w ++
        constructions ValueInit b (length dp0 + length built) k ++
        destructions b (length dp0) (length built + k)
  | _ => False
  end.
Proof.
  induction dm as [|d dm IH]; intros built dq w r w' Hb.
  - simpl. intros [= <- <-]. split; [done|]. exists []. split; [done|].
    split; [constructor|].
    simpl in *. rewrite (insert_block_id _ _ _ Hb).
    unfold constructions. simpl. by rewrite app_nil_r.
  - change (block_at (heap w) b =
      Some (dp0 ++ (Some <$> built) ++ d :: dm ++ dq)) in Hb.
    simpl length. simpl uninitialized_loop. unfold bind at 1, try_catch.
    rewrite !cell_add.
    destruct (construct_at E _ _ w) as [r1 w1] eqn:Hc.
    eapply construct_at_cases in Hc as (Hv1 & Hr1);
      [ | done | exact Hb | by apply length_mid3 ].
    destruct r1 as [[]|e| |]; try done.
    + destruct Hr1 as (y & h1 & db1 & Hm & Hb1 & Hh1 & Ht1).
      inversion Hm; subst. rewrite Hb in Hb1. simplify_eq.
      rewrite (insert_mid3 _ dp0) in Hh1 by lia.
      intros Hloop.
      specialize (IH (built ++ [y]) dq w1 r w').
      rewrite !length_app in IH. simpl in IH. rewrite !Nat.add_1_r in IH.
      destruct IH as (Hv & Hr); [ | exact Hloop | ].
      { rewrite Hh1. rewrite block_at_insert_eq by (by eapply block_at_lt).
        by rewrite fmap_app, <- !app_assoc. }
      split; [congruence|].
      destruct r as [[]|e| |]; try done.
      * destruct Hr as (ys & Hlen & Hval & Hh & Ht).
        exists (y :: ys). split; [simpl; lia|].
        split; [constructor; [unfold value_initialised; eauto | done]|].
        rewrite Hh, Hh1, Ht, Ht1. split.
        -- rewrite list_insert_insert_eq.
           rewrite !fmap_app, <- !app_assoc. reflexivity.
        -- rewrite <- app_assoc. f_equal. unfold constructions. simpl.
           by rewrite Nat.add_succ_r.
      * destruct Hr as (k & x' & Hk & -> & Hth & Hh & Ht).
        exists (S k), x'. split; [lia|]. split; [done|]. split.
        { inversion Hth; subst. eauto using threw. }
        rewrite Hh, Hh1, Ht, Ht1. split.
        -- rewrite list_insert_insert_eq. simpl. by rewrite !Nat.add_succ_r.
        -- rewrite <- app_assoc. f_equal. unfold constructions. simpl.
           by rewrite !Nat.add_succ_r.
    + destruct Hr1 as (Hh1 & Ht1 & x' & -> & Hth).
      unfold bind.
      destruct (destroy_n_live E b built dp0 (d :: dm ++ dq) w1) as [s' Hd].
      { by rewrite Hh1. }
      rewrite Hd. unfold throw. intros [= <- <-]. simpl. split; [done|].
      exists 0, x'. split; [lia|]. split; [done|]. split; [done|].
      rewrite Hh1, Ht1, Nat.add_0_r. simpl. split; [done|].
      unfold constructions; simpl. done.
Qed.

Lemma ptr_eqb_cell_ne a b i j : a ≠ b ∨ i ≠ j → ptr_eqb (cell a i) (cell b j) = false.
Proof.
  intros H. unfold ptr_eqb, cell. simpl.
  destruct (decide (a = b)) as [->|Hab].
  - rewrite bool_decide_eq_true_2 by done. simpl. apply Z.eqb_neq.
    destruct H as [H|H]; [done|lia].
  - rewrite bool_decide_eq_false_2 by congruence. done.
Qed.

Lemma ptr_eqb_refl (p : ptr) : ptr_eqb p p = true.
Proof.
  unfold ptr_eqb. rewrite bool_decide_eq_true_2 by done. simpl. apply Z.eqb_refl.
Qed.

Lemma assign_cases mv a i j blk d x w r w' :
  i ≠ j →
  block_at (heap w) a = Some blk →
  blk !! i = Some (Some d) → blk !! j = Some (Some x) →
  assign_via E mv (cell a i) (cell a j) w = (r, w') →
  vectors w' = vectors w ∧
  match r with
  | Ok _ => ∃ y z,
      assigned E mv x y z ∧
      heap w' = <[a := Some (<[i := Some y]> (<[j := Some z]> blk))]> (heap w) ∧
      trace w' = trace w ++ [EvAssign (assign_kind mv) (InHeap (cell a i))]
  | Throw e => heap w' = heap w ∧ trace w' = trace w
  | _ => False
  end.
Proof.
  intros Hij Ha Hi Hj. destruct mv; simpl.
  - unfold move_assign, bind.
    rewrite (load_cell _ _ _ _ _ Ha Hi), (load_cell _ _ _ _ _ Ha Hj).
    unfold member.
    destruct (T_move_assign E d x (statics w)) as [[x'|[y z]] s'] eqn:Hm.
    + intros [= <- <-]. done.
    + simpl. erewrite put_cell; [| exact Ha | by eapply lookup_lt_Some].
      erewrite put_cell; simpl;
        [| apply block_at_insert_eq; by eapply block_at_lt
         | rewrite length_insert; by eapply lookup_lt_Some].
      unfold log, with_event; simpl. intros [= <- <-]. simpl. split; [done|].
      exists y, z. split; [eauto|]. by rewrite list_insert_insert_eq.
  - unfold copy_assign, bind.
    rewrite (load_cell _ _ _ _ _ Ha Hi), (load_cell _ _ _ _ _ Ha Hj).
    rewrite ptr_eqb_cell_ne by (by right).
    unfold member.
    destruct (T_copy_assign E d x (statics w)) as [[x'|y] s'] eqn:Hm.
    + intros [= <- <-]. done.
    + simpl. erewrite put_cell; [| exact Ha | by eapply lookup_lt_Some].
      unfold log, with_event; simpl. intros [= <- <-]. simpl. split; [done|].
      exists y, x. split; [split; eauto|].
      by rewrite (list_insert_id blk j).
Qed.

Lemma assign_cause mv a i j blk d x w e w' :
  i ≠ j →
  block_at (heap w) a = Some blk →
  blk !! i = Some (Some d) → blk !! j = Some (Some x) →
  assign_via E mv (cell a i) (cell a j) w = (Throw e, w') →
  ∃ ex, e = thrown ex ∧ assign_threw E mv x ex.
Proof.
  intros Hij Ha Hi Hj. destruct mv; simpl.
  - unfold move_assign, bind.
    rewrite (load_cell _ _ _ _ _ Ha Hi), (load_cell _ _ _ _ _ Ha Hj).
    unfold member.
    destruct (T_move_assign E d x (statics w)) as [[x'|[y z]] s'] eqn:Hm.
    + intros [= <- <-]. exists x'. split; [done|]. exists d, (statics w), s'. done.
    + simpl. erewrite put_cell; [| exact Ha | by eapply lookup_lt_Some].
      erewrite put_cell; simpl;
        [| apply block_at_insert_eq; by eapply block_at_lt
         | rewrite length_insert; by eapply lookup_lt_Some].
      unfold log, with_event; simpl. done.
  - unfold copy_assign, bind.
    rewrite (load_cell _ _ _ _ _ Ha Hi), (load_cell _ _ _ _ _ Ha Hj).
    rewrite ptr_eqb_cell_ne by (by right).
    unfold member.
    destruct (T_copy_assign E d x (statics w)) as [[x'|y] s'] eqn:Hm.
    + intros [= <- <-]. exists x'. split; [done|]. exists d, (statics w), s'. done.
    + simpl. erewrite put_cell; [| exact Ha | by eapply lookup_lt_Some].
      unfold log, with_event; simpl. done.
Qed.

(** Shifting [xs] one slot to the left, front to back. *)
Lemma shift_left mv a : ∀ xs pre d post w r w',
  block_at (heap w) a = Some (pre ++ Some d :: (Some <$> xs) ++ post) →
  assign_forward (assign_via E mv) (cell a (S (length pre))) (length xs)
    (cell a (length pre)) w = (r, w') →
  vectors w' = vectors w ∧
  match r with
  | Ok _ => ∃ ys zs z,
      Forall3 (assigned E mv) xs ys zs ∧
      heap w' = <[a := Some (pre ++ (Some <$> ys) ++ Some z :: post)]> (heap w) ∧
      trace w' = trace w ++ assignments (assign_kind mv) (cells a (length pre) (length xs))
  | Throw e => ∃ k ys zs z,
      k < length xs ∧ Forall3 (assigned E mv) (take k xs) ys zs ∧
      (k = 0 → z = d) ∧
      (0 < k → zs !! (k - 1) = Some z) ∧
      (∃ x0 ex, xs !! k = Some x0 ∧ e = thrown ex ∧ assign_threw E mv x0 ex) ∧
      heap w' = <[a := Some (pre ++ (Some <$> ys) ++ Some z ::
                               (Some <$> drop k xs) ++ post)]> (heap w) ∧
      trace w' = trace w ++ assignments (assign_kind mv) (cells a (length pre) k)
  | _ => False
  end.
Proof.
  induction xs as [|x xs IH]; intros pre d post w r w' Ha.
  - simpl. intros [= <- <-]. split; [done|]. exists [], [], d. split; [constructor|].
    simpl in *. rewrite (insert_block_id _ _ _ Ha). by rewrite app_nil_r.
  - change (block_at (heap w) a =
      Some (pre ++ Some d :: Some x :: (Some <$> xs) ++ post)) in Ha.
    simpl length. simpl assign_forward. unfold bind at 1.
    destruct (assign_via E mv _ _ w) as [r1 w1] eqn:Hc.
    pose proof Hc as Hc'.
    eapply (assign_cases _ _ _ _ _ d x) in Hc as (Hv1 & Hr1); [ | lia | exact Ha | | ].
    2:{ by apply list_lookup_middle. }
    2:{ rewrite (cons_middle (Some d)), app_assoc. apply list_lookup_middle.
        rewrite length_app. simpl. lia. }
    destruct r1 as [[]|e| |]; try done.
    + clear Hc'. destruct Hr1 as (y & z & Has & Hh1 & Ht1).
      rewrite !cell_succ. intros Hloop.
      specialize (IH (pre ++ [Some y]) z post w1 r w').
      rewrite !length_app in IH. simpl in IH. rewrite !Nat.add_1_r in IH.
      destruct IH as (Hv & Hr); [ | exact Hloop | ].
      { rewrite Hh1. rewrite block_at_insert_eq by (by eapply block_at_lt).
        f_equal. rewrite <- app_assoc. simpl.
        rewrite (cons_middle (Some d)), app_assoc.
        rewrite (insert_app_r_alt _ _ (S (length pre)))
          by (rewrite length_app; simpl; lia).
        rewrite length_app. simpl.
        replace (S (length pre) - (length pre + 1)) with 0 by lia. simpl.
        rewrite <- app_assoc. simpl.
        rewrite (insert_app_r_alt _ _ (length pre)) by lia.
        by rewrite Nat.sub_diag. }
      split; [congruence|].
      destruct r as [[]|e| |]; try done.
      * destruct Hr as (ys & zs & z' & HF & Hh & Ht).
        exists (y :: ys), (z :: zs), z'. split; [by constructor|].
        rewrite Hh, Hh1, Ht, Ht1. split.
        -- rewrite list_insert_insert_eq. by rewrite <- app_assoc.
        -- by rewrite <- app_assoc.
      * destruct Hr as (k & ys & zs & z' & Hk & HF & Hz0 & Hzk &
          (x0 & ex & Hx0 & -> & Hthrew) & Hh & Ht).
        exists (S k), (y :: ys), (z :: zs), z'. split; [simpl; lia|].
        split; [simpl; by constructor|]. split; [done|].
        split.
        { intros _. simpl. rewrite Nat.sub_0_r. destruct k as [|k].
          - simpl. by rewrite (Hz0 eq_refl).
          - simpl. specialize (Hzk ltac:(lia)). simpl in Hzk.
            by rewrite Nat.sub_0_r in Hzk. }
        split; [by exists x0, ex|].
        rewrite Hh, Hh1, Ht, Ht1. split.
        -- rewrite list_insert_insert_eq. by rewrite <- app_assoc.
        -- by rewrite <- app_assoc.
    + destruct Hr1 as [Hh1 Ht1]. intros [= <- <-]. split; [done|].
      eapply (assign_cause _ _ _ _ _ d x) in Hc' as (ex & -> & Hthrew);
        [ | lia | exact Ha | | ].
      2:{ by apply list_lookup_middle. }
      2:{ rewrite (cons_middle (Some d)), app_assoc. apply list_lookup_middle.
          rewrite length_app. simpl. lia. }
      exists 0, [], [], d. split; [simpl; lia|]. split; [constructor|].
      split; [done|]. split; [lia|]. split; [by exists x, ex|].
      rewrite Hh1, Ht1. split.
      * symmetry. by apply insert_block_id.
      * by rewrite app_nil_r.
Qed.


(** Shifting [xs] one slot to the right, back to front. *)
Lemma shift_right mv a pre : ∀ xs d post w r w',
  block_at (heap w) a = Some (pre ++ (Some <$> xs) ++ Some d :: post) →
  assign_backward (assign_via E mv) (cell a (length pre + length xs)) (length xs)
    (cell a (S (length pre + length xs))) w = (r, w') →
  vectors w' = vectors w ∧
  match r with
  | Ok _ => ∃ ys zs z,
      Forall3 (assigned E mv) xs ys zs ∧
      heap w' = <[a := Some (pre ++ Some z :: (Some <$> ys) ++ post)]> (heap w) ∧
      trace w' = trace w ++
        assignments (assign_kind mv) (reverse (cells a (S (length pre)) (length xs))) ∧
      (xs = [] → z = d) ∧ (xs ≠ [] → zs !! 0 = Some z)
  | Throw e => ∃ k ys zs z x0 ex,
      k < length xs ∧
      Forall3 (assigned E mv) (drop (length xs - k) xs) ys zs ∧
      (k = 0 → z = d) ∧ (0 < k → zs !! 0 = Some z) ∧
      xs !! (length xs - S k) = Some x0 ∧ e = thrown ex ∧ assign_threw E mv x0 ex ∧
      heap w' = <[a := Some (pre ++ (Some <$> take (length xs - k) xs) ++
                               Some z :: (Some <$> ys) ++ post)]> (heap w) ∧
      trace w' = trace w ++
        assignments (assign_kind mv)
          (reverse (cells a (S (length pre + (length xs - k))) k))
  | _ => False
  end.
Proof.
  induction xs as [|x xs IH] using rev_ind; intros d post w r w' Ha.
  - simpl. intros [= <- <-]. split; [done|]. exists [], [], d. split; [constructor|].
    simpl in *. rewrite (insert_block_id _ _ _ Ha). by rewrite app_nil_r.
  - assert (Hhead : ∀ (zs : list T) (z z' : T) (n : nat),
              length zs = n → (n = 0 → z' = z) → (0 < n → zs !! 0 = Some z') →
              (zs ++ [z]) !! 0 = Some z').
    { intros zs z z' n Hl H0 Hn. destruct zs as [|z0 zs]; simpl in *.
      - by rewrite (H0 (eq_sym Hl)).
      - apply Hn. lia. }
    rewrite fmap_app, <- app_assoc in Ha.
    change (block_at (heap w) a =
      Some (pre ++ (Some <$> xs) ++ Some x :: Some d :: post)) in Ha.
    rewrite length_app. simpl length. rewrite !Nat.add_1_r, !Nat.add_succ_r.
    simpl assign_backward. unfold bind at 1. rewrite !cell_pred.
    destruct (assign_via E mv _ _ w) as [r1 w1] eqn:Hc.
    pose proof Hc as Hc'.
    eapply (assign_cases _ _ _ _ _ d x) in Hc as (Hv1 & Hr1); [ | lia | exact Ha | | ].
    2:{ rewrite (cons_middle (Some x)), !app_assoc. apply list_lookup_middle.
        rewrite !length_app, length_fmap. simpl. lia. }
    2:{ by apply lookup_mid3. }
    destruct r1 as [[]|e| |]; try done.
    + clear Hc'. destruct Hr1 as (y & z & Has & Hh1 & Ht1).
      intros Hloop.
      specialize (IH z (Some y :: post) w1 r w').
      destruct IH as (Hv & Hr); [ | exact Hloop | ].
      { rewrite Hh1. rewrite block_at_insert_eq by (by eapply block_at_lt).
        f_equal. rewrite (insert_mid3 _ pre) by done.
        rewrite (cons_middle (Some z)), !app_assoc.
        rewrite (insert_app_r_alt _ _ (S (length pre + length xs)))
          by (rewrite !length_app, length_fmap; simpl; lia).
        rewrite !length_app, length_fmap. simpl.
        replace (S (length pre + length xs) - (length pre + length xs + 1)) with 0 by lia.
        simpl. by rewrite <- !app_assoc. }
      split; [congruence|].
      destruct r as [[]|e| |]; try done.
      * destruct Hr as (ys & zs & z' & HF & Hh & Ht & Hz0 & Hzk).
        pose proof (Forall3_length_lr _ _ _ _ HF) as Hlzs.
        exists (ys ++ [y]), (zs ++ [z]), z'. split.
        { apply Forall3_app; [done|]. by repeat constructor. }
        rewrite Hh, Hh1, Ht, Ht1. split.
        -- rewrite list_insert_insert_eq. rewrite fmap_app, <- !app_assoc. done.
        -- split; [|split; [by destruct xs|]].
           ++ rewrite cells_snoc, reverse_app. simpl.
              rewrite <- app_assoc. reflexivity.
           ++ intros _. apply (Hhead zs z z' (length xs)); [lia| |].
              ** intros H0. apply Hz0. by destruct xs.
              ** intros H0. apply Hzk. destruct xs; [simpl in H0; lia|done].
      * destruct Hr as (k & ys & zs & z' & x0 & ex & Hk & HF & Hz0 & Hzk & Hx0 & -> &
          Hthrew & Hh & Ht).
        pose proof (Forall3_length_lr _ _ _ _ HF) as Hlzs.
        rewrite length_drop in Hlzs.
        exists (S k), (ys ++ [y]), (zs ++ [z]), z', x0, ex.
        split; [lia|]. split.
        { replace (S (length xs) - S k) with (length xs - k) by lia.
          rewrite drop_app_le by lia.
          apply Forall3_app; [done|]. by repeat constructor. }
        split; [done|]. split.
        { intros _. apply (Hhead zs z z' k); [lia|done|done]. }
        split.
        { replace (S (length xs) - S (S k)) with (length xs - S k) by lia.
          rewrite lookup_app_l by lia. done. }
        split; [done|]. split; [done|].
        replace (S (length xs) - S k) with (length xs - k) by lia.
        rewrite Hh, Hh1, Ht, Ht1. split.
        -- rewrite list_insert_insert_eq. rewrite take_app_le by lia.
           rewrite fmap_app, <- !app_assoc. done.
        -- rewrite cells_snoc, reverse_app. simpl.
           replace (S (length pre + (length xs - k) + k)) with (S (length pre + length xs))
             by lia.
           rewrite <- app_assoc. reflexivity.
    + destruct Hr1 as [Hh1 Ht1]. intros [= <- <-]. split; [done|].
      eapply (assign_cause _ _ _ _ _ d x) in Hc' as (ex & -> & Hthrew);
        [ | lia | exact Ha | | ].
      2:{ rewrite (cons_middle (Some x)), !app_assoc. apply list_lookup_middle.
          rewrite !length_app, length_fmap. simpl. lia. }
      2:{ by apply lookup_mid3. }
      exists 0, [], [], d, x, ex. split; [lia|].
      rewrite Nat.sub_0_r.
      split.
      { rewrite drop_ge by (rewrite length_app; simpl; lia). constructor. }
      split; [done|]. split; [lia|]. split.
      { replace (S (length xs) - 1) with (length xs) by lia.
        by rewrite list_lookup_middle. }
      split; [done|]. split; [done|].
      rewrite Hh1, Ht1. split.
      * symmetry. apply insert_block_id. rewrite Ha. do 2 f_equal.
        rewrite take_ge by (rewrite length_app; simpl; lia).
        rewrite fmap_app, <- app_assoc. done.
      * by rewrite app_nil_r.
Qed.

Lemma move_assign_from_cause a i blk d x w e w' :
  block_at (heap w) a = Some blk → blk !! i = Some (Some d) →
  move_assign_from E (cell a i) x w = (Throw e, w') →
  ∃ ex, e = thrown ex ∧ assign_threw E true x ex.
Proof.
  intros Ha Hi. unfold move_assign_from, bind.
  rewrite (load_cell _ _ _ _ _ Ha Hi). unfold member.
  destruct (T_move_assign E d x (statics w)) as [[x'|[y z]] s'] eqn:Hm.
  - intros [= <- <-]. exists x'. split; [done|]. exists d, (statics w), s'. done.
  - simpl. erewrite put_cell; [| exact Ha | by eapply lookup_lt_Some].
    unfold log, with_event, ret; simpl. done.
Qed.

Lemma move_assign_from_cases a i blk d x w r w' :
  block_at (heap w) a = Some blk → blk !! i = Some (Some d) →
  move_assign_from E (cell a i) x w = (r, w') →
  vectors w' = vectors w ∧
  match r with
  | Ok z => ∃ y,
      assigned E true x y z ∧
      heap w' = <[a := Some (<[i := Some y]> blk)]> (heap w) ∧
      trace w' = trace w ++ [EvAssign MoveAssign (InHeap (cell a i))]
  | Throw e => heap w' = heap w ∧ trace w' = trace w
  | _ => False
  end.
Proof.
  intros Ha Hi. unfold move_assign_from, bind.
  rewrite (load_cell _ _ _ _ _ Ha Hi). unfold member.
  destruct (T_move_assign E d x (statics w)) as [[x'|[y z]] s'] eqn:Hm.
  - intros [= <- <-]. done.
  - simpl. erewrite put_cell; [| exact Ha | by eapply lookup_lt_Some].
    unfold log, with_event, ret; simpl. intros [= <- <-]. simpl. split; [done|].
    exists y. split; [simpl; eauto|]. done.
Qed.

(** *** Vector objects, allocation *)

Lemma self_run w this v :
  vectors w !! this = Some v → self (X:=X) this w = (Ok v, w).
Proof. intros H. unfold self. by rewrite H. Qed.

Lemma set_data_run w this v d :
  vectors w !! this = Some v →
  set_data (X:=X) this d w =
    (Ok tt, mkWorld (<[this := {| data_ := d; size_ := size_ v |}]> (vectors w))
              (heap w) (statics w) (trace w)).
Proof. intros H. unfold set_data. by rewrite H. Qed.

Lemma set_size_run w this v n :
  vectors w !! this = Some v →
  set_size (X:=X) this n w =
    (Ok tt, mkWorld (<[this := {| data_ := data_ v; size_ := n |}]> (vectors w))
              (heap w) (statics w) (trace w)).
Proof. intros H. unfold set_size. by rewrite H. Qed.

Lemma operator_delete_run w a blk :
  block_at (heap w) a = Some blk →
  operator_delete (X:=X) a w =
    (Ok tt, mkWorld (vectors w) (<[a := None]> (heap w)) (statics w)
              (trace w ++ [EvDelete a])).
Proof. intros H. unfold operator_delete. by rewrite H. Qed.

Lemma RawMemory_new_cases n w r w' :
  sane E Pl → 0 < n → (Z.of_nat n * sizeof_T E < 2 ^ 64)%Z →
  RawMemory_new E Pl n w = (r, w') →
  (r = Throw bad_alloc ∧ w' = w ∧ (heap_limit Pl < Z.of_nat n * sizeof_T E)%Z) ∨
  (r = Ok {| buffer_ := Some (length (heap w)); capacity_ := n |} ∧
   w' = mkWorld (vectors w) (heap w ++ [Some (replicate n None)]) (statics w)
          (trace w ++ [EvNew (length (heap w)) n]) ∧
   (Z.of_nat n * sizeof_T E <= heap_limit Pl)%Z).
Proof.
  intros [Hs Hl] Hn Hbytes. unfold RawMemory_new, Allocate, bind.
  destruct (n =? 0) eqn:Hn0; [apply Nat.eqb_eq in Hn0; lia|].
  unfold operator_new. rewrite size_t_small by lia. rewrite Z2Nat.id by lia.
  destruct (heap_limit Pl <? Z.of_nat n * sizeof_T E)%Z eqn:Hlim.
  - intros [= <- <-]. left. split; [done|]. split; [done|]. by apply Z.ltb_lt.
  - unfold ret. rewrite Z.div_mul by lia. rewrite Nat2Z.id.
    intros [= <- <-]. right. split; [done|]. split; [done|]. by apply Z.ltb_ge.
Qed.

Lemma relocate_segment (mv : bool) a b so do n sp dp xs dm sq dq w r w' :
  a ≠ b → length sp = so → length dp = do →
  length dm = length xs → n = length xs →
  block_at (heap w) a = Some (sp ++ (Some <$> xs) ++ sq) →
  block_at (heap w) b = Some (dp ++ dm ++ dq) →
  (if mv then uninitialized_move_n E (cell a so) n (cell b do)
   else uninitialized_copy_n E (cell a so) n (cell b do)) w = (r, w') →
  vectors w' = vectors w ∧
  match r with
  | Ok _ => ∃ ys zs,
      Forall3 (relocated E mv) xs ys zs ∧
      heap w' =
        <[b := Some (dp ++ (Some <$> ys) ++ dq)]>
          (<[a := Some (sp ++ (Some <$> zs) ++ sq)]> (heap w)) ∧
      trace w' = trace w ++ constructions (reloc_ctor mv) b do n
  | Throw e => ∃ k x0 x ys zs,
      xs !! k = Some x0 ∧ e = thrown x ∧ reloc_threw E mv x0 x ∧
      Forall3 (relocated E mv) (take k xs) ys zs ∧
      heap w' =
        <[b := Some (dp ++ replicate k None ++ drop k dm ++ dq)]>
          (<[a := Some (sp ++ (Some <$> zs) ++ (Some <$> drop k xs) ++ sq)]> (heap w)) ∧
      trace w' = trace w ++ constructions (reloc_ctor mv) b do k ++ destructions b do k
  | _ => False
  end.
Proof.
  intros Hne <- <- Hdm -> Ha Hb Hrun.
  assert (Hloop : uninitialized_loop E
    (λ j, construct_at E (cell b (length dp) +ₚ Z.of_nat j)
            (reloc_arg mv (cell a (length sp) +ₚ Z.of_nat j)))
    (cell b (length dp)) (length (@nil T)) (length xs) w = (r, w')).
  { by destruct mv. }
  eapply (reloc_loop mv a b sp dp Hne xs [] [] dm sq dq) in Hloop; try done.
  simpl in Hloop. by rewrite Nat.add_0_r in Hloop.
Qed.


End Algorithms.

(** ** The member functions of [Vector] *)

(** Case analysis on the computation that runs next in the goal. *)
Ltac run_next r w H :=
  let rec inner t :=
    lazymatch t with
    | match ?s with _ => _ end => inner s
    | _ => destruct t as [r w] eqn:H
    end in
  lazymatch goal with
  | |- (?lhs = _) → _ => inner lhs
  | |- ?lhs = _ => inner lhs
  end.

(** Pointers into the block of a [RawMemory] in terms of [cell]. *)
Ltac norm_ptr :=
  repeat match goal with
  | |- context [GetAddress {| buffer_ := Some ?a; capacity_ := ?c |}] =>
      change (GetAddress {| buffer_ := Some a; capacity_ := c |}) with (cell a 0)
  end;
  rewrite ?cell_add, ?cell_succ, ?Nat.add_0_l.

Section Members.
Context {T P X : Type}.
Variable E : @ElemType T P X.
Variable Pl : Platform.
Implicit Types (w : @World T P) (h : list (option (list (option T)))).
Implicit Types (a b c i j n o : nat) (xs ys zs : list T) (v : Vector).
Implicit Types (arg : @args T P X).

Lemma Forall3_relocated_copy xs ys zs :
  Forall3 (relocated E false) xs ys zs → zs = xs.
Proof. induction 1 as [|x y z xs ys zs [_ ->] _ IH]; [done | by rewrite IH]. Qed.

Lemma Forall3_length_12 {A B C} (R : A → B → C → Prop) l k m :
  Forall3 R l k m → length k = length l ∧ length m = length l.
Proof. induction 1; simpl; [done | lia]. Qed.

Lemma heap_after_growth h a b (o A1 A2 : option (list (option T))) B R :
  a < length h → b = length h →
  <[a := o]> (<[a := A2]> (<[b := B]> (<[a := A1]> (h ++ [R])))) = <[a := o]> h ++ [B].
Proof.
  intros Ha ->.
  rewrite (insert_app_l h) by done.
  rewrite <- (length_insert h a A1) at 1.
  rewrite <- (Nat.add_0_r (length (<[a:=A1]> h))), insert_app_r. simpl.
  rewrite insert_app_l by (by rewrite length_insert).
  rewrite insert_app_l by (by rewrite !length_insert).
  by rewrite !list_insert_insert_eq.
Qed.

Lemma heap_after_rollback h a b (A B : option (list (option T))) blk R :
  block_at (h ++ [R]) a = Some blk → A = Some blk → b = length h →
  <[b := None]> (<[b := B]> (<[a := A]> (h ++ [R]))) = h ++ [None].
Proof.
  intros Ha -> ->. rewrite (insert_block_id _ _ _ Ha).
  rewrite list_insert_insert_eq.
  rewrite <- (Nat.add_0_r (length h)), insert_app_r. done.
Qed.

Lemma replicate_split {A} (x : A) n m : n ≤ m →
  replicate m x = replicate n x ++ replicate (m - n) x.
Proof. intros H. rewrite <- replicate_add. f_equal. lia. Qed.

Lemma Reserve_cases this v xs n w r w' :
  sane E Pl → owns E Pl w this v xs →
  (Z.of_nat n * sizeof_T E < 2 ^ 64)%Z →
  Reserve E Pl this n w = (r, w') →
  match r with
  | Ok _ =>
      if n <=? capacity_ (data_ v) then w' = w
      else ∃ ys zs,
        Forall3 (relocated E (nothrow_move_or_no_copy E)) xs ys zs ∧
        (Z.of_nat n * sizeof_T E <= heap_limit Pl)%Z ∧
        vectors w' =
          <[this := {| data_ := {| buffer_ := Some (length (heap w)); capacity_ := n |};
                       size_ := size_ v |}]> (vectors w) ∧
        heap w' = release (buffer_ (data_ v)) (heap w) ++ [Some (live_block ys n)] ∧
        trace w' = trace w ++ [EvNew (length (heap w)) n] ++
          constructions (reloc_ctor (nothrow_move_or_no_copy E)) (length (heap w)) 0
            (length xs) ++
          destructions_of (buffer_ (data_ v)) (length xs) ++
          deletions (buffer_ (data_ v))
  | Throw e =>
      capacity_ (data_ v) < n ∧ vectors w' = vectors w ∧
      (e = bad_alloc ∧ w' = w ∧ (heap_limit Pl < Z.of_nat n * sizeof_T E)%Z ∨
       ∃ k x0 x,
         xs !! k = Some x0 ∧ e = thrown x ∧
         reloc_threw E (nothrow_move_or_no_copy E) x0 x ∧
         (nothrow_move_or_no_copy E = false → heap w' = heap w ++ [None]) ∧
         trace w' = trace w ++ [EvNew (length (heap w)) n] ++
           constructions (reloc_ctor (nothrow_move_or_no_copy E)) (length (heap w)) 0 k ++
           destructions (length (heap w)) 0 k ++ [EvDelete (length (heap w))])
  | _ => False
  end.
Proof.
  intros Hsane [Hself Hsize Hroom Hbytes Hblock] Hn.
  unfold Reserve, bind. rewrite (self_run _ _ _ Hself).
  destruct (n <=? capacity_ (data_ v)) eqn:Hle.
  { unfold ret. by intros [= <- <-]. }
  apply Nat.leb_gt in Hle. unfold local_RawMemory, bind.
  destruct (RawMemory_new E Pl n w) as [r0 w0] eqn:Hnew.
  apply RawMemory_new_cases in Hnew as [(-> & -> & Hlim) | (-> & -> & Hlim)];
    [ | | done | lia | done].
  { intros [= <- <-]. split; [done|]. split; [done|]. by left. }
  set (mv := nothrow_move_or_no_copy E). set (b := length (heap w)).
  set (w1 := mkWorld _ _ _ _).
  unfold try_catch.
  destruct v as [[buf cap] size]. unfold holds in Hblock. simpl in *. subst size.
  destruct buf as [a|].
  - assert (Hab : a ≠ b) by (apply block_at_lt in Hblock; unfold b; lia).
    run_next r2 w2 Hrel.
    eapply (relocate_segment E mv a b 0 0 (length xs) [] [] xs
             (replicate (length xs) None) (replicate (cap - length xs) None)
             (replicate (n - length xs) None)) in Hrel as (Hv2 & Hr2);
      [ | done | done | done | by rewrite length_replicate | done | | ].
    2:{ unfold w1; simpl. rewrite block_at_app_l by (by eapply block_at_lt). done. }
    2:{ unfold w1; simpl. unfold b. rewrite block_at_app_new. f_equal. simpl.
        apply replicate_split. lia. }
    destruct r2 as [[]|e| |]; try done.
    + destruct Hr2 as (ys & zs & HF & Hh2 & Ht2).
      destruct (Forall3_length_12 _ _ _ _ HF) as [Hlys Hlzs].
      destruct (destroy_n_live E a zs [] (replicate (cap - length xs) None) w2)
        as [s3 Hd]. { rewrite Hh2. rewrite block_at_insert_ne by done.
          rewrite block_at_insert_eq; [done|].
          unfold w1; simpl. rewrite length_app. apply block_at_lt in Hblock. lia. }
      simpl in Hd. rewrite Hlzs in Hd. norm_ptr. rewrite Hd.
      erewrite set_data_run by (simpl; rewrite Hv2; exact Hself).
      unfold ret. simpl. unfold RawMemory_delete, Deallocate. simpl.
      erewrite operator_delete_run.
      2:{ simpl. apply block_at_insert_eq. rewrite Hh2, !length_insert.
          unfold w1; simpl. rewrite length_app. apply block_at_lt in Hblock. lia. }
      simpl. intros [= <- <-]. simpl. exists ys, zs. split; [done|]. split; [done|].
      rewrite Hv2. split; [done|]. rewrite Hh2, Ht2. split.
      * unfold w1; simpl. rewrite heap_after_growth; [| by eapply block_at_lt | done].
        unfold live_block. by rewrite Hlys.
      * unfold w1; simpl. by rewrite <- !app_assoc.
    + destruct Hr2 as (k & x0 & x & ys & zs & Hk & -> & Hth & HF & Hh2 & Ht2).
      unfold bind, RawMemory_delete, Deallocate. simpl.
      erewrite operator_delete_run.
      2:{ rewrite Hh2. apply block_at_insert_eq. rewrite length_insert.
          unfold w1, b; simpl. rewrite length_app. simpl. lia. }
      unfold throw. intros [= <- <-]. simpl. split; [done|]. split; [done|]. right.
      exists k, x0, x. split; [done|]. split; [done|]. split; [done|].
      rewrite Hh2, Ht2. split.
      * intros Hmv. rewrite Hmv in HF. apply Forall3_relocated_copy in HF. subst zs.
        unfold w1; simpl. eapply heap_after_rollback; [| | done].
        { rewrite block_at_app_l by (by eapply block_at_lt). exact Hblock. }
        f_equal. unfold live_block. simpl.
        by rewrite app_assoc, <- fmap_app, take_drop.
      * unfold w1; simpl. by rewrite <- !app_assoc.
  - subst cap. assert (xs = []) as -> by (destruct xs; [done | simpl in *; lia]).
    simpl. unfold bind. simpl.
    destruct mv; unfold uninitialized_move_n, uninitialized_copy_n; simpl;
      (erewrite set_data_run by (simpl; exact Hself));
      simpl; unfold ret; simpl; unfold RawMemory_delete, Deallocate, ret; simpl;
      intros [= <- <-]; simpl; exists [], []; (split; [constructor|]);
      (split; [done|]); (split; [done|]); unfold live_block; simpl;
      by rewrite Nat.sub_0_r.
Qed.

Lemma slot_at_app_l h k q s : slot_at h q = Some s → slot_at (h ++ k) q = Some s.
Proof.
  unfold slot_at. destruct (base q) as [a|]; [|done].
  destruct (block_at h a) as [blk|] eqn:Ha; [|done].
  by rewrite block_at_app_l, Ha by (by eapply block_at_lt).
Qed.

Lemma set_slot_app_l h k q s :
  is_Some (slot_at h q) → set_slot (h ++ k) q s = set_slot h q s ++ k.
Proof.
  unfold slot_at, set_slot. destruct (base q) as [a|]; [|by intros [? ?]].
  destruct (block_at h a) as [blk|] eqn:Ha; [|by intros [? ?]].
  intros _. rewrite block_at_app_l, Ha by (by eapply block_at_lt).
  apply insert_app_l. by eapply block_at_lt.
Qed.

Lemma arg_ok_app h k arg : arg_ok h arg → arg_ok (h ++ k) arg.
Proof.
  destruct arg as [[x|q]|[x|q]| |mk]; simpl; try done;
    intros [x Hq]; exists x; by apply slot_at_app_l.
Qed.

Lemma made_app h R arg y h' :
  arg_ok h arg → made E (h ++ [R]) arg y h' →
  ∃ h1, made E h arg y h1 ∧ h' = h1 ++ [R].
Proof.
  intros Hok Hm.
  inversion Hm as [ x s s' y1 Hc | q x s s' y1 Hs Hc | x s s' y1 z Hc
                  | q x s s' y1 z Hs Hc | s s' y1 Hc | mk s s' y1 Hc ]; subst;
    try (by eauto using made).
  - destruct Hok as [x0 Hq]. rewrite (slot_at_app_l _ _ _ _ Hq) in Hs. simplify_eq.
    eauto using made.
  - destruct Hok as [x0 Hq]. rewrite (slot_at_app_l _ _ _ _ Hq) in Hs. simplify_eq.
    exists (set_slot h q (Some z)). split; [eauto using made|].
    apply set_slot_app_l. by rewrite Hq.
Qed.

Lemma made_pure h arg y h1 : pure_arg arg → made E h arg y h1 → h1 = h.
Proof. intros Hp Hm. by destruct Hm. Qed.

Lemma insert_live_block xs cap i z :
  i < length xs → <[i := Some z]> (live_block xs cap) = live_block (<[i := z]> xs) cap.
Proof.
  intros Hi. unfold live_block.
  rewrite insert_app_l by (by rewrite length_fmap).
  by rewrite list_fmap_insert, length_insert.
Qed.

Lemma lookup_live_block xs cap i x :
  live_block xs cap !! i = Some (Some x) → xs !! i = Some x.
Proof.
  unfold live_block. intros Hl.
  apply lookup_app_Some in Hl as [Hl | [_ Hl]].
  - rewrite list_lookup_fmap in Hl. revert Hl.
    destruct (xs !! i); simpl; congruence.
  - apply lookup_replicate in Hl as [? _]. done.
Qed.

Lemma made_holds h arg y h1 m xs :
  made E h arg y h1 → holds h m xs →
  ∃ xs1, holds h1 m xs1 ∧ length xs1 = length xs.
Proof.
  intros Hm Hh. destruct Hm; try by eauto.
  unfold holds in *. destruct (buffer_ m) as [a|]; [|by eauto].
  unfold set_slot. destruct (base q) as [c|] eqn:Hq; [|by eauto].
  destruct (block_at h c) as [blk|] eqn:Hc; [|by eauto].
  destruct (decide (c = a)) as [->|Hne].
  - rewrite block_at_insert_eq by (by eapply block_at_lt).
    unfold slot_at in H. rewrite Hq, Hc in H.
    destruct (0 <=? off q)%Z; [|done]. simplify_eq.
    apply lookup_live_block in H as Hx.
    exists (<[Z.to_nat (off q) := z]> xs). rewrite length_insert. split; [|done].
    f_equal. apply insert_live_block. by eapply lookup_lt_Some.
  - rewrite block_at_insert_ne by done. eauto.
Qed.

Lemma holds_app h k m xs : holds h m xs → holds (h ++ k) m xs.
Proof.
  unfold holds. destruct (buffer_ m) as [a|]; [|done].
  intros Ha. by rewrite block_at_app_l by (by eapply block_at_lt).
Qed.

Lemma live_block_snoc xs cap y :
  length xs < cap →
  <[length xs := Some y]> (live_block xs cap) = live_block (xs ++ [y]) cap.
Proof.
  intros Hlt. unfold live_block.
  rewrite <- (length_fmap Some xs) at 1.
  rewrite <- (Nat.add_0_r (length (Some <$> xs))), insert_app_r.
  rewrite length_app. simpl.
  replace (cap - length xs) with (S (cap - (length xs + 1))) by lia.
  simpl. by rewrite fmap_app, <- app_assoc.
Qed.

Lemma length_live_block xs cap : length xs ≤ cap → length (live_block xs cap) = cap.
Proof.
  intros H. unfold live_block. rewrite length_app, length_fmap, length_replicate. lia.
Qed.

(** No [size_t] computation on a well-formed vector wraps around. *)
Lemma owns_no_wrap w this v xs :
  sane E Pl → owns E Pl w this v xs →
  (Z.of_nat (capacity_ (data_ v)) * 2 * sizeof_T E < 2 ^ 64)%Z ∧
  (Z.of_nat (capacity_ (data_ v)) < 2 ^ 63)%Z.
Proof.
  intros [Hs Hl] [_ _ _ Hb _].
  assert (Z.of_nat (capacity_ (data_ v)) * sizeof_T E < 2 ^ 63)%Z by lia.
  split; [lia|]. nia.
Qed.

End Members.

(** ** [PushBack] and [EmplaceBack] *)

Section Appending.
Context {T P X : Type}.
Variable E : @ElemType T P X.
Variable Pl : Platform.
Implicit Types (w : @World T P) (h : list (option (list (option T)))).
Implicit Types (a b c i j n o : nat) (xs ys zs : list T) (v : Vector).
Implicit Types (arg : @args T P X).

Lemma insert_app_new {A} (l : list A) x y : <[length l := x]> (l ++ [y]) = l ++ [x].
Proof. rewrite <- (Nat.add_0_r (length l)). by rewrite insert_app_r. Qed.

Lemma insert_replicate_None {A} (y : A) n i :
  i < n →
  <[i := Some y]> (replicate n None) =
    replicate i None ++ Some y :: replicate (n - S i) None.
Proof.
  intros Hi. rewrite (replicate_split None i n) by lia.
  rewrite <- (length_replicate i (@None A)) at 1.
  rewrite <- (Nat.add_0_r (length _)), insert_app_r.
  replace (n - i) with (S (n - S i)) by lia. reflexivity.
Qed.

Lemma owns_null w this v xs :
  owns E Pl w this v xs → buffer_ (data_ v) = None → xs = [] ∧ capacity_ (data_ v) = 0.
Proof.
  intros [_ _ Hroom _ Hh] Hb. unfold holds in Hh. rewrite Hb in Hh.
  rewrite Hh in Hroom. split; [|done]. destruct xs; [done | simpl in *; lia].
Qed.

Lemma threw_app h k arg x : arg_ok h arg → threw E (h ++ k) arg x → threw E h arg x.
Proof.
  intros Hok Hth.
  inversion Hth as [ x0 s s' x1 Hc | q x0 s s' x1 Hs Hc | x0 s s' x1 Hc
                   | q x0 s s' x1 Hs Hc | s s' x1 Hc | mk s s' x1 Hc ]; subst;
    try (by eauto using threw).
  - destruct Hok as [x2 Hq]. rewrite (slot_at_app_l _ _ _ _ Hq) in Hs. simplify_eq.
    eauto using threw.
  - destruct Hok as [x2 Hq]. rewrite (slot_at_app_l _ _ _ _ Hq) in Hs. simplify_eq.
    eauto using threw.
Qed.

(** The common part of [PushBack] and [EmplaceBack], up to the increment of
    [size_]. *)
Lemma append_cases this v xs arg w r w' :
  sane E Pl → owns E Pl w this v xs → arg_ok (heap w) arg →
  (if capacity_ (data_ v) =? size_ v then
     local_RawMemory E Pl (if size_ v =? 0 then 1 else size_t (Z.of_nat (size_ v) * 2))
       (fun new_data =>
          bind (construct_at E (GetAddress new_data +ₚ Z.of_nat (size_ v)) arg) (fun _ =>
          bind (if nothrow_move_or_no_copy E
                then uninitialized_move_n E (GetAddress (data_ v)) (size_ v) (GetAddress new_data)
                else uninitialized_copy_n E (GetAddress (data_ v)) (size_ v) (GetAddress new_data))
               (fun _ =>
          bind (destroy_n E (GetAddress (data_ v)) (size_ v)) (fun _ =>
          let dd := RawMemory_Swap (data_ v) new_data in
          bind (set_data this (fst dd)) (fun _ => ret (snd dd, tt))))))
   else
     construct_at E (GetAddress (data_ v) +ₚ Z.of_nat (size_ v)) arg) w = (r, w') →
  match r with
  | Ok _ => ∃ y h1 xs1,
      made E (heap w) arg y h1 ∧ holds h1 (data_ v) xs1 ∧ length xs1 = length xs ∧
      if capacity_ (data_ v) =? length xs then
        ∃ ys zs,
          Forall3 (relocated E (nothrow_move_or_no_copy E)) xs1 ys zs ∧
          (Z.of_nat (Nat.max 1 (2 * length xs)) * sizeof_T E <= heap_limit Pl)%Z ∧
          vectors w' =
            <[this := {| data_ := {| buffer_ := Some (length (heap w));
                                   capacity_ := Nat.max 1 (2 * length xs) |};
                         size_ := length xs |}]> (vectors w) ∧
          heap w' = release (buffer_ (data_ v)) h1 ++
            [Some (live_block (ys ++ [y]) (Nat.max 1 (2 * length xs)))] ∧
          trace w' = trace w ++
            [EvNew (length (heap w)) (Nat.max 1 (2 * length xs));
             EvConstruct (ctor_of arg) (InHeap (cell (length (heap w)) (length xs)))] ++
            constructions (reloc_ctor (nothrow_move_or_no_copy E)) (length (heap w)) 0
              (length xs) ++
            destructions_of (buffer_ (data_ v)) (length xs) ++
            deletions (buffer_ (data_ v))
      else
        ∃ a, buffer_ (data_ v) = Some a ∧
          vectors w' = vectors w ∧
          heap w' = <[a := Some (live_block (xs1 ++ [y]) (capacity_ (data_ v)))]> h1 ∧
          trace w' = trace w ++ [EvConstruct (ctor_of arg) (InHeap (cell a (length xs)))]
  | Throw e =>
      vectors w' = vectors w ∧
      ((e = bad_alloc ∧ w' = w ∧ capacity_ (data_ v) = length xs ∧
        (heap_limit Pl < Z.of_nat (Nat.max 1 (2 * length xs)) * sizeof_T E)%Z) ∨
       (∃ x, e = thrown x ∧ threw E (heap w) arg x ∧
          if capacity_ (data_ v) =? length xs then
            heap w' = heap w ++ [None] ∧
            trace w' = trace w ++
              [EvNew (length (heap w)) (Nat.max 1 (2 * length xs));
               EvDelete (length (heap w))]
          else heap w' = heap w ∧ trace w' = trace w) ∨
       (capacity_ (data_ v) = length xs ∧
        ∃ y h1 xs1 k x0 x,
          made E (heap w) arg y h1 ∧ holds h1 (data_ v) xs1 ∧
          length xs1 = length xs ∧
          xs1 !! k = Some x0 ∧ e = thrown x ∧
          reloc_threw E (nothrow_move_or_no_copy E) x0 x ∧
          (nothrow_move_or_no_copy E = false → heap w' = h1 ++ [None]) ∧
          trace w' = trace w ++
            [EvNew (length (heap w)) (Nat.max 1 (2 * length xs));
             EvConstruct (ctor_of arg) (InHeap (cell (length (heap w)) (length xs)))] ++
            constructions (reloc_ctor (nothrow_move_or_no_copy E)) (length (heap w)) 0 k ++
            destructions (length (heap w)) 0 k ++ [EvDelete (length (heap w))] ∧
          ∃ ys zs, Forall3 (relocated E (nothrow_move_or_no_copy E)) (take k xs1) ys zs))
  | _ => False
  end.
Proof.
  intros Hsane Hown Hok.
  destruct (owns_no_wrap _ _ _ _ _ _ Hsane Hown) as [Hw1 Hw2].
  pose proof Hown as [Hself Hsize Hroom Hbytes Hblock].
  rewrite Hsize.
  destruct (capacity_ (data_ v) =? length xs) eqn:Hcap.
  - apply Nat.eqb_eq in Hcap.
    assert (Hc' : (if length xs =? 0 then 1 else size_t (Z.of_nat (length xs) * 2))
                  = Nat.max 1 (2 * length xs)).
    { destruct (length xs =? 0) eqn:H0; [apply Nat.eqb_eq in H0; lia|].
      apply Nat.eqb_neq in H0. rewrite size_t_small by lia. lia. }
    rewrite Hc'. set (c' := Nat.max 1 (2 * length xs)).
    unfold local_RawMemory. unfold bind at 1.
    destruct (RawMemory_new E Pl c' w) as [r0 w0] eqn:Hnew.
    destruct Hsane as [Hs Hl].
    apply RawMemory_new_cases in Hnew as [(-> & -> & Hlim) | (-> & -> & Hlim)];
      [ | | done | unfold c'; lia | unfold c'; nia ].
    { intros [= <- <-]. split; [done|]. by left. }
    set (b := length (heap w)). set (w1 := mkWorld _ _ _ _).
    unfold try_catch, bind.
    destruct v as [[buf cap] size]. unfold holds in Hblock. simpl in *. subst size cap.
    norm_ptr.
    run_next r2 w2 Hnewel.
    eapply (construct_at_cases E b (length xs) arg w1 _ _ (replicate c' None))
      in Hnewel as (Hv2 & Hr2);
      [ | by apply arg_ok_app | unfold w1, b; simpl; by rewrite block_at_app_new
        | rewrite length_replicate; unfold c'; lia ].
    destruct r2 as [[]|e| |]; try done.
    2:{ destruct Hr2 as (Hh2 & Ht2 & x & -> & Hth).
        unfold RawMemory_delete, Deallocate. simpl.
        erewrite operator_delete_run
          by (rewrite Hh2; unfold w1, b; simpl; by rewrite block_at_app_new).
        unfold throw. intros [= <- <-]. simpl. split; [done|]. right. left.
        exists x. split; [done|]. split; [exact (threw_app (heap w) _ _ _ Hok Hth)|].
        rewrite Hh2, Ht2. unfold w1, b; simpl. split.
        - by rewrite insert_app_new.
        - by rewrite <- app_assoc. }
    destruct Hr2 as (y & h1' & db1 & Hm & Hb1 & Hh2 & Ht2).
    apply made_app in Hm as (h1 & Hm & ->); [|done].
    pose proof (made_length _ _ _ _ _ Hm) as Hlen1.
    unfold b in Hb1. rewrite <- Hlen1, block_at_app_new in Hb1. simplify_eq.
    rewrite insert_replicate_None in Hh2 by (unfold c'; lia).
    fold b in Hh2. unfold b in Hh2 at 1. rewrite <- Hlen1, insert_app_new in Hh2.
    destruct (made_holds E _ _ _ _ {| buffer_ := buf; capacity_ := length xs |}
                xs Hm Hblock) as (xs1 & Hh1 & Hlxs1).
    destruct buf as [a|]; unfold holds in Hh1; simpl in Hh1.
    + assert (Hab : a ≠ b) by (apply block_at_lt in Hblock; unfold b; lia).
      assert (Ha1 : a < length h1) by (apply block_at_lt in Hh1; lia).
      norm_ptr.
      run_next r3 w3 Hrel.
      eapply (relocate_segment E _ a b 0 0 (length xs) [] [] xs1
               (replicate (length xs) None) []
               (Some y :: replicate (c' - S (length xs)) None)) in Hrel as (Hv3 & Hr3);
        [ | done | done | done | by rewrite length_replicate | done | | ].
      2:{ rewrite Hh2. rewrite block_at_app_l by done. rewrite Hh1.
          unfold live_block. by rewrite Hlxs1, Nat.sub_diag. }
      2:{ rewrite Hh2. unfold b. rewrite <- Hlen1.
          by rewrite block_at_app_new. }
      destruct r3 as [[]|e| |]; try done.
      * destruct Hr3 as (ys & zs & HF & Hh3 & Ht3).
        destruct (Forall3_length_12 _ _ _ _ HF) as [Hlys Hlzs].
        destruct (destroy_n_live E a zs [] [] w3) as [s4 Hd].
        { rewrite Hh3. rewrite block_at_insert_ne by done.
          rewrite block_at_insert_eq; [done|]. rewrite Hh2, length_app. lia. }
        simpl in Hd. rewrite Hlzs, Hlxs1 in Hd. rewrite Hd.
        erewrite set_data_run by (simpl; rewrite Hv3, Hv2; exact Hself).
        unfold ret. simpl. unfold RawMemory_delete, Deallocate. simpl.
        erewrite operator_delete_run.
        2:{ simpl. apply block_at_insert_eq. rewrite Hh3, !length_insert.
            rewrite Hh2, length_app. lia. }
        simpl. intros [= <- <-]. simpl. exists y, h1, xs1.
        split; [done|]. split; [done|]. split; [done|]. exists ys, zs.
        split; [done|]. split; [done|]. rewrite Hv3, Hv2. split; [done|].
        rewrite Hh3, Hh2, Ht3, Ht2. split.
        -- rewrite heap_after_growth; [| done | by rewrite Hlen1].
           do 3 f_equal. unfold live_block. rewrite fmap_app, <- app_assoc.
           rewrite length_app, Hlys, Hlxs1. simpl.
           by rewrite Nat.add_1_r.
        -- unfold w1; simpl. by rewrite <- !app_assoc.
      * destruct Hr3 as (k & x0 & x & ys & zs & Hk & -> & Hth & HF & Hh3 & Ht3).
        unfold RawMemory_delete, Deallocate. simpl.
        erewrite operator_delete_run.
        2:{ rewrite Hh3. apply block_at_insert_eq. rewrite length_insert.
            rewrite Hh2, length_app. simpl. unfold b. lia. }
        unfold throw. intros [= <- <-]. simpl. split; [by rewrite Hv3|].
        right. right. split; [done|]. exists y, h1, xs1, k, x0, x.
        split; [done|]. split; [done|]. split; [done|]. split; [done|].
        split; [done|].
        split; [done|]. rewrite Hh3, Ht3, Hh2, Ht2. split.
        -- intros Hmv. rewrite Hmv in HF. apply Forall3_relocated_copy in HF. subst zs.
           eapply heap_after_rollback; [| | by rewrite Hlen1].
           { rewrite block_at_app_l by done. exact Hh1. }
           f_equal. unfold live_block. simpl.
           rewrite app_assoc, <- fmap_app, take_drop.
           by rewrite Hlxs1, Nat.sub_diag.
        -- split; [unfold w1; simpl; by rewrite <- !app_assoc|]. by exists ys, zs.
    + assert (xs = []) as -> by (destruct xs; [done | simpl in *; lia]).
      destruct xs1; [|done]. simpl in *.
      destruct (nothrow_move_or_no_copy E);
        unfold uninitialized_move_n, uninitialized_copy_n; simpl;
        (erewrite set_data_run by (simpl; rewrite Hv2; exact Hself));
        simpl; unfold ret; simpl; unfold RawMemory_delete, Deallocate, ret; simpl;
        intros [= <- <-]; simpl.
      all: exists y, h1, []; split; [done|]; split; [done|]; split; [done|].
      all: exists [], []; split; [constructor|]; split; [done|].
      all: rewrite Hv2, Hh2, Ht2, <- app_assoc; done.
  - apply Nat.eqb_neq in Hcap.
    destruct v as [[buf cap] size]. unfold holds in Hblock. simpl in *. subst size.
    destruct buf as [a|]; [|lia].
    norm_ptr. intros Hc.
    eapply (construct_at_cases E a (length xs) arg w _ _ _)
      in Hc as (Hv2 & Hr2);
      [ | done | exact Hblock | rewrite length_live_block; lia ].
    destruct r as [[]|e| |]; try done.
    + destruct Hr2 as (y & h1 & db1 & Hm & Hb1 & Hh2 & Ht2).
      destruct (made_holds E _ _ _ _ {| buffer_ := Some a; capacity_ := cap |}
                  xs Hm Hblock) as (xs1 & Hh1 & Hlxs1).
      unfold holds in Hh1; simpl in Hh1. rewrite Hh1 in Hb1. simplify_eq.
      exists y, h1, xs1. split; [done|]. split; [done|]. split; [done|].
      exists a. split; [done|]. split; [done|]. split; [|done].
      rewrite Hh2. rewrite <- Hlxs1, live_block_snoc by lia. done.
    + destruct Hr2 as (Hh2 & Ht2 & x & -> & Hth). split; [done|]. right. left.
      eauto.
Qed.

Lemma owns_frame w w' this v xs :
  owns E Pl w this v xs → vectors w' = vectors w →
  holds (heap w') (data_ v) xs → owns E Pl w' this v xs.
Proof. intros [? ? ? ? ?] Hv Hh. split; try done. by rewrite Hv. Qed.

Lemma owns_lt w this v xs : owns E Pl w this v xs → this < length (vectors w).
Proof. intros [Hs _ _ _ _]. by eapply lookup_lt_Some. Qed.

Lemma holds_release_new buf h xs cap :
  holds (release buf h ++ [Some (live_block xs cap)])
    {| buffer_ := Some (length h); capacity_ := cap |} xs.
Proof.
  unfold holds. simpl.
  replace (length h) with (length (release buf h))
    by (destruct buf; simpl; by rewrite ?length_insert).
  by rewrite block_at_app_new.
Qed.

Lemma PushBack_cases this v xs arg w r w' :
  sane E Pl → owns E Pl w this v xs → arg_ok (heap w) arg →
  PushBack E Pl this arg w = (r, w') →
  match r with
  | Ok _ => ∃ y h1 xs1 ys v',
      made E (heap w) arg y h1 ∧ holds h1 (data_ v) xs1 ∧ length xs1 = length xs ∧
      owns E Pl w' this v' (ys ++ [y]) ∧
      if capacity_ (data_ v) =? length xs then
        (∃ zs, Forall3 (relocated E (nothrow_move_or_no_copy E)) xs1 ys zs) ∧
        data_ v' = {| buffer_ := Some (length (heap w));
                      capacity_ := Nat.max 1 (2 * length xs) |} ∧
        heap w' = release (buffer_ (data_ v)) h1 ++
          [Some (live_block (ys ++ [y]) (Nat.max 1 (2 * length xs)))] ∧
        trace w' = trace w ++
          [EvNew (length (heap w)) (Nat.max 1 (2 * length xs));
           EvConstruct (ctor_of arg) (InHeap (cell (length (heap w)) (length xs)))] ++
          constructions (reloc_ctor (nothrow_move_or_no_copy E)) (length (heap w)) 0
            (length xs) ++
          destructions_of (buffer_ (data_ v)) (length xs) ++
          deletions (buffer_ (data_ v))
      else
        ∃ a, buffer_ (data_ v) = Some a ∧ ys = xs1 ∧ data_ v' = data_ v ∧
          heap w' = <[a := Some (live_block (xs1 ++ [y]) (capacity_ (data_ v)))]> h1 ∧
          trace w' = trace w ++ [EvConstruct (ctor_of arg) (InHeap (cell a (length xs)))]
  | Throw e =>
      vectors w' = vectors w ∧
      ((e = bad_alloc ∧ w' = w ∧ capacity_ (data_ v) = length xs ∧
        (heap_limit Pl < Z.of_nat (Nat.max 1 (2 * length xs)) * sizeof_T E)%Z) ∨
       (∃ x, e = thrown x ∧ threw E (heap w) arg x ∧
          if capacity_ (data_ v) =? length xs then
            heap w' = heap w ++ [None] ∧
            trace w' = trace w ++
              [EvNew (length (heap w)) (Nat.max 1 (2 * length xs));
               EvDelete (length (heap w))]
          else heap w' = heap w ∧ trace w' = trace w) ∨
       (capacity_ (data_ v) = length xs ∧
        ∃ y h1 xs1 k x0 x,
          made E (heap w) arg y h1 ∧ holds h1 (data_ v) xs1 ∧
          length xs1 = length xs ∧
          xs1 !! k = Some x0 ∧ e = thrown x ∧
          reloc_threw E (nothrow_move_or_no_copy E) x0 x ∧
          (nothrow_move_or_no_copy E = false → heap w' = h1 ++ [None]) ∧
          trace w' = trace w ++
            [EvNew (length (heap w)) (Nat.max 1 (2 * length xs));
             EvConstruct (ctor_of arg) (InHeap (cell (length (heap w)) (length xs)))] ++
            constructions (reloc_ctor (nothrow_move_or_no_copy E)) (length (heap w)) 0 k ++
            destructions (length (heap w)) 0 k ++ [EvDelete (length (heap w))] ∧
          ∃ ys zs, Forall3 (relocated E (nothrow_move_or_no_copy E)) (take k xs1) ys zs))
  | _ => False
  end.
Proof.
  intros Hsane Hown Hok.
  destruct (owns_no_wrap _ _ _ _ _ _ Hsane Hown) as [Hw1 Hw2].
  pose proof Hown as [Hself Hsize Hroom Hbytes Hblock].
  pose proof (owns_lt _ _ _ _ Hown) as Hthis.
  unfold PushBack. unfold bind at 1. rewrite (self_run _ _ _ Hself).
  unfold bind at 1.
  run_next r1 w1 Happ.
  eapply append_cases in Happ; [ | done | exact Hown | done ].
  destruct r1 as [[]|e| |]; try done; [|by intros [= <- <-]].
  destruct Happ as (y & h1 & xs1 & Hm & Hh1 & Hlxs1 & Hcase).
  destruct (capacity_ (data_ v) =? length xs) eqn:Hcap.
  - apply Nat.eqb_eq in Hcap.
    destruct Hcase as (ys & zs & HF & Hlim & Hv1 & Hheap & Htr).
    destruct (Forall3_length_12 _ _ _ _ HF) as [Hlys Hlzs].
    unfold bind. erewrite self_run by (rewrite Hv1; by apply list_lookup_insert_eq).
    erewrite set_size_run by (rewrite Hv1; by apply list_lookup_insert_eq).
    simpl. rewrite size_t_small by lia.
    replace (Z.to_nat (Z.of_nat (length xs) + 1)) with (S (length xs)) by lia.
    intros [= <- <-]. exists y, h1, xs1, ys. eexists.
    split; [done|]. split; [done|]. split; [done|]. split.
    { split; simpl.
      - rewrite Hv1, list_insert_insert_eq. by apply list_lookup_insert_eq.
      - rewrite length_app. simpl. lia.
      - rewrite length_app. simpl. lia.
      - done.
      - rewrite Hheap. rewrite <- (made_length _ _ _ _ _ Hm).
        apply holds_release_new. }
    simpl. split; [eauto|]. done.
  - apply Nat.eqb_neq in Hcap.
    destruct Hcase as (a & Hbuf & Hv1 & Hheap & Htr).
    unfold bind. erewrite self_run by (rewrite Hv1; exact Hself).
    erewrite set_size_run by (rewrite Hv1; exact Hself).
    simpl. rewrite Hsize, size_t_small by lia.
    replace (Z.to_nat (Z.of_nat (length xs) + 1)) with (S (length xs)) by lia.
    intros [= <- <-]. exists y, h1, xs1, xs1. eexists.
    split; [done|]. split; [done|]. split; [done|]. split.
    { split; simpl.
      - rewrite Hv1. by apply list_lookup_insert_eq.
      - rewrite length_app. simpl. lia.
      - rewrite length_app. simpl. lia.
      - done.
      - unfold holds. simpl. rewrite Hbuf. rewrite Hheap. apply block_at_insert_eq.
        unfold holds in Hh1. rewrite Hbuf in Hh1. by eapply block_at_lt. }
    simpl. exists a. done.
Qed.

End Appending.

(** ** [Emplace] and [Insert] *)

Section Emplacing.
Context {T P X : Type}.
Variable E : @ElemType T P X.
Variable Pl : Platform.
Implicit Types (w : @World T P) (h : list (option (list (option T)))).
Implicit Types (a b c i j n o p : nat) (xs ys zs : list T) (v : Vector).
Implicit Types (arg : @args T P X).

Lemma assert_true w : assert_ (T:=T) (P:=P) (X:=X) Pl true w = (Ok tt, w).
Proof. unfold assert_. by destruct (NDEBUG Pl). Qed.

Lemma RawMemory_index_run (m : RawMemory) index w :
  index < capacity_ m →
  RawMemory_index (T:=T) (P:=P) (X:=X) Pl m index w =
    (Ok (GetAddress m +ₚ Z.of_nat index), w).
Proof.
  intros Hi. unfold RawMemory_index, bind.
  rewrite (proj2 (Nat.ltb_lt _ _) Hi). by rewrite assert_true.
Qed.

(** A position inside [[begin, end]] passes the assertion of [Emplace] and
    has the expected distance from [begin]. *)
Lemma position_ok v p :
  p ≤ size_ v → (Z.of_nat (size_ v) < 2 ^ 64)%Z →
  ptr_leb (begin_ v) (begin_ v +ₚ Z.of_nat p) &&
    ptr_leb (begin_ v +ₚ Z.of_nat p) (end_ v) = true ∧
  distance (T:=T) (P:=P) (X:=X) (begin_ v) (begin_ v +ₚ Z.of_nat p) = ret p.
Proof.
  intros Hp Hs. unfold ptr_leb, begin_, end_, GetAddress, ptr_add, distance; simpl.
  rewrite !bool_decide_eq_true_2 by done. simpl. split.
  - apply andb_true_intro. split; apply Z.leb_le; lia.
  - f_equal. rewrite size_t_small by lia. lia.
Qed.

Lemma Emplace_grow_cases this v xs p arg w r w' :
  sane E Pl → owns E Pl w this v xs → arg_ok (heap w) arg →
  p ≤ length xs → capacity_ (data_ v) = length xs →
  Emplace E Pl this (begin_ v +ₚ Z.of_nat p) arg w = (r, w') →
  match r with
  | Ok it => ∃ y h1 xs1 ys1 zs1 ys2 zs2 v',
      made E (heap w) arg y h1 ∧ holds h1 (data_ v) xs1 ∧ length xs1 = length xs ∧
      Forall3 (relocated E (nothrow_move_or_no_copy E)) (take p xs1) ys1 zs1 ∧
      Forall3 (relocated E (nothrow_move_or_no_copy E)) (drop p xs1) ys2 zs2 ∧
      owns E Pl w' this v' (ys1 ++ y :: ys2) ∧
      it = begin_ v' +ₚ Z.of_nat p ∧
      data_ v' = {| buffer_ := Some (length (heap w));
                    capacity_ := Nat.max 1 (2 * length xs) |} ∧
      heap w' = release (buffer_ (data_ v)) h1 ++
        [Some (live_block (ys1 ++ y :: ys2) (Nat.max 1 (2 * length xs)))] ∧
      trace w' = trace w ++
        [EvNew (length (heap w)) (Nat.max 1 (2 * length xs));
         EvConstruct (ctor_of arg) (InHeap (cell (length (heap w)) p))] ++
        constructions (reloc_ctor (nothrow_move_or_no_copy E)) (length (heap w)) 0 p ++
        constructions (reloc_ctor (nothrow_move_or_no_copy E)) (length (heap w)) (S p)
          (length xs - p) ++
        destructions_of (buffer_ (data_ v)) (length xs) ++
        deletions (buffer_ (data_ v))
  | Throw e =>
      vectors w' = vectors w ∧
      ((e = bad_alloc ∧ w' = w ∧
        (heap_limit Pl < Z.of_nat (Nat.max 1 (2 * length xs)) * sizeof_T E)%Z) ∨
       (∃ x, e = thrown x ∧ threw E (heap w) arg x ∧
          heap w' = heap w ++ [None] ∧
          trace w' = trace w ++
            [EvNew (length (heap w)) (Nat.max 1 (2 * length xs));
             EvDelete (length (heap w))]) ∨
       (∃ y h1 xs1 k x0 x,
          made E (heap w) arg y h1 ∧ holds h1 (data_ v) xs1 ∧
          xs1 !! k = Some x0 ∧ e = thrown x ∧
          reloc_threw E (nothrow_move_or_no_copy E) x0 x ∧
          (nothrow_move_or_no_copy E = false → heap w' = h1 ++ [None]) ∧
          length xs1 = length xs ∧
          (∃ ys zs,
             Forall3 (relocated E (nothrow_move_or_no_copy E)) (take k xs1) ys zs) ∧
          trace w' = trace w ++
            [EvNew (length (heap w)) (Nat.max 1 (2 * length xs));
             EvConstruct (ctor_of arg) (InHeap (cell (length (heap w)) p))] ++
            (if k <? p then
               constructions (reloc_ctor (nothrow_move_or_no_copy E)) (length (heap w)) 0 k ++
               destructions (length (heap w)) 0 k
             else
               constructions (reloc_ctor (nothrow_move_or_no_copy E)) (length (heap w)) 0 p ++
               constructions (reloc_ctor (nothrow_move_or_no_copy E)) (length (heap w))
                 (S p) (k - p) ++
               destructions (length (heap w)) (S p) (k - p)) ++
            [EvDelete (length (heap w))]))
  | _ => False
  end.
Proof.
  intros Hsane Hown Hok Hp Hcap.
  destruct (owns_no_wrap _ _ _ _ _ _ Hsane Hown) as [Hw1 Hw2].
  pose proof Hown as [Hself Hsize Hroom Hbytes Hblock].
  pose proof (owns_lt _ _ _ _ _ _ Hown) as Hthis.
  destruct (position_ok v p) as [Hassert Hdist]; [lia | lia |].
  unfold Emplace. unfold bind at 1. rewrite (self_run _ _ _ Hself).
  unfold bind at 1. rewrite Hassert, assert_true.
  unfold bind at 1. rewrite Hdist. unfold ret at 1.
  rewrite Hsize, Hcap, Nat.eqb_refl.
  assert (Hc' : (if length xs =? 0 then 1 else size_t (Z.of_nat (length xs) * 2))
                = Nat.max 1 (2 * length xs)).
  { destruct (length xs =? 0) eqn:H0; [apply Nat.eqb_eq in H0; lia|].
    apply Nat.eqb_neq in H0. rewrite size_t_small by lia. lia. }
  rewrite Hc'. set (c' := Nat.max 1 (2 * length xs)).
  rewrite (size_t_small (Z.of_nat (length xs) - Z.of_nat p)) by lia.
  replace (Z.to_nat (Z.of_nat (length xs) - Z.of_nat p)) with (length xs - p) by lia.
  rewrite (size_t_small (Z.of_nat (length xs) + 1)) by lia.
  replace (Z.to_nat (Z.of_nat (length xs) + 1)) with (S (length xs)) by lia.
  unfold bind at 1. unfold local_RawMemory. unfold bind at 1.
  destruct (RawMemory_new E Pl c' w) as [r0 w0] eqn:Hnew.
  destruct Hsane as [Hs Hl].
  apply RawMemory_new_cases in Hnew as [(-> & -> & Hlim) | (-> & -> & Hlim)];
    [ | | done | unfold c'; lia | unfold c'; nia ].
  { intros [= <- <-]. split; [done|]. by left. }
  set (b := length (heap w)). set (w1 := mkWorld _ _ _ _).
  unfold try_catch, bind.
  destruct v as [[buf cap] size]. unfold holds in Hblock. simpl in *. subst size cap.
  norm_ptr.
  run_next r2 w2 Hnewel.
  eapply (construct_at_cases E b p arg w1 _ _ (replicate c' None))
    in Hnewel as (Hv2 & Hr2);
    [ | by apply arg_ok_app | unfold w1, b; simpl; by rewrite block_at_app_new
      | rewrite length_replicate; unfold c'; lia ].
  destruct r2 as [[]|e| |]; try done.
  2:{ destruct Hr2 as (Hh2 & Ht2 & x & -> & Hth).
      unfold RawMemory_delete, Deallocate. simpl.
      erewrite operator_delete_run
        by (rewrite Hh2; unfold w1, b; simpl; by rewrite block_at_app_new).
      unfold throw. intros [= <- <-]. simpl. split; [done|]. right. left.
      exists x. split; [done|]. split; [exact (threw_app E (heap w) _ _ _ Hok Hth)|].
      rewrite Hh2, Ht2. unfold w1, b; simpl. split.
      - by rewrite insert_app_new.
      - by rewrite <- app_assoc. }
  destruct Hr2 as (y & h1' & db1 & Hm & Hb1 & Hh2 & Ht2).
  apply made_app in Hm as (h1 & Hm & ->); [|done].
  pose proof (made_length _ _ _ _ _ Hm) as Hlen1.
  unfold b in Hb1. rewrite <- Hlen1, block_at_app_new in Hb1. simplify_eq.
  rewrite insert_replicate_None in Hh2 by (unfold c'; lia).
  fold b in Hh2. unfold b in Hh2 at 1. rewrite <- Hlen1, insert_app_new in Hh2.
  destruct (made_holds E _ _ _ _ {| buffer_ := buf; capacity_ := length xs |}
              xs Hm Hblock) as (xs1 & Hh1 & Hlxs1).
  destruct buf as [a|]; unfold holds in Hh1; simpl in Hh1.
  - assert (Hab : a ≠ b) by (apply block_at_lt in Hblock; unfold b; lia).
    assert (Ha1 : a < length h1) by (apply block_at_lt in Hh1; lia).
    assert (Hblk : live_block xs1 (length xs) =
              [] ++ (Some <$> take p xs1) ++ (Some <$> drop p xs1) ++ []).
    { unfold live_block. rewrite Hlxs1, Nat.sub_diag.
      rewrite (app_assoc (Some <$> take p xs1)), <- fmap_app, take_drop.
      by rewrite !app_nil_r. }
    assert (Hlt : length (take p xs1) = p) by (rewrite length_take; lia).
    assert (Hld : length (drop p xs1) = length xs - p) by (rewrite length_drop; lia).
    norm_ptr.
    set (mv := nothrow_move_or_no_copy E).
    destruct mv eqn:Hmv.
    + (* relocation by move *)
      run_next r3 w3 Hrel1.
      eapply (relocate_segment E true a b 0 0 p [] [] (take p xs1)
               (replicate p None) ((Some <$> drop p xs1) ++ [])
               (Some y :: replicate (c' - S p) None)) in Hrel1 as (Hv3 & Hr3);
        [ | done | done | done | by rewrite length_replicate | done | | ].
      2:{ rewrite Hh2. rewrite block_at_app_l by done. by rewrite Hh1, Hblk. }
      2:{ rewrite Hh2. unfold b. rewrite <- Hlen1. by rewrite block_at_app_new. }
      destruct r3 as [[]|e| |]; try done.
      2:{ destruct Hr3 as (k & x0 & x & ys & zs & Hk & -> & Hth & HF & Hh3 & Ht3).
          unfold RawMemory_delete, Deallocate. simpl.
          erewrite operator_delete_run.
          2:{ rewrite Hh3. apply block_at_insert_eq. rewrite length_insert.
              rewrite Hh2, length_app. simpl. unfold b. lia. }
          unfold throw. intros [= <- <-]. simpl. split; [by rewrite Hv3|].
          right. right. exists y, h1, xs1, k, x0, x.
          split; [done|]. split; [done|].
          split; [by apply lookup_take_Some in Hk as [? _]|].
          split; [done|]. split; [done|]. split; [done|]. split; [done|].
          assert (Hkp : k < p) by (apply lookup_take_Some in Hk; lia).
            split.
            { exists ys, zs. rewrite take_take in HF.
              by replace (k `min` p) with k in HF by lia. }
            rewrite (proj2 (Nat.ltb_lt k p)) by done.
            rewrite Ht3, Ht2. unfold w1; simpl. rewrite <- !app_assoc. reflexivity. }
      destruct Hr3 as (ys1 & zs1 & HF1 & Hh3 & Ht3).
      destruct (Forall3_length_12 _ _ _ _ HF1) as [Hlys1 Hlzs1].
      run_next r4 w4 Hrel2.
      eapply (relocate_segment E true a b p (S p) (length xs - p)
               (Some <$> zs1) ((Some <$> ys1) ++ [Some y]) (drop p xs1)
               (replicate (length xs - p) None) []
               (replicate (c' - S (length xs)) None)) in Hrel2 as (Hv4 & Hr4);
        [ | done | rewrite length_fmap; lia
          | rewrite length_app, length_fmap; simpl; lia
          | by rewrite length_replicate | done | | ].
      2:{ rewrite Hh3. rewrite block_at_insert_ne by done.
          rewrite block_at_insert_eq by (rewrite Hh2, length_app; lia).
          by rewrite app_nil_r. }
      2:{ rewrite Hh3. rewrite block_at_insert_eq
            by (rewrite length_insert, Hh2, length_app; simpl; unfold b; lia).
          f_equal. simpl. rewrite <- app_assoc. simpl. do 2 f_equal.
          rewrite <- replicate_add. f_equal. unfold c'. lia. }
      destruct r4 as [[]|e| |]; try done.
      2:{ destruct Hr4 as (k & x0 & x & ys & zs & Hk & -> & Hth & HF & Hh4 & Ht4).
          unfold RawMemory_delete, Deallocate. simpl.
          erewrite operator_delete_run.
          2:{ rewrite Hh4. apply block_at_insert_eq. rewrite length_insert.
              rewrite Hh3, !length_insert, Hh2, length_app. simpl. unfold b. lia. }
          unfold throw. intros [= <- <-]. simpl. split; [by rewrite Hv4, Hv3|].
          right. right. exists y, h1, xs1, (p + k), x0, x.
          split; [done|]. split; [done|].
          split; [by rewrite lookup_drop in Hk|].
          split; [done|]. split; [done|]. split; [done|]. split; [done|].
          split.
            { do 2 eexists. rewrite <- take_take_drop.
              eapply Forall3_app; eassumption. }
            rewrite (proj2 (Nat.ltb_ge (p + k) p)) by lia.
            replace (p + k - p) with k by lia.
            rewrite Ht4, Ht3, Ht2. unfold w1; simpl. rewrite <- !app_assoc. reflexivity. }
      destruct Hr4 as (ys2 & zs2 & HF2 & Hh4 & Ht4).
      destruct (Forall3_length_12 _ _ _ _ HF2) as [Hlys2 Hlzs2].
      destruct (destroy_n_live E a (zs1 ++ zs2) [] [] w4) as [s5 Hd].
      { rewrite Hh4. rewrite block_at_insert_ne by done.
        rewrite block_at_insert_eq
          by (rewrite Hh3, !length_insert, Hh2, length_app; lia).
        by rewrite fmap_app, <- app_assoc. }
      simpl in Hd. rewrite length_app, Hlzs1, Hlzs2, Hlt, Hld in Hd.
      replace (p + (length xs - p)) with (length xs) in Hd by lia.
      rewrite Hd.
      erewrite set_data_run by (simpl; rewrite Hv4, Hv3, Hv2; exact Hself).
      erewrite set_size_run
        by (simpl; apply list_lookup_insert_eq; rewrite Hv4, Hv3, Hv2; exact Hthis).
      unfold ret. simpl. unfold RawMemory_delete, Deallocate. simpl.
      erewrite operator_delete_run.
      2:{ simpl. apply block_at_insert_eq. rewrite Hh4, !length_insert.
          rewrite Hh3, !length_insert, Hh2, length_app. lia. }
      simpl.
      erewrite self_run
        by (simpl; rewrite list_insert_insert_eq; apply list_lookup_insert_eq;
            rewrite Hv4, Hv3, Hv2; exact Hthis).
      intros [= <- <-]. simpl.
      exists y, h1, xs1, ys1, zs1, ys2, zs2. eexists.
      split; [done|]. split; [done|]. split; [done|].
      split; [done|]. split; [done|].
      assert (Hheap : ∀ A5, <[a:=None]> (<[a:=A5]> (heap w4))
                = <[a:=None]> h1 ++ [Some (live_block (ys1 ++ y :: ys2) c')]).
      { intros A5. rewrite Hh4, Hh3, Hh2.
        rewrite insert_insert_pair by done.
        rewrite heap_after_growth; [| done | by rewrite Hlen1].
        do 3 f_equal. unfold live_block.
        rewrite <- !app_assoc, fmap_app, <- app_assoc. simpl.
        do 3 f_equal. rewrite length_app. simpl. f_equal. lia. }
      split.
      { split; simpl.
        - rewrite !list_insert_insert_eq. apply list_lookup_insert_eq.
          by rewrite Hv4, Hv3, Hv2.
        - rewrite length_app. simpl. lia.
        - rewrite length_app. simpl. unfold c'. lia.
        - done.
        - rewrite Hheap. simpl. unfold b. rewrite <- Hlen1.
          apply (holds_release_new (Some a)). }
      split; [done|]. split; [done|]. split; [apply Hheap|].
      rewrite Ht4, Ht3, Ht2. unfold w1; simpl. by rewrite <- !app_assoc.
    + (* relocation by copy *)
      run_next r3 w3 Hrel1.
      eapply (relocate_segment E false a b 0 0 p [] [] (take p xs1)
               (replicate p None) ((Some <$> drop p xs1) ++ [])
               (Some y :: replicate (c' - S p) None)) in Hrel1 as (Hv3 & Hr3);
        [ | done | done | done | by rewrite length_replicate | done | | ].
      2:{ rewrite Hh2. rewrite block_at_app_l by done. by rewrite Hh1, Hblk. }
      2:{ rewrite Hh2. unfold b. rewrite <- Hlen1. by rewrite block_at_app_new. }
      destruct r3 as [[]|e| |]; try done.
      2:{ destruct Hr3 as (k & x0 & x & ys & zs & Hk & -> & Hth & HF & Hh3 & Ht3).
          unfold RawMemory_delete, Deallocate. simpl.
          erewrite operator_delete_run.
          2:{ rewrite Hh3. apply block_at_insert_eq. rewrite length_insert.
              rewrite Hh2, length_app. simpl. unfold b. lia. }
          unfold throw. intros [= <- <-]. simpl. split; [by rewrite Hv3|].
          right. right. exists y, h1, xs1, k, x0, x.
          split; [done|]. split; [done|].
          split; [by apply lookup_take_Some in Hk as [? _]|].
          split; [done|]. split; [done|]. split.
          2:{ split; [done|]. assert (Hkp : k < p) by (apply lookup_take_Some in Hk; lia).
            split.
            { exists ys, zs. rewrite take_take in HF.
              by replace (k `min` p) with k in HF by lia. }
            rewrite (proj2 (Nat.ltb_lt k p)) by done.
            rewrite Ht3, Ht2. unfold w1; simpl. rewrite <- !app_assoc. reflexivity. }
          intros _.
          apply Forall3_relocated_copy in HF. subst zs.
          rewrite Hh3, Hh2.
          eapply heap_after_rollback; [| | by rewrite Hlen1].
          { rewrite block_at_app_l by done. exact Hh1. }
          f_equal. rewrite Hblk.
          by rewrite (app_assoc (Some <$> take k _)), <- fmap_app, take_drop. }
      destruct Hr3 as (ys1 & zs1 & HF1 & Hh3 & Ht3).
      destruct (Forall3_length_12 _ _ _ _ HF1) as [Hlys1 Hlzs1].
      pose proof (Forall3_relocated_copy E _ _ _ HF1) as ->.
      run_next r4 w4 Hrel2.
      eapply (relocate_segment E false a b p (S p) (length xs - p)
               (Some <$> take p xs1) ((Some <$> ys1) ++ [Some y]) (drop p xs1)
               (replicate (length xs - p) None) []
               (replicate (c' - S (length xs)) None)) in Hrel2 as (Hv4 & Hr4);
        [ | done | rewrite length_fmap; lia
          | rewrite length_app, length_fmap; simpl; lia
          | by rewrite length_replicate | done | | ].
      2:{ rewrite Hh3. rewrite block_at_insert_ne by done.
          rewrite block_at_insert_eq by (rewrite Hh2, length_app; lia).
          by rewrite app_nil_r. }
      2:{ rewrite Hh3. rewrite block_at_insert_eq
            by (rewrite length_insert, Hh2, length_app; simpl; unfold b; lia).
          f_equal. simpl. rewrite <- app_assoc. simpl. do 2 f_equal.
          rewrite <- replicate_add. f_equal. unfold c'. lia. }
      destruct r4 as [[]|e| |]; try done.
      2:{ destruct Hr4 as (k & x0 & x & ys & zs & Hk & -> & Hth & HF & Hh4 & Ht4).
          unfold RawMemory_delete, Deallocate. simpl.
          erewrite operator_delete_run.
          2:{ rewrite Hh4. apply block_at_insert_eq. rewrite length_insert.
              rewrite Hh3, !length_insert, Hh2, length_app. simpl. unfold b. lia. }
          unfold throw. intros [= <- <-]. simpl. split; [by rewrite Hv4, Hv3|].
          right. right. exists y, h1, xs1, (p + k), x0, x.
          split; [done|]. split; [done|].
          split; [by rewrite lookup_drop in Hk|].
          split; [done|]. split; [done|]. split.
          2:{ split; [done|]. split.
            { do 2 eexists. rewrite <- take_take_drop.
              eapply Forall3_app; eassumption. }
            rewrite (proj2 (Nat.ltb_ge (p + k) p)) by lia.
            replace (p + k - p) with k by lia.
            rewrite Ht4, Ht3, Ht2. unfold w1; simpl. rewrite <- !app_assoc. reflexivity. }
          intros _.
          apply Forall3_relocated_copy in HF. subst zs.
          rewrite Hh4, Hh3, Hh2.
          rewrite insert_insert_pair by done.
          eapply heap_after_rollback; [| | by rewrite Hlen1].
          { rewrite block_at_app_l by done. exact Hh1. }
          f_equal. rewrite Hblk. simpl. f_equal.
          by rewrite (app_assoc (Some <$> take k _)), <- fmap_app, take_drop. }
      destruct Hr4 as (ys2 & zs2 & HF2 & Hh4 & Ht4).
      destruct (Forall3_length_12 _ _ _ _ HF2) as [Hlys2 Hlzs2].
      destruct (destroy_n_live E a (take p xs1 ++ zs2) [] [] w4) as [s5 Hd].
      { rewrite Hh4. rewrite block_at_insert_ne by done.
        rewrite block_at_insert_eq
          by (rewrite Hh3, !length_insert, Hh2, length_app; lia).
        by rewrite fmap_app, <- app_assoc. }
      simpl in Hd. rewrite length_app, Hlzs2, Hlt, Hld in Hd.
      replace (p + (length xs - p)) with (length xs) in Hd by lia.
      rewrite Hd.
      erewrite set_data_run by (simpl; rewrite Hv4, Hv3, Hv2; exact Hself).
      erewrite set_size_run
        by (simpl; apply list_lookup_insert_eq; rewrite Hv4, Hv3, Hv2; exact Hthis).
      unfold ret. simpl. unfold RawMemory_delete, Deallocate. simpl.
      erewrite operator_delete_run.
      2:{ simpl. apply block_at_insert_eq. rewrite Hh4, !length_insert.
          rewrite Hh3, !length_insert, Hh2, length_app. lia. }
      simpl.
      erewrite self_run
        by (simpl; rewrite list_insert_insert_eq; apply list_lookup_insert_eq;
            rewrite Hv4, Hv3, Hv2; exact Hthis).
      intros [= <- <-]. simpl.
      exists y, h1, xs1, ys1, (take p xs1), ys2, zs2. eexists.
      split; [done|]. split; [done|]. split; [done|].
      split; [done|]. split; [done|].
      assert (Hheap : ∀ A5, <[a:=None]> (<[a:=A5]> (heap w4))
                = <[a:=None]> h1 ++ [Some (live_block (ys1 ++ y :: ys2) c')]).
      { intros A5. rewrite Hh4, Hh3, Hh2.
        rewrite insert_insert_pair by done.
        rewrite heap_after_growth; [| done | by rewrite Hlen1].
        do 3 f_equal. unfold live_block.
        rewrite <- !app_assoc, fmap_app, <- app_assoc. simpl.
        do 3 f_equal. rewrite length_app. simpl. f_equal. lia. }
      split.
      { split; simpl.
        - rewrite !list_insert_insert_eq. apply list_lookup_insert_eq.
          by rewrite Hv4, Hv3, Hv2.
        - rewrite length_app. simpl. lia.
        - rewrite length_app. simpl. unfold c'. lia.
        - done.
        - rewrite Hheap. simpl. unfold b. rewrite <- Hlen1.
          apply (holds_release_new (Some a)). }
      split; [done|]. split; [done|]. split; [apply Hheap|].
      rewrite Ht4, Ht3, Ht2. unfold w1; simpl. by rewrite <- !app_assoc.
  - assert (xs = []) as -> by (destruct xs; [done | simpl in *; lia]).
    destruct xs1; [|done]. simpl in *. assert (p = 0) as -> by lia.
    destruct (nothrow_move_or_no_copy E);
      unfold uninitialized_move_n, uninitialized_copy_n; simpl;
      (erewrite set_data_run by (simpl; rewrite Hv2; exact Hself));
      (erewrite set_size_run
         by (simpl; apply list_lookup_insert_eq; rewrite Hv2; exact Hthis));
      simpl; unfold ret; simpl; unfold RawMemory_delete, Deallocate, ret; simpl;
      (erewrite self_run
         by (simpl; rewrite list_insert_insert_eq; apply list_lookup_insert_eq;
             rewrite Hv2; exact Hthis));
      intros [= <- <-]; simpl.
    all: exists y, h1, [], [], [], [], []; eexists.
    all: split; [done|]; split; [done|]; split; [done|].
    all: split; [constructor|]; split; [constructor|].
    all: assert (Hheap : heap w2 = h1 ++ [Some (live_block [y] c')]) by (by rewrite Hh2).
    all: split; [|split; [done|]; split; [done|]; split; [done|];
                   rewrite Ht2, <- app_assoc; done].
    all: split; simpl; [ rewrite !list_insert_insert_eq; apply list_lookup_insert_eq;
                         by rewrite Hv2 | done | unfold c'; lia | done | ].
    all: rewrite Hheap; unfold b; rewrite <- Hlen1; apply (holds_release_new None).
Qed.

Lemma made_threw_exclusive_vectors arg w r w' :
  arg_ok (heap w) arg → make E arg w = (r, w') → vectors w' = vectors w.
Proof. intros Hok Hm. by destruct (make_cases _ _ _ _ _ Hok Hm) as (? & _). Qed.

Lemma Emplace_inplace_cases this v xs p arg w r w' :
  sane E Pl → owns E Pl w this v xs → arg_ok (heap w) arg →
  p ≤ length xs → length xs < capacity_ (data_ v) →
  Emplace E Pl this (begin_ v +ₚ Z.of_nat p) arg w = (r, w') →
  match r with
  | Ok it => ∃ a y h1 xs1 v',
      buffer_ (data_ v) = Some a ∧
      made E (heap w) arg y h1 ∧ holds h1 (data_ v) xs1 ∧ length xs1 = length xs ∧
      it = cell a p ∧ data_ v' = data_ v ∧
      if decide (p = length xs) then
        owns E Pl w' this v' (xs1 ++ [y]) ∧
        trace w' = trace w ++ [EvConstruct (ctor_of arg) (InHeap (cell a (length xs)))]
      else
        ∃ y' z' us xl ys zs yl zl,
          drop p xs1 = us ++ [xl] ∧
          assigned E true y y' z' ∧
          Forall3 (assigned E true) us ys zs ∧
          relocated E true xl yl zl ∧
          owns E Pl w' this v' (take p xs1 ++ y' :: ys ++ [yl]) ∧
          trace w' = trace w ++
            [EvConstruct (ctor_of arg) Local;
             EvConstruct MoveCtor (InHeap (cell a (length xs)))] ++
            assignments MoveAssign (reverse (cells a (S p) (length xs - 1 - p))) ++
            [EvAssign MoveAssign (InHeap (cell a p)); EvDestroy Local]
  | Throw e =>
      (∃ x, e = thrown x ∧ threw E (heap w) arg x ∧
         vectors w' = vectors w ∧ heap w' = heap w ∧ trace w' = trace w) ∨
      (p < length xs ∧ ∃ a y h1 xs1 xl,
         buffer_ (data_ v) = Some a ∧ made E (heap w) arg y h1 ∧
         holds h1 (data_ v) xs1 ∧ length xs1 = length xs ∧
         xs1 !! (length xs - 1) = Some xl ∧
         vectors w' = vectors w ∧
         ((∃ x, e = thrown x ∧ reloc_threw E true xl x ∧ heap w' = h1 ∧
           trace w' = trace w ++ [EvConstruct (ctor_of arg) Local; EvDestroy Local]) ∨
          (∃ yl zl k ys zs z x0 x,
             relocated E true xl yl zl ∧
             k ≤ length xs - 1 - p ∧
             Forall3 (assigned E true)
               (drop (length xs - 1 - k) (take (length xs - 1) xs1)) ys zs ∧
             (k = 0 → z = zl) ∧ (0 < k → zs !! 0 = Some z) ∧
             (if decide (k = length xs - 1 - p) then x0 = y
              else xs1 !! (length xs - 2 - k) = Some x0) ∧
             e = thrown x ∧ assign_threw E true x0 x ∧
             heap w' = <[a := Some ((Some <$> take (length xs - 1 - k) xs1) ++
                          Some z :: (Some <$> ys) ++ Some yl ::
                          replicate (capacity_ (data_ v) - S (length xs)) None)]> h1 ∧
             trace w' = trace w ++
               [EvConstruct (ctor_of arg) Local;
                EvConstruct MoveCtor (InHeap (cell a (length xs)))] ++
               assignments MoveAssign (reverse (cells a (length xs - k) k)) ++
               [EvDestroy Local])))
  | _ => False
  end.
Proof.
  intros Hsane Hown Hok Hp Hcap.
  destruct (owns_no_wrap _ _ _ _ _ _ Hsane Hown) as [Hw1 Hw2].
  pose proof Hown as [Hself Hsize Hroom Hbytes Hblock].
  pose proof (owns_lt _ _ _ _ _ _ Hown) as Hthis.
  destruct (position_ok v p) as [Hassert Hdist]; [lia | lia |].
  unfold Emplace, local_T, std_move_backward, destroy_local, try_catch, bind.
  rewrite (self_run _ _ _ Hself). cbv beta iota.
  rewrite Hassert, assert_true. cbv beta iota.
  rewrite Hdist. unfold ret at 1. cbv beta iota.
  rewrite Hsize.
  rewrite (proj2 (Nat.eqb_neq _ _)) by lia.
  rewrite (size_t_small (Z.of_nat (length xs) + 1)) by lia.
  replace (Z.to_nat (Z.of_nat (length xs) + 1)) with (S (length xs)) by lia.
  destruct v as [[buf cap] size]. unfold holds in Hblock. simpl in Hblock, Hself, Hsize, Hcap, Hroom, Hbytes, Hw1, Hw2.
  subst size.
  destruct buf as [a|]; [|lia]. unfold begin_. cbn [data_ size_].
  norm_ptr.
  assert (Heqb : ptr_eqb (cell a p) (cell a (length xs)) = bool_decide (p = length xs)).
  { unfold ptr_eqb, cell; simpl. rewrite bool_decide_eq_true_2 by done. simpl.
    destruct (decide (p = length xs)) as [->|Hne].
    - rewrite bool_decide_eq_true_2 by done. apply Z.eqb_eq. done.
    - rewrite bool_decide_eq_false_2 by done. apply Z.eqb_neq. lia. }
  rewrite Heqb.
  destruct (decide (p = length xs)) as [->|Hne].
  - (* at the end *)
    rewrite bool_decide_eq_true_2 by done. cbn [negb]. cbv beta iota.
    run_next r1 w1 Hc.
    eapply (construct_at_cases E a (length xs) arg w _ _ _)
      in Hc as (Hv1 & Hr1);
      [ | done | exact Hblock | rewrite length_live_block; lia ].
    destruct r1 as [[]|e| |]; try done.
    + destruct Hr1 as (y & h1 & db1 & Hm & Hb1 & Hh1 & Ht1).
      destruct (made_holds E _ _ _ _ {| buffer_ := Some a; capacity_ := cap |}
                  xs Hm Hblock) as (xs1 & Hx1 & Hlxs1).
      unfold holds in Hx1; simpl in Hx1. rewrite Hx1 in Hb1. simplify_eq.
      erewrite set_size_run by (rewrite Hv1; exact Hself).
      cbv beta iota. erewrite self_run
        by (simpl; apply list_lookup_insert_eq; rewrite Hv1; exact Hthis).
      unfold ret. intros [= <- <-]. cbn [vectors heap trace data_ size_].
      exists a, y, h1, xs1,
        {| data_ := {| buffer_ := Some a; capacity_ := cap |}; size_ := S (length xs) |}.
      split; [done|]. split; [done|]. split; [done|]. split; [done|].
      split; [by norm_ptr|]. split; [done|].
      split; [|done].
      split; simpl.
      * rewrite Hv1. by apply list_lookup_insert_eq.
      * rewrite length_app. simpl. lia.
      * rewrite length_app. simpl. lia.
      * done.
      * unfold holds. simpl. rewrite Hh1.
        rewrite block_at_insert_eq by (by eapply block_at_lt).
        by rewrite <- Hlxs1, live_block_snoc by lia.
    + destruct Hr1 as (Hh1 & Ht1 & x & -> & Hth). intros [= <- <-]. left. eauto 10.
  - (* before the end *)
    rewrite bool_decide_eq_false_2 by done. cbn [negb]. cbv beta iota.
    destruct (make E arg w) as [r1 w1] eqn:Hmake.
    destruct (make_cases _ _ _ _ _ Hok Hmake) as (Hv1 & Ht1 & Hr1).
    destruct r1 as [y|e| |]; try done.
    2:{ destruct Hr1 as (Hh1 & x & -> & Hth). intros [= <- <-]. left. eauto 10. }
    destruct (made_holds E _ _ _ _ {| buffer_ := Some a; capacity_ := cap |}
                xs Hr1 Hblock) as (xs1 & Hx1 & Hlxs1).
    unfold holds in Hx1; simpl in Hx1.
    assert (∃ us xl, drop p xs1 = us ++ [xl]) as (us & xl & Hdrop).
    { destruct (drop p xs1) as [|x0 l] eqn:Hd using rev_ind.
      - apply (f_equal length) in Hd. rewrite length_drop in Hd. simpl in Hd. lia.
      - eauto. }
    assert (Hxs1 : xs1 = take p xs1 ++ us ++ [xl]) by (by rewrite <- Hdrop, take_drop).
    assert (Hlt : length (take p xs1) = p) by (rewrite length_take; lia).
    assert (Hlen : length xs = S (p + length us)).
    { rewrite <- Hlxs1, Hxs1 at 1. rewrite !length_app, Hlt. simpl. lia. }
    assert (Hlast : xs1 !! (p + length us) = Some xl).
    { rewrite Hxs1, app_assoc. apply list_lookup_middle. rewrite length_app. lia. }
    assert (Htake : ∀ k, k ≤ length us →
              take (p + length us - k) xs1 = take p xs1 ++ take (length us - k) us).
    { intros k Hk. rewrite Hxs1 at 1. rewrite take_app_ge by lia. f_equal.
      rewrite take_app_le by lia. f_equal. lia. }
    set (tk := take p xs1) in *.
    assert (Hlk : ((Some <$> tk) ++ (Some <$> us) ++ Some xl :: None ::
                     replicate (cap - S (S (p + length us))) None) !! (p + length us)
                  = Some (Some xl))
      by (apply lookup_mid3; rewrite length_fmap; lia).
    assert (Hblk : live_block xs1 cap =
       (Some <$> tk) ++ (Some <$> us) ++ Some xl :: None :: replicate (cap - S (S (p + length us))) None).
    { unfold live_block. rewrite Hxs1 at 1. rewrite !fmap_app, <- !app_assoc. simpl.
      do 3 f_equal. rewrite Hlxs1, Hlen.
      replace (cap - S (p + length us)) with (S (cap - S (S (p + length us)))) by lia.
      done. }
    rewrite Hblk in Hx1.
    unfold log at 1. cbv beta iota.
    set (w2 := with_event _ w1).
    assert (Hw2h : heap w2 = heap w1) by done.
    assert (Hw2v : vectors w2 = vectors w) by done.
    assert (Hw2t : trace w2 = trace w ++ [EvConstruct (ctor_of arg) Local])
      by (unfold w2; simpl; by rewrite Ht1).
    clearbody w2.
    rewrite Hlen.
    rewrite (size_t_small (Z.of_nat (S (p + length us)) - 1)) by lia.
    replace (Z.to_nat (Z.of_nat (S (p + length us)) - 1)) with (p + length us) by lia.
    rewrite RawMemory_index_run by (simpl; lia). cbv beta iota.
    norm_ptr. rewrite cell_pred.
    destruct (construct_at E (cell a (S (p + length us)))
                (ByMove (Internal (cell a (p + length us)))) w2) as [r3 w3] eqn:Hc.
    eapply (construct_at_cases E a _ _ w2 _ _ _) in Hc as (Hv3 & Hr3);
      [ | | rewrite Hw2h; exact Hx1 | ].
    2:{ simpl. exists xl. rewrite Hw2h.
        rewrite (slot_at_cell _ _ _ _ Hx1). apply lookup_mid3.
        rewrite length_fmap. lia. }
    2:{ rewrite !length_app, !length_fmap. simpl. rewrite length_replicate. lia. }
    destruct r3 as [[]|e| |]; try done.
    2:{ destruct Hr3 as (Hh3 & Ht3 & x & -> & Hth3).
        inversion Hth3 as [ | | | q x1 s s' x2 Hs Hm Hq Hx2 | | ]. subst q x2.
        rewrite Hw2h, (slot_at_cell _ _ _ _ Hx1), Hlk in Hs.
        assert (x1 = xl) as -> by congruence.
        unfold log, throw. cbv beta iota.
        intros [= <- <-]. right. split; [lia|].
        exists a, y, (heap w1), xs1, xl. split; [done|]. split; [done|].
        split; [unfold holds; simpl; by rewrite Hblk|]. split; [lia|].
        split; [by replace (S (p + length us) - 1) with (p + length us) by lia|].
        cbn [vectors heap trace with_event with_statics].
        split; [by rewrite Hv3, Hw2v|]. left. exists x.
        split; [done|]. split; [by exists s, s'|].
        split; [by rewrite Hh3, Hw2h|]. rewrite Ht3, Hw2t. by rewrite <- app_assoc. }
    destruct Hr3 as (yl & h3 & db3 & Hm3 & Hb3 & Hh3 & Ht3).
    rewrite Hw2h in Hm3.
    eapply (reloc_made E true) in Hm3 as (zl & Hrel & Hh3');
      [ | exact Hx1 | apply lookup_mid3; rewrite length_fmap; lia ].
    subst h3.
    rewrite block_at_insert_eq in Hb3 by (by eapply block_at_lt). simplify_eq.
    rewrite list_insert_insert_eq in Hh3.
    rewrite (insert_mid3 _ (Some <$> tk)) in Hh3 by (rewrite !length_fmap; lia).
    assert (Hblk3 : <[S (p + length us) := Some yl]>
               ((Some <$> tk) ++ (Some <$> us) ++ Some zl :: None ::
                  replicate (cap - S (S (p + length us))) None) =
             (Some <$> tk) ++ (Some <$> us) ++ Some zl :: Some yl ::
                  replicate (cap - S (S (p + length us))) None).
    { rewrite (cons_middle (Some zl)), !app_assoc.
      rewrite insert_app_r_alt by (rewrite !length_app, !length_fmap; simpl; lia).
      rewrite !length_app, !length_fmap, Hlt. simpl.
      replace (S (p + length us) - (p + length us + 1)) with 0 by lia.
      by rewrite <- !app_assoc. }
    rewrite Hblk3 in Hh3. clear Hblk3.
    unfold range.
    assert (Hrange : ptr_leb (cell a p) (cell a (p + length us)) = true).
    { unfold ptr_leb, cell; simpl. rewrite bool_decide_eq_true_2 by done.
      apply Z.leb_le. lia. }
    rewrite Hrange. unfold ret at 1. cbv beta iota. cbn [off cell].
    replace (Z.to_nat (Z.of_nat (p + length us) - Z.of_nat p)) with (length us) by lia.
    fold (cell a (p + length us)). fold (cell a (S (p + length us))). fold (cell a p).
    destruct (assign_backward (move_assign E) (cell a (p + length us)) (length us)
                (cell a (S (p + length us))) w3) as [r4 w4] eqn:Hsh.
    rewrite <- Hlt, <- (length_fmap Some tk) in Hsh.
    apply (shift_right E true a (Some <$> tk) us zl
             (Some yl :: replicate (cap - S (S (p + length us))) None) w3)
      in Hsh as (Hv4 & Hr4);
      [ | rewrite Hh3; apply block_at_insert_eq; by eapply block_at_lt ].
    destruct r4 as [[]|e| |]; try done.
    2:{ destruct Hr4 as (k & ys & zs & z & x0 & ex & Hk & HF & Hz & Hzk & Hx0 & -> &
          Hthrew & Hh4 & Ht4).
        unfold log, throw. cbv beta iota.
        intros [= <- <-]. right. split; [lia|].
        exists a, y, (heap w1), xs1, xl. split; [done|]. split; [done|].
        split; [unfold holds; simpl; by rewrite Hblk|]. split; [lia|].
        split; [by replace (S (p + length us) - 1) with (p + length us) by lia|].
        cbn [vectors heap trace with_event with_statics].
        split; [by rewrite Hv4, Hv3, Hw2v|]. right.
        exists yl, zl, k, ys, zs, z, x0, ex.
        replace (S (p + length us) - 1 - k) with (p + length us - k) by lia.
        replace (S (p + length us) - 1) with (p + length us - 0) by lia.
        rewrite !Htake by lia. rewrite !Nat.sub_0_r, firstn_all.
        split; [done|]. split; [lia|]. split.
        { rewrite drop_app_ge by lia.
          by replace (p + length us - k - length tk) with (length us - k) by lia. }
        split; [done|]. split; [done|]. split.
        { rewrite decide_False by lia. rewrite Hxs1.
          rewrite lookup_app_r by lia. rewrite lookup_app_l by lia.
          by replace (S (p + length us) - 2 - k - length tk) with (length us - S k) by lia. }
        split; [done|]. split; [done|]. split.
        { rewrite Hh4, Hh3, list_insert_insert_eq. do 2 f_equal.
          rewrite fmap_app, <- !app_assoc. done. }
        rewrite Ht4, Ht3, Hw2t. rewrite <- !app_assoc. simpl.
        rewrite length_fmap, Hlt.
        by replace (S (p + (length us - k))) with (S (p + length us) - k) by lia. }
    destruct Hr4 as (ys & zs & z0 & HF & Hh4 & Ht4 & Hz0 & Hzk).
    destruct (move_assign_from E (cell a p) y w4) as [r5 w5] eqn:Hma.
    pose proof Hma as Hma'.
    eapply (move_assign_from_cases E a p _ z0) in Hma as (Hv5 & Hr5);
      [ | rewrite Hh4; apply block_at_insert_eq;
          rewrite Hh3, length_insert; by eapply block_at_lt
        | apply list_lookup_middle; by rewrite length_fmap ].
    destruct r5 as [left|e| |]; try done.
    2:{ destruct Hr5 as (Hh5 & Ht5).
        eapply (move_assign_from_cause E a p _ z0) in Hma' as (ex & -> & Hthrew);
          [ | rewrite Hh4; apply block_at_insert_eq;
              rewrite Hh3, length_insert; by eapply block_at_lt
            | apply list_lookup_middle; by rewrite length_fmap ].
        destruct (Forall3_length_12 _ _ _ _ HF) as [Hlys Hlzs].
        unfold log, throw. cbv beta iota.
        intros [= <- <-]. right. split; [lia|].
        exists a, y, (heap w1), xs1, xl. split; [done|]. split; [done|].
        split; [unfold holds; simpl; by rewrite Hblk|]. split; [lia|].
        split; [by replace (S (p + length us) - 1) with (p + length us) by lia|].
        cbn [vectors heap trace with_event with_statics].
        split; [by rewrite Hv5, Hv4, Hv3, Hw2v|]. right.
        exists yl, zl, (length us), ys, zs, z0, y, ex.
        replace (S (p + length us) - 1 - length us) with (p + length us - length us) by lia.
        replace (S (p + length us) - 1) with (p + length us - 0) by lia.
        rewrite !Htake by lia. rewrite !Nat.sub_0_r, Nat.sub_diag, firstn_all.
        simpl take. rewrite app_nil_r.
        split; [done|]. split; [lia|]. split.
        { rewrite drop_app_ge by lia.
          replace (p + length us - length us - length tk) with 0 by lia. done. }
        split.
        { intros Hus. apply Hz0. by destruct us. }
        split.
        { intros Hus. apply Hzk. destruct us; [simpl in Hus; lia|done]. }
        split; [by rewrite decide_True by lia|].
        split; [done|]. split; [done|]. split.
        { rewrite Hh5, Hh4, Hh3, list_insert_insert_eq. done. }
        rewrite Ht5, Ht4, Ht3, Hw2t. rewrite <- !app_assoc. simpl.
        rewrite length_fmap, Hlt.
        by replace (S (p + length us) - length us) with (S p) by lia. }
    destruct Hr5 as (y' & Has & Hh5 & Ht5).
    unfold ret at 1. unfold log. cbv beta iota. cbn [fst snd]. unfold ret at 1.
    cbv beta iota.
    erewrite set_size_run by (simpl; rewrite Hv5, Hv4, Hv3, Hw2v; exact Hself).
    cbv beta iota. erewrite self_run by (simpl; apply list_lookup_insert_eq;
      rewrite Hv5, Hv4, Hv3, Hw2v; exact Hthis).
    unfold ret. intros [= <- <-]. cbn [vectors heap trace data_ size_ with_event with_statics].
    exists a, y, (heap w1), xs1,
      {| data_ := {| buffer_ := Some a; capacity_ := cap |};
         size_ := S (S (p + length us)) |}.
    split; [done|]. split; [done|]. split.
    { unfold holds. simpl. by rewrite Hblk. }
    split; [lia|].
    split; [by norm_ptr|]. split; [done|].
    exists y', left, us, xl, ys, zs, yl, zl.
    split; [done|]. split; [done|]. split; [done|]. split; [done|].
    destruct (Forall3_length_12 _ _ _ _ HF) as [Hlys Hlzs].
    fold tk. split.
    + split; simpl.
      * apply list_lookup_insert_eq.
        by rewrite Hv5, Hv4, Hv3, Hw2v.
      * rewrite !length_app. simpl. rewrite length_app. simpl. lia.
      * rewrite !length_app. simpl. rewrite length_app. simpl. lia.
      * done.
      * unfold holds. simpl. rewrite Hh5.
        rewrite block_at_insert_eq
          by (rewrite Hh4, length_insert, Hh3, length_insert; by eapply block_at_lt).
        f_equal. rewrite insert_app_r_alt by (rewrite length_fmap; lia).
        rewrite length_fmap, Hlt, Nat.sub_diag. simpl. unfold live_block.
        rewrite !fmap_app, <- !app_assoc. simpl. rewrite fmap_app, <- app_assoc.
        simpl. do 5 f_equal. rewrite !length_app. simpl. rewrite length_app. simpl.
        lia.
    + rewrite Ht5, Ht4, Ht3, Hw2t. rewrite <- !app_assoc. simpl.
      do 3 f_equal. rewrite length_fmap, Hlt.
      by replace (p + length us - 0 - p) with (length us) by lia.
Qed.

End Emplacing.

Section Erasing.
Context {T P X : Type}.
Variable E : @ElemType T P X.
Variable Pl : Platform.
Implicit Types (w : @World T P) (h : list (option (list (option T)))).
Implicit Types (a b c i j n o p : nat) (xs ys zs : list T) (v : Vector).
Implicit Types (arg : @args T P X).

Lemma std_shift_eq (mv : bool) first last d_first :
  (if mv then std_move E first last d_first else std_copy E first last d_first) =
  bind (range first last) (fun n => assign_forward (assign_via E mv) first n d_first).
Proof. by destruct mv. Qed.

Lemma Erase_cases this v xs p w r w' :
  sane E Pl → owns E Pl w this v xs → p < length xs →
  Erase E Pl this (begin_ v +ₚ Z.of_nat p) w = (r, w') →
  match r with
  | Ok it => ∃ a ys zs v',
      buffer_ (data_ v) = Some a ∧
      Forall3 (assigned E (nothrow_move_or_no_copy E)) (drop (S p) xs) ys zs ∧
      owns E Pl w' this v' (take p xs ++ ys) ∧
      it = begin_ v' +ₚ Z.of_nat p ∧ data_ v' = data_ v ∧
      trace w' = trace w ++
        assignments (assign_kind (nothrow_move_or_no_copy E))
          (cells a p (length xs - S p)) ++
        [EvDestroy (InHeap (cell a (length xs - 1)))]
  | Throw e => ∃ a k ys zs z,
      buffer_ (data_ v) = Some a ∧ k < length xs - S p ∧
      Forall3 (assigned E (nothrow_move_or_no_copy E)) (take k (drop (S p) xs)) ys zs ∧
      (k = 0 → xs !! p = Some z) ∧
      (0 < k → zs !! (k - 1) = Some z) ∧
      (∃ x0 ex, xs !! (S (p + k)) = Some x0 ∧ e = thrown ex ∧
         assign_threw E (nothrow_move_or_no_copy E) x0 ex) ∧
      owns E Pl w' this v (take p xs ++ ys ++ z :: drop (S (p + k)) xs) ∧
      trace w' = trace w ++
        assignments (assign_kind (nothrow_move_or_no_copy E)) (cells a p k)
  | _ => False
  end.
Proof.
  intros Hsane Hown Hp.
  destruct (owns_no_wrap _ _ _ _ _ _ Hsane Hown) as [Hw1 Hw2].
  pose proof Hown as [Hself Hsize Hroom Hbytes Hblock].
  pose proof (owns_lt _ _ _ _ _ _ Hown) as Hthis.
  destruct (position_ok (T:=T) (P:=P) (X:=X) v p) as [Hassert Hdist]; [lia | lia |].
  assert (Hassert' : ptr_leb (begin_ v) (begin_ v +ₚ Z.of_nat p) &&
                     ptr_ltb (begin_ v +ₚ Z.of_nat p) (end_ v) = true).
  { apply andb_true_iff in Hassert as [H1 _]. rewrite H1. simpl.
    unfold ptr_ltb, begin_, end_, GetAddress, ptr_add; simpl.
    rewrite bool_decide_eq_true_2 by done. apply Z.ltb_lt. lia. }
  unfold Erase, bind.
  rewrite (self_run _ _ _ Hself). cbv beta iota.
  rewrite Hassert', assert_true. cbv beta iota.
  rewrite Hdist. unfold ret at 1. cbv beta iota.
  rewrite std_shift_eq. unfold bind.
  rewrite Hsize.
  destruct v as [[buf cap] size]. unfold holds in Hblock.
  simpl in Hblock, Hself, Hsize, Hroom, Hbytes, Hw1, Hw2. subst size.
  destruct buf as [a|]; [|destruct xs; simpl in *; lia].
  unfold begin_. cbn [data_ size_]. norm_ptr.
  assert (∃ d xs', drop p xs = d :: xs') as (d & xs' & Hdrop).
  { destruct (drop p xs) as [|d l] eqn:Hd; [|by eauto].
    apply (f_equal length) in Hd. rewrite length_drop in Hd. simpl in Hd. lia. }
  assert (Hxs : xs = take p xs ++ d :: xs') by (by rewrite <- Hdrop, take_drop).
  assert (Hxs' : drop (S p) xs = xs').
  { rewrite <- (Nat.add_1_l p), Nat.add_comm, <- drop_drop, Hdrop. done. }
  assert (Hlt : length (take p xs) = p) by (rewrite length_take; lia).
  assert (Hlen : length xs = S (p + length xs')).
  { rewrite Hxs at 1. rewrite !length_app, Hlt. simpl. lia. }
  set (tk := take p xs) in *.
  assert (Hblk : live_block xs cap =
    (Some <$> tk) ++ Some d :: (Some <$> xs') ++ replicate (cap - length xs) None).
  { unfold live_block. rewrite Hxs at 1. by rewrite !fmap_app, <- !app_assoc. }
  rewrite Hblk in Hblock.
  unfold range.
  assert (Hrange : ptr_leb (cell a (S p)) (cell a (length xs)) = true).
  { unfold ptr_leb, cell; simpl. rewrite bool_decide_eq_true_2 by done.
    apply Z.leb_le. lia. }
  rewrite Hrange. unfold ret at 1 2. cbn [off cell].
  replace (Z.to_nat (Z.of_nat (length xs) - Z.of_nat (S p))) with (length xs') by lia.
  fold (cell a (S p)). fold (cell a (length xs)). fold (cell a p).
  set (mv := nothrow_move_or_no_copy E).
  run_next r1 w1 Hsh.
  rewrite <- Hlt, <- (length_fmap Some tk) in Hsh.
  apply (shift_left E mv a xs' (Some <$> tk) d
           (replicate (cap - length xs) None) w) in Hsh as (Hv1 & Hr1);
    [|exact Hblock].
  rewrite length_fmap, Hlt in Hr1.
  destruct r1 as [[]|e| |]; try done.
  2:{ destruct Hr1 as (k & ys & zs & z & Hk & HF & Hz & Hzk &
        (x0 & ex & Hx0 & -> & Hthrew) & Hh1 & Ht1). intros [= <- <-].
      pose proof (Forall3_length_lm _ _ _ _ HF) as Hlys.
      rewrite length_take in Hlys.
      assert (Hdk : drop (S (p + k)) xs = drop k xs').
      { rewrite <- Hxs', drop_drop. done. }
      exists a, k, ys, zs, z. split; [done|]. split; [lia|].
      split; [by rewrite Hxs'|].
      split.
      { intros H0. rewrite (Hz H0), Hxs. apply list_lookup_middle. done. }
      split; [done|]. split.
      { exists x0, ex. split; [|done]. by rewrite <- Hx0, <- Hxs', lookup_drop. }
      split; [|exact Ht1].
      rewrite Hdk. fold tk.
      split; simpl; try done.
      - by rewrite Hv1.
      - rewrite !length_app. simpl. rewrite length_drop. lia.
      - rewrite !length_app. simpl. rewrite length_drop. lia.
      - unfold holds. simpl. rewrite Hh1.
        rewrite block_at_insert_eq by (by eapply block_at_lt). f_equal.
        unfold live_block. rewrite !fmap_app, <- !app_assoc. simpl.
        do 4 f_equal. rewrite !length_app. simpl. rewrite length_drop.
        f_equal. lia. }
  destruct Hr1 as (ys & zs & z & HF & Hh1 & Ht1).
  destruct (Forall3_length_12 _ _ _ _ HF) as [Hlys Hlzs].
  rewrite Hlen at 1. rewrite cell_pred.
  erewrite destroy_at_cell.
  2:{ rewrite Hh1. apply block_at_insert_eq. by eapply block_at_lt. }
  2:{ apply lookup_mid3. rewrite length_fmap. lia. }
  rewrite size_t_small by lia.
  replace (Z.to_nat (Z.of_nat (length xs) - 1)) with (p + length xs') by lia.
  erewrite set_size_run by (simpl; rewrite Hv1; exact Hself).
  erewrite self_run
    by (simpl; apply list_lookup_insert_eq; rewrite Hv1; exact Hthis).
  unfold ret. intros [= <- <-]. cbn [vectors heap trace data_ size_].
  exists a, ys, zs,
    {| data_ := {| buffer_ := Some a; capacity_ := cap |}; size_ := p + length xs' |}.
  split; [done|]. split; [by rewrite Hxs'|]. split.
  - fold tk. split; simpl.
    + apply list_lookup_insert_eq. by rewrite Hv1.
    + rewrite length_app. lia.
    + rewrite length_app. lia.
    + done.
    + unfold holds. simpl. rewrite Hh1, list_insert_insert_eq.
      rewrite block_at_insert_eq by (by eapply block_at_lt). f_equal.
      rewrite (insert_mid3 _ (Some <$> tk)) by (rewrite length_fmap; lia).
      unfold live_block. rewrite fmap_app, <- app_assoc. do 2 f_equal.
      rewrite length_app.
      replace (cap - (length tk + length ys)) with (S (cap - length xs)) by lia.
      done.
  - split; [by norm_ptr|]. split; [done|]. rewrite Ht1, <- app_assoc.
    do 3 f_equal; [f_equal; lia|]. do 3 f_equal. lia.
Qed.

End Erasing.

Section Others.
Context {T P X : Type}.
Variable E : @ElemType T P X.
Variable Pl : Platform.
Implicit Types (w : @World T P) (h : list (option (list (option T)))).
Implicit Types (a b c i j n o p : nat) (xs ys zs : list T) (v : Vector).
Implicit Types (arg : @args T P X).

(** [EmplaceBack] is [PushBack] followed by the access [data_[size_ - 1]]. *)
Lemma EmplaceBack_as_PushBack this arg w :
  EmplaceBack E Pl this arg w =
  bind (PushBack E Pl this arg)
    (fun _ => bind (self this) (fun v =>
       RawMemory_index Pl (data_ v) (size_t (Z.of_nat (size_ v) - 1)))) w.
Proof.
  unfold EmplaceBack, PushBack, bind.
  repeat (let r := fresh "r" in let w1 := fresh "w" in let H := fresh "H" in
          run_next r w1 H; destruct r; try reflexivity).
Qed.

Lemma EmplaceBack_cases this v xs arg w r w' :
  sane E Pl → owns E Pl w this v xs → arg_ok (heap w) arg →
  EmplaceBack E Pl this arg w = (r, w') →
  ∃ r0, PushBack E Pl this arg w = (r0, w') ∧
    match r with
    | Ok it => r0 = Ok tt ∧
        ∀ v' xs', owns E Pl w' this v' xs' →
          it = begin_ v' +ₚ Z.of_nat (length xs' - 1)
    | Throw e => r0 = Throw e
    | _ => False
    end.
Proof.
  intros Hsane Hown Hok. rewrite EmplaceBack_as_PushBack. unfold bind at 1.
  destruct (PushBack E Pl this arg w) as [r0 w0] eqn:HP.
  pose proof (PushBack_cases _ _ _ _ _ _ _ _ _ Hsane Hown Hok HP) as Hcases.
  destruct r0 as [[]|e| |]; try done.
  - destruct Hcases as (y & h1 & xs1 & ys & v' & Hm & Hh1 & Hl & Hown' & _).
    pose proof Hown' as [Hself' Hsize' Hroom' _ _].
    unfold bind. rewrite (self_run _ _ _ Hself').
    rewrite Hsize', length_app. simpl length.
    destruct (owns_no_wrap _ _ _ _ _ _ Hsane Hown') as [_ Hw2].
    rewrite length_app in Hroom'. simpl in Hroom'.
    rewrite size_t_small by lia.
    replace (Z.to_nat (Z.of_nat (length ys + 1) - 1)) with (length ys) by lia.
    rewrite RawMemory_index_run by lia.
    intros [= <- <-]. exists (Ok tt). split; [done|]. split; [done|].
    intros v'' xs'' [Hself'' Hsize'' _ _ _].
    rewrite Hself' in Hself''. simplify_eq.
    unfold begin_. do 2 f_equal. rewrite <- Hsize'', Hsize', length_app. simpl. lia.
  - intros [= <- <-]. by exists (Throw e).
Qed.

Lemma alive_destructions_of buf n :
  alive (destructions_of buf n) = match buf with Some _ => (- Z.of_nat n)%Z | None => 0%Z end.
Proof. destruct buf; simpl; [apply alive_destructions | done]. Qed.

Lemma alive_deletions buf : alive (deletions buf) = 0%Z.
Proof. by destruct buf. Qed.

Lemma threw_NoArgs h x : threw E h NoArgs x → value_threw E x.
Proof. intros Hth. inversion Hth; subst. by eexists _, _. Qed.

Lemma value_construct_first_throws first n w x s' :
  0 < n → T_value E (statics w) = (inl x, s') →
  uninitialized_value_construct_n E first n w = (Throw (thrown x), with_statics s' w).
Proof.
  intros Hn Hth. destruct n as [|n]; [lia|].
  unfold uninitialized_value_construct_n. simpl.
  unfold bind, try_catch, construct_at, bind, make, member. rewrite Hth. done.
Qed.

Lemma value_construct_cases b pre n post w r w' :
  block_at (heap w) b = Some ((Some <$> pre) ++ replicate n None ++ post) →
  uninitialized_value_construct_n E (cell b (length pre)) n w = (r, w') →
  vectors w' = vectors w ∧
  match r with
  | Ok _ => ∃ ys,
      length ys = n ∧ Forall (value_initialised E) ys ∧
      heap w' = <[b := Some ((Some <$> pre ++ ys) ++ post)]> (heap w) ∧
      trace w' = trace w ++ constructions ValueInit b (length pre) n
  | Throw e => ∃ k x,
      k < n ∧ e = thrown x ∧ threw E (heap w) NoArgs x ∧
      heap w' = heap w ∧
      trace w' = trace w ++ constructions ValueInit b (length pre) k ++
        destructions b (length pre) k
  | _ => False
  end.
Proof.
  intros Hb Hrun. unfold uninitialized_value_construct_n in Hrun.
  pose proof (value_loop E b (Some <$> pre) (replicate n None) [] post w r w') as Hl.
  rewrite length_fmap, length_replicate in Hl. simpl in Hl.
  destruct (Hl Hb Hrun) as (Hv & Hr). clear Hl.
  split; [done|]. rewrite ?Nat.add_0_r in Hr.
  destruct r as [[]|e| |]; try done.
  - destruct Hr as (ys & Hl & Hval & Hh & Ht). exists ys. split; [done|].
    split; [done|]. split; [|done].
    rewrite Hh. by rewrite fmap_app, <- app_assoc.
  - destruct Hr as (k & x & Hk & -> & Hth & Hh & Ht). exists k, x.
    split; [done|]. split; [done|]. split; [done|]. split; [|done].
    rewrite Hh. apply insert_block_id. rewrite Hb. do 2 f_equal.
    rewrite drop_replicate, app_assoc, <- replicate_add. do 2 f_equal. lia.
Qed.

(** [Resize] to a larger size. *)
Lemma Resize_grow_cases this v xs n w r w' :
  sane E Pl → owns E Pl w this v xs →
  (Z.of_nat n * sizeof_T E < 2 ^ 64)%Z → length xs < n →
  Resize E Pl this n w = (r, w') →
  ∃ t, trace w' = trace w ++ t ∧
  match r with
  | Ok _ => ∃ v' ys vs,
      owns E Pl w' this v' (ys ++ vs) ∧
      length ys = length xs ∧ length vs = n - length xs ∧
      Forall (value_initialised E) vs ∧
      if n <=? capacity_ (data_ v) then
        ys = xs ∧ data_ v' = data_ v ∧
        ∃ a, buffer_ (data_ v) = Some a ∧
          t = constructions ValueInit a (length xs) (n - length xs)
      else
        (∃ zs, Forall3 (relocated E (nothrow_move_or_no_copy E)) xs ys zs) ∧
        data_ v' = {| buffer_ := Some (length (heap w)); capacity_ := n |} ∧
        t = [EvNew (length (heap w)) n] ++
          constructions (reloc_ctor (nothrow_move_or_no_copy E)) (length (heap w)) 0
            (length xs) ++
          destructions_of (buffer_ (data_ v)) (length xs) ++
          deletions (buffer_ (data_ v)) ++
          constructions ValueInit (length (heap w)) (length xs) (n - length xs)
  | Throw e =>
      alive t = 0%Z ∧
      ((capacity_ (data_ v) < n ∧ e = bad_alloc ∧ w' = w ∧
        (heap_limit Pl < Z.of_nat n * sizeof_T E)%Z) ∨
       (capacity_ (data_ v) < n ∧
        ∃ k x0 x,
          xs !! k = Some x0 ∧ e = thrown x ∧
          reloc_threw E (nothrow_move_or_no_copy E) x0 x ∧
          vectors w' = vectors w ∧
          (nothrow_move_or_no_copy E = false → holds (heap w') (data_ v) xs) ∧
          t = [EvNew (length (heap w)) n] ++
            constructions (reloc_ctor (nothrow_move_or_no_copy E)) (length (heap w)) 0 k ++
            destructions (length (heap w)) 0 k ++ [EvDelete (length (heap w))]) ∨
       (n ≤ capacity_ (data_ v) ∧
        ∃ a k x,
          buffer_ (data_ v) = Some a ∧ k < n - length xs ∧
          e = thrown x ∧ value_threw E x ∧
          vectors w' = vectors w ∧ holds (heap w') (data_ v) xs ∧
          t = constructions ValueInit a (length xs) k ++ destructions a (length xs) k) ∨
       (capacity_ (data_ v) < n ∧
        ∃ k x xs' zs,
          k < n - length xs ∧ e = thrown x ∧ value_threw E x ∧
          (Z.of_nat n * sizeof_T E <= heap_limit Pl)%Z ∧
          Forall3 (relocated E (nothrow_move_or_no_copy E)) xs xs' zs ∧
          owns E Pl w' this
            {| data_ := {| buffer_ := Some (length (heap w)); capacity_ := n |};
               size_ := size_ v |} xs' ∧
          t = [EvNew (length (heap w)) n] ++
            constructions (reloc_ctor (nothrow_move_or_no_copy E)) (length (heap w)) 0
              (length xs) ++
            destructions_of (buffer_ (data_ v)) (length xs) ++
            deletions (buffer_ (data_ v)) ++
            constructions ValueInit (length (heap w)) (length xs) k ++
            destructions (length (heap w)) (length xs) k))
  | _ => False
  end.
Proof.
  intros Hsane Hown Hn Hlt.
  pose proof Hown as [Hself Hsize Hroom Hbytes Hblock].
  pose proof (owns_lt _ _ _ _ _ _ Hown) as Hthis.
  unfold Resize, bind. rewrite (self_run _ _ _ Hself). cbv beta iota.
  rewrite Hsize. rewrite (proj2 (Nat.ltb_lt _ _) Hlt).
  run_next r1 w1 HR.
  pose proof (Reserve_cases _ _ _ _ _ _ _ _ _ Hsane Hown Hn HR) as Hcases.
  destruct r1 as [[]|e| |]; try done.
  2:{ (* Reserve throws *)
      destruct Hcases as (Hcap & Hv1 &
        [(-> & -> & Hlim) | (k & x0 & x & Hk & -> & Hth & Hh & Ht)]).
      - intros [= <- <-]. exists []. rewrite app_nil_r. split; [done|]. split; [done|].
        left. done.
      - intros [= <- <-]. eexists. split; [exact Ht|]. split.
        { rewrite !alive_app, alive_constructions, alive_destructions. simpl. lia. }
        right. left. split; [done|]. exists k, x0, x.
        do 4 (split; [done|]). split; [|done].
        intros Hmv. rewrite (Hh Hmv). by apply holds_app. }
  destruct (n <=? capacity_ (data_ v)) eqn:Hle.
  - (* enough capacity *)
    subst w1. apply Nat.leb_le in Hle.
    rewrite (self_run _ _ _ Hself). cbv beta iota.
    rewrite Hsize.
    rewrite size_t_small
      by (destruct (owns_no_wrap _ _ _ _ _ _ Hsane Hown); lia).
    replace (Z.to_nat (Z.of_nat n - Z.of_nat (length xs))) with (n - length xs) by lia.
    destruct v as [[buf cap] size]. unfold holds in Hblock. simpl in *. subst size.
    destruct buf as [a|]; [|lia]. norm_ptr.
    run_next r2 w2 Hval.
    apply (value_construct_cases a xs (n - length xs) (replicate (cap - n) None))
      in Hval as (Hv2 & Hr2).
    2:{ rewrite Hblock. unfold live_block. do 2 f_equal.
        rewrite <- replicate_add. f_equal. lia. }
    destruct r2 as [[]|e| |]; try done.
    + destruct Hr2 as (ys & Hlys & Hval & Hh2 & Ht2).
      erewrite set_size_run by (rewrite Hv2; exact Hself).
      intros [= <- <-]. simpl. eexists. split; [exact Ht2|].
      exists {| data_ := {| buffer_ := Some a; capacity_ := cap |}; size_ := n |},
        xs, ys.
      split.
      2:{ split; [done|]. split; [done|]. split; [done|]. eauto. }
      split; simpl.
      * rewrite Hv2. by apply list_lookup_insert_eq.
      * rewrite length_app. lia.
      * rewrite length_app. lia.
      * done.
      * unfold holds. simpl. rewrite Hh2.
        rewrite block_at_insert_eq by (by eapply block_at_lt).
        f_equal. unfold live_block. rewrite length_app. do 2 f_equal. lia.
    + destruct Hr2 as (k & x & Hk & -> & Hth & Hh2 & Ht2).
      intros [= <- <-]. eexists. split; [exact Ht2|]. split.
      { rewrite !alive_app, alive_constructions, alive_destructions. lia. }
      right. right. left. split; [done|]. exists a, k, x.
      do 3 (split; [done|]). split; [by apply (threw_NoArgs _ _ Hth)|].
      split; [done|]. split; [|done]. unfold holds. simpl. by rewrite Hh2.
  - (* the capacity grows *)
    apply Nat.leb_gt in Hle.
    destruct Hcases as (xs' & zs & HF & Hlim & Hv1 & Hh1 & Ht1).
    destruct (Forall3_length_12 _ _ _ _ HF) as [Hlxs' Hlzs].
    set (v1 := {| data_ := {| buffer_ := Some (length (heap w)); capacity_ := n |};
                  size_ := size_ v |}) in *.
    assert (Hown1 : owns E Pl w1 this v1 xs').
    { split; simpl.
      - rewrite Hv1. by apply list_lookup_insert_eq.
      - lia.
      - lia.
      - done.
      - rewrite Hh1. apply holds_release_new. }
    assert (Hbal : alive ([EvNew (length (heap w)) n] ++
              constructions (reloc_ctor (nothrow_move_or_no_copy E)) (length (heap w)) 0
                (length xs) ++
              destructions_of (buffer_ (data_ v)) (length xs) ++
              deletions (buffer_ (data_ v))) = 0%Z).
    { rewrite !alive_app, alive_constructions, alive_destructions_of, alive_deletions.
      simpl. destruct (buffer_ (data_ v)) eqn:Hbuf; [lia|].
      destruct (owns_null _ _ _ _ _ _ Hown Hbuf) as [-> _]. done. }
    pose proof Hown1 as [Hself1 _ _ _ Hblock1].
    rewrite (self_run _ _ _ Hself1). cbv beta iota. simpl size_. rewrite Hsize.
    rewrite size_t_small
      by (destruct Hsane as [? ?]; split; [lia|]; nia).
    replace (Z.to_nat (Z.of_nat n - Z.of_nat (length xs))) with (n - length xs) by lia.
    unfold v1. cbn [data_]. norm_ptr.
    run_next r2 w2 Hval. rewrite <- Hlxs' in Hval at 1.
    apply (value_construct_cases (length (heap w)) xs' (n - length xs) [])
      in Hval as (Hv2 & Hr2).
    2:{ unfold holds in Hblock1. simpl in Hblock1. rewrite Hblock1.
        unfold live_block. by rewrite Hlxs', app_nil_r. }
    destruct r2 as [[]|e| |]; try done.
    + destruct Hr2 as (ys & Hlys & Hval & Hh2 & Ht2).
      erewrite set_size_run by (rewrite Hv2; exact Hself1).
      intros [= <- <-]. simpl. eexists. split.
      { rewrite Ht2, Ht1, <- app_assoc. reflexivity. }
      exists {| data_ := {| buffer_ := Some (length (heap w)); capacity_ := n |};
                size_ := n |}, xs', ys.
      split.
      2:{ split; [done|]. split; [lia|]. split; [done|]. split; [eauto|]. split; [done|].
          rewrite Hlxs', <- !app_assoc. reflexivity. }
      split; simpl.
      * rewrite Hv2. apply list_lookup_insert_eq. rewrite Hv1, length_insert. done.
      * rewrite length_app. lia.
      * rewrite length_app. lia.
      * done.
      * unfold holds. simpl. rewrite Hh2.
        rewrite block_at_insert_eq.
        -- f_equal. unfold live_block. rewrite length_app, app_nil_r.
           replace (n - (length xs' + length ys)) with 0 by lia. simpl.
           by rewrite app_nil_r.
        -- unfold holds in Hblock1. simpl in Hblock1. by eapply block_at_lt.
    + destruct Hr2 as (k & x & Hk & -> & Hth & Hh2 & Ht2).
      intros [= <- <-]. eexists. split.
      { rewrite Ht2, Ht1, <- app_assoc. reflexivity. }
      split.
      { rewrite alive_app, Hbal, !alive_app, alive_constructions, alive_destructions.
        lia. }
      right. right. right. split; [done|]. exists k, x, xs', zs.
      do 2 (split; [done|]). split; [by apply (threw_NoArgs _ _ Hth)|].
      do 2 (split; [done|]). split.
      { rewrite <- Hsize. eapply owns_frame; [exact Hown1 | done | by rewrite Hh2]. }
      rewrite Hlxs', <- !app_assoc. reflexivity.
Qed.

(** The copy constructor. *)
Lemma Vector_copy_cases other (o : Vector) xs w r w' :
  sane E Pl → owns E Pl w other o xs →
  Vector_copy E Pl other w = (r, w') →
  vectors w' = vectors w ∧
  match r with
  | Ok v' => ∃ ys,
      Forall3 (relocated E false) xs ys xs ∧
      size_ v' = length xs ∧ capacity_ (data_ v') = length xs ∧
      holds (heap w') (data_ v') ys ∧
      (∀ c, c < length (heap w) → block_at (heap w') c = block_at (heap w) c) ∧
      trace w' = trace w ++
        match buffer_ (data_ v') with
        | Some b => EvNew b (length xs) :: constructions CopyCtor b 0 (length xs)
        | None => []
        end ∧
      buffer_ (data_ v') =
        (if decide (length xs = 0) then None else Some (length (heap w))) ∧
      heap w' =
        (if decide (length xs = 0) then heap w
         else heap w ++ [Some (live_block ys (length xs))])
  | Throw e =>
      (e = bad_alloc ∧ w' = w ∧
       (heap_limit Pl < Z.of_nat (length xs) * sizeof_T E)%Z) ∨
      (∃ k x0 x ys,
         xs !! k = Some x0 ∧ e = thrown x ∧ reloc_threw E false x0 x ∧
         Forall3 (relocated E false) (take k xs) ys (take k xs) ∧
         heap w' = heap w ++ [None] ∧
         trace w' = trace w ++ [EvNew (length (heap w)) (length xs)] ++
           constructions CopyCtor (length (heap w)) 0 k ++
           destructions (length (heap w)) 0 k ++ [EvDelete (length (heap w))])
  | _ => False
  end.
Proof.
  intros Hsane Hown.
  pose proof Hown as [Hself Hsize Hroom Hbytes Hblock].
  destruct (owns_no_wrap _ _ _ _ _ _ Hsane Hown) as [Hw1 Hw2].
  unfold Vector_copy, try_catch, bind. rewrite (self_run _ _ _ Hself). cbv beta iota.
  rewrite Hsize.
  destruct (decide (length xs = 0)) as [H0|H0].
  - destruct xs; [|done]. simpl.
    unfold RawMemory_new, Allocate, bind, ret, uninitialized_copy_n. simpl.
    intros [= <- <-]. split; [done|]. exists []. simpl.
    split; [constructor|]. split; [done|]. split; [done|]. split; [done|].
    split; [done|]. split; [by rewrite app_nil_r|]. done.
  - destruct (RawMemory_new E Pl (length xs) w) as [r0 w0] eqn:Hnew.
    apply RawMemory_new_cases in Hnew as [(-> & -> & Hlim) | (-> & -> & Hlim)];
      [ | | done | lia | destruct Hsane; nia ].
    { intros [= <- <-]. split; [done|]. by left. }
    set (b := length (heap w)). set (w1 := mkWorld _ _ _ _).
    destruct o as [[buf cap] size]. unfold holds in Hblock. simpl in *. subst size.
    destruct buf as [a|]; [|lia]. norm_ptr.
    assert (Hab : a ≠ b) by (apply block_at_lt in Hblock; unfold b; lia).
    run_next r2 w2 Hrel.
    eapply (relocate_segment E false a b 0 0 (length xs) [] [] xs
             (replicate (length xs) None) (replicate (cap - length xs) None) [])
      in Hrel as (Hv2 & Hr2);
      [ | done | done | done | by rewrite length_replicate | done | | ].
    2:{ unfold w1; simpl. rewrite block_at_app_l by (by eapply block_at_lt). done. }
    2:{ unfold w1; simpl. unfold b. rewrite block_at_app_new. by rewrite app_nil_r. }
    destruct r2 as [[]|e| |]; try done.
    + destruct Hr2 as (ys & zs & HF & Hh2 & Ht2).
      pose proof (Forall3_relocated_copy E _ _ _ HF) as ->.
      destruct (Forall3_length_12 _ _ _ _ HF) as [Hlys _].
      unfold ret. intros [= <- <-]. simpl. split; [done|]. exists ys.
      split; [done|]. split; [done|]. split; [done|].
      assert (Hheap : heap w2 = heap w ++ [Some (live_block ys (length xs))]).
      { rewrite Hh2. unfold w1; simpl.
        rewrite (insert_block_id _ a) by (by rewrite block_at_app_l
          by (by eapply block_at_lt)).
        unfold b. rewrite insert_app_new. do 3 f_equal.
        unfold live_block. by rewrite Hlys, Nat.sub_diag. }
      split.
      { unfold holds. simpl. rewrite Hheap. unfold b. by rewrite block_at_app_new. }
      split.
      { intros c Hc. rewrite Hheap. by apply block_at_app_l. }
      split; [rewrite Ht2; unfold w1; simpl; by rewrite <- app_assoc|].
      destruct (decide (length xs = 0)); [done|]. by split.
    + destruct Hr2 as (k & x0 & x & ys & zs & Hk & -> & Hth & HF & Hh2 & Ht2).
      unfold RawMemory_delete, Deallocate. simpl.
      erewrite operator_delete_run.
      2:{ rewrite Hh2. apply block_at_insert_eq. rewrite length_insert.
          unfold w1, b; simpl. rewrite length_app. simpl. lia. }
      unfold throw. intros [= <- <-]. simpl. split; [done|]. right.
      pose proof (Forall3_relocated_copy E _ _ _ HF) as ->.
      exists k, x0, x, ys. split; [done|]. split; [done|]. split; [done|].
      split; [done|].
      rewrite Hh2, Ht2. split.
      * unfold w1; simpl. eapply heap_after_rollback; [| | done].
        { rewrite block_at_app_l by (by eapply block_at_lt). exact Hblock. }
        f_equal. unfold live_block. simpl.
        by rewrite app_assoc, <- fmap_app, take_drop.
      * unfold w1; simpl. by rewrite <- !app_assoc.
Qed.

End Others.

Section Moving.
Context {T P X : Type}.
Variable E : @ElemType T P X.
Variable Pl : Platform.
Implicit Types (w : @World T P) (h : list (option (list (option T)))).
Implicit Types (a b c i j n p : nat) (xs ys zs : list T) (v o : Vector).

Lemma live_block_inj xs ys cap :
  length xs = length ys → live_block xs cap = live_block ys cap → xs = ys.
Proof.
  intros Hl Heq. unfold live_block in Heq.
  apply app_inj_1 in Heq as [Heq _]; [|by rewrite !length_fmap].
  revert Heq. apply (inj (fmap Some)).
Qed.

Lemma holds_inj h m xs ys :
  length xs = length ys → length xs ≤ capacity_ m →
  holds h m xs → holds h m ys → xs = ys.
Proof.
  intros Hl Hle. unfold holds. destruct (buffer_ m) as [a|].
  - intros H1 H2. rewrite H1 in H2. injection H2 as H2. by eapply live_block_inj.
  - intros H0 _. destruct xs; [|simpl in *; lia]. by destruct ys.
Qed.

Lemma owns_null_empty w other vs :
  vectors w = vs → vs !! other = Some {| data_ := {| buffer_ := None; capacity_ := 0 |}; size_ := 0 |} →
  (0 <= heap_limit Pl)%Z →
  owns E Pl w other {| data_ := {| buffer_ := None; capacity_ := 0 |}; size_ := 0 |} [].
Proof. intros <- Hv Hl. split; simpl; try done; lia. Qed.

(** The move constructor: the new object takes the block and the size; the
    source is left with no block and size zero. *)
Lemma Vector_move_run other o w :
  vectors w !! other = Some o →
  Vector_move (X:=X) other w =
    (Ok o,
     mkWorld (<[other := {| data_ := {| buffer_ := None; capacity_ := 0 |};
                            size_ := 0 |}]> (vectors w))
       (heap w) (statics w) (trace w)).
Proof.
  intros Ho. unfold Vector_move, bind. rewrite (self_run _ _ _ Ho). cbv beta iota.
  rewrite (set_data_run _ _ _ _ Ho). cbv beta iota.
  erewrite set_size_run
    by (simpl; apply list_lookup_insert_eq; by eapply lookup_lt_Some).
  unfold ret. simpl. rewrite list_insert_insert_eq.
  destruct o as [[buf cap] size]. reflexivity.
Qed.

(** [Swap] of two distinct vectors exchanges the two objects. *)
Lemma Swap_run this other v o w :
  this ≠ other →
  vectors w !! this = Some v → vectors w !! other = Some o →
  Swap (X:=X) this other w =
    (Ok tt, mkWorld (<[other := v]> (<[this := o]> (vectors w)))
              (heap w) (statics w) (trace w)).
Proof.
  intros Hne Hv Ho.
  pose proof (lookup_lt_Some _ _ _ Hv) as Hlt.
  pose proof (lookup_lt_Some _ _ _ Ho) as Hlo.
  unfold Swap, bind. rewrite (self_run _ _ _ Hv). cbv beta iota.
  rewrite (self_run _ _ _ Ho). cbv beta iota.
  rewrite (set_data_run _ _ _ _ Hv). cbv beta iota.
  erewrite set_data_run by (simpl; rewrite list_lookup_insert_ne by done; exact Ho).
  cbv beta iota.
  erewrite self_run
    by (simpl; rewrite list_lookup_insert_ne by done; by apply list_lookup_insert_eq).
  cbv beta iota.
  erewrite self_run
    by (simpl; apply list_lookup_insert_eq; by rewrite length_insert).
  cbv beta iota.
  erewrite set_size_run
    by (simpl; rewrite list_lookup_insert_ne by done; by apply list_lookup_insert_eq).
  cbv beta iota.
  erewrite set_size_run
    by (simpl; rewrite list_lookup_insert_ne by done; apply list_lookup_insert_eq;
        by rewrite length_insert).
  simpl. do 2 f_equal.
  destruct v as [dv sv], o as [do so]. simpl.
  apply list_eq. intros k.
  destruct (decide (k = other)) as [->|Hko].
  { by rewrite !list_lookup_insert_eq by (by rewrite ?length_insert). }
  rewrite !(list_lookup_insert_ne _ other k) by done.
  destruct (decide (k = this)) as [->|Hkt].
  { by rewrite !list_lookup_insert_eq by (by rewrite ?length_insert). }
  rewrite !(list_lookup_insert_ne _ this k) by done.
  rewrite !(list_lookup_insert_ne _ other k) by done.
  by rewrite !(list_lookup_insert_ne _ this k) by done.
Qed.

Lemma Vector_move_assign_run this rhs v o w :
  this ≠ rhs →
  vectors w !! this = Some v → vectors w !! rhs = Some o →
  Vector_move_assign (X:=X) this rhs w =
    (Ok tt, mkWorld (<[rhs := v]> (<[this := o]> (vectors w)))
              (heap w) (statics w) (trace w)).
Proof.
  intros Hne Hv Ho. unfold Vector_move_assign.
  rewrite (proj2 (Nat.eqb_neq _ _) Hne). simpl. by apply Swap_run.
Qed.

Lemma Vector_move_assign_self this w :
  Vector_move_assign (X:=X) this this w = (Ok tt, w).
Proof. unfold Vector_move_assign. by rewrite Nat.eqb_refl. Qed.

End Moving.

Section Checking.
Context {T P X : Type}.
Variable E : @ElemType T P X.
Variable Pl : Platform.
Implicit Types (w : @World T P) (h : list (option (list (option T)))).
Implicit Types (a b c i j n p : nat) (xs ys zs : list T) (v o : Vector).

Lemma assert_false w : NDEBUG Pl = false → assert_ (X:=X) Pl false w = (AssertFail, w).
Proof. intros H. unfold assert_. by rewrite H. Qed.

Lemma assert_release (c : bool) w : NDEBUG Pl = true → assert_ (X:=X) Pl c w = (Ok tt, w).
Proof. intros H. unfold assert_. by rewrite H. Qed.

Lemma Vector_index_checked this v index w :
  NDEBUG Pl = false → vectors w !! this = Some v → size_ v ≤ index →
  Vector_index (X:=X) Pl this index w = (AssertFail, w).
Proof.
  intros Hd Hv Hi. unfold Vector_index, bind. rewrite (self_run _ _ _ Hv). cbv beta iota.
  rewrite (proj2 (Nat.ltb_ge _ _) Hi). by rewrite assert_false.
Qed.

Lemma Vector_index_unchecked this v index w :
  NDEBUG Pl = true → vectors w !! this = Some v →
  Vector_index (X:=X) Pl this index w = (Ok (begin_ v +ₚ Z.of_nat index), w).
Proof.
  intros Hd Hv. unfold Vector_index, RawMemory_index, bind.
  rewrite (self_run _ _ _ Hv). cbv beta iota.
  rewrite !assert_release by done. reflexivity.
Qed.

Lemma Vector_index_run this v xs index w :
  owns E Pl w this v xs → index < length xs →
  Vector_index (X:=X) Pl this index w = (Ok (begin_ v +ₚ Z.of_nat index), w).
Proof.
  intros [Hv Hsize Hroom _ _] Hi. unfold Vector_index, bind.
  rewrite (self_run _ _ _ Hv). cbv beta iota.
  rewrite Hsize, (proj2 (Nat.ltb_lt _ _) Hi), assert_true.
  rewrite RawMemory_index_run by lia. reflexivity.
Qed.

Lemma Erase_checked this v pos w :
  NDEBUG Pl = false → vectors w !! this = Some v →
  ptr_leb (begin_ v) pos && ptr_ltb pos (end_ v) = false →
  Erase E Pl this pos w = (AssertFail, w).
Proof.
  intros Hd Hv Hpos. unfold Erase, bind. rewrite (self_run _ _ _ Hv). cbv beta iota.
  by rewrite Hpos, assert_false.
Qed.

Lemma Emplace_checked this v pos arg w :
  NDEBUG Pl = false → vectors w !! this = Some v →
  ptr_leb (begin_ v) pos && ptr_leb pos (end_ v) = false →
  Emplace E Pl this pos arg w = (AssertFail, w).
Proof.
  intros Hd Hv Hpos. unfold Emplace, bind. rewrite (self_run _ _ _ Hv). cbv beta iota.
  by rewrite Hpos, assert_false.
Qed.

(** [PopBack] contains no [assert]. *)
Lemma PopBack_unchecked this w : fst (PopBack (X:=X) E this w) ≠ AssertFail.
Proof.
  unfold PopBack, bind. unfold self at 1.
  destruct (vectors w !! this) as [v|]; [|done]. cbv beta iota.
  unfold destroy_at, bind, load.
  destruct (slot_at (heap w) _) as [[x|]|]; try done. cbv beta iota.
  unfold put. cbn [heap with_statics].
  destruct (slot_at (heap w) _); [|done]. cbv beta iota.
  unfold log, set_size. cbn.
  by destruct (vectors w !! this).
Qed.

(** [PopBack] on a vector without elements destroys an object that does not
    exist. *)
Lemma PopBack_empty this v w :
  owns E Pl w this v [] → PopBack (X:=X) E this w = (Undefined, w).
Proof.
  intros [Hv Hsize _ _ _]. unfold PopBack, destroy_at, bind.
  rewrite (self_run _ _ _ Hv). cbv beta iota. rewrite Hsize.
  unfold load, slot_at. simpl.
  destruct (buffer_ (data_ v)); [|done].
  by destruct (block_at (heap w) n).
Qed.

End Checking.

(** * The claims *)

(** ** Moving a vector *)

(** C10: move-assigning a vector to itself is a no-op: the guard
    [this != &rhs] skips the swap, so that nothing at all changes, the size,
    the capacity and the elements of the vector included. *)
Theorem self_move_assign_is_noop {T P X : Type} (this : nat) (w : @World T P) :
  Vector_move_assign (X:=X) this this w = (Ok tt, w).
Proof. apply Vector_move_assign_self. Qed.

(** C8, as stated, fails for move assignment: after [a = std::move(b)] with
    [a] holding one element, the source [b] holds that element and has
    size 1. *)
Lemma move_assign_source_keeps_elements :
  size_ <$> vectors two_vectors !! 0 = Some 1 ∧
  size_ <$> vectors two_vectors !! 1 = Some 2 ∧
  outcome (Vector_move_assign (X:=Empty_set) 0 1) two_vectors = Ok tt ∧
  size_ <$> vectors (after (Vector_move_assign (X:=Empty_set) 0 1) two_vectors) !! 1
    = Some 1 ∧
  elements (after (Vector_move_assign (X:=Empty_set) 0 1) two_vectors)
    {| data_ := {| buffer_ := Some 0; capacity_ := 1 |}; size_ := 1 |}
    = [Some 7%Z].
Proof. repeat split; vm_compute; reflexivity. Qed.

(** C8, amended: the move constructor and the move assignment (from another
    vector) return normally and construct, copy and destroy no element: the
    heap, the trace and the static state of the element type stay as they
    are.  The target adopts the block and the size of the source.  After the
    move constructor the source is valid and empty, without a block; after
    the move assignment the source owns what the target owned before. *)
Theorem move_adopts_storage {T P X : Type} (E : @ElemType T P X) (Pl : Platform)
    (w : @World T P) (rhs : nat) (o : Vector) (ys : list T) :
  sane E Pl → owns E Pl w rhs o ys →
  (∃ w1,
     Vector_move (X:=X) rhs w = (Ok o, w1) ∧
     heap w1 = heap w ∧ trace w1 = trace w ∧ statics w1 = statics w ∧
     holds (heap w1) (data_ o) ys ∧ size_ o = length ys ∧
     owns E Pl w1 rhs {| data_ := {| buffer_ := None; capacity_ := 0 |}; size_ := 0 |} []) ∧
  (∀ (this : nat) (v : Vector) (xs : list T),
     this ≠ rhs → owns E Pl w this v xs →
     ∃ w2,
       Vector_move_assign (X:=X) this rhs w = (Ok tt, w2) ∧
       heap w2 = heap w ∧ trace w2 = trace w ∧ statics w2 = statics w ∧
       owns E Pl w2 this o ys ∧ owns E Pl w2 rhs v xs).
Proof.
  intros [Hs _] Ho.
  pose proof Ho as [Ho1 Ho2 Ho3 Ho4 Ho5].
  pose proof (lookup_lt_Some _ _ _ Ho1) as Hlo.
  split.
  - eexists. split; [by apply Vector_move_run|]. simpl.
    do 5 (split; [done|]).
    split; simpl; try done.
    + by apply list_lookup_insert_eq.
    + nia.
  - intros this v xs Hne Hv.
    pose proof Hv as [Hv1 Hv2 Hv3 Hv4 Hv5].
    pose proof (lookup_lt_Some _ _ _ Hv1) as Hlv.
    eexists. split; [by apply Vector_move_assign_run|]. simpl.
    do 3 (split; [done|]).
    split; split; simpl; try done.
    + rewrite list_lookup_insert_ne by done. by apply list_lookup_insert_eq.
    + apply list_lookup_insert_eq. by rewrite length_insert.
Qed.

Lemma move_adopts_storage_witness :
  (∃ w1,
     Vector_move (X:=Empty_set) 0 ints_123 =
       (Ok {| data_ := {| buffer_ := Some 2; capacity_ := 4 |}; size_ := 3 |}, w1) ∧
     heap w1 = heap ints_123 ∧ trace w1 = trace ints_123 ∧
     holds (heap w1) {| buffer_ := Some 2; capacity_ := 4 |} [1%Z; 2%Z; 3%Z] ∧
     owns int_type debug w1 0
       {| data_ := {| buffer_ := None; capacity_ := 0 |}; size_ := 0 |} []) ∧
  (∃ w2,
     Vector_move_assign (X:=Empty_set) 0 1 two_vectors = (Ok tt, w2) ∧
     owns int_type debug w2 0
       {| data_ := {| buffer_ := Some 2; capacity_ := 2 |}; size_ := 2 |} [8%Z; 9%Z] ∧
     owns int_type debug w2 1
       {| data_ := {| buffer_ := Some 0; capacity_ := 1 |}; size_ := 1 |} [7%Z]).
Proof.
  split.
  - destruct (move_adopts_storage int_type debug ints_123 0
      {| data_ := {| buffer_ := Some 2; capacity_ := 4 |}; size_ := 3 |}
      [1%Z; 2%Z; 3%Z]) as [(w1 & Hrun & Hh & Ht & _ & Hb & _ & Hown) _].
    + split; vm_compute; done.
    + split; vm_compute; (reflexivity || lia || (intros; discriminate)).
    + exists w1. split; [exact Hrun|]. split; [exact Hh|]. split; [exact Ht|].
      split; [exact Hb | exact Hown].
  - destruct (move_adopts_storage int_type debug two_vectors 1
      {| data_ := {| buffer_ := Some 2; capacity_ := 2 |}; size_ := 2 |}
      [8%Z; 9%Z]) as [_ Hassign].
    + split; vm_compute; done.
    + split; vm_compute; (reflexivity || lia || (intros; discriminate)).
    + destruct (Hassign 0
        {| data_ := {| buffer_ := Some 0; capacity_ := 1 |}; size_ := 1 |} [7%Z])
        as (w2 & Hrun & _ & _ & _ & H0 & H1).
      * lia.
      * split; vm_compute; (reflexivity || lia || (intros; discriminate)).
      * exists w2. split; [exact Hrun|]. split; [exact H0 | exact H1].
Defined.

(** ** Preconditions *)

(** C9, as stated, fails for [PopBack]: with assertions enabled, [PopBack] on
    an empty vector does not stop at an assertion; it destroys an object
    that does not exist, which is undefined behaviour. *)
Lemma PopBack_on_empty_is_not_asserted :
  NDEBUG debug = false ∧
  vectors (start (T:=Z) tt) !! 0 = Some Vector_default ∧
  PopBack (X:=Empty_set) int_type 0 (start tt) = (Undefined, start tt).
Proof. repeat split; vm_compute; reflexivity. Qed.

(** C9, amended: with assertions enabled, indexed access with
    [index >= size], [Erase] at a position outside [[begin, end)] and
    [Emplace] and [Insert] at a position outside [[begin, end]] stop at a
    failed assertion and leave everything as it is; without assertions the
    index is not looked at.  [PopBack] has no assertion in any
    configuration: on an empty vector its behaviour is undefined. *)
Theorem preconditions_are_asserted {T P X : Type} (E : @ElemType T P X)
    (Pl : Platform) (w : @World T P) (this : nat) (v : Vector) (xs : list T) :
  NDEBUG Pl = false → owns E Pl w this v xs →
  (∀ index, length xs ≤ index →
     Vector_index (X:=X) Pl this index w = (AssertFail, w)) ∧
  (∀ pos, ptr_leb (begin_ v) pos && ptr_ltb pos (end_ v) = false →
     Erase E Pl this pos w = (AssertFail, w)) ∧
  (∀ pos arg, ptr_leb (begin_ v) pos && ptr_leb pos (end_ v) = false →
     Emplace E Pl this pos arg w = (AssertFail, w) ∧
     Insert E Pl this pos arg w = (AssertFail, w)) ∧
  (∀ index,
     Vector_index (X:=X) {| NDEBUG := true; heap_limit := heap_limit Pl |} this index w
       = (Ok (begin_ v +ₚ Z.of_nat index), w)) ∧
  fst (PopBack (X:=X) E this w) ≠ AssertFail ∧
  (xs = [] → PopBack (X:=X) E this w = (Undefined, w)).
Proof.
  intros Hd Hown. pose proof Hown as [Hv Hsize _ _ _].
  split; [|split; [|split; [|split; [|split]]]].
  - intros index Hi. eapply Vector_index_checked; [done|done|lia].
  - intros pos Hpos. by eapply Erase_checked.
  - intros pos arg Hpos. unfold Insert. split; by eapply Emplace_checked.
  - intros index. by eapply Vector_index_unchecked.
  - apply PopBack_unchecked.
  - intros ->. by eapply PopBack_empty.
Qed.

Lemma preconditions_are_asserted_witness :
  Vector_index (X:=Empty_set) debug 0 3 ints_123 = (AssertFail, ints_123) ∧
  Erase int_type debug 0 (cell 2 3) ints_123 = (AssertFail, ints_123).
Proof.
  destruct (preconditions_are_asserted int_type debug ints_123 0
    {| data_ := {| buffer_ := Some 2; capacity_ := 4 |}; size_ := 3 |}
    [1%Z; 2%Z; 3%Z]) as (Hindex & Herase & _).
  - reflexivity.
  - split; vm_compute; (reflexivity || lia || (intros; discriminate)).
  - split; [apply Hindex; simpl; lia | apply Herase; reflexivity].
Defined.

(** ** The copy constructor *)

Lemma sane_Obj : sane Obj_type debug.
Proof. split; vm_compute; done. Qed.

Lemma sane_int : sane int_type debug.
Proof. split; vm_compute; done. Qed.

(** C7: when the copy constructor of the [k]-th element of the source throws
    (and those of the elements before it return), the copy constructor of
    the vector throws that very exception; before it does, the [k] copies
    built so far are destroyed, so that no object it built is left alive, and
    the block it allocated is released.  The source is as it was. *)
Theorem copy_construction_rolls_back {T P X : Type} (E : @ElemType T P X)
    (Pl : Platform) (w : @World T P) (other : nat) (o : Vector) (xs : list T)
    (k : nat) (x0 : T) (x : X) :
  sane E Pl → owns E Pl w other o xs →
  xs !! k = Some x0 → copy_throws E x0 x → Forall (copy_returns E) (take k xs) →
  ∃ w',
    Vector_copy E Pl other w = (Throw (thrown x), w') ∧
    trace w' = trace w ++ [EvNew (length (heap w)) (length xs)] ++
      constructions CopyCtor (length (heap w)) 0 k ++
      destructions (length (heap w)) 0 k ++ [EvDelete (length (heap w))] ∧
    alive (events (Vector_copy E Pl other) w) = 0%Z ∧
    heap w' = heap w ++ [None] ∧
    owns E Pl w' other o xs.
Proof.
  intros Hsane Hown Hk Hthrows Hbefore.
  destruct (Vector_copy E Pl other w) as [r w'] eqn:Hrun.
  pose proof (Vector_copy_cases E Pl _ _ _ _ _ _ Hsane Hown Hrun) as [Hvec Hcases].
  assert (Hno : ∀ y s s', T_copy E x0 s = (inr y, s') → False).
  { intros y s s' Hy. destruct (Hthrows s) as [s'' Hs]. congruence. }
  destruct r as [v'|e| |]; try done.
  - destruct Hcases as (ys & HF & _).
    destruct (Forall3_lookup_l _ _ _ _ _ _ HF Hk) as (y & z & _ & _ & [(s & s' & Hy) _]).
    by destruct (Hno y s s').
  - destruct Hcases as [(-> & -> & Hlim) | (k' & x0' & x' & ys & Hk' & -> & Hth & HF & Hh & Ht)].
    { destruct Hown as [_ _ Hroom Hbytes _]. destruct Hsane as [Hs _]. nia. }
    assert (k' = k) as ->.
    { destruct (Nat.lt_trichotomy k' k) as [Hlt | [-> | Hgt]]; [|done|].
      - rewrite Forall_lookup in Hbefore.
        assert (take k xs !! k' = Some x0') as Hin by (by rewrite lookup_take_lt).
        destruct Hth as (s & s' & Hs).
        destruct (Hbefore _ _ Hin s) as (y & s'' & Hy). congruence.
      - assert (take k' xs !! k = Some x0) as Hin by (by rewrite lookup_take_lt).
        destruct (Forall3_lookup_l _ _ _ _ _ _ HF Hin)
          as (y & z & _ & _ & [(s & s' & Hy) _]).
        by destruct (Hno y s s'). }
    assert (x0' = x0) as -> by congruence.
    assert (x' = x) as ->.
    { destruct Hth as (s & s' & Hs). destruct (Hthrows s) as [s'' Hs']. congruence. }
    exists w'. split; [done|]. split; [done|]. split.
    { unfold events, after. rewrite Hrun. simpl. rewrite Ht, drop_app_length.
      rewrite !alive_app, alive_constructions, alive_destructions. simpl. lia. }
    split; [done|].
    eapply owns_frame; [done|done|]. rewrite Hh. apply holds_app. by destruct Hown.
Qed.

Lemma copy_construction_rolls_back_witness :
  ∃ w',
    Vector_copy Obj_type debug 0 Objs_second_throws = (Throw (thrown Oops), w') ∧
    alive (events (Vector_copy Obj_type debug 0) Objs_second_throws) = 0%Z ∧
    heap w' = heap Objs_second_throws ++ [None].
Proof.
  destruct (copy_construction_rolls_back Obj_type debug Objs_second_throws 0
    {| data_ := {| buffer_ := Some 0; capacity_ := 3 |}; size_ := 3 |}
    [ {| throw_on_copy := false; id := 0 |}; {| throw_on_copy := true; id := 0 |};
      {| throw_on_copy := false; id := 0 |} ]
    1 {| throw_on_copy := true; id := 0 |} Oops)
    as (w' & Hrun & _ & Halive & Hheap & _).
  - split; vm_compute; done.
  - split; vm_compute; (reflexivity || lia || (intros; discriminate)).
  - reflexivity.
  - intros s. eexists. reflexivity.
  - repeat constructor. intros s. eexists _, _. reflexivity.
  - exists w'. split; [exact Hrun|]. split; [exact Halive | exact Hheap].
Defined.

(** ** Values *)

Section Values.
Context {T P X : Type}.
Variable E : @ElemType T P X.
Variable Pl : Platform.
Implicit Types (w : @World T P) (h : list (option (list (option T)))).
Implicit Types (a b c i j n p : nat) (xs ys zs : list T) (v o : Vector).
Implicit Types (arg : @args T P X).

Lemma relocated_values (mv : bool) xs ys zs :
  copy_faithful E → move_faithful E →
  Forall3 (relocated E mv) xs ys zs → ys = xs.
Proof.
  intros Hc Hm. induction 1 as [|x y z xs ys zs Hr _ IH]; [done|].
  f_equal; [|done]. destruct mv; simpl in Hr.
  - destruct Hr as (s & s' & Hr). by eapply Hm.
  - destruct Hr as [(s & s' & Hr) _]. by eapply Hc.
Qed.

Lemma assigned_value (mv : bool) x y z :
  copy_assign_faithful E → move_assign_faithful E → assigned E mv x y z → y = x.
Proof.
  intros Hc Hm Ha. destruct mv; simpl in Ha.
  - destruct Ha as (d & s & s' & Ha). by eapply Hm.
  - destruct Ha as [(d & s & s' & Ha) _]. by eapply Hc.
Qed.

Lemma assigned_values (mv : bool) xs ys zs :
  copy_assign_faithful E → move_assign_faithful E →
  Forall3 (assigned E mv) xs ys zs → ys = xs.
Proof.
  intros Hc Hm. induction 1 as [|x y z xs ys zs Hr _ IH]; [done|].
  f_equal; [|done]. by eapply assigned_value.
Qed.

Lemma made_external h x arg y h1 :
  copy_faithful E → move_faithful E →
  arg = ByCopy (External x) ∨ arg = ByMove (External x) →
  made E h arg y h1 → y = x ∧ h1 = h.
Proof.
  intros Hc Hm [-> | ->] Hmade; inversion Hmade; subst; split; try done.
  - by eapply Hc.
  - by eapply Hm.
Qed.

Lemma owns_slot w this v xs i x :
  owns E Pl w this v xs → xs !! i = Some x →
  slot_at (heap w) (begin_ v +ₚ Z.of_nat i) = Some (Some x).
Proof.
  intros [_ _ Hroom _ Hblock] Hi. unfold holds in Hblock. unfold begin_, GetAddress.
  destruct (buffer_ (data_ v)) as [a|] eqn:Hbuf.
  - change (Ptr (Some a) 0 +ₚ Z.of_nat i) with (Ptr (Some a) (0 + Z.of_nat i)).
    rewrite Z.add_0_l. change (Ptr (Some a) (Z.of_nat i)) with (cell a i).
    rewrite (slot_at_cell _ _ _ _ Hblock). unfold live_block.
    rewrite lookup_app_l by (rewrite length_fmap; by eapply lookup_lt_Some).
    by rewrite list_lookup_fmap, Hi.
  - apply lookup_lt_Some in Hi. lia.
Qed.

End Values.

(** ** Insertion and removal *)

(** C5: [Insert] of a value [x] (an object that is no element of the vector)
    at a position [p] of [[begin, end]], when it returns, has increased the
    size by one, left the elements before [p] as they were, shifted the
    elements from [p] on by one slot to the right, and returns the iterator
    at offset [p], whose element is [x].  [Erase] at a position [p] of
    [[begin, end)], when it returns, has decreased the size by one, left the
    elements before [p] as they were, shifted the elements after [p] by
    one slot to the left, and returns the iterator at offset [p]: its element
    is what was at [p + 1], or it is [end()] if the last element was erased.
    Elements are compared by value, for an element type with value
    semantics. *)
Theorem insert_erase_index_arithmetic {T P X : Type} (E : @ElemType T P X)
    (Pl : Platform) (w : @World T P) (this : nat) (v : Vector) (xs : list T)
    (p : nat) (x : T) (arg : @args T P X) :
  sane E Pl → value_semantics E → owns E Pl w this v xs →
  arg = ByCopy (External x) ∨ arg = ByMove (External x) →
  (p ≤ length xs →
   inserted_at E Pl this v xs p x (Insert E Pl this (begin_ v +ₚ Z.of_nat p) arg w)) ∧
  (p < length xs →
   erased_at E Pl this v xs p (Erase E Pl this (begin_ v +ₚ Z.of_nat p) w)).
Proof.
  intros Hsane (Hc & Hm & Hca & Hma) Hown Harg.
  pose proof Hown as [Hself Hsize Hroom Hbytes Hblock].
  assert (Hok : arg_ok (heap w) arg) by (by destruct Harg as [-> | ->]).
  split.
  - intros Hp. unfold Insert, inserted_at.
    destruct (Emplace E Pl this (begin_ v +ₚ Z.of_nat p) arg w) as [r w'] eqn:Hrun.
    destruct (decide (capacity_ (data_ v) = length xs)) as [Hfull | Hroomy].
    + pose proof (Emplace_grow_cases E Pl _ _ _ _ _ _ _ _ Hsane Hown Hok Hp Hfull Hrun)
        as Hcases.
      destruct r as [it|e| |]; try done.
      destruct Hcases as (y & h1 & xs1 & ys1 & zs1 & ys2 & zs2 & v' & Hmade & Hh1 & Hl1 &
        HF1 & HF2 & Hown' & -> & _).
      destruct (made_external E _ _ _ _ _ Hc Hm Harg Hmade) as [-> ->].
      assert (xs1 = xs) as -> by (eapply holds_inj; [done| |done|done]; lia).
      apply (relocated_values E _ _ _ _ Hc Hm) in HF1, HF2. subst ys1 ys2.
      exists v'. split; [done|]. split.
      { destruct Hown' as [_ Hs' _ _ _]. rewrite Hs', Hsize, length_app. simpl.
        rewrite length_take, length_drop. lia. }
      split; [done|].
      eapply owns_slot; [done|].
      rewrite lookup_app_r by (rewrite length_take; lia).
      rewrite length_take. by replace (p - p `min` length xs) with 0 by lia.
    + assert (Hlt : length xs < capacity_ (data_ v)) by lia.
      pose proof (Emplace_inplace_cases E Pl _ _ _ _ _ _ _ _ Hsane Hown Hok Hp Hlt Hrun)
        as Hcases.
      destruct r as [it|e| |]; try done.
      destruct Hcases as (a & y & h1 & xs1 & v' & Hbuf & Hmade & Hh1 & Hl1 & -> & Hd' & Hrest).
      destruct (made_external E _ _ _ _ _ Hc Hm Harg Hmade) as [-> ->].
      assert (xs1 = xs) as -> by (eapply holds_inj; [done| |done|done]; lia).
      assert (Hown' : owns E Pl w' this v' (take p xs ++ x :: drop p xs)).
      { destruct (decide (p = length xs)) as [-> | Hne].
        - destruct Hrest as [Hown' _]. by rewrite firstn_all, drop_all.
        - destruct Hrest as (y' & z' & us & xl & ys & zs & yl & zl & Hdrop & Hy' & HF &
            Hl & Hown' & _).
          apply (assigned_value E _ _ _ _ Hca Hma) in Hy'. subst y'.
          apply (assigned_values E _ _ _ _ Hca Hma) in HF. subst ys.
          assert (yl = xl) as ->.
          { destruct Hl as (s & s' & Hl). by eapply Hm. }
          by rewrite Hdrop. }
      exists v'. split; [done|]. split.
      { destruct Hown' as [_ Hs' _ _ _]. rewrite Hs', Hsize, length_app. simpl.
        rewrite length_take, length_drop. lia. }
      assert (Hit : cell a p = begin_ v' +ₚ Z.of_nat p).
      { unfold begin_, GetAddress. rewrite Hd', Hbuf. unfold cell, ptr_add. simpl.
        by rewrite Z.add_0_l. }
      split; [done|]. rewrite Hit.
      eapply owns_slot; [done|].
      rewrite lookup_app_r by (rewrite length_take; lia).
      rewrite length_take. by replace (p - p `min` length xs) with 0 by lia.
  - intros Hp. unfold erased_at.
    destruct (Erase E Pl this (begin_ v +ₚ Z.of_nat p) w) as [r w'] eqn:Hrun.
    pose proof (Erase_cases E Pl _ _ _ _ _ _ _ Hsane Hown Hp Hrun) as Hcases.
    destruct r as [it|e| |]; try done.
    destruct Hcases as (a & ys & zs & v' & Hbuf & HF & Hown' & -> & Hd' & _).
    apply (assigned_values E _ _ _ _ Hca Hma) in HF. subst ys.
    exists v'. split; [done|].
    assert (Hs' : size_ v' = length xs - 1).
    { destruct Hown' as [_ Hs' _ _ _]. rewrite Hs', length_app, length_take, length_drop.
      lia. }
    split; [lia|]. split; [done|].
    destruct (xs !! S p) as [y|] eqn:Hnext.
    + eapply owns_slot; [done|].
      rewrite lookup_app_r by (rewrite length_take; lia).
      rewrite length_take, lookup_drop. rewrite <- Hnext. f_equal. lia.
    + apply lookup_ge_None in Hnext. unfold end_, begin_. do 2 f_equal. lia.
Qed.

Lemma value_semantics_int : value_semantics int_type.
Proof.
  repeat split.
  - intros x s y s' [= <- _]. reflexivity.
  - intros x s y z s' [= <- _ _]. reflexivity.
  - intros d x s y s' [= <- _]. reflexivity.
  - intros d x s y z s' [= <- _ _]. reflexivity.
Qed.

Lemma owns_ints_12_of_4 :
  owns int_type debug ints_12_of_4 0
    {| data_ := {| buffer_ := Some 0; capacity_ := 4 |}; size_ := 2 |} [1%Z; 2%Z].
Proof. split; vm_compute; (reflexivity || lia || (intros; discriminate)). Qed.

Lemma insert_erase_index_arithmetic_witness :
  inserted_at int_type debug 0
    {| data_ := {| buffer_ := Some 0; capacity_ := 4 |}; size_ := 2 |} [1%Z; 2%Z] 1 5%Z
    (Insert int_type debug 0 (cell 0 1) (ByCopy (External 5%Z)) ints_12_of_4) ∧
  erased_at int_type debug 0
    {| data_ := {| buffer_ := Some 0; capacity_ := 4 |}; size_ := 2 |} [1%Z; 2%Z] 1
    (Erase int_type debug 0 (cell 0 1) ints_12_of_4).
Proof.
  destruct (insert_erase_index_arithmetic int_type debug ints_12_of_4 0
    {| data_ := {| buffer_ := Some 0; capacity_ := 4 |}; size_ := 2 |} [1%Z; 2%Z] 1 5%Z
    (ByCopy (External 5%Z))) as [Hins Hers].
  - exact sane_int.
  - exact value_semantics_int.
  - exact owns_ints_12_of_4.
  - by left.
  - split; [apply Hins; simpl; lia | apply Hers; simpl; lia].
Defined.

(** ** Growth *)

Section Growing.
Context {T P X : Type}.
Variable E : @ElemType T P X.
Variable Pl : Platform.
Implicit Types (w : @World T P) (h : list (option (list (option T)))).
Implicit Types (a b c i j n p : nat) (xs ys zs : list T) (v o : Vector).
Implicit Types (arg : @args T P X).

(** The elements are those of before once the new element has been built
    from arguments that do not move from an element. *)
Lemma made_pure_elements w this v xs arg y h1 xs1 :
  owns E Pl w this v xs → pure_arg arg → made E (heap w) arg y h1 →
  holds h1 (data_ v) xs1 → length xs1 = length xs → h1 = heap w ∧ xs1 = xs.
Proof.
  intros [_ _ Hroom _ Hblock] Hpure Hmade Hh1 Hl.
  pose proof (made_pure E _ _ _ _ Hpure Hmade) as ->. split; [done|].
  eapply holds_inj; [done| |done|done]. lia.
Qed.

Lemma PushBack_grown this v xs arg w :
  sane E Pl → copy_faithful E → move_faithful E →
  owns E Pl w this v xs → arg_ok (heap w) arg → pure_arg arg →
  Capacity v = Size v →
  grown E Pl this v (λ y, xs ++ [y]) (PushBack E Pl this arg w).
Proof.
  intros Hsane Hc Hm Hown Hok Hpure Hfull. unfold grown, Capacity, Size in *.
  destruct (PushBack E Pl this arg w) as [r w'] eqn:Hrun.
  pose proof (PushBack_cases E Pl _ _ _ _ _ _ _ Hsane Hown Hok Hrun) as Hcases.
  destruct r as [[]|e| |]; try done.
  destruct Hcases as (y & h1 & xs1 & ys & v' & Hmade & Hh1 & Hl1 & Hown' & Hrest).
  destruct (made_pure_elements _ _ _ _ _ _ _ _ Hown Hpure Hmade Hh1 Hl1) as [-> ->].
  pose proof Hown as [_ Hsize _ _ _].
  rewrite (proj2 (Nat.eqb_eq _ _)) in Hrest by lia.
  destruct Hrest as ((zs & HF) & Hd' & _).
  apply (relocated_values E _ _ _ _ Hc Hm) in HF. subst ys.
  exists v', y. split; [done|]. rewrite Hd'. simpl. by rewrite Hfull, Hsize.
Qed.

Lemma Emplace_grown this v xs p arg w :
  sane E Pl → copy_faithful E → move_faithful E →
  owns E Pl w this v xs → arg_ok (heap w) arg → pure_arg arg →
  Capacity v = Size v → p ≤ length xs →
  grown E Pl this v (λ y, take p xs ++ y :: drop p xs)
    (Emplace E Pl this (begin_ v +ₚ Z.of_nat p) arg w).
Proof.
  intros Hsane Hc Hm Hown Hok Hpure Hfull Hp. unfold grown, Capacity, Size in *.
  pose proof Hown as [_ Hsize _ _ _]. rewrite Hsize in Hfull.
  destruct (Emplace E Pl this _ arg w) as [r w'] eqn:Hrun.
  pose proof (Emplace_grow_cases E Pl _ _ _ _ _ _ _ _ Hsane Hown Hok Hp Hfull Hrun)
    as Hcases.
  destruct r as [it|e| |]; try done.
  destruct Hcases as (y & h1 & xs1 & ys1 & zs1 & ys2 & zs2 & v' & Hmade & Hh1 & Hl1 &
    HF1 & HF2 & Hown' & _ & Hd' & _).
  destruct (made_pure_elements _ _ _ _ _ _ _ _ Hown Hpure Hmade Hh1 Hl1) as [-> ->].
  apply (relocated_values E _ _ _ _ Hc Hm) in HF1, HF2. subst ys1 ys2.
  exists v', y. split; [done|]. rewrite Hd'. simpl. by rewrite Hfull.
Qed.

End Growing.

(** C3: an insertion ([PushBack], [EmplaceBack], [Emplace], [Insert]) into a
    vector whose size equals its capacity, when it returns, has made the
    capacity [max(1, 2 * old capacity)], so 1 from 0, and the elements of
    before are there with their values in their order, around the new
    element.  The new element is built from arguments that do not move from
    an element of the vector; elements are compared by value, for an element
    type whose copies and moves keep the value. *)
Theorem growth_doubles_capacity {T P X : Type} (E : @ElemType T P X) (Pl : Platform)
    (w : @World T P) (this : nat) (v : Vector) (xs : list T) (p : nat)
    (arg : @args T P X) :
  sane E Pl → copy_faithful E → move_faithful E →
  owns E Pl w this v xs → arg_ok (heap w) arg → pure_arg arg →
  Capacity v = Size v → p ≤ length xs →
  grown E Pl this v (λ y, xs ++ [y]) (PushBack E Pl this arg w) ∧
  grown E Pl this v (λ y, xs ++ [y]) (EmplaceBack E Pl this arg w) ∧
  grown E Pl this v (λ y, take p xs ++ y :: drop p xs)
    (Emplace E Pl this (begin_ v +ₚ Z.of_nat p) arg w) ∧
  grown E Pl this v (λ y, take p xs ++ y :: drop p xs)
    (Insert E Pl this (begin_ v +ₚ Z.of_nat p) arg w).
Proof.
  intros Hsane Hc Hm Hown Hok Hpure Hfull Hp.
  pose proof (PushBack_grown E Pl this v xs arg w Hsane Hc Hm Hown Hok Hpure Hfull)
    as Hpush.
  pose proof (Emplace_grown E Pl this v xs p arg w Hsane Hc Hm Hown Hok Hpure Hfull Hp)
    as Hemplace.
  split; [done|]. split; [|by split].
  unfold grown in *.
  destruct (EmplaceBack E Pl this arg w) as [r w'] eqn:Hrun.
  destruct (EmplaceBack_cases E Pl _ _ _ _ _ _ _ Hsane Hown Hok Hrun) as (r0 & HP & Hr).
  rewrite HP in Hpush.
  destruct r as [it|e| |]; try done.
  by destruct Hr as [-> _].
Qed.

Lemma owns_start_int : owns int_type debug (start tt) 0 Vector_default [].
Proof. split; vm_compute; (reflexivity || lia || (intros; discriminate)). Qed.

Lemma owns_ints_1 :
  owns int_type debug ints_1 0
    {| data_ := {| buffer_ := Some 0; capacity_ := 1 |}; size_ := 1 |} [1%Z].
Proof. split; vm_compute; (reflexivity || lia || (intros; discriminate)). Qed.

Lemma owns_ints_12 :
  owns int_type debug ints_12 0
    {| data_ := {| buffer_ := Some 1; capacity_ := 2 |}; size_ := 2 |} [1%Z; 2%Z].
Proof. split; vm_compute; (reflexivity || lia || (intros; discriminate)). Qed.

Lemma owns_ints_123 :
  owns int_type debug ints_123 0
    {| data_ := {| buffer_ := Some 2; capacity_ := 4 |}; size_ := 3 |} [1%Z; 2%Z; 3%Z].
Proof. split; vm_compute; (reflexivity || lia || (intros; discriminate)). Qed.

Lemma growth_doubles_capacity_witness :
  grown int_type debug 0 Vector_default (λ y, [] ++ [y]) (push_int 1 (start tt)) ∧
  grown int_type debug 0 {| data_ := {| buffer_ := Some 0; capacity_ := 1 |}; size_ := 1 |}
    (λ y, [1%Z] ++ [y]) (push_int 2 ints_1) ∧
  grown int_type debug 0 {| data_ := {| buffer_ := Some 1; capacity_ := 2 |}; size_ := 2 |}
    (λ y, [1%Z; 2%Z] ++ [y]) (push_int 3 ints_12).
Proof.
  pose proof value_semantics_int as (Hc & Hm & _ & _).
  destruct (growth_doubles_capacity int_type debug (start tt) 0 Vector_default [] 0
    (ByCopy (External 1%Z)) sane_int Hc Hm owns_start_int I I eq_refl (le_n 0))
    as [H1 _].
  destruct (growth_doubles_capacity int_type debug ints_1 0 _ [1%Z] 0
    (ByCopy (External 2%Z)) sane_int Hc Hm owns_ints_1 I I eq_refl (Nat.le_0_l 1))
    as [H2 _].
  destruct (growth_doubles_capacity int_type debug ints_12 0 _ [1%Z; 2%Z] 0
    (ByCopy (External 3%Z)) sane_int Hc Hm owns_ints_12 I I eq_refl (Nat.le_0_l 2))
    as [H3 _].
  split; [exact H1|]. split; [exact H2 | exact H3].
Defined.

(** * Further properties *)

Section Lifetimes.
Context {T P X : Type}.
Variable E : @ElemType T P X.
Variable Pl : Platform.
Implicit Types (w : @World T P) (h : list (option (list (option T)))).
Implicit Types (a b c i j n p : nat) (xs ys zs : list T) (v o : Vector).
Implicit Types (arg : @args T P X).

Lemma live_block_unsnoc xs x cap :
  length xs < cap →
  <[length xs := None]> (live_block (xs ++ [x]) cap) = live_block xs cap.
Proof.
  intros Hlt. unfold live_block. rewrite fmap_app, <- app_assoc. simpl.
  rewrite insert_app_r_alt by (rewrite length_fmap; lia).
  rewrite length_fmap, Nat.sub_diag. simpl. f_equal.
  rewrite length_app. simpl.
  replace (cap - length xs) with (S (cap - (length xs + 1))) by lia. done.
Qed.

(** [PopBack] on a vector with a last element. *)
Lemma PopBack_run this v xs x w :
  sane E Pl → owns E Pl w this v (xs ++ [x]) →
  ∃ a w',
    buffer_ (data_ v) = Some a ∧
    PopBack (X:=X) E this w = (Ok tt, w') ∧
    owns E Pl w' this {| data_ := data_ v; size_ := length xs |} xs ∧
    heap w' = <[a := Some (live_block xs (capacity_ (data_ v)))]> (heap w) ∧
    trace w' = trace w ++ [EvDestroy (InHeap (cell a (length xs)))].
Proof.
  intros Hsane Hown. pose proof Hown as [Hself Hsize Hroom Hbytes Hblock].
  destruct (owns_no_wrap E Pl _ _ _ _ Hsane Hown) as [_ Hw].
  rewrite length_app in Hsize, Hroom. simpl in Hsize, Hroom.
  destruct v as [[buf cap] size]. unfold holds in Hblock. simpl in *. subst size.
  destruct buf as [a|]; [|lia].
  unfold PopBack, bind. rewrite (self_run _ _ _ Hself). cbv beta iota. simpl.
  norm_ptr. rewrite Nat.add_1_r, cell_pred.
  erewrite destroy_at_cell; [|exact Hblock|].
  2:{ unfold live_block. rewrite fmap_app, <- app_assoc.
      rewrite lookup_app_r by (by rewrite length_fmap).
      by rewrite length_fmap, Nat.sub_diag. }
  erewrite set_size_run by exact Hself. simpl.
  rewrite size_t_small by lia.
  replace (Z.to_nat (Z.of_nat (S (length xs)) - 1)) with (length xs) by lia.
  exists a. eexists. split; [done|]. split; [reflexivity|]. simpl.
  rewrite live_block_unsnoc by lia.
  split; [|done].
  split; simpl; try done; try lia.
  - apply list_lookup_insert_eq. by eapply lookup_lt_Some.
  - unfold holds. simpl. apply block_at_insert_eq. by eapply block_at_lt.
Qed.

(** [Resize] to a size that is not larger. *)
Lemma Resize_shrink_run this v xs n w :
  sane E Pl → owns E Pl w this v xs → n ≤ length xs →
  ∃ w',
    Resize E Pl this n w = (Ok tt, w') ∧
    owns E Pl w' this {| data_ := data_ v; size_ := n |} (take n xs) ∧
    trace w' = trace w ++
      match buffer_ (data_ v) with
      | Some a => destructions a n (length xs - n)
      | None => []
      end.
Proof.
  intros Hsane Hown Hn. pose proof Hown as [Hself Hsize Hroom Hbytes Hblock].
  destruct (owns_no_wrap E Pl _ _ _ _ Hsane Hown) as [_ Hw].
  destruct v as [[buf cap] size]. unfold holds in Hblock. simpl in *. subst size.
  unfold Resize, bind. rewrite (self_run _ _ _ Hself). cbv beta iota. simpl.
  rewrite (proj2 (Nat.ltb_ge _ _) Hn).
  rewrite size_t_small by lia.
  replace (Z.to_nat (Z.of_nat (length xs) - Z.of_nat n)) with (length xs - n) by lia.
  destruct buf as [a|].
  - norm_ptr.
    destruct (destroy_n_live E a (drop n xs) (Some <$> take n xs)
                (replicate (cap - length xs) None) w) as [s' Hrun].
    { rewrite Hblock. unfold live_block. rewrite app_assoc, <- fmap_app, take_drop.
      done. }
    rewrite length_fmap, length_take, length_drop in Hrun.
    replace (n `min` length xs) with n in Hrun by lia.
    rewrite Hrun. cbv beta iota.
    erewrite set_size_run by exact Hself. simpl.
    eexists. split; [reflexivity|]. simpl. split; [|done].
    split; simpl; try done.
    + apply list_lookup_insert_eq. by eapply lookup_lt_Some.
    + rewrite length_take. lia.
    + rewrite length_take. lia.
    + unfold holds. simpl. rewrite block_at_insert_eq by (by eapply block_at_lt).
      f_equal. unfold live_block. f_equal. rewrite <- replicate_add. f_equal.
      rewrite length_take. lia.
  - assert (length xs = 0) as Hl by lia. destruct xs; [|done].
    assert (n = 0) as -> by (simpl in Hn; lia). simpl.
    unfold ret. erewrite set_size_run by exact Hself. simpl.
    eexists. split; [reflexivity|]. simpl. split; [|by rewrite app_nil_r].
    split; simpl; try done.
    apply list_lookup_insert_eq. by eapply lookup_lt_Some.
Qed.

(** The destructor. *)
Lemma Vector_delete_run this v xs w :
  owns E Pl w this v xs →
  ∃ s',
    Vector_delete (X:=X) E this w =
      (Ok tt, mkWorld (vectors w) (release (buffer_ (data_ v)) (heap w)) s'
                (trace w ++ destructions_of (buffer_ (data_ v)) (length xs) ++
                 deletions (buffer_ (data_ v)))).
Proof.
  intros [Hself Hsize Hroom Hbytes Hblock].
  destruct v as [[buf cap] size]. unfold holds in Hblock. simpl in *. subst size.
  unfold Vector_delete, bind. rewrite (self_run _ _ _ Hself). cbv beta iota. simpl.
  destruct buf as [a|].
  - norm_ptr.
    destruct (destroy_n_live E a xs [] (replicate (cap - length xs) None) w)
      as [s' Hrun]; [exact Hblock|].
    simpl in Hrun. rewrite Hrun. cbv beta iota.
    unfold RawMemory_delete, Deallocate. simpl.
    erewrite operator_delete_run
      by (simpl; apply block_at_insert_eq; by eapply block_at_lt).
    exists s'. simpl. rewrite list_insert_insert_eq, <- app_assoc. reflexivity.
  - assert (length xs = 0) as Hl by lia. destruct xs; [|done]. simpl.
    unfold RawMemory_delete, Deallocate, ret. simpl.
    exists (statics w). destruct w. simpl. by rewrite app_nil_r.
Qed.

(** [Swap] of a vector with itself. *)
Lemma Swap_self_run this v w :
  vectors w !! this = Some v → Swap (X:=X) this this w = (Ok tt, w).
Proof.
  intros Hv. pose proof (lookup_lt_Some _ _ _ Hv) as Hlt.
  unfold Swap, bind. rewrite (self_run _ _ _ Hv). cbv beta iota.
  rewrite (self_run _ _ _ Hv). cbv beta iota.
  rewrite (set_data_run _ _ _ _ Hv). cbv beta iota.
  erewrite set_data_run by (simpl; by apply list_lookup_insert_eq).
  cbv beta iota.
  erewrite self_run
    by (simpl; apply list_lookup_insert_eq; by rewrite length_insert).
  cbv beta iota.
  erewrite self_run
    by (simpl; apply list_lookup_insert_eq; by rewrite length_insert).
  cbv beta iota.
  erewrite set_size_run
    by (simpl; apply list_lookup_insert_eq; by rewrite length_insert).
  cbv beta iota.
  erewrite set_size_run
    by (simpl; apply list_lookup_insert_eq; by rewrite !length_insert).
  simpl. rewrite !list_insert_insert_eq.
  destruct v as [dv sv]. simpl. rewrite list_insert_id by done. by destruct w.
Qed.

End Lifetimes.

Section Constructing.
Context {T P X : Type}.
Variable E : @ElemType T P X.
Variable Pl : Platform.
Implicit Types (w : @World T P) (h : list (option (list (option T)))).
Implicit Types (a b c i j n p : nat) (xs ys zs : list T) (v o : Vector).

(** The constructor [Vector(size)]. *)
Lemma Vector_sized_cases n w r w' :
  sane E Pl → (Z.of_nat n * sizeof_T E < 2 ^ 64)%Z →
  Vector_sized E Pl n w = (r, w') →
  vectors w' = vectors w ∧
  match r with
  | Ok v' => ∃ ys,
      length ys = n ∧ Forall (value_initialised E) ys ∧
      size_ v' = n ∧ capacity_ (data_ v') = n ∧
      (0 < n → (Z.of_nat n * sizeof_T E <= heap_limit Pl)%Z) ∧
      holds (heap w') (data_ v') ys ∧
      (∀ c, c < length (heap w) → block_at (heap w') c = block_at (heap w) c) ∧
      trace w' = trace w ++
        match buffer_ (data_ v') with
        | Some b => EvNew b n :: constructions ValueInit b 0 n
        | None => []
        end ∧
      buffer_ (data_ v') = (if decide (n = 0) then None else Some (length (heap w))) ∧
      heap w' = (if decide (n = 0) then heap w
                 else heap w ++ [Some (live_block ys n)])
  | Throw e =>
      (e = bad_alloc ∧ w' = w ∧ (heap_limit Pl < Z.of_nat n * sizeof_T E)%Z) ∨
      (∃ k x s s',
         k < n ∧ e = thrown x ∧ T_value E s = (inl x, s') ∧
         heap w' = heap w ++ [None] ∧
         trace w' = trace w ++ [EvNew (length (heap w)) n] ++
           constructions ValueInit (length (heap w)) 0 k ++
           destructions (length (heap w)) 0 k ++ [EvDelete (length (heap w))])
  | _ => False
  end.
Proof.
  intros Hsane Hn. unfold Vector_sized, try_catch, bind.
  destruct (decide (n = 0)) as [-> | H0].
  - simpl. unfold RawMemory_new, Allocate, bind, ret, uninitialized_value_construct_n.
    simpl. intros [= <- <-]. split; [done|]. exists []. simpl.
    split; [done|]. split; [constructor|]. split; [done|]. split; [done|].
    split; [lia|]. split; [done|]. split; [done|].
    split; [by rewrite app_nil_r|]. done.
  - destruct (RawMemory_new E Pl n w) as [r0 w0] eqn:Hnew.
    apply RawMemory_new_cases in Hnew as [(-> & -> & Hlim) | (-> & -> & Hlim)];
      [ | | done | lia | done ].
    { intros [= <- <-]. split; [done|]. by left. }
    set (b := length (heap w)). set (w1 := mkWorld _ _ _ _). norm_ptr.
    run_next r2 w2 Hval.
    apply (value_construct_cases E b [] n []) in Hval as (Hv2 & Hr2).
    2:{ unfold w1, b; simpl. rewrite block_at_app_new. by rewrite app_nil_r. }
    destruct r2 as [[]|e| |]; try done.
    + destruct Hr2 as (ys & Hlys & Hvalues & Hh2 & Ht2).
      unfold ret. intros [= <- <-]. simpl. split; [done|]. exists ys.
      split; [done|]. split; [done|]. split; [done|]. split; [done|].
      split; [done|].
      assert (Hheap : heap w2 = heap w ++ [Some (live_block ys n)]).
      { rewrite Hh2. unfold w1, b; simpl. rewrite insert_app_new. do 3 f_equal.
        unfold live_block. simpl. by rewrite Hlys, Nat.sub_diag. }
      split.
      { unfold holds. simpl. rewrite Hheap. unfold b. by rewrite block_at_app_new. }
      split.
      { intros c Hc. rewrite Hheap. by apply block_at_app_l. }
      split; [rewrite Ht2; unfold w1; simpl; by rewrite <- app_assoc|].
      split; [done | exact Hheap].
    + destruct Hr2 as (k & x & Hk & -> & Hth & Hh2 & Ht2).
      unfold RawMemory_delete, Deallocate. simpl.
      erewrite operator_delete_run.
      2:{ rewrite Hh2. unfold w1, b; simpl. apply block_at_app_new. }
      unfold throw. intros [= <- <-]. simpl. split; [done|]. right.
      inversion Hth as [| | | |s s' x' Hs|]; subst.
      exists k, x, s, s'. split; [done|]. split; [done|]. split; [done|].
      rewrite Hh2, Ht2. unfold w1, b; simpl. split.
      * by rewrite insert_app_new.
      * by rewrite <- !app_assoc.
Qed.

End Constructing.

Section Accounting.
Context {T P X : Type}.
Variable E : @ElemType T P X.
Variable Pl : Platform.
Implicit Types (w : @World T P) (h : list (option (list (option T)))).
Implicit Types (a b c i j n p : nat) (xs ys zs : list T) (v o : Vector).

Lemma added_app w w' t : trace w' = trace w ++ t → added w w' = t.
Proof. intros Ht. unfold added. by rewrite Ht, drop_app_length. Qed.

Lemma added_refl w : added w w = [].
Proof. unfold added. by rewrite drop_all. Qed.

Lemma alive_growth (mv : bool) buf b n k :
  (buf = None → k = 0) →
  alive ([EvNew b n] ++ constructions (reloc_ctor mv) b 0 k ++
         destructions_of buf k ++ deletions buf) = 0%Z.
Proof.
  intros Hk. rewrite !alive_app, alive_constructions, alive_destructions_of, alive_deletions.
  simpl. destruct buf; [lia|]. rewrite Hk by done. done.
Qed.

End Accounting.

(** ** [Reserve] *)

(** X1: for an element type whose copies and moves keep the value:
    [Reserve(n)], when it returns, has left the size and the elements as
    they were and made the capacity the larger of the old capacity and [n]:
    it never shrinks, and a request within the capacity changes nothing at
    all.  It constructs as many objects as it destroys. *)
Theorem Reserve_sets_capacity {T P X : Type} (E : @ElemType T P X) (Pl : Platform)
    (w : @World T P) (this : nat) (v : Vector) (xs : list T) (n : nat) :
  sane E Pl → copy_faithful E → move_faithful E → owns E Pl w this v xs →
  (Z.of_nat n * sizeof_T E < 2 ^ 64)%Z →
  match Reserve E Pl this n w with
  | (Ok _, w') =>
      (n ≤ Capacity v → w' = w) ∧
      ∃ v', owns E Pl w' this v' xs ∧ Size v' = Size v ∧
            Capacity v' = Nat.max (Capacity v) n ∧
            alive (added w w') = 0%Z
  | (Throw _, _) => True
  | _ => False
  end.
Proof.
  intros Hsane Hc Hm Hown Hn.
  destruct (Reserve E Pl this n w) as [r w'] eqn:Hrun.
  pose proof (Reserve_cases E Pl _ _ _ _ _ _ _ Hsane Hown Hn Hrun) as Hcases.
  destruct r as [[]|e| |]; try done. unfold Capacity, Size.
  destruct (n <=? capacity_ (data_ v)) eqn:Hle.
  - apply Nat.leb_le in Hle. subst w'. split; [done|].
    exists v. split; [done|]. split; [done|]. split; [lia|]. by rewrite added_refl.
  - apply Nat.leb_gt in Hle. split; [lia|].
    destruct Hcases as (ys & zs & HF & Hlim & Hv & Hh & Ht).
    apply (relocated_values E _ _ _ _ Hc Hm) in HF. subst ys.
    pose proof Hown as [Hself Hsize Hroom Hbytes Hblock].
    exists {| data_ := {| buffer_ := Some (length (heap w)); capacity_ := n |};
              size_ := size_ v |}.
    split; [|split; [reflexivity|split; [simpl; lia|]]].
    + split; simpl.
      * rewrite Hv. apply list_lookup_insert_eq. by eapply lookup_lt_Some.
      * done.
      * lia.
      * done.
      * rewrite Hh. apply holds_release_new.
    + rewrite (added_app _ _ _ Ht). apply alive_growth.
      intros Hbuf. by destruct (owns_null E Pl _ _ _ _ Hown Hbuf) as [-> _].
Qed.

Lemma Reserve_sets_capacity_witness :
  match Reserve int_type debug 0 5 ints_12 with
  | (Ok _, w') =>
      (5 ≤ Capacity {| data_ := {| buffer_ := Some 1; capacity_ := 2 |}; size_ := 2 |} →
       w' = ints_12) ∧
      ∃ v', owns int_type debug w' 0 v' [1%Z; 2%Z] ∧
            Size v' = Size {| data_ := {| buffer_ := Some 1; capacity_ := 2 |}; size_ := 2 |} ∧
            Capacity v' =
              Nat.max (Capacity {| data_ := {| buffer_ := Some 1; capacity_ := 2 |};
                                   size_ := 2 |}) 5 ∧
            alive (added ints_12 w') = 0%Z
  | (Throw _, _) => True
  | _ => False
  end.
Proof.
  exact (Reserve_sets_capacity int_type debug ints_12 0 _ [1%Z; 2%Z] 5 sane_int
           (proj1 value_semantics_int) (proj1 (proj2 value_semantics_int))
           owns_ints_12 eq_refl).
Defined.

(** X2: for an element type that is relocated by copy, a [Reserve] that
    fails, because the allocation fails or because the copy constructor of
    an element throws, leaves the vector as it was, with its block, size,
    capacity and elements; the copies made before the failure have been
    destroyed, so that no object of the failed call is left alive. *)
Theorem Reserve_failure_restores {T P X : Type} (E : @ElemType T P X) (Pl : Platform)
    (w : @World T P) (this : nat) (v : Vector) (xs : list T) (n : nat) :
  sane E Pl → owns E Pl w this v xs →
  (Z.of_nat n * sizeof_T E < 2 ^ 64)%Z →
  is_nothrow_move_constructible E || negb (is_copy_constructible E) = false →
  match Reserve E Pl this n w with
  | (Throw e, w') =>
      owns E Pl w' this v xs ∧ alive (added w w') = 0%Z ∧
      (e = bad_alloc ∧ w' = w ∨
       ∃ k x0 x s s',
         xs !! k = Some x0 ∧ T_copy E x0 s = (inl x, s') ∧ e = thrown x ∧
         heap w' = heap w ++ [None])
  | _ => True
  end.
Proof.
  intros Hsane Hown Hn Hmv.
  destruct (Reserve E Pl this n w) as [r w'] eqn:Hrun.
  pose proof (Reserve_cases E Pl _ _ _ _ _ _ _ Hsane Hown Hn Hrun) as Hcases.
  destruct r as [[]|e| |]; try done.
  destruct Hcases as (Hcap & Hv & [(-> & -> & _) | (k & x0 & x & Hk & -> & Hth & Hh & Ht)]).
  - split; [done|]. split; [by rewrite added_refl|]. by left.
  - unfold nothrow_move_or_no_copy in *. rewrite Hmv in *.
    specialize (Hh eq_refl). destruct Hth as (s & s' & Hth).
    split.
    { eapply owns_frame; [done|done|]. rewrite Hh. apply holds_app. by destruct Hown. }
    split.
    { rewrite (added_app _ _ _ Ht).
      rewrite !alive_app, alive_constructions, alive_destructions. simpl. lia. }
    right. by exists k, x0, x, s, s'.
Qed.

Lemma sane_Fragile : sane Fragile debug.
Proof. split; vm_compute; done. Qed.

Lemma owns_fragile_2 :
  owns Fragile debug fragile_2 0
    {| data_ := {| buffer_ := Some 1; capacity_ := 2 |}; size_ := 2 |} [false; true].
Proof. split; vm_compute; (reflexivity || lia || (intros; discriminate)). Qed.

Lemma Reserve_failure_restores_witness :
  match Reserve Fragile debug 0 5 fragile_2 with
  | (Throw e, w') =>
      owns Fragile debug w' 0
        {| data_ := {| buffer_ := Some 1; capacity_ := 2 |}; size_ := 2 |} [false; true] ∧
      alive (added fragile_2 w') = 0%Z ∧
      (e = bad_alloc ∧ w' = fragile_2 ∨
       ∃ k x0 x s s',
         [false; true] !! k = Some x0 ∧ T_copy Fragile x0 s = (inl x, s') ∧
         e = thrown x ∧ heap w' = heap fragile_2 ++ [None])
  | _ => True
  end.
Proof.
  exact (Reserve_failure_restores Fragile debug fragile_2 0 _ [false; true] 5
           sane_Fragile owns_fragile_2 eq_refl eq_refl).
Defined.

(** ** [Resize] *)

(** X3: [Resize(n)] with [n] not above the size returns normally; it
    destroys the elements from [n] on, from the first to the last, and
    leaves the first [n] elements, the block and the capacity as they
    were. *)
Theorem Resize_truncates {T P X : Type} (E : @ElemType T P X) (Pl : Platform)
    (w : @World T P) (this : nat) (v : Vector) (xs : list T) (n : nat) :
  sane E Pl → owns E Pl w this v xs → n ≤ length xs →
  ∃ w',
    Resize E Pl this n w = (Ok tt, w') ∧
    owns E Pl w' this {| data_ := data_ v; size_ := n |} (take n xs) ∧
    added w w' =
      match buffer_ (data_ v) with
      | Some a => destructions a n (length xs - n)
      | None => []
      end.
Proof.
  intros Hsane Hown Hn.
  destruct (Resize_shrink_run E Pl this v xs n w Hsane Hown Hn) as (w' & Hrun & Hown' & Ht).
  exists w'. split; [done|]. split; [done|]. by apply added_app.
Qed.

Lemma Resize_truncates_witness :
  ∃ w',
    Resize int_type debug 0 1 ints_123 = (Ok tt, w') ∧
    owns int_type debug w' 0
      {| data_ := {| buffer_ := Some 2; capacity_ := 4 |}; size_ := 1 |} [1%Z] ∧
    added ints_123 w' = [EvDestroy (InHeap (cell 2 1)); EvDestroy (InHeap (cell 2 2))].
Proof.
  exact (Resize_truncates int_type debug ints_123 0 _ [1%Z; 2%Z; 3%Z] 1 sane_int
           owns_ints_123 (le_S _ _ (le_S _ _ (le_n 1)))).
Defined.

(** X4: for an element type whose copies and moves keep the value:
    [Resize(n)] with [n] above the size, when it returns, has kept the
    elements, in their order and with their values, and appended
    [n - size] elements, each with a value the default constructor yields;
    the capacity is the larger of the old capacity and [n]. *)
Theorem Resize_appends_defaults {T P X : Type} (E : @ElemType T P X) (Pl : Platform)
    (w : @World T P) (this : nat) (v : Vector) (xs : list T) (n : nat) :
  sane E Pl → copy_faithful E → move_faithful E → owns E Pl w this v xs →
  (Z.of_nat n * sizeof_T E < 2 ^ 64)%Z → length xs < n →
  match Resize E Pl this n w with
  | (Ok _, w') => ∃ v' vs,
      owns E Pl w' this v' (xs ++ vs) ∧ Size v' = n ∧
      length vs = n - length xs ∧ Forall (value_initialised E) vs ∧
      Capacity v' = Nat.max (Capacity v) n
  | (Throw _, _) => True
  | _ => False
  end.
Proof.
  intros Hsane Hc Hm Hown Hn Hlt.
  destruct (Resize E Pl this n w) as [r w'] eqn:Hrun.
  destruct (Resize_grow_cases E Pl _ _ _ _ _ _ _ Hsane Hown Hn Hlt Hrun) as (t & Ht & Hr).
  destruct r as [[]|e| |]; try done.
  destruct Hr as (v' & ys & vs & Hown' & Hlys & Hlvs & Hvals & Hrest).
  assert (ys = xs ∧ Capacity v' = Nat.max (Capacity v) n) as [-> Hcap].
  { unfold Capacity. destruct (n <=? capacity_ (data_ v)) eqn:Hle.
    - destruct Hrest as (-> & -> & _). apply Nat.leb_le in Hle. split; [done|lia].
    - destruct Hrest as ((zs & HF) & -> & _). apply Nat.leb_gt in Hle.
      apply (relocated_values E _ _ _ _ Hc Hm) in HF. split; [done|simpl; lia]. }
  exists v', vs. split; [done|]. split; [|done].
  destruct Hown' as [_ Hs' _ _ _]. unfold Size. rewrite Hs', length_app. lia.
Qed.

Lemma Resize_appends_defaults_witness :
  match Resize int_type debug 0 5 ints_12 with
  | (Ok _, w') => ∃ v' vs,
      owns int_type debug w' 0 v' ([1%Z; 2%Z] ++ vs) ∧ Size v' = 5 ∧
      length vs = 5 - length [1%Z; 2%Z] ∧ Forall (value_initialised int_type) vs ∧
      Capacity v' =
        Nat.max (Capacity {| data_ := {| buffer_ := Some 1; capacity_ := 2 |};
                             size_ := 2 |}) 5
  | (Throw _, _) => True
  | _ => False
  end.
Proof.
  exact (Resize_appends_defaults int_type debug ints_12 0 _ [1%Z; 2%Z] 5 sane_int
           (proj1 value_semantics_int) (proj1 (proj2 value_semantics_int))
           owns_ints_12 eq_refl (le_S _ _ (le_S _ _ (le_n 3)))).
Defined.

(** X5: for an element type whose move constructor does not throw when
    the elements are relocated by move: a [Resize(n)] above the size that
    fails leaves no object of the failed call alive and the size as it was,
    but not always the capacity.  When the allocation is refused, or the
    copy of an element into the new block throws, the vector is as it was.
    When a default constructor throws and [n] is within the capacity, the
    vector is as it was.  When a default constructor throws and [n] is above
    the capacity, the reservation has been made: the vector has a new block
    of capacity [n], which holds the relocated elements, and the old block
    is gone.  The last case is the one that occurs whenever the reservation
    succeeds and the default constructor throws in the state it leaves. *)
Theorem Resize_failure_keeps_elements {T P X : Type} (E : @ElemType T P X)
    (Pl : Platform) (w : @World T P) (this : nat) (v : Vector) (xs : list T) (n : nat) :
  sane E Pl → owns E Pl w this v xs →
  (Z.of_nat n * sizeof_T E < 2 ^ 64)%Z → length xs < n →
  (is_nothrow_move_constructible E || negb (is_copy_constructible E) = true →
   ∀ x s, ∃ yz s', T_move E x s = (inr yz, s')) →
  match Resize E Pl this n w with
  | (Throw e, w') =>
      alive (added w w') = 0%Z ∧
      (Capacity v < n ∧ e = bad_alloc ∧
       (heap_limit Pl < Z.of_nat n * sizeof_T E)%Z ∧ w' = w
       ∨
       Capacity v < n ∧
       (∃ k x0 x,
          xs !! k = Some x0 ∧ e = thrown x ∧ reloc_threw E false x0 x ∧
          added w w' =
            [EvNew (length (heap w)) n] ++
            constructions CopyCtor (length (heap w)) 0 k ++
            destructions (length (heap w)) 0 k ++ [EvDelete (length (heap w))]) ∧
       owns E Pl w' this v xs
       ∨
       n ≤ Capacity v ∧
       (∃ a k x,
          buffer_ (data_ v) = Some a ∧ k < n - length xs ∧
          e = thrown x ∧ value_threw E x ∧
          added w w' =
            constructions ValueInit a (length xs) k ++ destructions a (length xs) k) ∧
       owns E Pl w' this v xs
       ∨
       Capacity v < n ∧
       ∃ k x xs' zs,
         k < n - length xs ∧ e = thrown x ∧ value_threw E x ∧
         Forall3 (relocated E (nothrow_move_or_no_copy E)) xs xs' zs ∧
         owns E Pl w' this
           {| data_ := {| buffer_ := Some (length (heap w)); capacity_ := n |};
              size_ := Size v |} xs' ∧
         added w w' =
           [EvNew (length (heap w)) n] ++
           constructions (reloc_ctor (nothrow_move_or_no_copy E)) (length (heap w)) 0
             (length xs) ++
           destructions_of (buffer_ (data_ v)) (length xs) ++
           deletions (buffer_ (data_ v)) ++
           constructions ValueInit (length (heap w)) (length xs) k ++
           destructions (length (heap w)) (length xs) k)
  | (Ok _, _) => True
  | _ => False
  end ∧
  ∀ (w1 : @World T P) (x : X) (s' : P),
    Capacity v < n →
    Reserve E Pl this n w = (Ok tt, w1) →
    T_value E (statics w1) = (inl x, s') →
    ∃ xs' zs,
      Resize E Pl this n w = (Throw (thrown x), with_statics s' w1) ∧
      Forall3 (relocated E (nothrow_move_or_no_copy E)) xs xs' zs ∧
      owns E Pl (with_statics s' w1) this
        {| data_ := {| buffer_ := Some (length (heap w)); capacity_ := n |};
           size_ := Size v |} xs' ∧
      added w (with_statics s' w1) = added w w1 ∧
      alive (added w w1) = 0%Z.
Proof.
  intros Hsane Hown Hn Hlt Hmoves.
  pose proof Hown as [Hself Hsize Hroom Hbytes Hblock].
  assert (Hcases : ∀ r w', Resize E Pl this n w = (r, w') →
    match r with
    | Throw e =>
        alive (added w w') = 0%Z ∧
        (Capacity v < n ∧ e = bad_alloc ∧
         (heap_limit Pl < Z.of_nat n * sizeof_T E)%Z ∧ w' = w
         ∨
         Capacity v < n ∧
         (∃ k x0 x,
            xs !! k = Some x0 ∧ e = thrown x ∧ reloc_threw E false x0 x ∧
            added w w' =
              [EvNew (length (heap w)) n] ++
              constructions CopyCtor (length (heap w)) 0 k ++
              destructions (length (heap w)) 0 k ++ [EvDelete (length (heap w))]) ∧
         owns E Pl w' this v xs
         ∨
         n ≤ Capacity v ∧
         (∃ a k x,
            buffer_ (data_ v) = Some a ∧ k < n - length xs ∧
            e = thrown x ∧ value_threw E x ∧
            added w w' =
              constructions ValueInit a (length xs) k ++ destructions a (length xs) k) ∧
         owns E Pl w' this v xs
         ∨
         Capacity v < n ∧
         ∃ k x xs' zs,
           k < n - length xs ∧ e = thrown x ∧ value_threw E x ∧
           Forall3 (relocated E (nothrow_move_or_no_copy E)) xs xs' zs ∧
           owns E Pl w' this
             {| data_ := {| buffer_ := Some (length (heap w)); capacity_ := n |};
                size_ := Size v |} xs' ∧
           added w w' =
             [EvNew (length (heap w)) n] ++
             constructions (reloc_ctor (nothrow_move_or_no_copy E)) (length (heap w)) 0
               (length xs) ++
             destructions_of (buffer_ (data_ v)) (length xs) ++
             deletions (buffer_ (data_ v)) ++
             constructions ValueInit (length (heap w)) (length xs) k ++
             destructions (length (heap w)) (length xs) k)
    | Ok _ => True
    | _ => False
    end).
  { intros r w' Hrun.
    destruct (Resize_grow_cases E Pl _ _ _ _ _ _ _ Hsane Hown Hn Hlt Hrun) as (t & Ht & Hr).
    destruct r as [[]|e| |]; try done.
    destruct Hr as [Halive Hr]. rewrite (added_app _ _ _ Ht). split; [done|].
    unfold Capacity, Size.
    destruct Hr as [(Hcap & -> & -> & Hlim) |
      [(Hcap & k & x0 & x & Hk & -> & Hth & Hv & Hh & ->) |
       [(Hcap & a & k & x & Hbuf & Hk & -> & Hth & Hv & Hh & ->) |
        (Hcap & k & x & xs' & zs & Hk & -> & Hth & Hlim & HF & Hown' & ->)]]].
    - left. done.
    - right. left. split; [done|].
      destruct (nothrow_move_or_no_copy E) eqn:Hmv.
      + destruct Hth as (s & s' & Hth).
        destruct (Hmoves Hmv x0 s) as (yz & s'' & Hok). congruence.
      + split; [by exists k, x0, x|]. eapply owns_frame; [done|done|]. by apply Hh.
    - right. right. left. split; [done|]. split; [by exists a, k, x|].
      by eapply owns_frame.
    - right. right. right. split; [done|]. by exists k, x, xs', zs. }
  split.
  - destruct (Resize E Pl this n w) as [r w'] eqn:Hrun.
    specialize (Hcases r w' eq_refl). by destruct r.
  - intros w1 x s' Hcap Hres Hth.
    pose proof (Reserve_cases E Pl _ _ _ _ _ _ _ Hsane Hown Hn Hres) as HR.
    simpl in HR. unfold Capacity in Hcap.
    rewrite (proj2 (Nat.leb_gt _ _)) in HR by lia.
    destruct HR as (ys & zs & HF & Hlim & Hv1 & Hh1 & Ht1).
    assert (Hthis : this < length (vectors w)) by (by eapply lookup_lt_Some).
    assert (Hrun : Resize E Pl this n w = (Throw (thrown x), with_statics s' w1)).
    { unfold Resize, bind. rewrite (self_run _ _ _ Hself). cbv beta iota.
      rewrite Hsize. rewrite (proj2 (Nat.ltb_lt _ _) Hlt).
      rewrite Hres. cbv beta iota.
      rewrite (self_run w1 this
                 {| data_ := {| buffer_ := Some (length (heap w)); capacity_ := n |};
                    size_ := size_ v |})
        by (rewrite Hv1; by apply list_lookup_insert_eq).
      cbv beta iota. simpl size_. rewrite Hsize.
      rewrite size_t_small by (destruct Hsane as [? ?]; split; [lia|]; nia).
      rewrite (value_construct_first_throws E _ _ _ x s') by (done || lia).
      done. }
    pose proof (Hcases _ _ Hrun) as [Halive Hr].
    assert (Hadded : added w (with_statics s' w1) = added w w1) by done.
    destruct Hr as [(_ & [=] & _) |
      [(_ & _ & Hown') | [(Hle & _) | (_ & k & x' & xs' & zs' & _ & _ & _ & HF' & Hown' & _)]]].
    + destruct Hown' as [Hself' _ _ _ _]. simpl in Hself'.
      rewrite Hv1, list_lookup_insert_eq in Hself' by done.
      injection Hself' as Hself'. apply (f_equal (λ v, capacity_ (data_ v))) in Hself'.
      simpl in Hself'. lia.
    + unfold Capacity in Hle. lia.
    + exists xs', zs'. split; [done|]. split; [done|]. split; [done|].
      split; [done|]. by rewrite <- Hadded.
Qed.

Lemma owns_Obj_1_armed :
  owns Obj_type debug Obj_1_armed 0
    {| data_ := {| buffer_ := Some 0; capacity_ := 1 |}; size_ := 1 |}
    [ {| throw_on_copy := false; id := 0 |} ].
Proof. split; vm_compute; (reflexivity || lia || (intros; discriminate)). Qed.

Lemma Resize_failure_keeps_elements_witness :
  (∃ xs' zs,
     Resize Obj_type debug 0 2 Obj_1_armed =
       (Throw (thrown Oops),
        with_statics
          {| default_construction_throw_countdown := 0; num_default_constructed := 1;
             num_copied := 0; num_moved := 1; num_destroyed := 1; num_assigned := 0;
             num_move_assigned := 0 |}
          (after (Reserve Obj_type debug 0 2) Obj_1_armed)) ∧
     Forall3 (relocated Obj_type (nothrow_move_or_no_copy Obj_type))
       [ {| throw_on_copy := false; id := 0 |} ] xs' zs ∧
     owns Obj_type debug
       (with_statics
          {| default_construction_throw_countdown := 0; num_default_constructed := 1;
             num_copied := 0; num_moved := 1; num_destroyed := 1; num_assigned := 0;
             num_move_assigned := 0 |}
          (after (Reserve Obj_type debug 0 2) Obj_1_armed)) 0
       {| data_ := {| buffer_ := Some (length (heap Obj_1_armed)); capacity_ := 2 |};
          size_ := Size {| data_ := {| buffer_ := Some 0; capacity_ := 1 |};
                           size_ := 1 |} |} xs' ∧
     added Obj_1_armed
       (with_statics
          {| default_construction_throw_countdown := 0; num_default_constructed := 1;
             num_copied := 0; num_moved := 1; num_destroyed := 1; num_assigned := 0;
             num_move_assigned := 0 |}
          (after (Reserve Obj_type debug 0 2) Obj_1_armed)) =
       added Obj_1_armed (after (Reserve Obj_type debug 0 2) Obj_1_armed) ∧
     alive (added Obj_1_armed (after (Reserve Obj_type debug 0 2) Obj_1_armed)) = 0%Z) ∧
  (vectors Obj_1_armed =
     [{| data_ := {| buffer_ := Some 0; capacity_ := 1 |}; size_ := 1 |}] ∧
   vectors (after (Resize Obj_type debug 0 2) Obj_1_armed) =
     [{| data_ := {| buffer_ := Some 1; capacity_ := 2 |}; size_ := 1 |}] ∧
   heap (after (Resize Obj_type debug 0 2) Obj_1_armed) =
     [None; Some [Some {| throw_on_copy := false; id := 0 |}; None]] ∧
   events (Resize Obj_type debug 0 2) Obj_1_armed =
     [EvNew 1 2; EvConstruct MoveCtor (InHeap (cell 1 0));
      EvDestroy (InHeap (cell 0 0)); EvDelete 0]) ∧
  match Resize Obj_type debug 0 2 Obj_1_armed with
  | (Throw e, w') =>
      alive (added Obj_1_armed w') = 0%Z ∧
      (Capacity {| data_ := {| buffer_ := Some 0; capacity_ := 1 |}; size_ := 1 |} < 2 ∧
       e = bad_alloc ∧
       (heap_limit debug < Z.of_nat 2 * sizeof_T Obj_type)%Z ∧ w' = Obj_1_armed
       ∨
       Capacity {| data_ := {| buffer_ := Some 0; capacity_ := 1 |}; size_ := 1 |} < 2 ∧
       (∃ k x0 x,
          [ {| throw_on_copy := false; id := 0 |} ] !! k = Some x0 ∧
          e = thrown x ∧ reloc_threw Obj_type false x0 x ∧
          added Obj_1_armed w' =
            [EvNew (length (heap Obj_1_armed)) 2] ++
            constructions CopyCtor (length (heap Obj_1_armed)) 0 k ++
            destructions (length (heap Obj_1_armed)) 0 k ++
            [EvDelete (length (heap Obj_1_armed))]) ∧
       owns Obj_type debug w' 0
         {| data_ := {| buffer_ := Some 0; capacity_ := 1 |}; size_ := 1 |}
         [ {| throw_on_copy := false; id := 0 |} ]
       ∨
       2 ≤ Capacity {| data_ := {| buffer_ := Some 0; capacity_ := 1 |}; size_ := 1 |} ∧
       (∃ a k x,
          buffer_ (data_ {| data_ := {| buffer_ := Some 0; capacity_ := 1 |};
                            size_ := 1 |}) = Some a ∧
          k < 2 - length [ {| throw_on_copy := false; id := 0 |} ] ∧
          e = thrown x ∧ value_threw Obj_type x ∧
          added Obj_1_armed w' =
            constructions ValueInit a
              (length [ {| throw_on_copy := false; id := 0 |} ]) k ++
            destructions a (length [ {| throw_on_copy := false; id := 0 |} ]) k) ∧
       owns Obj_type debug w' 0
         {| data_ := {| buffer_ := Some 0; capacity_ := 1 |}; size_ := 1 |}
         [ {| throw_on_copy := false; id := 0 |} ]
       ∨
       Capacity {| data_ := {| buffer_ := Some 0; capacity_ := 1 |}; size_ := 1 |} < 2 ∧
       ∃ k x xs' zs,
         k < 2 - length [ {| throw_on_copy := false; id := 0 |} ] ∧
         e = thrown x ∧ value_threw Obj_type x ∧
         Forall3 (relocated Obj_type (nothrow_move_or_no_copy Obj_type))
           [ {| throw_on_copy := false; id := 0 |} ] xs' zs ∧
         owns Obj_type debug w' 0
           {| data_ := {| buffer_ := Some (length (heap Obj_1_armed)); capacity_ := 2 |};
              size_ := Size {| data_ := {| buffer_ := Some 0; capacity_ := 1 |};
                               size_ := 1 |} |} xs' ∧
         added Obj_1_armed w' =
           [EvNew (length (heap Obj_1_armed)) 2] ++
           constructions (reloc_ctor (nothrow_move_or_no_copy Obj_type))
             (length (heap Obj_1_armed)) 0
             (length [ {| throw_on_copy := false; id := 0 |} ]) ++
           destructions_of
             (buffer_ (data_ {| data_ := {| buffer_ := Some 0; capacity_ := 1 |};
                               size_ := 1 |}))
             (length [ {| throw_on_copy := false; id := 0 |} ]) ++
           deletions
             (buffer_ (data_ {| data_ := {| buffer_ := Some 0; capacity_ := 1 |};
                               size_ := 1 |})) ++
           constructions ValueInit (length (heap Obj_1_armed))
             (length [ {| throw_on_copy := false; id := 0 |} ]) k ++
           destructions (length (heap Obj_1_armed))
             (length [ {| throw_on_copy := false; id := 0 |} ]) k)
  | (Ok _, _) => True
  | _ => False
  end.
Proof.
  destruct (Resize_failure_keeps_elements Obj_type debug Obj_1_armed 0
              {| data_ := {| buffer_ := Some 0; capacity_ := 1 |}; size_ := 1 |}
              [ {| throw_on_copy := false; id := 0 |} ] 2
              sane_Obj owns_Obj_1_armed eq_refl (le_n 2)
              (fun _ x s => ex_intro _ _ (ex_intro _ _ eq_refl)))
    as [Hcases Hdef].
  split; [|split; [repeat split; vm_compute; reflexivity | exact Hcases]].
  refine (Hdef (after (Reserve Obj_type debug 0 2) Obj_1_armed) Oops
            {| default_construction_throw_countdown := 0; num_default_constructed := 1;
               num_copied := 0; num_moved := 1; num_destroyed := 1; num_assigned := 0;
               num_move_assigned := 0 |} (le_n 2) _ _);
    vm_compute; reflexivity.
Defined.

(** ** [PopBack] *)

(** X6: [PopBack] on a vector with a last element returns normally; it
    destroys that element, and only it, and leaves the other elements, the
    block and the capacity as they were. *)
Theorem PopBack_removes_last {T P X : Type} (E : @ElemType T P X) (Pl : Platform)
    (w : @World T P) (this : nat) (v : Vector) (xs : list T) (x : T) :
  sane E Pl → owns E Pl w this v (xs ++ [x]) →
  ∃ w',
    PopBack (X:=X) E this w = (Ok tt, w') ∧
    owns E Pl w' this {| data_ := data_ v; size_ := length xs |} xs ∧
    added w w' = [EvDestroy (InHeap (end_ v +ₚ -1))].
Proof.
  intros Hsane Hown.
  destruct (PopBack_run E Pl this v xs x w Hsane Hown) as (a & w' & Hbuf & Hrun & Hown' & _ & Ht).
  exists w'. split; [done|]. split; [done|].
  rewrite (added_app _ _ _ Ht). do 3 f_equal.
  destruct Hown as [_ Hsize _ _ _]. unfold end_, GetAddress. rewrite Hbuf, Hsize.
  unfold cell, ptr_add. simpl. f_equal. rewrite length_app. simpl. lia.
Qed.

Lemma PopBack_removes_last_witness :
  ∃ w',
    PopBack (X:=Empty_set) int_type 0 ints_123 = (Ok tt, w') ∧
    owns int_type debug w' 0
      {| data_ := {| buffer_ := Some 2; capacity_ := 4 |}; size_ := 2 |} [1%Z; 2%Z] ∧
    added ints_123 w' = [EvDestroy (InHeap (cell 2 2))].
Proof.
  exact (PopBack_removes_last int_type debug ints_123 0 _ [1%Z; 2%Z] 3%Z sane_int
           owns_ints_123).
Defined.

(** X7: for an element type whose copies and moves keep the value, and a
    new element built from arguments that refer to a live object and do not
    move from an element of a vector: [PushBack] followed by [PopBack] gives
    the elements back: when the [PushBack] returns, the [PopBack] returns
    normally and the vector holds the elements it held before the two
    calls, with their values in their order. *)
Theorem PushBack_then_PopBack {T P X : Type} (E : @ElemType T P X) (Pl : Platform)
    (w : @World T P) (this : nat) (v : Vector) (xs : list T) (arg : @args T P X) :
  sane E Pl → copy_faithful E → move_faithful E →
  owns E Pl w this v xs → arg_ok (heap w) arg → pure_arg arg →
  match PushBack E Pl this arg w with
  | (Ok _, w1) => ∃ w2 v2,
      PopBack (X:=X) E this w1 = (Ok tt, w2) ∧ owns E Pl w2 this v2 xs ∧
      Size v2 = Size v ∧ Capacity v ≤ Capacity v2
  | (Throw _, _) => True
  | _ => False
  end.
Proof.
  intros Hsane Hc Hm Hown Hok Hpure.
  destruct (PushBack E Pl this arg w) as [r w1] eqn:Hrun.
  pose proof (PushBack_cases E Pl _ _ _ _ _ _ _ Hsane Hown Hok Hrun) as Hcases.
  destruct r as [[]|e| |]; try done.
  destruct Hcases as (y & h1 & xs1 & ys & v' & Hmade & Hh1 & Hl1 & Hown' & Hrest).
  destruct (made_pure_elements E Pl _ _ _ _ _ _ _ _ Hown Hpure Hmade Hh1 Hl1) as [-> ->].
  assert (ys = xs ∧ capacity_ (data_ v) ≤ capacity_ (data_ v')) as [-> Hcap].
  { destruct (capacity_ (data_ v) =? length xs) eqn:Hfull.
    - destruct Hrest as ((zs & HF) & -> & _). apply Nat.eqb_eq in Hfull.
      apply (relocated_values E _ _ _ _ Hc Hm) in HF. split; [done|simpl; lia].
    - destruct Hrest as (a & _ & -> & -> & _). done. }
  destruct (PopBack_run E Pl this v' xs y w1 Hsane Hown') as (a & w2 & _ & Hpop & Hown2 & _).
  exists w2. eexists. split; [done|]. split; [done|]. unfold Size, Capacity. simpl.
  split; [|done]. by destruct Hown.
Qed.

Lemma PushBack_then_PopBack_witness :
  match PushBack int_type debug 0 (ByCopy (External 3%Z)) ints_12 with
  | (Ok _, w1) => ∃ w2 v2,
      PopBack (X:=Empty_set) int_type 0 w1 = (Ok tt, w2) ∧
      owns int_type debug w2 0 v2 [1%Z; 2%Z] ∧
      Size v2 = Size {| data_ := {| buffer_ := Some 1; capacity_ := 2 |}; size_ := 2 |} ∧
      Capacity {| data_ := {| buffer_ := Some 1; capacity_ := 2 |}; size_ := 2 |}
        ≤ Capacity v2
  | (Throw _, _) => True
  | _ => False
  end.
Proof.
  exact (PushBack_then_PopBack int_type debug ints_12 0 _ [1%Z; 2%Z]
           (ByCopy (External 3%Z)) sane_int
           (proj1 value_semantics_int) (proj1 (proj2 value_semantics_int))
           owns_ints_12 I I).
Defined.

(** ** Construction and destruction *)

(** X8: [Vector(size)], when it returns, has allocated one new block of
    exactly [size] slots (none when [size] is 0), appended to the heap at an
    index no block had before, and built [size] elements in it, from the
    first slot to the last, each with a value the default constructor
    yields: size and capacity are both [size].  The blocks that were there
    are untouched. *)
Theorem Vector_sized_builds_defaults {T P X : Type} (E : @ElemType T P X)
    (Pl : Platform) (w : @World T P) (n : nat) :
  sane E Pl → (Z.of_nat n * sizeof_T E < 2 ^ 64)%Z →
  match Vector_sized E Pl n w with
  | (Ok v', w') => ∃ ys,
      Size v' = n ∧ Capacity v' = n ∧ (n = 0 ↔ buffer_ (data_ v') = None) ∧
      length ys = n ∧ Forall (value_initialised E) ys ∧
      holds (heap w') (data_ v') ys ∧
      (∀ c, c < length (heap w) → block_at (heap w') c = block_at (heap w) c) ∧
      alive (added w w') = Z.of_nat n ∧
      (n = 0 → heap w' = heap w ∧ added w w' = []) ∧
      (0 < n →
       buffer_ (data_ v') = Some (length (heap w)) ∧
       heap w' = heap w ++ [Some (live_block ys n)] ∧
       added w w' =
         EvNew (length (heap w)) n :: constructions ValueInit (length (heap w)) 0 n)
  | (Throw _, _) => True
  | _ => False
  end.
Proof.
  intros Hsane Hn.
  destruct (Vector_sized E Pl n w) as [r w'] eqn:Hrun.
  destruct (Vector_sized_cases E Pl _ _ _ _ Hsane Hn Hrun) as [_ Hcases].
  destruct r as [v'|e| |]; try done.
  destruct Hcases as (ys & Hl & Hvals & Hs & Hcap & _ & Hh & Hframe & Ht & Hbuf & Hheap).
  exists ys. do 2 (split; [done|]).
  split.
  { rewrite Hbuf. destruct (decide (n = 0)); split; (done || lia). }
  do 4 (split; [done|]).
  rewrite (added_app _ _ _ Ht), Hbuf, Hheap.
  destruct (decide (n = 0)) as [H0|H0].
  - split; [simpl; lia|]. split; [done|]. lia.
  - split.
    { change (EvNew (length (heap w)) n :: constructions ValueInit (length (heap w)) 0 n)
        with ([EvNew (length (heap w)) n] ++ constructions ValueInit (length (heap w)) 0 n).
      rewrite alive_app, alive_constructions. simpl. lia. }
    split; [lia|]. done.
Qed.

Lemma Vector_sized_builds_defaults_witness :
  match Vector_sized int_type debug 3 ints_1 with
  | (Ok v', w') => ∃ ys,
      Size v' = 3 ∧ Capacity v' = 3 ∧ (3 = 0 ↔ buffer_ (data_ v') = None) ∧
      length ys = 3 ∧ Forall (value_initialised int_type) ys ∧
      holds (heap w') (data_ v') ys ∧
      (∀ c, c < length (heap ints_1) → block_at (heap w') c = block_at (heap ints_1) c) ∧
      alive (added ints_1 w') = Z.of_nat 3 ∧
      (3 = 0 → heap w' = heap ints_1 ∧ added ints_1 w' = []) ∧
      (0 < 3 →
       buffer_ (data_ v') = Some (length (heap ints_1)) ∧
       heap w' = heap ints_1 ++ [Some (live_block ys 3)] ∧
       added ints_1 w' =
         EvNew (length (heap ints_1)) 3 ::
           constructions ValueInit (length (heap ints_1)) 0 3)
  | (Throw _, _) => True
  | _ => False
  end.
Proof. exact (Vector_sized_builds_defaults int_type debug ints_1 3 sane_int eq_refl). Defined.

(** X9: when a default constructor throws in [Vector(size)], the elements
    built so far are destroyed and the block is released before the
    exception leaves the constructor: no object of the call is left alive,
    and the vector objects that exist are untouched.  When the allocation
    fails, nothing has happened at all. *)
Theorem Vector_sized_rolls_back {T P X : Type} (E : @ElemType T P X)
    (Pl : Platform) (w : @World T P) (n : nat) :
  sane E Pl → (Z.of_nat n * sizeof_T E < 2 ^ 64)%Z →
  match Vector_sized E Pl n w with
  | (Throw e, w') =>
      vectors w' = vectors w ∧ alive (added w w') = 0%Z ∧
      (e = bad_alloc ∧ w' = w ∨
       ∃ k x s s',
         k < n ∧ T_value E s = (inl x, s') ∧ e = thrown x ∧
         heap w' = heap w ++ [None] ∧
         added w w' = [EvNew (length (heap w)) n] ++
           constructions ValueInit (length (heap w)) 0 k ++
           destructions (length (heap w)) 0 k ++ [EvDelete (length (heap w))])
  | _ => True
  end.
Proof.
  intros Hsane Hn.
  destruct (Vector_sized E Pl n w) as [r w'] eqn:Hrun.
  destruct (Vector_sized_cases E Pl _ _ _ _ Hsane Hn Hrun) as [Hv Hcases].
  destruct r as [v'|e| |]; try done. split; [done|].
  destruct Hcases as [(-> & -> & _) | (k & x & s & s' & Hk & -> & Hth & Hh & Ht)].
  - split; [by rewrite added_refl|]. by left.
  - rewrite (added_app _ _ _ Ht). split.
    + rewrite !alive_app, alive_constructions, alive_destructions. simpl. lia.
    + right. by exists k, x, s, s'.
Qed.

Lemma Vector_sized_rolls_back_witness :
  match Vector_sized Obj_type debug 4 Obj_armed_3 with
  | (Throw e, w') =>
      vectors w' = vectors Obj_armed_3 ∧ alive (added Obj_armed_3 w') = 0%Z ∧
      (e = bad_alloc ∧ w' = Obj_armed_3 ∨
       ∃ k x s s',
         k < 4 ∧ T_value Obj_type s = (inl x, s') ∧ e = thrown x ∧
         heap w' = heap Obj_armed_3 ++ [None] ∧
         added Obj_armed_3 w' = [EvNew (length (heap Obj_armed_3)) 4] ++
           constructions ValueInit (length (heap Obj_armed_3)) 0 k ++
           destructions (length (heap Obj_armed_3)) 0 k ++
           [EvDelete (length (heap Obj_armed_3))])
  | _ => True
  end ∧
  outcome (Vector_sized Obj_type debug 4) Obj_armed_3 = Throw (thrown Oops) ∧
  events (Vector_sized Obj_type debug 4) Obj_armed_3 =
    [EvNew 0 4] ++ constructions ValueInit 0 0 2 ++ destructions 0 0 2 ++ [EvDelete 0] ∧
  GetAliveObjectCount (statics (after (Vector_sized Obj_type debug 4) Obj_armed_3)) = 0%Z.
Proof.
  split; [|split; [|split]; vm_compute; reflexivity].
  exact (Vector_sized_rolls_back Obj_type debug Obj_armed_3 4 sane_Obj eq_refl).
Defined.

(** X10: the destructor of a vector destroys each of its elements, from the
    first to the last, and then releases the block: the block is gone, as
    many objects have been destroyed as the vector held, and the other
    blocks are untouched.  It returns normally. *)
Theorem Vector_delete_releases {T P X : Type} (E : @ElemType T P X) (Pl : Platform)
    (w : @World T P) (this : nat) (v : Vector) (xs : list T) :
  owns E Pl w this v xs →
  ∃ w',
    Vector_delete (X:=X) E this w = (Ok tt, w') ∧
    added w w' = destructions_of (buffer_ (data_ v)) (length xs) ++
                 deletions (buffer_ (data_ v)) ∧
    alive (added w w') = (- Z.of_nat (length xs))%Z ∧
    heap w' = release (buffer_ (data_ v)) (heap w) ∧
    (∀ a, buffer_ (data_ v) = Some a → block_at (heap w') a = None).
Proof.
  intros Hown. destruct (Vector_delete_run E Pl this v xs w Hown) as [s' Hrun].
  eexists. split; [exact Hrun|].
  rewrite (added_app w _ (destructions_of (buffer_ (data_ v)) (length xs) ++
                           deletions (buffer_ (data_ v)))) by reflexivity.
  simpl. split; [done|]. split.
  - rewrite alive_app, alive_destructions_of, alive_deletions.
    destruct (buffer_ (data_ v)) eqn:Hbuf; [lia|].
    destruct (owns_null E Pl _ _ _ _ Hown Hbuf) as [-> _]. done.
  - split; [done|]. intros a Hbuf. rewrite Hbuf. simpl.
    destruct Hown as [_ _ _ _ Hblock]. unfold holds in Hblock. rewrite Hbuf in Hblock.
    unfold block_at. rewrite list_lookup_insert_eq; [done|]. by eapply block_at_lt.
Qed.

Lemma Vector_delete_releases_witness :
  ∃ w',
    Vector_delete (X:=Empty_set) int_type 0 ints_123 = (Ok tt, w') ∧
    added ints_123 w' =
      [EvDestroy (InHeap (cell 2 0)); EvDestroy (InHeap (cell 2 1));
       EvDestroy (InHeap (cell 2 2)); EvDelete 2] ∧
    alive (added ints_123 w') = (- Z.of_nat 3)%Z ∧
    heap w' = release (Some 2) (heap ints_123) ∧
    (∀ a, Some 2 = Some a → block_at (heap w') a = None).
Proof. exact (Vector_delete_releases int_type debug ints_123 0 _ [1%Z; 2%Z; 3%Z] owns_ints_123). Defined.

(** ** [Swap] *)

(** X11: [Swap] exchanges the two vector objects, block, capacity and size,
    without touching a block or an element, and returns normally; done
    twice it restores everything, and the swap of a vector with itself
    changes nothing. *)
Theorem Swap_exchanges {T P X : Type} (w : @World T P) (this other : nat)
    (v o : Vector) :
  vectors w !! this = Some v → vectors w !! other = Some o →
  ∃ w1,
    Swap (X:=X) this other w = (Ok tt, w1) ∧
    vectors w1 !! this = Some o ∧ vectors w1 !! other = Some v ∧
    heap w1 = heap w ∧ trace w1 = trace w ∧ statics w1 = statics w ∧
    Swap (X:=X) this other w1 = (Ok tt, w) ∧
    (this = other → w1 = w).
Proof.
  intros Hv Ho.
  pose proof (lookup_lt_Some _ _ _ Hv) as Hlv.
  pose proof (lookup_lt_Some _ _ _ Ho) as Hlo.
  destruct (decide (this = other)) as [<- | Hne].
  - assert (o = v) as -> by congruence.
    exists w. rewrite (Swap_self_run _ _ _ Hv). by repeat split.
  - eexists. split; [by apply Swap_run|]. simpl.
    split; [rewrite list_lookup_insert_ne by done; by apply list_lookup_insert_eq|].
    split; [apply list_lookup_insert_eq; by rewrite length_insert|].
    do 3 (split; [done|]). split; [|done].
    erewrite Swap_run; [|done| |]; simpl.
    + f_equal. destruct w as [vs h s t]. simpl in *. f_equal.
      apply list_eq. intros k.
      destruct (decide (k = other)) as [-> | Hko].
      { rewrite list_lookup_insert_eq by (by rewrite !length_insert). done. }
      rewrite (list_lookup_insert_ne _ other k) by done.
      destruct (decide (k = this)) as [-> | Hkt].
      { rewrite list_lookup_insert_eq by (by rewrite !length_insert). done. }
      rewrite (list_lookup_insert_ne _ this k) by done.
      rewrite (list_lookup_insert_ne _ other k) by done.
      by rewrite (list_lookup_insert_ne _ this k) by done.
    + rewrite list_lookup_insert_ne by done. by apply list_lookup_insert_eq.
    + apply list_lookup_insert_eq. by rewrite length_insert.
Qed.

Lemma Swap_exchanges_witness :
  ∃ w1,
    Swap (X:=Empty_set) 0 1 two_vectors = (Ok tt, w1) ∧
    vectors w1 !! 0 = Some {| data_ := {| buffer_ := Some 2; capacity_ := 2 |}; size_ := 2 |} ∧
    vectors w1 !! 1 = Some {| data_ := {| buffer_ := Some 0; capacity_ := 1 |}; size_ := 1 |} ∧
    heap w1 = heap two_vectors ∧ trace w1 = trace two_vectors ∧
    statics w1 = statics two_vectors ∧
    Swap (X:=Empty_set) 0 1 w1 = (Ok tt, two_vectors) ∧
    (0 = 1 → w1 = two_vectors).
Proof.
  apply (Swap_exchanges (X:=Empty_set) two_vectors 0 1); vm_compute; reflexivity.
Defined.

(** ** [Erase], [operator[]], [EmplaceBack], [Insert] *)

(** X12: [Erase] at a position of [[begin, end)], when it returns, has
    allocated and released nothing: it has assigned each element after the
    position to the slot before it, from the first to the last, and then
    destroyed the object in the last slot.  The vector keeps its block and
    its capacity; it holds the elements before the position, as they were,
    followed by what the assignments have yielded from the elements after
    the position, in their order: with them their values, for an element
    type whose assignments yield the value assigned.  The assignments are
    move assignments when the element type is nothrow-move-constructible or
    not copy-constructible, and copy assignments otherwise. *)
Theorem Erase_closes_the_gap {T P X : Type} (E : @ElemType T P X) (Pl : Platform)
    (w : @World T P) (this : nat) (v : Vector) (xs : list T) (p : nat) :
  sane E Pl → owns E Pl w this v xs → p < length xs →
  match Erase E Pl this (begin_ v +ₚ Z.of_nat p) w with
  | (Ok it, w') => ∃ a v' ys zs,
      buffer_ (data_ v) = Some a ∧
      Forall3 (assigned E (nothrow_move_or_no_copy E)) (drop (S p) xs) ys zs ∧
      (copy_assign_faithful E → move_assign_faithful E → ys = drop (S p) xs) ∧
      owns E Pl w' this v' (take p xs ++ ys) ∧
      data_ v' = data_ v ∧ Size v' = length xs - 1 ∧
      added w w' =
        assignments (Erase_assignment E) (cells a p (length xs - S p)) ++
        [EvDestroy (InHeap (cell a (length xs - 1)))]
  | (Throw _, _) => True
  | _ => False
  end.
Proof.
  intros Hsane Hown Hp.
  destruct (Erase E Pl this _ w) as [r w'] eqn:Hrun.
  pose proof (Erase_cases E Pl _ _ _ _ _ _ _ Hsane Hown Hp Hrun) as Hcases.
  destruct r as [it|e| |]; try done.
  destruct Hcases as (a & ys & zs & v' & Hbuf & HF & Hown' & _ & Hd' & Ht).
  exists a, v', ys, zs. split; [done|]. split; [done|].
  split; [intros Hca Hma; by eapply assigned_values|].
  split; [done|]. split; [done|].
  split.
  - destruct Hown' as [_ Hs' _ _ _]. unfold Size. rewrite Hs', length_app, length_take.
    apply Forall3_length_lm in HF as Hl. rewrite <- Hl, length_drop. lia.
  - rewrite (added_app _ _ _ Ht). unfold Erase_assignment, assign_kind,
      nothrow_move_or_no_copy. reflexivity.
Qed.

Lemma Erase_closes_the_gap_witness :
  match Erase int_type debug 0 (cell 2 1) ints_123 with
  | (Ok it, w') => ∃ a v' ys zs,
      Some 2 = Some a ∧
      Forall3 (assigned int_type (nothrow_move_or_no_copy int_type))
        (drop 2 [1%Z; 2%Z; 3%Z]) ys zs ∧
      (copy_assign_faithful int_type → move_assign_faithful int_type →
       ys = drop 2 [1%Z; 2%Z; 3%Z]) ∧
      owns int_type debug w' 0 v' (take 1 [1%Z; 2%Z; 3%Z] ++ ys) ∧
      data_ v' = {| buffer_ := Some 2; capacity_ := 4 |} ∧ Size v' = 3 - 1 ∧
      added ints_123 w' =
        assignments (Erase_assignment int_type) (cells a 1 (3 - 2)) ++
        [EvDestroy (InHeap (cell a (3 - 1)))]
  | (Throw _, _) => True
  | _ => False
  end ∧
  heap (after (Erase int_type debug 0 (cell 2 1)) ints_123) =
    [None; None; Some [Some 1%Z; Some 3%Z; None; None]].
Proof.
  split; [|vm_compute; reflexivity].
  exact (Erase_closes_the_gap int_type debug ints_123 0 _ [1%Z; 2%Z; 3%Z] 1 sane_int
           owns_ints_123 (le_S _ _ (le_n 2))).
Defined.

(** X13: [operator[]] with an index below the size returns, in every build
    configuration, the address of the element of that index, and changes
    nothing. *)
Theorem index_reaches_element {T P X : Type} (E : @ElemType T P X) (Pl : Platform)
    (w : @World T P) (this : nat) (v : Vector) (xs : list T) (i : nat) (x : T) :
  owns E Pl w this v xs → xs !! i = Some x →
  Vector_index (X:=X) Pl this i w = (Ok (begin_ v +ₚ Z.of_nat i), w) ∧
  slot_at (heap w) (begin_ v +ₚ Z.of_nat i) = Some (Some x).
Proof.
  intros Hown Hi. split.
  - eapply Vector_index_run; [done|]. by eapply lookup_lt_Some.
  - by eapply owns_slot.
Qed.

Lemma index_reaches_element_witness :
  Vector_index (X:=Empty_set) debug 0 1 ints_123 = (Ok (cell 2 0 +ₚ Z.of_nat 1), ints_123) ∧
  slot_at (heap ints_123) (cell 2 0 +ₚ Z.of_nat 1) = Some (Some 2%Z).
Proof.
  exact (index_reaches_element int_type debug ints_123 0 _ [1%Z; 2%Z; 3%Z] 1 2%Z
           owns_ints_123 eq_refl).
Defined.

(** X14: the reference [EmplaceBack] returns is to the new last element of
    the vector, in the block the vector has after the call. *)
Theorem EmplaceBack_returns_last {T P X : Type} (E : @ElemType T P X) (Pl : Platform)
    (w : @World T P) (this : nat) (v : Vector) (xs : list T) (arg : @args T P X) :
  sane E Pl → owns E Pl w this v xs → arg_ok (heap w) arg →
  match EmplaceBack E Pl this arg w with
  | (Ok it, w') => ∃ v' ys y,
      owns E Pl w' this v' (ys ++ [y]) ∧ length ys = length xs ∧
      it = end_ v' +ₚ -1 ∧ slot_at (heap w') it = Some (Some y)
  | (Throw _, _) => True
  | _ => False
  end.
Proof.
  intros Hsane Hown Hok.
  destruct (EmplaceBack E Pl this arg w) as [r w'] eqn:Hrun.
  destruct (EmplaceBack_cases E Pl _ _ _ _ _ _ _ Hsane Hown Hok Hrun) as (r0 & HP & Hr).
  destruct r as [it|e| |]; try done. destruct Hr as [-> Hit].
  pose proof (PushBack_cases E Pl _ _ _ _ _ _ _ Hsane Hown Hok HP) as Hcases.
  destruct Hcases as (y & h1 & xs1 & ys & v' & Hmade & Hh1 & Hl1 & Hown' & Hrest).
  assert (Hlys : length ys = length xs).
  { destruct (capacity_ (data_ v) =? length xs).
    - destruct Hrest as ((zs & HF) & _). apply Forall3_length_lm in HF. lia.
    - destruct Hrest as (a & _ & -> & _). done. }
  exists v', ys, y. split; [done|]. split; [done|].
  specialize (Hit _ _ Hown'). rewrite length_app in Hit. simpl in Hit.
  replace (length ys + 1 - 1) with (length ys) in Hit by lia.
  split.
  - rewrite Hit. destruct Hown' as [_ Hs' _ _ _]. unfold end_, begin_, ptr_add. simpl.
    f_equal. rewrite Hs', length_app. simpl. lia.
  - rewrite Hit. eapply owns_slot; [done|]. by apply list_lookup_middle.
Qed.

Lemma EmplaceBack_returns_last_witness :
  match EmplaceBack int_type debug 0 (ByCopy (External 3%Z)) ints_12 with
  | (Ok it, w') => ∃ v' ys y,
      owns int_type debug w' 0 v' (ys ++ [y]) ∧ length ys = length [1%Z; 2%Z] ∧
      it = end_ v' +ₚ -1 ∧ slot_at (heap w') it = Some (Some y)
  | (Throw _, _) => True
  | _ => False
  end.
Proof.
  exact (EmplaceBack_returns_last int_type debug ints_12 0 _ [1%Z; 2%Z]
           (ByCopy (External 3%Z)) sane_int owns_ints_12 I).
Defined.

(** X15: [Insert] (and [Emplace]) into a vector with spare capacity keeps
    the block, so that the iterator returned is the position given;
    into a full vector it moves the elements to a new block, and the
    iterator returned points into that block, not to the position given. *)
Theorem Insert_returns_position {T P X : Type} (E : @ElemType T P X) (Pl : Platform)
    (w : @World T P) (this : nat) (v : Vector) (xs : list T) (p : nat)
    (arg : @args T P X) :
  sane E Pl → owns E Pl w this v xs → arg_ok (heap w) arg → p ≤ length xs →
  match Insert E Pl this (begin_ v +ₚ Z.of_nat p) arg w with
  | (Ok it, w') => ∃ v',
      vectors w' !! this = Some v' ∧ it = begin_ v' +ₚ Z.of_nat p ∧
      if Capacity v =? Size v
      then buffer_ (data_ v') = Some (length (heap w)) ∧ it ≠ begin_ v +ₚ Z.of_nat p
      else data_ v' = data_ v ∧ it = begin_ v +ₚ Z.of_nat p
  | (Throw _, _) => True
  | _ => False
  end.
Proof.
  intros Hsane Hown Hok Hp. unfold Insert, Capacity, Size.
  pose proof Hown as [Hself Hsize Hroom Hbytes Hblock].
  destruct (Emplace E Pl this _ arg w) as [r w'] eqn:Hrun.
  destruct (decide (capacity_ (data_ v) = length xs)) as [Hfull | Hspare].
  - pose proof (Emplace_grow_cases E Pl _ _ _ _ _ _ _ _ Hsane Hown Hok Hp Hfull Hrun)
      as Hcases.
    destruct r as [it|e| |]; try done.
    destruct Hcases as (y & h1 & xs1 & ys1 & zs1 & ys2 & zs2 & v' & _ & _ & _ &
      _ & _ & Hown' & -> & Hd' & _).
    exists v'. split; [by destruct Hown'|]. split; [done|].
    rewrite Hsize, (proj2 (Nat.eqb_eq _ _) Hfull). rewrite Hd'. simpl.
    split; [done|]. unfold begin_, GetAddress. rewrite Hd'. simpl.
    intros [= Hbase]. unfold holds in Hblock.
    destruct (buffer_ (data_ v)) as [a|]; [|done].
    apply block_at_lt in Hblock. simplify_eq. lia.
  - assert (Hlt : length xs < capacity_ (data_ v)) by lia.
    pose proof (Emplace_inplace_cases E Pl _ _ _ _ _ _ _ _ Hsane Hown Hok Hp Hlt Hrun)
      as Hcases.
    destruct r as [it|e| |]; try done.
    destruct Hcases as (a & y & h1 & xs1 & v' & Hbuf & _ & _ & _ & -> & Hd' & Hrest).
    assert (Hpos : cell a p = begin_ v +ₚ Z.of_nat p).
    { unfold begin_, GetAddress. rewrite Hbuf. unfold cell, ptr_add. simpl.
      by rewrite Z.add_0_l. }
    exists v'. split.
    { destruct (decide (p = length xs)).
      - by destruct Hrest as [[? _ _ _ _] _].
      - by destruct Hrest as (? & ? & ? & ? & ? & ? & ? & ? & _ & _ & _ & _ & [? _ _ _ _] & _). }
    split.
    { rewrite Hpos. unfold begin_. by rewrite Hd'. }
    rewrite Hsize, (proj2 (Nat.eqb_neq _ _) Hspare). by split.
Qed.

Lemma Insert_returns_position_witness :
  match Insert int_type debug 0 (cell 2 0 +ₚ Z.of_nat 1) (ByCopy (External 5%Z)) ints_123 with
  | (Ok it, w') => ∃ v',
      vectors w' !! 0 = Some v' ∧ it = begin_ v' +ₚ Z.of_nat 1 ∧
      if Capacity {| data_ := {| buffer_ := Some 2; capacity_ := 4 |}; size_ := 3 |}
           =? Size {| data_ := {| buffer_ := Some 2; capacity_ := 4 |}; size_ := 3 |}
      then buffer_ (data_ v') = Some (length (heap ints_123)) ∧
           it ≠ cell 2 0 +ₚ Z.of_nat 1
      else data_ v' = {| buffer_ := Some 2; capacity_ := 4 |} ∧
           it = cell 2 0 +ₚ Z.of_nat 1
  | (Throw _, _) => True
  | _ => False
  end.
Proof.
  exact (Insert_returns_position int_type debug ints_123 0 _ [1%Z; 2%Z; 3%Z] 1
           (ByCopy (External 5%Z)) sane_int owns_ints_123 I
           (le_S _ _ (le_S _ _ (le_n 1)))).
Defined.

(** ** The copy constructor, undefined behaviour, failures *)

Lemma copied_values {T P X : Type} (E : @ElemType T P X) (xs ys zs : list T) :
  copy_faithful E → Forall3 (relocated E false) xs ys zs → ys = xs.
Proof.
  intros Hc. induction 1 as [|x y z xs ys zs [(s & s' & Hy) _] _ IH]; [done|].
  f_equal; [by eapply Hc | done].
Qed.

(** X16: the copy constructor, when it returns, has built a vector whose
    size and capacity are both the size of the source (not its capacity),
    which holds the values of the source in their order, in a block of its
    own; the source owns what it owned.  (For an element type whose copies
    keep the value.) *)
Theorem Vector_copy_is_independent {T P X : Type} (E : @ElemType T P X)
    (Pl : Platform) (w : @World T P) (other : nat) (o : Vector) (xs : list T) :
  sane E Pl → copy_faithful E → owns E Pl w other o xs →
  match Vector_copy E Pl other w with
  | (Ok v', w') =>
      Size v' = length xs ∧ Capacity v' = length xs ∧
      holds (heap w') (data_ v') xs ∧ owns E Pl w' other o xs ∧
      (xs ≠ [] → buffer_ (data_ v') = Some (length (heap w)) ∧
                 buffer_ (data_ v') ≠ buffer_ (data_ o)) ∧
      alive (added w w') = Z.of_nat (length xs)
  | (Throw _, _) => True
  | _ => False
  end.
Proof.
  intros Hsane Hc Hown.
  destruct (Vector_copy E Pl other w) as [r w'] eqn:Hrun.
  destruct (Vector_copy_cases E Pl _ _ _ _ _ _ Hsane Hown Hrun) as [Hv Hcases].
  destruct r as [v'|e| |]; try done.
  destruct Hcases as (ys & HF & Hs & Hcap & Hh & Hframe & Ht & Hbuf & Hheap).
  apply (copied_values E _ _ _ Hc) in HF as ->.
  pose proof Hown as [Hself Hsize Hroom Hbytes Hblock].
  do 3 (split; [done|]).
  split.
  { eapply owns_frame; [done|done|]. unfold holds in *.
    destruct (buffer_ (data_ o)) as [a|]; [|done].
    rewrite Hframe by (by eapply block_at_lt). done. }
  split.
  { intros Hne. destruct (decide (length xs = 0)) as [H0|H0]; [by destruct xs|].
    split; [done|]. rewrite Hbuf. unfold holds in Hblock.
    destruct (buffer_ (data_ o)) as [a|]; [|done].
    apply block_at_lt in Hblock. intros [= ?]. lia. }
  rewrite (added_app _ _ _ Ht). destruct (buffer_ (data_ v')) as [b|].
  - change (EvNew b (length xs) :: constructions CopyCtor b 0 (length xs))
      with ([EvNew b (length xs)] ++ constructions CopyCtor b 0 (length xs)).
    rewrite alive_app, alive_constructions. simpl. lia.
  - destruct (decide (length xs = 0)) as [H0|H0]; [|done]. rewrite H0. done.
Qed.

Lemma Vector_copy_is_independent_witness :
  match Vector_copy int_type debug 0 ints_12_of_4 with
  | (Ok v', w') =>
      Size v' = length [1%Z; 2%Z] ∧ Capacity v' = length [1%Z; 2%Z] ∧
      holds (heap w') (data_ v') [1%Z; 2%Z] ∧
      owns int_type debug w' 0
        {| data_ := {| buffer_ := Some 0; capacity_ := 4 |}; size_ := 2 |} [1%Z; 2%Z] ∧
      ([1%Z; 2%Z] ≠ [] → buffer_ (data_ v') = Some (length (heap ints_12_of_4)) ∧
                 buffer_ (data_ v') ≠ Some 0) ∧
      alive (added ints_12_of_4 w') = Z.of_nat (length [1%Z; 2%Z])
  | (Throw _, _) => True
  | _ => False
  end.
Proof.
  exact (Vector_copy_is_independent int_type debug ints_12_of_4 0 _ [1%Z; 2%Z] sane_int
           (proj1 value_semantics_int) owns_ints_12_of_4).
Defined.



(** The element whose copy constructor has thrown is the first one whose
    copy constructor throws. *)
Lemma first_copy_that_throws {T P X : Type} (E : @ElemType T P X) (xs : list T)
    (k : nat) (x0 : T) (x : X) (k' : nat) (x0' : T) (x' : X) (ys zs : list T) :
  xs !! k = Some x0 → copy_throws E x0 x → Forall (copy_returns E) (take k xs) →
  xs !! k' = Some x0' → reloc_threw E false x0' x' →
  Forall3 (relocated E false) (take k' xs) ys zs →
  k' = k ∧ x' = x.
Proof.
  intros Hk Hthrows Hbefore Hk' Hth HF.
  assert (Hno : ∀ y s s', T_copy E x0 s = (inr y, s') → False).
  { intros y s s' Hy. destruct (Hthrows s) as [s'' Hs]. congruence. }
  assert (k' = k) as ->.
  { destruct (Nat.lt_trichotomy k' k) as [Hlt | [-> | Hgt]]; [|done|].
    - rewrite Forall_lookup in Hbefore.
      assert (take k xs !! k' = Some x0') as Hin by (by rewrite lookup_take_lt).
      destruct Hth as (s & s' & Hs).
      destruct (Hbefore _ _ Hin s) as (y & s'' & Hy). simpl in Hs. congruence.
    - assert (take k' xs !! k = Some x0) as Hin by (by rewrite lookup_take_lt).
      destruct (Forall3_lookup_l _ _ _ _ _ _ HF Hin)
        as (y & z & _ & _ & [(s & s' & Hy) _]).
      by destruct (Hno y s s'). }
  split; [done|].
  assert (x0' = x0) as -> by congruence.
  destruct Hth as (s & s' & Hs). destruct (Hthrows s) as [s'' Hs']. simpl in Hs.
  congruence.
Qed.

(** No relocation by copy of all the elements returns when the copy
    constructor of one of them throws. *)
Lemma copy_throws_not_relocated {T P X : Type} (E : @ElemType T P X) (xs : list T)
    (k : nat) (x0 : T) (x : X) (ys zs : list T) :
  xs !! k = Some x0 → copy_throws E x0 x →
  Forall3 (relocated E false) xs ys zs → False.
Proof.
  intros Hk Hthrows HF.
  destruct (Forall3_lookup_l _ _ _ _ _ _ HF Hk) as (y & z & _ & _ & [(s & s' & Hy) _]).
  destruct (Hthrows s) as [s'' Hs]. congruence.
Qed.

(** X18: for an element type that is relocated by copy, and a new element
    built from arguments that do not move from an element of a vector: a
    [PushBack] that fails leaves the vector as it was, with its block, size,
    capacity and elements.  When the allocation was refused or the
    constructor of the new element has thrown, no object of the call is
    left.  When the copy constructor of an element has thrown, which happens
    in a full vector after the new element has been built in the new block,
    the copies made so far have been destroyed, but the new block is
    released with the new element still in it, its destructor not run.  And
    this does happen: when the vector is full, the allocation is granted,
    the constructor of the new element cannot throw, and the copy
    constructor of the element of index [k] throws while those of the
    elements before it return, the call throws that exception after exactly
    these operations. *)
Theorem PushBack_failure_accounting {T P X : Type} (E : @ElemType T P X)
    (Pl : Platform) (w : @World T P) (this : nat) (v : Vector) (xs : list T)
    (arg : @args T P X) :
  sane E Pl → owns E Pl w this v xs → arg_ok (heap w) arg → pure_arg arg →
  is_nothrow_move_constructible E || negb (is_copy_constructible E) = false →
  match PushBack E Pl this arg w with
  | (Throw e, w') =>
      owns E Pl w' this v xs ∧
      ((e = bad_alloc ∨ ∃ x, e = thrown x ∧ threw E (heap w) arg x) ∧
       alive (added w w') = 0%Z ∨
       Capacity v = Size v ∧
       (∃ y, made E (heap w) arg y (heap w)) ∧
       ∃ k x0 x s s',
         xs !! k = Some x0 ∧ T_copy E x0 s = (inl x, s') ∧ e = thrown x ∧
         added w w' =
           [EvNew (length (heap w)) (Nat.max 1 (2 * length xs));
            EvConstruct (ctor_of arg) (InHeap (cell (length (heap w)) (length xs)))] ++
           constructions CopyCtor (length (heap w)) 0 k ++
           destructions (length (heap w)) 0 k ++ [EvDelete (length (heap w))] ∧
         alive (added w w') = 1%Z)
  | _ => True
  end ∧
  ∀ (k : nat) (x0 : T) (x : X),
    Capacity v = Size v →
    (Z.of_nat (Nat.max 1 (2 * length xs)) * sizeof_T E <= heap_limit Pl)%Z →
    cannot_throw E (heap w) arg →
    xs !! k = Some x0 → copy_throws E x0 x → Forall (copy_returns E) (take k xs) →
    ∃ w',
      PushBack E Pl this arg w = (Throw (thrown x), w') ∧
      owns E Pl w' this v xs ∧
      added w w' =
        [EvNew (length (heap w)) (Nat.max 1 (2 * length xs));
         EvConstruct (ctor_of arg) (InHeap (cell (length (heap w)) (length xs)))] ++
        constructions CopyCtor (length (heap w)) 0 k ++
        destructions (length (heap w)) 0 k ++ [EvDelete (length (heap w))] ∧
      alive (added w w') = 1%Z.
Proof.
  intros Hsane Hown Hok Hpure Hmv.
  pose proof Hown as [Hself Hsize Hroom Hbytes Hblock].
  assert (Hleak : ∀ k, alive
            ([EvNew (length (heap w)) (Nat.max 1 (2 * length xs));
              EvConstruct (ctor_of arg) (InHeap (cell (length (heap w)) (length xs)))] ++
             constructions CopyCtor (length (heap w)) 0 k ++
             destructions (length (heap w)) 0 k ++ [EvDelete (length (heap w))]) = 1%Z).
  { intros k.
    change [EvNew (length (heap w)) (Nat.max 1 (2 * length xs));
            EvConstruct (ctor_of arg) (InHeap (cell (length (heap w)) (length xs)))]
      with ([EvNew (length (heap w)) (Nat.max 1 (2 * length xs))] ++
            [EvConstruct (ctor_of arg) (InHeap (cell (length (heap w)) (length xs)))]).
    rewrite !alive_app, alive_constructions, alive_destructions. simpl. lia. }
  destruct (PushBack E Pl this arg w) as [r w'] eqn:Hrun.
  pose proof (PushBack_cases E Pl _ _ _ _ _ _ _ Hsane Hown Hok Hrun) as Hcases.
  unfold nothrow_move_or_no_copy in Hcases. rewrite Hmv in Hcases.
  split.
  - destruct r as [[]|e| |]; try done.
    destruct Hcases as [Hv [(-> & -> & _) | [(x & -> & Hth & Hrest) |
      (Hfull & y & h1 & xs1 & k & x0 & x & Hmade & Hh1 & Hl1 & Hk & -> & Hrel & Hh & Ht & _)]]].
    + split; [done|]. left. split; [by left|]. by rewrite added_refl.
    + destruct (capacity_ (data_ v) =? length xs).
      * destruct Hrest as [Hh Ht]. split.
        -- eapply owns_frame; [done|done|]. rewrite Hh. by apply holds_app.
        -- left. split; [right; eauto|]. by rewrite (added_app _ _ _ Ht).
      * destruct Hrest as [Hh Ht]. split.
        -- eapply owns_frame; [done|done|]. by rewrite Hh.
        -- left. split; [right; eauto|]. unfold added. by rewrite Ht, drop_all.
    + destruct (made_pure_elements E Pl _ _ _ _ _ _ _ _ Hown Hpure Hmade Hh1 Hl1) as [-> ->].
      specialize (Hh eq_refl). destruct Hrel as (s & s' & Hrel).
      split.
      { eapply owns_frame; [done|done|]. rewrite Hh. by apply holds_app. }
      right. split; [unfold Capacity, Size; lia|]. split; [eauto|].
      exists k, x0, x, s, s'. rewrite (added_app _ _ _ Ht). done.
  - intros k x0 x Hfull Hlim Hnever Hk Hthrows Hbefore.
    unfold Capacity, Size in Hfull. rewrite Hsize in Hfull.
    destruct r as [[]|e| |]; try done.
    + destruct Hcases as (y & h1 & xs1 & ys & v' & Hmade & Hh1 & Hl1 & _ & Hrest).
      rewrite (proj2 (Nat.eqb_eq _ _) Hfull) in Hrest.
      destruct Hrest as ((zs & HF) & _).
      destruct (made_pure_elements E Pl _ _ _ _ _ _ _ _ Hown Hpure Hmade Hh1 Hl1) as [-> ->].
      destruct (copy_throws_not_relocated E _ _ _ _ _ _ Hk Hthrows HF).
    + destruct Hcases as [Hv [(-> & -> & _ & Hrefused) | [(x' & -> & Hth & _) |
        (_ & y & h1 & xs1 & k' & x0' & x' & Hmade & Hh1 & Hl1 & Hk' & -> & Hrel & Hh & Ht &
         ys & zs & HF)]]].
      * lia.
      * destruct (Hnever _ Hth).
      * destruct (made_pure_elements E Pl _ _ _ _ _ _ _ _ Hown Hpure Hmade Hh1 Hl1)
          as [-> ->].
        destruct (first_copy_that_throws E _ _ _ _ _ _ _ _ _ Hk Hthrows Hbefore Hk' Hrel HF)
          as [-> ->].
        specialize (Hh eq_refl).
        exists w'. split; [done|]. split.
        { eapply owns_frame; [done|done|]. rewrite Hh. by apply holds_app. }
        rewrite (added_app _ _ _ Ht). done.
Qed.

Lemma Fragile_move_cannot_throw h (x : bool) :
  cannot_throw Fragile h (ByMove (External x)).
Proof. intros e H. inversion H; subst; discriminate. Qed.

Lemma Fragile_copy_throws : copy_throws Fragile true Oops.
Proof. intros s. by exists s. Qed.

Lemma Fragile_copy_returns : copy_returns Fragile false.
Proof. intros s. by exists false, s. Qed.

Lemma PushBack_failure_accounting_witness :
  match PushBack Fragile debug 0 (ByMove (External false)) fragile_2 with
  | (Throw e, w') =>
      owns Fragile debug w' 0
        {| data_ := {| buffer_ := Some 1; capacity_ := 2 |}; size_ := 2 |} [false; true] ∧
      ((e = bad_alloc ∨
        ∃ x, e = thrown x ∧ threw Fragile (heap fragile_2) (ByMove (External false)) x) ∧
       alive (added fragile_2 w') = 0%Z ∨
       Capacity {| data_ := {| buffer_ := Some 1; capacity_ := 2 |}; size_ := 2 |} =
         Size {| data_ := {| buffer_ := Some 1; capacity_ := 2 |}; size_ := 2 |} ∧
       (∃ y, made Fragile (heap fragile_2) (ByMove (External false)) y (heap fragile_2)) ∧
       ∃ k x0 x s s',
         [false; true] !! k = Some x0 ∧ T_copy Fragile x0 s = (inl x, s') ∧
         e = thrown x ∧
         added fragile_2 w' =
           [EvNew (length (heap fragile_2)) (Nat.max 1 (2 * length [false; true]));
            EvConstruct (ctor_of (T:=bool) (P:=unit) (X:=runtime_error)
                           (ByMove (External false)))
              (InHeap (cell (length (heap fragile_2)) (length [false; true])))] ++
           constructions CopyCtor (length (heap fragile_2)) 0 k ++
           destructions (length (heap fragile_2)) 0 k ++
           [EvDelete (length (heap fragile_2))] ∧
         alive (added fragile_2 w') = 1%Z)
  | _ => True
  end ∧
  ∃ w',
    PushBack Fragile debug 0 (ByMove (External false)) fragile_2 = (Throw (thrown Oops), w') ∧
    owns Fragile debug w' 0
      {| data_ := {| buffer_ := Some 1; capacity_ := 2 |}; size_ := 2 |} [false; true] ∧
    added fragile_2 w' =
      [EvNew 2 4; EvConstruct MoveCtor (InHeap (cell 2 2))] ++
      constructions CopyCtor 2 0 1 ++ destructions 2 0 1 ++ [EvDelete 2] ∧
    alive (added fragile_2 w') = 1%Z.
Proof.
  destruct (PushBack_failure_accounting Fragile debug fragile_2 0
              {| data_ := {| buffer_ := Some 1; capacity_ := 2 |}; size_ := 2 |}
              [false; true] (ByMove (External false))
              sane_Fragile owns_fragile_2 I I eq_refl) as [Hcases Hleak].
  split; [exact Hcases|].
  refine (Hleak 1 true Oops eq_refl _ (Fragile_move_cannot_throw _ false) eq_refl
            Fragile_copy_throws _).
  - vm_compute. discriminate.
  - repeat constructor. exact Fragile_copy_returns.
Defined.

Lemma RawMemory_new_refused {T P X : Type} (E : @ElemType T P X) (Pl : Platform)
    (n : nat) (w : @World T P) :
  sane E Pl → 0 < n → (Z.of_nat n * sizeof_T E < 2 ^ 64)%Z →
  (heap_limit Pl < Z.of_nat n * sizeof_T E)%Z →
  RawMemory_new E Pl n w = (Throw bad_alloc, w).
Proof.
  intros Hsane H0 Hn Hlim.
  destruct (RawMemory_new E Pl n w) as [r w'] eqn:Hnew.
  apply RawMemory_new_cases in Hnew as [(-> & -> & _) | (_ & _ & Hle)];
    [ done | lia | done | done | done ].
Qed.

(** X19: when the allocator refuses the new block, [Reserve] above the
    capacity and [PushBack] into a full vector throw [bad_alloc] and
    nothing at all has changed: not the vector, not a block, not the static
    state of the element type, not the trace. *)
Theorem allocation_failure_changes_nothing {T P X : Type} (E : @ElemType T P X)
    (Pl : Platform) (w : @World T P) (this : nat) (v : Vector) (xs : list T) (n : nat)
    (arg : @args T P X) :
  sane E Pl → owns E Pl w this v xs →
  (Capacity v < n → (Z.of_nat n * sizeof_T E < 2 ^ 64)%Z →
   (heap_limit Pl < Z.of_nat n * sizeof_T E)%Z →
   Reserve E Pl this n w = (Throw bad_alloc, w)) ∧
  (Capacity v = Size v →
   (heap_limit Pl < Z.of_nat (Nat.max 1 (2 * Size v)) * sizeof_T E)%Z →
   PushBack E Pl this arg w = (Throw bad_alloc, w)).
Proof.
  intros Hsane Hown. pose proof Hown as [Hself Hsize Hroom Hbytes Hblock].
  destruct (owns_no_wrap E Pl _ _ _ _ Hsane Hown) as [Hw1 Hw2].
  unfold Capacity, Size. split.
  - intros Hcap Hn Hlim.
    unfold Reserve, bind. rewrite (self_run _ _ _ Hself). cbv beta iota.
    rewrite (proj2 (Nat.leb_gt _ _) Hcap).
    unfold local_RawMemory, bind.
    rewrite (RawMemory_new_refused E Pl n w Hsane) by (done || lia). reflexivity.
  - intros Hfull Hlim.
    unfold PushBack, bind. rewrite (self_run _ _ _ Hself). cbv beta iota.
    rewrite Hfull, Nat.eqb_refl.
    assert (Hc' : (if size_ v =? 0 then 1 else size_t (Z.of_nat (size_ v) * 2))
                  = Nat.max 1 (2 * size_ v)).
    { destruct (size_ v =? 0) eqn:H0; [apply Nat.eqb_eq in H0; lia|].
      apply Nat.eqb_neq in H0. rewrite size_t_small by lia. lia. }
    rewrite Hc'. unfold local_RawMemory, bind.
    rewrite (RawMemory_new_refused E Pl _ w Hsane); [reflexivity|lia| |done].
    destruct Hsane as [Hs _]. destruct (size_ v) as [|k]; simpl Nat.max; [lia|].
    rewrite Hfull in Hw1. lia.
Qed.

Lemma owns_ints_12_tiny :
  owns int_type tiny ints_12 0
    {| data_ := {| buffer_ := Some 1; capacity_ := 2 |}; size_ := 2 |} [1%Z; 2%Z].
Proof. split; vm_compute; (reflexivity || lia || (intros; discriminate)). Qed.

Lemma allocation_failure_changes_nothing_witness :
  Reserve int_type tiny 0 3 ints_12 = (Throw bad_alloc, ints_12) ∧
  PushBack int_type tiny 0 (ByCopy (External 3%Z)) ints_12 = (Throw bad_alloc, ints_12).
Proof.
  destruct (allocation_failure_changes_nothing int_type tiny ints_12 0
              {| data_ := {| buffer_ := Some 1; capacity_ := 2 |}; size_ := 2 |} [1%Z; 2%Z] 3
              (ByCopy (External 3%Z))) as [HR HP].
  - split; vm_compute; done.
  - exact owns_ints_12_tiny.
  - split; [apply HR | apply HP]; vm_compute; reflexivity.
Defined.

(** ** Copy assignment *)

Section CopyAssigning.
Context {T P X : Type}.
Variable E : @ElemType T P X.
Variable Pl : Platform.
Implicit Types (w : @World T P) (h : list (option (list (option T)))).
Implicit Types (a b c i j n p : nat) (xs ys zs ds : list T) (v o : Vector).

(** One copy assignment, from slot [j] of block [a] to slot [i] of
    block [b]. *)
Lemma copy_assign_across a b i j blka blkb d x w r w' :
  b ≠ a ∨ i ≠ j →
  block_at (heap w) b = Some blkb → blkb !! i = Some (Some d) →
  block_at (heap w) a = Some blka → blka !! j = Some (Some x) →
  copy_assign E (cell b i) (cell a j) w = (r, w') →
  vectors w' = vectors w ∧
  match r with
  | Ok _ => ∃ y,
      copy_assigned E d x y ∧
      heap w' = <[b := Some (<[i := Some y]> blkb)]> (heap w) ∧
      trace w' = trace w ++ [EvAssign CopyAssign (InHeap (cell b i))]
  | Throw e => heap w' = heap w ∧ trace w' = trace w
  | _ => False
  end.
Proof.
  intros Hne Hb Hi Ha Hj. unfold copy_assign, bind.
  rewrite (load_cell _ _ _ _ _ Hb Hi), (load_cell _ _ _ _ _ Ha Hj).
  rewrite ptr_eqb_cell_ne by done.
  unfold member.
  destruct (T_copy_assign E d x (statics w)) as [[x'|y] s'] eqn:Hm.
  - intros [= <- <-]. done.
  - simpl. erewrite put_cell; [| exact Hb | by eapply lookup_lt_Some].
    unfold log, with_event; simpl. intros [= <- <-]. simpl. split; [done|].
    exists y. split; [by exists (statics w), s'|]. done.
Qed.

(** One copy assignment of the object in slot [i] of block [a] to itself. *)
Lemma copy_assign_same a i blk x w r w' :
  block_at (heap w) a = Some blk → blk !! i = Some (Some x) →
  copy_assign E (cell a i) (cell a i) w = (r, w') →
  vectors w' = vectors w ∧
  match r with
  | Ok _ => ∃ y,
      self_assigned E x y ∧
      heap w' = <[a := Some (<[i := Some y]> blk)]> (heap w) ∧
      trace w' = trace w ++ [EvAssign CopyAssign (InHeap (cell a i))]
  | Throw e => heap w' = heap w ∧ trace w' = trace w
  | _ => False
  end.
Proof.
  intros Ha Hi. unfold copy_assign, bind.
  rewrite !(load_cell _ _ _ _ _ Ha Hi), ptr_eqb_refl.
  unfold member.
  destruct (T_copy_assign_self E x (statics w)) as [[x'|y] s'] eqn:Hm.
  - intros [= <- <-]. done.
  - simpl. erewrite put_cell; [| exact Ha | by eapply lookup_lt_Some].
    unfold log, with_event; simpl. intros [= <- <-]. simpl. split; [done|].
    exists y. split; [by exists (statics w), s'|]. done.
Qed.

(** [std::copy_n] from one block to another. *)
Lemma copy_n_across a b : a ≠ b → ∀ xs ds sp dp sq dq w r w',
  length ds = length xs →
  block_at (heap w) a = Some (sp ++ (Some <$> xs) ++ sq) →
  block_at (heap w) b = Some (dp ++ (Some <$> ds) ++ dq) →
  std_copy_n E (cell a (length sp)) (length xs) (cell b (length dp)) w = (r, w') →
  vectors w' = vectors w ∧
  match r with
  | Ok _ => ∃ ys,
      Forall3 (copy_assigned E) ds xs ys ∧
      heap w' = <[b := Some (dp ++ (Some <$> ys) ++ dq)]> (heap w) ∧
      trace w' = trace w ++ assignments CopyAssign (cells b (length dp) (length xs))
  | Throw e => ∃ k ds',
      k < length xs ∧ length ds' = length ds ∧
      heap w' = <[b := Some (dp ++ (Some <$> ds') ++ dq)]> (heap w) ∧
      trace w' = trace w ++ assignments CopyAssign (cells b (length dp) k)
  | _ => False
  end.
Proof.
  intros Hab. unfold std_copy_n.
  induction xs as [|x xs IH]; intros ds sp dp sq dq w r w' Hl Ha Hb.
  - destruct ds; [|done]. simpl. intros [= <- <-]. split; [done|].
    exists []. split; [constructor|].
    simpl in *. rewrite (insert_block_id _ _ _ Hb). by rewrite app_nil_r.
  - destruct ds as [|d ds]; [done|]. simpl in Hl.
    change (block_at (heap w) a = Some (sp ++ Some x :: (Some <$> xs) ++ sq)) in Ha.
    change (block_at (heap w) b = Some (dp ++ Some d :: (Some <$> ds) ++ dq)) in Hb.
    simpl length. simpl assign_forward. unfold bind at 1.
    destruct (copy_assign E _ _ w) as [r1 w1] eqn:Hc.
    eapply (copy_assign_across a b _ _ _ _ d x) in Hc as (Hv1 & Hr1);
      [ | left; congruence | exact Hb | by apply list_lookup_middle | exact Ha
        | by apply list_lookup_middle ].
    destruct r1 as [[]|e| |]; try done.
    + destruct Hr1 as (y & Hy & Hh1 & Ht1).
      rewrite !cell_succ. intros Hloop.
      specialize (IH ds (sp ++ [Some x]) (dp ++ [Some y]) sq dq w1 r w').
      rewrite !length_app in IH. simpl in IH. rewrite !Nat.add_1_r in IH.
      destruct IH as (Hv & Hr); [ lia | | | exact Hloop | ].
      { rewrite Hh1. rewrite block_at_insert_ne by done. rewrite Ha.
        by rewrite <- app_assoc. }
      { rewrite Hh1. rewrite block_at_insert_eq by (by eapply block_at_lt).
        f_equal. rewrite insert_app_r_alt by lia. rewrite Nat.sub_diag. simpl.
        by rewrite <- app_assoc. }
      split; [congruence|].
      destruct r as [[]|e| |]; try done.
      * destruct Hr as (ys & HF & Hh & Ht).
        exists (y :: ys). split; [by constructor|].
        rewrite Hh, Hh1, Ht, Ht1. split.
        -- rewrite list_insert_insert_eq. by rewrite <- app_assoc.
        -- by rewrite <- app_assoc.
      * destruct Hr as (k & ds' & Hk & Hl' & Hh & Ht).
        exists (S k), (y :: ds'). split; [lia|]. split; [simpl; lia|].
        rewrite Hh, Hh1, Ht, Ht1. split.
        -- rewrite list_insert_insert_eq. by rewrite <- app_assoc.
        -- by rewrite <- app_assoc.
    + destruct Hr1 as [Hh1 Ht1]. intros [= <- <-]. split; [done|].
      exists 0, (d :: ds). split; [lia|]. split; [done|].
      rewrite Hh1, Ht1. split.
      * symmetry. by apply insert_block_id.
      * simpl. by rewrite app_nil_r.
Qed.

(** [std::copy_n] of a range onto itself. *)
Lemma copy_n_self a : ∀ xs pre post w r w',
  block_at (heap w) a = Some (pre ++ (Some <$> xs) ++ post) →
  std_copy_n E (cell a (length pre)) (length xs) (cell a (length pre)) w = (r, w') →
  vectors w' = vectors w ∧
  match r with
  | Ok _ => ∃ ys,
      Forall2 (self_assigned E) xs ys ∧
      heap w' = <[a := Some (pre ++ (Some <$> ys) ++ post)]> (heap w) ∧
      trace w' = trace w ++ assignments CopyAssign (cells a (length pre) (length xs))
  | Throw e => ∃ k xs',
      k < length xs ∧ length xs' = length xs ∧
      Forall2 (self_assigned E) (take k xs) (take k xs') ∧ drop k xs' = drop k xs ∧
      heap w' = <[a := Some (pre ++ (Some <$> xs') ++ post)]> (heap w) ∧
      trace w' = trace w ++ assignments CopyAssign (cells a (length pre) k)
  | _ => False
  end.
Proof.
  unfold std_copy_n.
  induction xs as [|x xs IH]; intros pre post w r w' Ha.
  - simpl. intros [= <- <-]. split; [done|]. exists []. split; [constructor|].
    simpl in *. rewrite (insert_block_id _ _ _ Ha). by rewrite app_nil_r.
  - change (block_at (heap w) a = Some (pre ++ Some x :: (Some <$> xs) ++ post)) in Ha.
    simpl length. simpl assign_forward. unfold bind at 1.
    destruct (copy_assign E _ _ w) as [r1 w1] eqn:Hc.
    eapply (copy_assign_same a _ _ x) in Hc as (Hv1 & Hr1);
      [ | exact Ha | by apply list_lookup_middle ].
    destruct r1 as [[]|e| |]; try done.
    + destruct Hr1 as (y & Hy & Hh1 & Ht1).
      rewrite !cell_succ. intros Hloop.
      specialize (IH (pre ++ [Some y]) post w1 r w').
      rewrite !length_app in IH. simpl in IH. rewrite !Nat.add_1_r in IH.
      destruct IH as (Hv & Hr); [ | exact Hloop | ].
      { rewrite Hh1. rewrite block_at_insert_eq by (by eapply block_at_lt).
        f_equal. rewrite insert_app_r_alt by lia. rewrite Nat.sub_diag. simpl.
        by rewrite <- app_assoc. }
      split; [congruence|].
      destruct r as [[]|e| |]; try done.
      * destruct Hr as (ys & HF & Hh & Ht).
        exists (y :: ys). split; [by constructor|].
        rewrite Hh, Hh1, Ht, Ht1. split.
        -- rewrite list_insert_insert_eq. by rewrite <- app_assoc.
        -- by rewrite <- app_assoc.
      * destruct Hr as (k & xs' & Hk & Hl' & HF & Hrest & Hh & Ht).
        exists (S k), (y :: xs'). split; [lia|]. split; [simpl; lia|].
        split; [simpl; by constructor|]. split; [done|].
        rewrite Hh, Hh1, Ht, Ht1. split.
        -- rewrite list_insert_insert_eq. by rewrite <- app_assoc.
        -- by rewrite <- app_assoc.
    + destruct Hr1 as [Hh1 Ht1]. intros [= <- <-]. split; [done|].
      exists 0, (x :: xs). split; [lia|]. split; [done|].
      split; [constructor|]. split; [done|].
      rewrite Hh1, Ht1. split.
      * symmetry. by apply insert_block_id.
      * simpl. by rewrite app_nil_r.
Qed.

End CopyAssigning.

Section CopyAssignment.
Context {T P X : Type}.
Variable E : @ElemType T P X.
Variable Pl : Platform.
Implicit Types (w : @World T P) (h : list (option (list (option T)))).
Implicit Types (a b c i j n p : nat) (xs ys zs ds : list T) (v o r : Vector).

Lemma release_app_new buf h blk :
  (∀ a, buf = Some a → a < length h) →
  release (T:=T) buf (h ++ [blk]) = release buf h ++ [blk].
Proof.
  intros Hlt. destruct buf as [a|]; [|done]. simpl.
  by rewrite insert_app_l by (by apply Hlt).
Qed.

Lemma holds_lt h m xs a : holds h m xs → buffer_ m = Some a → a < length h.
Proof.
  unfold holds. intros Hh Hb. rewrite Hb in Hh. by eapply block_at_lt.
Qed.

Lemma holds_release_other h m xs buf :
  holds h m xs → (∀ a, buffer_ m = Some a → buf ≠ Some a) →
  holds (release buf h) m xs.
Proof.
  unfold holds. intros Hh Hne. destruct (buffer_ m) as [a|]; [|done].
  destruct buf as [c|]; [|done]. simpl.
  rewrite block_at_insert_ne; [done|]. intros ->. by eapply Hne.
Qed.

(** Copy assignment from a vector with more elements than the target has
    capacity: copy and swap. *)
Lemma Vector_copy_assign_realloc this rhs v r xs ys w res w' :
  sane E Pl → this ≠ rhs →
  owns E Pl w this v xs → owns E Pl w rhs r ys → distinct_blocks v r →
  capacity_ (data_ v) < length ys →
  Vector_copy_assign E Pl this rhs w = (res, w') →
  match res with
  | Ok _ => ∃ ys',
      Forall3 (relocated E false) ys ys' ys ∧
      owns E Pl w' this
        {| data_ := {| buffer_ := Some (length (heap w)); capacity_ := length ys |};
           size_ := length ys |} ys' ∧
      owns E Pl w' rhs r ys ∧
      trace w' = trace w ++ [EvNew (length (heap w)) (length ys)] ++
        constructions CopyCtor (length (heap w)) 0 (length ys) ++
        destructions_of (buffer_ (data_ v)) (length xs) ++
        deletions (buffer_ (data_ v))
  | Throw e =>
      owns E Pl w' this v xs ∧ owns E Pl w' rhs r ys ∧
      ∃ t, trace w' = trace w ++ t ∧ alive t = 0%Z
  | _ => False
  end.
Proof.
  intros Hsane Hne Hv Hr Hdist Hcap.
  pose proof Hv as [Hvself Hvsize Hvroom Hvbytes Hvblock].
  pose proof Hr as [Hrself Hrsize Hrroom Hrbytes Hrblock].
  pose proof (lookup_lt_Some _ _ _ Hvself) as Hthis.
  unfold Vector_copy_assign, bind. rewrite (self_run _ _ _ Hvself). cbv beta iota.
  rewrite (self_run _ _ _ Hrself). cbv beta iota.
  unfold RawMemory_Capacity. rewrite Hrsize, (proj2 (Nat.ltb_lt _ _) Hcap).
  destruct (Vector_copy E Pl rhs w) as [r1 w1] eqn:Hcopy.
  destruct (Vector_copy_cases E Pl _ _ _ _ _ _ Hsane Hr Hcopy) as [Hv1 Hcases].
  destruct r1 as [nv|e| |]; try done.
  - destruct Hcases as (ys' & HF & Hs & Hc & Hh & Hframe & Ht & Hbuf & Hheap).
    destruct (decide (length ys = 0)) as [H0|H0]; [lia|].
    destruct nv as [[nbuf ncap] nsize]. simpl in *. subst nbuf ncap nsize.
    unfold declare. cbv beta iota.
    set (nv := {| data_ := {| buffer_ := Some (length (heap w)); capacity_ := length ys |};
                  size_ := length ys |}).
    set (w2 := with_vectors _ w1).
    assert (Hv2 : vectors w2 = vectors w ++ [nv]) by (unfold w2; simpl; by rewrite Hv1).
    rewrite Hv1.
    erewrite Swap_run;
      [ | lia | rewrite Hv2; by rewrite lookup_app_l
        | rewrite Hv2; by apply list_lookup_middle ].
    cbv beta iota. rewrite Hv2.
    set (w3 := mkWorld _ _ _ _).
    assert (Hown3 : owns E Pl w3 (length (vectors w)) v xs).
    { split; try done.
      - unfold w3; simpl. apply list_lookup_insert_eq.
        rewrite length_insert, length_app. simpl. lia.
      - unfold w3, w2; simpl. rewrite Hheap. by apply holds_app. }
    destruct (Vector_delete_run E Pl _ _ _ _ Hown3) as [s' Hdel]. rewrite Hdel.
    intros [= <- <-]. exists ys'. split; [done|].
    destruct (Forall3_length_12 _ _ _ _ HF) as [Hlys' _].
    unfold w3, w2; simpl. rewrite Hheap.
    rewrite release_app_new by (intros a Ha; exact (holds_lt _ _ _ _ Hvblock Ha)).
    split.
    { split; simpl; try done; try lia.
      - rewrite list_lookup_insert_ne by lia. apply list_lookup_insert_eq.
        rewrite length_app. simpl. lia.
      - destruct Hsane as [Hs _]. nia.
      - apply holds_release_new. }
    split.
    { split; simpl; try done.
      - rewrite list_lookup_insert_ne
          by (apply lookup_lt_Some in Hrself; lia).
        rewrite list_lookup_insert_ne by done. by rewrite lookup_app_l
          by (by eapply lookup_lt_Some).
      - apply holds_app. apply holds_release_other; [done|].
        intros a Ha Hb. by eapply Hdist. }
    rewrite Ht. by rewrite <- !app_assoc.
  - intros [= <- <-].
    destruct Hcases as [(-> & -> & _) | (k & x0 & x & ys' & Hk & -> & Hth & HF & Hh & Ht)].
    + split; [done|]. split; [done|]. exists []. by rewrite app_nil_r.
    + split; [eapply owns_frame; [done|done|]; rewrite Hh; by apply holds_app|].
      split; [eapply owns_frame; [done|done|]; rewrite Hh; by apply holds_app|].
      eexists. split; [exact Ht|].
      rewrite !alive_app, alive_constructions, alive_destructions. simpl. lia.
Qed.


Lemma copy_n_across_at a b so do n xs ds sp dp sq dq w res w' :
  a ≠ b → n = length xs → so = length sp → do = length dp →
  length ds = length xs →
  block_at (heap w) a = Some (sp ++ (Some <$> xs) ++ sq) →
  block_at (heap w) b = Some (dp ++ (Some <$> ds) ++ dq) →
  std_copy_n E (cell a so) n (cell b do) w = (res, w') →
  vectors w' = vectors w ∧
  match res with
  | Ok _ => ∃ ys,
      Forall3 (copy_assigned E) ds xs ys ∧
      heap w' = <[b := Some (dp ++ (Some <$> ys) ++ dq)]> (heap w) ∧
      trace w' = trace w ++ assignments CopyAssign (cells b do n)
  | Throw e => ∃ k ds',
      k < n ∧ length ds' = length ds ∧
      heap w' = <[b := Some (dp ++ (Some <$> ds') ++ dq)]> (heap w) ∧
      trace w' = trace w ++ assignments CopyAssign (cells b do k)
  | _ => False
  end.
Proof. intros Hab -> -> ->. by apply copy_n_across. Qed.

(** The two steps of copy assignment into a block with room, from a source
    with more elements. *)
Lemma copy_assign_longer a c xs ys cap capr w res w' :
  c ≠ a → length xs < length ys → length ys ≤ cap →
  block_at (heap w) a = Some (live_block xs cap) →
  block_at (heap w) c = Some (live_block ys capr) →
  bind (std_copy_n E (cell c 0) (length xs) (cell a 0))
    (λ _, uninitialized_copy_n E (cell c (length xs)) (length ys - length xs)
            (cell a (length xs))) w = (res, w') →
  vectors w' = vectors w ∧
  block_at (heap w') c = Some (live_block ys capr) ∧
  match res with
  | Ok _ => ∃ zs1 zs2,
      Forall3 (copy_assigned E) xs (take (length xs) ys) zs1 ∧
      Forall3 (relocated E false) (drop (length xs) ys) zs2 (drop (length xs) ys) ∧
      block_at (heap w') a = Some (live_block (zs1 ++ zs2) cap) ∧
      trace w' = trace w ++ assignments CopyAssign (cells a 0 (length xs)) ++
        constructions CopyCtor a (length xs) (length ys - length xs)
  | Throw e => ∃ xs' t,
      length xs' = length xs ∧
      block_at (heap w') a = Some (live_block xs' cap) ∧
      trace w' = trace w ++ t ∧ alive t = 0%Z
  | _ => False
  end.
Proof.
  intros Hca Hlt Hcap Ha Hc. unfold bind.
  destruct (std_copy_n E _ _ _ w) as [r1 w1] eqn:Hcopy.
  pose proof (block_at_lt _ _ _ Ha) as Hla. pose proof (block_at_lt _ _ _ Hc) as Hlc.
  assert (Hys : live_block ys capr =
    [] ++ (Some <$> take (length xs) ys) ++
      ((Some <$> drop (length xs) ys) ++ replicate (capr - length ys) None)).
  { unfold live_block. simpl. by rewrite app_assoc, <- fmap_app, take_drop. }
  eapply (copy_n_across_at c a 0 0 (length xs) (take (length xs) ys) xs [] []
            ((Some <$> drop (length xs) ys) ++ replicate (capr - length ys) None)
            (replicate (cap - length xs) None)) in Hcopy as (Hv1 & Hr1);
    [ | done | rewrite length_take; lia | done | done | rewrite length_take; lia
      | by rewrite Hc, Hys | by rewrite Ha ].
  destruct r1 as [[]|e| |]; try done.
  - destruct Hr1 as (zs1 & HF1 & Hh1 & Ht1).
    assert (Hlz : length zs1 = length xs).
    { apply Forall3_length_lr in HF1. done. }
    intros Hrel.
    eapply (relocate_segment E false c a (length xs) (length xs) (length ys - length xs)
              (Some <$> take (length xs) ys) (Some <$> zs1) (drop (length xs) ys)
              (replicate (length ys - length xs) None)
              (replicate (capr - length ys) None)
              (replicate (cap - length ys) None)) in Hrel as (Hv2 & Hr2);
      [ | done | rewrite length_fmap, length_take; lia | by rewrite length_fmap
        | by rewrite length_replicate, length_drop | by rewrite length_drop | | ].
    2:{ rewrite Hh1, block_at_insert_ne by done. rewrite Hc. unfold live_block.
        by rewrite app_assoc, <- fmap_app, take_drop. }
    2:{ rewrite Hh1, block_at_insert_eq by done. simpl. do 2 f_equal.
        rewrite <- replicate_add. f_equal. lia. }
    split; [congruence|].
    destruct res as [[]|e| |]; try done.
    + destruct Hr2 as (zs2 & zs & HF2 & Hh2 & Ht2).
      pose proof (Forall3_relocated_copy E _ _ _ HF2) as ->.
      assert (Hlz2 : length zs2 = length ys - length xs).
      { destruct (Forall3_length_12 _ _ _ _ HF2) as [-> _]. by rewrite length_drop. }
      split.
      { rewrite Hh2, block_at_insert_ne by done.
        rewrite block_at_insert_eq by (by rewrite Hh1, length_insert).
        f_equal. unfold live_block.
        by rewrite app_assoc, <- fmap_app, take_drop. }
      exists zs1, zs2. split; [done|]. split; [done|]. split.
      * rewrite Hh2. rewrite block_at_insert_eq
          by (by rewrite length_insert, Hh1, length_insert).
        f_equal. unfold live_block. rewrite fmap_app, <- app_assoc.
        do 2 f_equal. f_equal. rewrite length_app. lia.
      * rewrite Ht2, Ht1. by rewrite <- app_assoc.
    + destruct Hr2 as (k & x0 & x & zs2 & zs & Hk & -> & Hth & HF2 & Hh2 & Ht2).
      pose proof (Forall3_relocated_copy E _ _ _ HF2) as ->.
      split.
      { rewrite Hh2, block_at_insert_ne by done.
        rewrite block_at_insert_eq by (by rewrite Hh1, length_insert).
        f_equal. unfold live_block.
        rewrite (app_assoc (Some <$> take k _)), <- fmap_app, take_drop.
        by rewrite app_assoc, <- fmap_app, take_drop. }
      exists zs1. eexists. split; [done|]. split.
      * rewrite Hh2. rewrite block_at_insert_eq
          by (by rewrite length_insert, Hh1, length_insert).
        f_equal. unfold live_block. f_equal.
        rewrite drop_replicate, !app_assoc, <- !replicate_add. f_equal. f_equal.
        apply lookup_lt_Some in Hk. rewrite length_drop in Hk. lia.
      * split; [rewrite Ht2, Ht1; by rewrite <- app_assoc|].
        rewrite !alive_app, alive_assignments, alive_constructions, alive_destructions.
        lia.
  - destruct Hr1 as (k & ds' & Hk & Hl' & Hh1 & Ht1).
    intros [= <- <-]. split; [done|]. split.
    { rewrite Hh1, block_at_insert_ne by done. done. }
    exists ds'. eexists. split; [done|]. split.
    + rewrite Hh1, block_at_insert_eq by done. simpl. f_equal. unfold live_block.
      by rewrite Hl'.
    + split; [exact Ht1|]. apply alive_assignments.
Qed.


(** The two steps of copy assignment from a source with no more elements
    than the target. *)
Lemma copy_assign_shorter a xs ys cap (rm : RawMemory) w res w' :
  length ys ≤ length xs → length xs ≤ cap → length ys ≤ capacity_ rm →
  block_at (heap w) a = Some (live_block xs cap) →
  holds (heap w) rm ys → buffer_ rm ≠ Some a →
  bind (std_copy_n E (GetAddress rm) (length ys) (cell a 0))
    (λ _, destroy_n E (cell a (length ys)) (length xs - length ys)) w = (res, w') →
  vectors w' = vectors w ∧
  holds (heap w') rm ys ∧
  match res with
  | Ok _ => ∃ zs1,
      Forall3 (copy_assigned E) (take (length ys) xs) ys zs1 ∧
      block_at (heap w') a = Some (live_block zs1 cap) ∧
      trace w' = trace w ++ assignments CopyAssign (cells a 0 (length ys)) ++
        destructions a (length ys) (length xs - length ys)
  | Throw e => ∃ xs' t,
      length xs' = length xs ∧
      block_at (heap w') a = Some (live_block xs' cap) ∧
      trace w' = trace w ++ t ∧ alive t = 0%Z
  | _ => False
  end.
Proof.
  intros Hle Hcap Hcapr Ha Hr Hne. unfold bind.
  pose proof (block_at_lt _ _ _ Ha) as Hla.
  assert (Hxs : live_block xs cap =
    [] ++ (Some <$> take (length ys) xs) ++
      ((Some <$> drop (length ys) xs) ++ replicate (cap - length xs) None)).
  { unfold live_block. simpl. by rewrite app_assoc, <- fmap_app, take_drop. }
  destruct (std_copy_n E _ _ _ w) as [r1 w1] eqn:Hcopy.
  assert (Hcopied :
    vectors w1 = vectors w ∧ holds (heap w1) rm ys ∧
    match r1 with
    | Ok _ => ∃ zs1,
        Forall3 (copy_assigned E) (take (length ys) xs) ys zs1 ∧
        heap w1 = <[a := Some ((Some <$> zs1) ++ (Some <$> drop (length ys) xs) ++
                               replicate (cap - length xs) None)]> (heap w) ∧
        trace w1 = trace w ++ assignments CopyAssign (cells a 0 (length ys))
    | Throw e => ∃ k ds',
        length ds' = length (take (length ys) xs) ∧
        heap w1 = <[a := Some ((Some <$> ds') ++ (Some <$> drop (length ys) xs) ++
                               replicate (cap - length xs) None)]> (heap w) ∧
        trace w1 = trace w ++ assignments CopyAssign (cells a 0 k)
    | _ => False
    end).
  { unfold holds in *. destruct rm as [[c|] capr]; simpl in *.
    - assert (Hca : c ≠ a) by congruence.
      eapply (copy_n_across_at c a 0 0 (length ys) ys (take (length ys) xs) [] []
                (replicate (capr - length ys) None)
                ((Some <$> drop (length ys) xs) ++ replicate (cap - length xs) None))
        in Hcopy as (Hv1 & Hr1);
        [ | done | done | done | done | rewrite length_take; lia
          | by rewrite Hr | by rewrite Ha, Hxs ].
      split; [done|].
      destruct r1 as [[]|e| |]; try done.
      + destruct Hr1 as (zs1 & HF1 & Hh1 & Ht1). split.
        { rewrite Hh1, block_at_insert_ne by done. done. }
        exists zs1. done.
      + destruct Hr1 as (k & ds' & Hk & Hl' & Hh1 & Ht1). split.
        { rewrite Hh1, block_at_insert_ne by done. done. }
        exists k, ds'. done.
    - assert (ys = []) as -> by (destruct ys; [done | simpl in *; lia]).
      simpl in Hcopy. injection Hcopy as <- <-. split; [done|]. split; [done|].
      exists []. split; [constructor|]. simpl. rewrite drop_0. split.
      + symmetry. by apply insert_block_id.
      + by rewrite app_nil_r. }
  destruct Hcopied as (Hv1 & Hr1 & Hcases).
  destruct r1 as [[]|e| |]; try done.
  - destruct Hcases as (zs1 & HF1 & Hh1 & Ht1).
    assert (Hlz : length zs1 = length ys).
    { apply Forall3_length_lr in HF1. rewrite <- HF1, length_take. lia. }
    destruct (destroy_n_live E a (drop (length ys) xs) (Some <$> zs1)
                (replicate (cap - length xs) None) w1) as [s' Hd].
    { rewrite Hh1. by rewrite block_at_insert_eq. }
    rewrite length_fmap, length_drop, Hlz in Hd. rewrite Hd.
    intros [= <- <-]. simpl. split; [done|]. split.
    { unfold holds in *. destruct (buffer_ rm) as [c|]; [|done].
      rewrite block_at_insert_ne by congruence. done. }
    exists zs1. split; [done|]. split.
    + rewrite block_at_insert_eq by (by rewrite Hh1, length_insert).
      f_equal. unfold live_block. f_equal. rewrite <- replicate_add. f_equal. lia.
    + rewrite Ht1. by rewrite <- app_assoc.
  - destruct Hcases as (k & ds' & Hl' & Hh1 & Ht1).
    intros [= <- <-]. split; [done|]. split; [done|].
    exists (ds' ++ drop (length ys) xs). eexists. split.
    { rewrite length_app, Hl', length_take, length_drop. lia. }
    split.
    + rewrite Hh1, block_at_insert_eq by done. f_equal. unfold live_block.
      rewrite fmap_app, <- app_assoc. do 3 f_equal.
      rewrite length_app, Hl', length_take, length_drop. lia.
    + split; [exact Ht1|]. apply alive_assignments.
Qed.


(** Copy assignment when the capacity suffices: the storage is reused. *)
Lemma Vector_copy_assign_in_place this rhs v r xs ys w res w' :
  sane E Pl → this ≠ rhs →
  owns E Pl w this v xs → owns E Pl w rhs r ys → distinct_blocks v r →
  length ys ≤ capacity_ (data_ v) →
  Vector_copy_assign E Pl this rhs w = (res, w') →
  match res with
  | Ok _ => ∃ zs1 zs2,
      Forall3 (copy_assigned E) (take (length ys) xs) (take (length xs) ys) zs1 ∧
      Forall3 (relocated E false) (drop (length xs) ys) zs2 (drop (length xs) ys) ∧
      owns E Pl w' this {| data_ := data_ v; size_ := length ys |} (zs1 ++ zs2) ∧
      owns E Pl w' rhs r ys ∧
      trace w' = trace w ++ reuse_events (buffer_ (data_ v)) (length xs) (length ys)
  | Throw e => ∃ xs' t,
      length xs' = length xs ∧
      owns E Pl w' this v xs' ∧ owns E Pl w' rhs r ys ∧
      trace w' = trace w ++ t ∧ alive t = 0%Z
  | _ => False
  end.
Proof.
  intros Hsane Hne Hv Hr Hdist Hcap.
  pose proof Hv as [Hvself Hvsize Hvroom Hvbytes Hvblock].
  pose proof Hr as [Hrself Hrsize Hrroom Hrbytes Hrblock].
  destruct (owns_no_wrap E Pl _ _ _ _ Hsane Hv) as [_ Hwv].
  unfold Vector_copy_assign. unfold bind at 1.
  rewrite (self_run _ _ _ Hvself). cbv beta iota. unfold bind at 1.
  rewrite (self_run _ _ _ Hrself). cbv beta iota.
  unfold RawMemory_Capacity. rewrite Hrsize, Hvsize.
  rewrite (proj2 (Nat.ltb_ge _ _) Hcap).
  destruct v as [[vbuf cap] vsize]. destruct r as [[rbuf capr] rsize].
  simpl in *. subst vsize rsize.
  destruct (length xs <? length ys) eqn:Hlt.
  - apply Nat.ltb_lt in Hlt.
    destruct vbuf as [a|]; [|unfold holds in Hvblock; simpl in *; lia].
    destruct rbuf as [c|]; [|unfold holds in Hrblock; simpl in *; lia].
    assert (Hca : c ≠ a) by (intros ->; by eapply (Hdist a)).
    unfold holds in Hvblock, Hrblock. simpl in Hvblock, Hrblock.
    norm_ptr. rewrite size_t_small by lia.
    replace (Z.to_nat (Z.of_nat (length ys) - Z.of_nat (length xs)))
      with (length ys - length xs) by lia.
    unfold bind at 1.
    destruct (bind (std_copy_n E _ _ _) _ w) as [r1 w1] eqn:Hstep.
    apply (copy_assign_longer a c xs ys cap capr) in Hstep
      as (Hv1 & Hc1 & Hcases); [ | done | done | done | done | done ].
    destruct r1 as [[]|e| |]; try done.
    + destruct Hcases as (zs1 & zs2 & HF1 & HF2 & Ha1 & Ht1).
      erewrite set_size_run by (rewrite Hv1; exact Hvself). simpl.
      intros [= <- <-]. exists zs1, zs2.
      rewrite take_ge by lia. split; [done|]. split; [done|].
      assert (Hl : length (zs1 ++ zs2) = length ys).
      { rewrite length_app.
        pose proof (Forall3_length_lr _ _ _ _ HF1) as Hl1.
        pose proof (Forall3_length_lm _ _ _ _ HF2) as Hl2.
        rewrite length_drop in Hl2. lia. }
      split.
      { split; simpl; try done; try lia;
          try (rewrite Hv1; apply list_lookup_insert_eq; by eapply lookup_lt_Some);
          try (unfold holds; simpl; done). }
      split.
      { split; simpl; try done.
        rewrite Hv1. by rewrite list_lookup_insert_ne. }
      rewrite Ht1. simpl. rewrite Nat.min_l by lia.
      replace (length xs - length ys) with 0 by lia. simpl.
      by rewrite app_nil_r.
    + destruct Hcases as (xs' & t & Hl' & Ha1 & Ht1 & Hal).
      intros [= <- <-]. exists xs', t. split; [done|]. split.
      { split; simpl; try done; try lia. by rewrite Hv1. }
      split; [|done].
      split; simpl; try done. by rewrite Hv1.
  - apply Nat.ltb_ge in Hlt.
    destruct vbuf as [a|].
    + unfold holds in Hvblock. simpl in Hvblock.
      norm_ptr. rewrite size_t_small by lia.
      replace (Z.to_nat (Z.of_nat (length xs) - Z.of_nat (length ys)))
        with (length xs - length ys) by lia.
      unfold bind at 1.
      destruct (bind (std_copy_n E _ _ _) _ w) as [r1 w1] eqn:Hstep.
      apply (copy_assign_shorter a xs ys cap {| buffer_ := rbuf; capacity_ := capr |})
        in Hstep as (Hv1 & Hc1 & Hcases);
        [ | done | done | done | done | done | simpl; by apply (Hdist a) ].
      destruct r1 as [[]|e| |]; try done.
      * destruct Hcases as (zs1 & HF1 & Ha1 & Ht1).
        erewrite set_size_run by (rewrite Hv1; exact Hvself). simpl.
        intros [= <- <-]. exists zs1, [].
        rewrite (take_ge ys) by lia. rewrite (drop_ge ys) by lia.
        split; [done|]. split; [constructor|].
        rewrite app_nil_r.
        assert (Hl : length zs1 = length ys).
        { pose proof (Forall3_length_lm _ _ _ _ HF1) as Hl1.
          pose proof (Forall3_length_lr _ _ _ _ HF1) as Hl2.
          rewrite length_take in Hl1, Hl2. lia. }
        split.
      { split; simpl; try done; try lia;
          try (rewrite Hv1; apply list_lookup_insert_eq; by eapply lookup_lt_Some);
          try (unfold holds; simpl; done). }
        split.
        { split; simpl; try done.
          rewrite Hv1. by rewrite list_lookup_insert_ne. }
        rewrite Ht1. simpl. rewrite Nat.min_r by lia.
        replace (length ys - length xs) with 0 by lia. done.
      * destruct Hcases as (xs' & t & Hl' & Ha1 & Ht1 & Hal).
        intros [= <- <-]. exists xs', t. split; [done|]. split.
        { split; simpl; try done; try lia. by rewrite Hv1. }
        split; [|done].
        split; simpl; try done. by rewrite Hv1.
    + unfold holds in Hvblock. simpl in Hvblock. subst cap.
      assert (xs = []) as -> by (destruct xs; [done | simpl in *; lia]).
      assert (ys = []) as -> by (destruct ys; [done | simpl in *; lia]).
      simpl. unfold bind, ret. simpl.
      erewrite set_size_run by exact Hvself. simpl.
      intros [= <- <-]. exists [], []. simpl.
      split; [constructor|]. split; [constructor|].
      split.
      { split; simpl; try done.
        apply list_lookup_insert_eq. by eapply lookup_lt_Some. }
      split.
      { split; simpl; try done. by rewrite list_lookup_insert_ne. }
      by rewrite app_nil_r.
Qed.


(** Copy assignment of a vector to itself: there is no test for it, and
    every element is assigned to itself. *)
Lemma Vector_copy_assign_self this v xs w res w' :
  sane E Pl → owns E Pl w this v xs →
  Vector_copy_assign E Pl this this w = (res, w') →
  match res with
  | Ok _ => ∃ zs,
      Forall2 (self_assigned E) xs zs ∧
      owns E Pl w' this v zs ∧
      trace w' = trace w ++ reuse_events (buffer_ (data_ v)) (length xs) (length xs)
  | Throw e => ∃ k xs',
      k < length xs ∧ length xs' = length xs ∧
      Forall2 (self_assigned E) (take k xs) (take k xs') ∧ drop k xs' = drop k xs ∧
      owns E Pl w' this v xs' ∧
      trace w' = trace w ++ reuse_events (buffer_ (data_ v)) k k
  | _ => False
  end.
Proof.
  intros Hsane Hv.
  pose proof Hv as [Hvself Hvsize Hvroom Hvbytes Hvblock].
  unfold Vector_copy_assign. unfold bind at 1.
  rewrite (self_run _ _ _ Hvself). cbv beta iota. unfold bind at 1.
  rewrite (self_run _ _ _ Hvself). cbv beta iota.
  unfold RawMemory_Capacity. rewrite Hvsize.
  rewrite (proj2 (Nat.ltb_ge _ _) Hvroom), Nat.ltb_irrefl, Z.sub_diag.
  change (size_t 0) with 0. simpl destroy_n.
  destruct v as [[vbuf cap] vsize]. simpl in *. subst vsize.
  destruct vbuf as [a|].
  - unfold holds in Hvblock. simpl in Hvblock. norm_ptr.
    unfold bind at 1. unfold bind at 1.
    destruct (std_copy_n E _ _ _ w) as [r1 w1] eqn:Hstep.
    apply (copy_n_self E a xs [] (replicate (cap - length xs) None)) in Hstep
      as (Hv1 & Hcases); [|exact Hvblock].
    simpl in Hcases.
    destruct r1 as [[]|e| |]; try done.
    + destruct Hcases as (zs & HF & Hh1 & Ht1). unfold ret.
      erewrite set_size_run by (rewrite Hv1; exact Hvself). simpl.
      intros [= <- <-]. exists zs.
      assert (Hl : length xs = length zs) by (by eapply Forall2_length).
      split; [done|]. split.
      { split; simpl; try done; try lia.
        - rewrite Hv1, list_insert_id by done. done.
        - unfold holds. simpl. rewrite Hh1, block_at_insert_eq by (by eapply block_at_lt).
          unfold live_block. by rewrite Hl. }
      rewrite Ht1. simpl. rewrite Nat.min_id, Nat.sub_diag. simpl.
      by rewrite app_nil_r.
    + destruct Hcases as (k & xs' & Hk & Hl & HF & Hrest & Hh1 & Ht1).
      intros [= <- <-]. exists k, xs'. do 4 (split; [done|]). split.
      { split; simpl; try done; try lia.
        - by rewrite Hv1.
        - unfold holds. simpl. rewrite Hh1, block_at_insert_eq by (by eapply block_at_lt).
          unfold live_block. by rewrite Hl. }
      rewrite Ht1. simpl. rewrite Nat.min_id, Nat.sub_diag. simpl.
      by rewrite app_nil_r.
  - unfold holds in Hvblock. simpl in Hvblock. subst cap.
    assert (xs = []) as -> by (destruct xs; [done | simpl in *; lia]).
    simpl. unfold bind, ret. simpl.
    erewrite set_size_run by exact Hvself. simpl.
    intros [= <- <-]. exists []. split; [constructor|]. split.
    { split; simpl; try done. rewrite list_insert_id by done. done. }
    by rewrite app_nil_r.
Qed.

(** Under value semantics an assigned element has the value assigned. *)
Lemma assigned_copies ds xs zs :
  copy_assign_faithful E → Forall3 (copy_assigned E) ds xs zs → zs = xs.
Proof.
  intros Hc. induction 1 as [|d x z ds xs zs (s & s' & Hz) _ IH]; [done|].
  f_equal; [by eapply Hc | done].
Qed.

Lemma self_assigned_copies xs zs :
  copy_assign_self_faithful E → Forall2 (self_assigned E) xs zs → zs = xs.
Proof.
  intros Hc. induction 1 as [|x z xs zs (s & s' & Hz) _ IH]; [done|].
  f_equal; [by eapply Hc | done].
Qed.

End CopyAssignment.


(** ** Copy assignment *)

(** X20: copy assignment from another vector, for an element type with
    value semantics: when it returns, the target holds the elements of the
    source, which is as it was; the capacity is the size of the source when
    the old capacity did not suffice and is otherwise unchanged, with the
    same block; the two vectors still own different blocks; and exactly as
    many objects have come into existence as the sizes differ. *)
Theorem copy_assign_copies {T P X : Type} (E : @ElemType T P X) (Pl : Platform)
    (w : @World T P) (this rhs : nat) (v r : Vector) (xs ys : list T) :
  sane E Pl → copy_faithful E → copy_assign_faithful E →
  this ≠ rhs → owns E Pl w this v xs → owns E Pl w rhs r ys → distinct_blocks v r →
  match Vector_copy_assign E Pl this rhs w with
  | (Ok _, w') => ∃ v',
      owns E Pl w' this v' ys ∧ owns E Pl w' rhs r ys ∧
      Capacity v' = (if Capacity v <? length ys then length ys else Capacity v) ∧
      (length ys ≤ Capacity v → data_ v' = data_ v) ∧
      distinct_blocks v' r ∧
      alive (added w w') = (Z.of_nat (length ys) - Z.of_nat (length xs))%Z
  | (Throw _, _) => True
  | _ => False
  end.
Proof.
  intros Hsane Hc Hca Hne Hv Hr Hdist. unfold Capacity.
  destruct (Vector_copy_assign E Pl this rhs w) as [res w'] eqn:Hrun.
  pose proof Hv as [Hvself Hvsize Hvroom Hvbytes Hvblock].
  pose proof Hr as [Hrself Hrsize Hrroom Hrbytes Hrblock].
  destruct (capacity_ (data_ v) <? length ys) eqn:Hcap.
  - apply Nat.ltb_lt in Hcap.
    pose proof (Vector_copy_assign_realloc E Pl _ _ _ _ _ _ _ _ _
                  Hsane Hne Hv Hr Hdist Hcap Hrun) as Hcases.
    destruct res as [[]|e| |]; try done.
    destruct Hcases as (ys' & HF & Hv' & Hr' & Ht).
    apply (copied_values E _ _ _ Hc) in HF as ->.
    eexists. split; [exact Hv'|]. split; [done|]. split; [done|].
    split; [simpl; lia|]. split.
    { intros a [= <-] Hb. apply (holds_lt _ _ _ _ Hrblock) in Hb. lia. }
    rewrite (added_app _ _ _ Ht), !alive_app, alive_constructions, alive_destructions_of.
    unfold holds in Hvblock. destruct (buffer_ (data_ v)) as [a|]; simpl; lia.
  - apply Nat.ltb_ge in Hcap.
    pose proof (Vector_copy_assign_in_place E Pl _ _ _ _ _ _ _ _ _
                  Hsane Hne Hv Hr Hdist Hcap Hrun) as Hcases.
    destruct res as [[]|e| |]; try done.
    destruct Hcases as (zs1 & zs2 & HF1 & HF2 & Hv' & Hr' & Ht).
    apply (assigned_copies E _ _ _ Hca) in HF1 as ->.
    apply (copied_values E _ _ _ Hc) in HF2 as ->.
    rewrite take_drop in Hv'.
    eexists. split; [exact Hv'|]. split; [done|]. split; [done|].
    split; [done|]. split; [exact Hdist|].
    rewrite (added_app _ _ _ Ht). unfold reuse_events, holds in *.
    destruct (buffer_ (data_ v)) as [a|].
    + rewrite !alive_app, alive_assignments, alive_constructions, alive_destructions.
      lia.
    + simpl. lia.
Qed.

Lemma owns_two_vectors_0 :
  owns int_type debug two_vectors 0
    {| data_ := {| buffer_ := Some 0; capacity_ := 1 |}; size_ := 1 |} [7%Z].
Proof. split; vm_compute; (reflexivity || lia || (intros; discriminate)). Qed.

Lemma owns_two_vectors_1 :
  owns int_type debug two_vectors 1
    {| data_ := {| buffer_ := Some 2; capacity_ := 2 |}; size_ := 2 |} [8%Z; 9%Z].
Proof. split; vm_compute; (reflexivity || lia || (intros; discriminate)). Qed.

Lemma distinct_blocks_0_2 c1 s1 c2 s2 :
  distinct_blocks {| data_ := {| buffer_ := Some 0; capacity_ := c1 |}; size_ := s1 |}
    {| data_ := {| buffer_ := Some 2; capacity_ := c2 |}; size_ := s2 |}.
Proof. intros a [= <-]. discriminate. Qed.

Lemma distinct_blocks_2_0 c1 s1 c2 s2 :
  distinct_blocks {| data_ := {| buffer_ := Some 2; capacity_ := c1 |}; size_ := s1 |}
    {| data_ := {| buffer_ := Some 0; capacity_ := c2 |}; size_ := s2 |}.
Proof. intros a [= <-]. discriminate. Qed.

Lemma copy_assign_copies_witness :
  match Vector_copy_assign int_type debug 0 1 two_vectors with
  | (Ok _, w') => ∃ v',
      owns int_type debug w' 0 v' [8%Z; 9%Z] ∧
      owns int_type debug w' 1
        {| data_ := {| buffer_ := Some 2; capacity_ := 2 |}; size_ := 2 |} [8%Z; 9%Z] ∧
      Capacity v' =
        (if Capacity {| data_ := {| buffer_ := Some 0; capacity_ := 1 |}; size_ := 1 |}
            <? length [8%Z; 9%Z]
         then length [8%Z; 9%Z]
         else Capacity {| data_ := {| buffer_ := Some 0; capacity_ := 1 |}; size_ := 1 |}) ∧
      (length [8%Z; 9%Z] ≤
         Capacity {| data_ := {| buffer_ := Some 0; capacity_ := 1 |}; size_ := 1 |} →
       data_ v' = {| buffer_ := Some 0; capacity_ := 1 |}) ∧
      distinct_blocks v'
        {| data_ := {| buffer_ := Some 2; capacity_ := 2 |}; size_ := 2 |} ∧
      alive (added two_vectors w') =
        (Z.of_nat (length [8%Z; 9%Z]) - Z.of_nat (length [7%Z]))%Z
  | (Throw _, _) => True
  | _ => False
  end.
Proof.
  exact (copy_assign_copies int_type debug two_vectors 0 1 _ _ [7%Z] [8%Z; 9%Z]
           sane_int (proj1 value_semantics_int)
           (proj1 (proj2 (proj2 value_semantics_int)))
           (fun H : 0 = 1 => O_S 0 H)
           owns_two_vectors_0 owns_two_vectors_1 (distinct_blocks_0_2 1 1 2 2)).
Defined.

(** X21: copy assignment from another vector that throws: the source is as
    it was; the target has its block, its capacity and its number of
    elements; when the capacity did not suffice (the copy is built aside),
    its elements are those of before; and every object the call has
    constructed has been destroyed. *)
Theorem copy_assign_failure {T P X : Type} (E : @ElemType T P X) (Pl : Platform)
    (w : @World T P) (this rhs : nat) (v r : Vector) (xs ys : list T) :
  sane E Pl →
  this ≠ rhs → owns E Pl w this v xs → owns E Pl w rhs r ys → distinct_blocks v r →
  match Vector_copy_assign E Pl this rhs w with
  | (Throw _, w') => ∃ xs',
      length xs' = length xs ∧
      owns E Pl w' this v xs' ∧ owns E Pl w' rhs r ys ∧
      (Capacity v < length ys → xs' = xs) ∧
      alive (added w w') = 0%Z
  | (Ok _, _) => True
  | _ => False
  end.
Proof.
  intros Hsane Hne Hv Hr Hdist. unfold Capacity.
  destruct (Vector_copy_assign E Pl this rhs w) as [res w'] eqn:Hrun.
  destruct (decide (capacity_ (data_ v) < length ys)) as [Hcap|Hcap].
  - pose proof (Vector_copy_assign_realloc E Pl _ _ _ _ _ _ _ _ _
                  Hsane Hne Hv Hr Hdist Hcap Hrun) as Hcases.
    destruct res as [[]|e| |]; try done.
    destruct Hcases as (Hv' & Hr' & t & Ht & Hal).
    exists xs. rewrite (added_app _ _ _ Ht). done.
  - assert (Hcap' : length ys ≤ capacity_ (data_ v)) by lia.
    pose proof (Vector_copy_assign_in_place E Pl _ _ _ _ _ _ _ _ _
                  Hsane Hne Hv Hr Hdist Hcap' Hrun) as Hcases.
    destruct res as [[]|e| |]; try done.
    destruct Hcases as (xs' & t & Hl & Hv' & Hr' & Ht & Hal).
    exists xs'. rewrite (added_app _ _ _ Ht). done.
Qed.

Lemma owns_Objs_and_empty_0 :
  owns Obj_type debug Objs_and_empty 0
    {| data_ := {| buffer_ := Some 0; capacity_ := 3 |}; size_ := 3 |}
    [ {| throw_on_copy := false; id := 0 |}; {| throw_on_copy := true; id := 0 |};
      {| throw_on_copy := false; id := 0 |} ].
Proof. split; vm_compute; (reflexivity || lia || (intros; discriminate)). Qed.

Lemma sane_Brittle : sane Brittle debug.
Proof. split; vm_compute; done. Qed.

Lemma owns_brittle_pair_0 :
  owns Brittle debug brittle_pair 0
    {| data_ := {| buffer_ := Some 1; capacity_ := 2 |}; size_ := 2 |} [true; true].
Proof. split; vm_compute; (reflexivity || lia || (intros; discriminate)). Qed.

Lemma owns_brittle_pair_1 :
  owns Brittle debug brittle_pair 1
    {| data_ := {| buffer_ := Some 3; capacity_ := 2 |}; size_ := 2 |} [false; true].
Proof. split; vm_compute; (reflexivity || lia || (intros; discriminate)). Qed.

Lemma owns_fragile_pair_0 :
  owns Fragile debug fragile_pair 0
    {| data_ := {| buffer_ := Some 0; capacity_ := 1 |}; size_ := 1 |} [false].
Proof. split; vm_compute; (reflexivity || lia || (intros; discriminate)). Qed.

Lemma owns_fragile_pair_1 :
  owns Fragile debug fragile_pair 1
    {| data_ := {| buffer_ := Some 2; capacity_ := 2 |}; size_ := 2 |} [false; true].
Proof. split; vm_compute; (reflexivity || lia || (intros; discriminate)). Qed.

Lemma distinct_blocks_ne a b c1 s1 c2 s2 :
  a ≠ b →
  distinct_blocks {| data_ := {| buffer_ := Some a; capacity_ := c1 |}; size_ := s1 |}
    {| data_ := {| buffer_ := Some b; capacity_ := c2 |}; size_ := s2 |}.
Proof. intros Hab c [= <-] [= ?]. done. Qed.

Lemma copy_assign_failure_witness :
  match Vector_copy_assign Brittle debug 0 1 brittle_pair with
  | (Throw _, w') => ∃ xs',
      length xs' = length [true; true] ∧
      owns Brittle debug w' 0
        {| data_ := {| buffer_ := Some 1; capacity_ := 2 |}; size_ := 2 |} xs' ∧
      owns Brittle debug w' 1
        {| data_ := {| buffer_ := Some 3; capacity_ := 2 |}; size_ := 2 |} [false; true] ∧
      (Capacity {| data_ := {| buffer_ := Some 1; capacity_ := 2 |}; size_ := 2 |} <
         length [false; true] → xs' = [true; true]) ∧
      alive (added brittle_pair w') = 0%Z
  | (Ok _, _) => True
  | _ => False
  end ∧
  match Vector_copy_assign Fragile debug 0 1 fragile_pair with
  | (Throw _, w') => ∃ xs',
      length xs' = length [false] ∧
      owns Fragile debug w' 0
        {| data_ := {| buffer_ := Some 0; capacity_ := 1 |}; size_ := 1 |} xs' ∧
      owns Fragile debug w' 1
        {| data_ := {| buffer_ := Some 2; capacity_ := 2 |}; size_ := 2 |} [false; true] ∧
      (Capacity {| data_ := {| buffer_ := Some 0; capacity_ := 1 |}; size_ := 1 |} <
         length [false; true] → xs' = [false]) ∧
      alive (added fragile_pair w') = 0%Z
  | (Ok _, _) => True
  | _ => False
  end ∧
  outcome (Vector_copy_assign Brittle debug 0 1) brittle_pair = Throw (thrown Oops) ∧
  heap (after (Vector_copy_assign Brittle debug 0 1) brittle_pair) =
    [None; Some [Some false; Some true]; None; Some [Some false; Some true]] ∧
  outcome (Vector_copy_assign Fragile debug 0 1) fragile_pair = Throw (thrown Oops) ∧
  heap (after (Vector_copy_assign Fragile debug 0 1) fragile_pair) =
    [Some [Some false]; None; Some [Some false; Some true]; None].
Proof.
  split; [|split; [|repeat split; vm_compute; reflexivity]].
  - exact (copy_assign_failure Brittle debug brittle_pair 0 1 _ _ [true; true] [false; true]
             sane_Brittle (fun H : 0 = 1 => O_S 0 H)
             owns_brittle_pair_0 owns_brittle_pair_1
             (distinct_blocks_ne 1 3 2 2 2 2 (fun H : 1 = 3 => O_S 1 (eq_add_S _ _ H)))).
  - exact (copy_assign_failure Fragile debug fragile_pair 0 1 _ _ [false] [false; true]
             sane_Fragile (fun H : 0 = 1 => O_S 0 H)
             owns_fragile_pair_0 owns_fragile_pair_1
             (distinct_blocks_ne 0 2 1 1 2 2 (fun H : 0 = 2 => O_S 1 H))).
Defined.

(** X22: what a copy assignment from another vector does when it returns,
    for every element type.  When the capacity does not suffice: one
    allocation of exactly the size of the source, then the copy construction
    of each element of the source, in order, into the new block, each new
    element being what the copy constructor yields from the source element
    of its index; then the destruction of the old elements and the
    deallocation of the old block.  Otherwise no allocation and no
    deallocation: the elements of the common prefix are copy-assigned from
    the source elements of their index, then the further elements of the
    source are copy-constructed at their index, or the elements beyond the
    size of the source are destroyed.  The source is as it was. *)
Theorem copy_assign_events {T P X : Type} (E : @ElemType T P X) (Pl : Platform)
    (w : @World T P) (this rhs : nat) (v r : Vector) (xs ys : list T) :
  sane E Pl →
  this ≠ rhs → owns E Pl w this v xs → owns E Pl w rhs r ys → distinct_blocks v r →
  match Vector_copy_assign E Pl this rhs w with
  | (Ok _, w') =>
      owns E Pl w' rhs r ys ∧
      if Capacity v <? length ys then
        ∃ ys',
          Forall3 (relocated E false) ys ys' ys ∧
          owns E Pl w' this
            {| data_ := {| buffer_ := Some (length (heap w)); capacity_ := length ys |};
               size_ := length ys |} ys' ∧
          added w w' =
            [EvNew (length (heap w)) (length ys)] ++
            constructions CopyCtor (length (heap w)) 0 (length ys) ++
            destructions_of (buffer_ (data_ v)) (length xs) ++
            deletions (buffer_ (data_ v))
      else
        ∃ zs1 zs2,
          Forall3 (copy_assigned E) (take (length ys) xs) (take (length xs) ys) zs1 ∧
          Forall3 (relocated E false) (drop (length xs) ys) zs2 (drop (length xs) ys) ∧
          owns E Pl w' this {| data_ := data_ v; size_ := length ys |} (zs1 ++ zs2) ∧
          added w w' = reuse_events (buffer_ (data_ v)) (length xs) (length ys)
  | (Throw _, _) => True
  | _ => False
  end.
Proof.
  intros Hsane Hne Hv Hr Hdist. unfold Capacity.
  destruct (Vector_copy_assign E Pl this rhs w) as [res w'] eqn:Hrun.
  destruct (capacity_ (data_ v) <? length ys) eqn:Hcap.
  - apply Nat.ltb_lt in Hcap.
    pose proof (Vector_copy_assign_realloc E Pl _ _ _ _ _ _ _ _ _
                  Hsane Hne Hv Hr Hdist Hcap Hrun) as Hcases.
    destruct res as [[]|e| |]; try done.
    destruct Hcases as (ys' & HF & Hv' & Hr' & Ht).
    split; [done|]. exists ys'. by rewrite (added_app _ _ _ Ht).
  - apply Nat.ltb_ge in Hcap.
    pose proof (Vector_copy_assign_in_place E Pl _ _ _ _ _ _ _ _ _
                  Hsane Hne Hv Hr Hdist Hcap Hrun) as Hcases.
    destruct res as [[]|e| |]; try done.
    destruct Hcases as (zs1 & zs2 & HF1 & HF2 & Hv' & Hr' & Ht).
    split; [done|]. exists zs1, zs2. by rewrite (added_app _ _ _ Ht).
Qed.

Lemma copy_assign_events_witness :
  match Vector_copy_assign int_type debug 1 0 two_vectors with
  | (Ok _, w') =>
      owns int_type debug w' 0
        {| data_ := {| buffer_ := Some 0; capacity_ := 1 |}; size_ := 1 |} [7%Z] ∧
      if Capacity {| data_ := {| buffer_ := Some 2; capacity_ := 2 |}; size_ := 2 |}
           <? length [7%Z]
      then
        ∃ ys',
          Forall3 (relocated int_type false) [7%Z] ys' [7%Z] ∧
          owns int_type debug w' 1
            {| data_ := {| buffer_ := Some (length (heap two_vectors));
                           capacity_ := length [7%Z] |};
               size_ := length [7%Z] |} ys' ∧
          added two_vectors w' =
            [EvNew (length (heap two_vectors)) (length [7%Z])] ++
            constructions CopyCtor (length (heap two_vectors)) 0 (length [7%Z]) ++
            destructions_of (Some 2) (length [8%Z; 9%Z]) ++
            deletions (Some 2)
      else
        ∃ zs1 zs2,
          Forall3 (copy_assigned int_type) (take (length [7%Z]) [8%Z; 9%Z])
            (take (length [8%Z; 9%Z]) [7%Z]) zs1 ∧
          Forall3 (relocated int_type false) (drop (length [8%Z; 9%Z]) [7%Z]) zs2
            (drop (length [8%Z; 9%Z]) [7%Z]) ∧
          owns int_type debug w' 1
            {| data_ := {| buffer_ := Some 2; capacity_ := 2 |}; size_ := length [7%Z] |}
            (zs1 ++ zs2) ∧
          added two_vectors w' = reuse_events (Some 2) (length [8%Z; 9%Z]) (length [7%Z])
  | (Throw _, _) => True
  | _ => False
  end ∧
  match Vector_copy_assign int_type debug 0 1 two_vectors with
  | (Ok _, w') =>
      owns int_type debug w' 1
        {| data_ := {| buffer_ := Some 2; capacity_ := 2 |}; size_ := 2 |} [8%Z; 9%Z] ∧
      if Capacity {| data_ := {| buffer_ := Some 0; capacity_ := 1 |}; size_ := 1 |}
           <? length [8%Z; 9%Z]
      then
        ∃ ys',
          Forall3 (relocated int_type false) [8%Z; 9%Z] ys' [8%Z; 9%Z] ∧
          owns int_type debug w' 0
            {| data_ := {| buffer_ := Some (length (heap two_vectors));
                           capacity_ := length [8%Z; 9%Z] |};
               size_ := length [8%Z; 9%Z] |} ys' ∧
          added two_vectors w' =
            [EvNew (length (heap two_vectors)) (length [8%Z; 9%Z])] ++
            constructions CopyCtor (length (heap two_vectors)) 0 (length [8%Z; 9%Z]) ++
            destructions_of (Some 0) (length [7%Z]) ++
            deletions (Some 0)
      else
        ∃ zs1 zs2,
          Forall3 (copy_assigned int_type) (take (length [8%Z; 9%Z]) [7%Z])
            (take (length [7%Z]) [8%Z; 9%Z]) zs1 ∧
          Forall3 (relocated int_type false) (drop (length [7%Z]) [8%Z; 9%Z]) zs2
            (drop (length [7%Z]) [8%Z; 9%Z]) ∧
          owns int_type debug w' 0
            {| data_ := {| buffer_ := Some 0; capacity_ := 1 |};
               size_ := length [8%Z; 9%Z] |}
            (zs1 ++ zs2) ∧
          added two_vectors w' = reuse_events (Some 0) (length [7%Z]) (length [8%Z; 9%Z])
  | (Throw _, _) => True
  | _ => False
  end ∧
  outcome (Vector_copy_assign int_type debug 1 0) two_vectors = Ok tt ∧
  outcome (Vector_copy_assign int_type debug 0 1) two_vectors = Ok tt.
Proof.
  split; [|split; [|split; vm_compute; reflexivity]].
  - exact (copy_assign_events int_type debug two_vectors 1 0 _ _ [8%Z; 9%Z] [7%Z]
             sane_int (fun H : 1 = 0 => O_S 0 (eq_sym H))
             owns_two_vectors_1 owns_two_vectors_0 (distinct_blocks_2_0 2 2 1 1)).
  - exact (copy_assign_events int_type debug two_vectors 0 1 _ _ [7%Z] [8%Z; 9%Z]
             sane_int (fun H : 0 = 1 => O_S 0 H)
             owns_two_vectors_0 owns_two_vectors_1 (distinct_blocks_0_2 1 1 2 2)).
Defined.

Lemma owns_brittle_4 :
  owns Brittle debug brittle_4 0
    {| data_ := {| buffer_ := Some 2; capacity_ := 4 |}; size_ := 4 |}
    [false; true; false; true].
Proof. split; vm_compute; (reflexivity || lia || (intros; discriminate)). Qed.

(** X23: copy assignment of a vector to itself is not tested for: every
    element is copy-assigned to itself, from the first to the last, and
    nothing else happens; the vector keeps its block, its capacity and its
    size, and each element is what its assignment to itself has made of it.
    For an element type whose assignment to itself keeps the value the
    elements are those of before.  When an assignment throws, the
    assignments before it have been made and nothing else: the elements
    before it are what their assignments have made of them, the others are
    as they were, and the vector keeps its block, its capacity and its
    number of elements. *)
Theorem self_copy_assign_assigns_each {T P X : Type} (E : @ElemType T P X)
    (Pl : Platform) (w : @World T P) (this : nat) (v : Vector) (xs : list T) :
  sane E Pl → owns E Pl w this v xs →
  match Vector_copy_assign E Pl this this w with
  | (Ok _, w') => ∃ zs,
      Forall2 (self_assigned E) xs zs ∧
      (copy_assign_self_faithful E → zs = xs) ∧
      owns E Pl w' this v zs ∧
      added w w' =
        match buffer_ (data_ v) with
        | Some a => assignments CopyAssign (cells a 0 (length xs))
        | None => []
        end
  | (Throw _, w') => ∃ k xs',
      k < length xs ∧ length xs' = length xs ∧
      Forall2 (self_assigned E) (take k xs) (take k xs') ∧ drop k xs' = drop k xs ∧
      owns E Pl w' this v xs' ∧
      added w w' =
        match buffer_ (data_ v) with
        | Some a => assignments CopyAssign (cells a 0 k)
        | None => []
        end
  | _ => False
  end.
Proof.
  intros Hsane Hv.
  destruct (Vector_copy_assign E Pl this this w) as [res w'] eqn:Hrun.
  pose proof (Vector_copy_assign_self E Pl _ _ _ _ _ _ Hsane Hv Hrun) as Hcases.
  destruct res as [[]|e| |]; try done.
  - destruct Hcases as (zs & HF & Hv' & Ht).
    exists zs. split; [done|].
    split; [intros Hca; by apply (self_assigned_copies E _ _ Hca)|].
    split; [done|]. rewrite (added_app _ _ _ Ht). unfold reuse_events.
    destruct (buffer_ (data_ v)) as [a|]; [|done].
    rewrite Nat.min_id, Nat.sub_diag. simpl. by rewrite app_nil_r.
  - destruct Hcases as (k & xs' & Hk & Hl & HF & Hrest & Hv' & Ht).
    exists k, xs'. do 5 (split; [done|]).
    rewrite (added_app _ _ _ Ht). unfold reuse_events.
    destruct (buffer_ (data_ v)) as [a|]; [|done].
    rewrite Nat.min_id, Nat.sub_diag. simpl. by rewrite app_nil_r.
Qed.

Lemma self_copy_assign_assigns_each_witness :
  match Vector_copy_assign Obj_type debug 0 0 Objs_and_empty with
  | (Ok _, w') => ∃ zs,
      Forall2 (self_assigned Obj_type)
        [ {| throw_on_copy := false; id := 0 |}; {| throw_on_copy := true; id := 0 |};
          {| throw_on_copy := false; id := 0 |} ] zs ∧
      (copy_assign_self_faithful Obj_type →
       zs = [ {| throw_on_copy := false; id := 0 |}; {| throw_on_copy := true; id := 0 |};
              {| throw_on_copy := false; id := 0 |} ]) ∧
      owns Obj_type debug w' 0
        {| data_ := {| buffer_ := Some 0; capacity_ := 3 |}; size_ := 3 |} zs ∧
      added Objs_and_empty w' = assignments CopyAssign (cells 0 0 3)
  | (Throw _, w') => ∃ k xs',
      k < 3 ∧ length xs' = 3 ∧
      Forall2 (self_assigned Obj_type)
        (take k [ {| throw_on_copy := false; id := 0 |};
                  {| throw_on_copy := true; id := 0 |};
                  {| throw_on_copy := false; id := 0 |} ]) (take k xs') ∧
      drop k xs' =
        drop k [ {| throw_on_copy := false; id := 0 |};
                 {| throw_on_copy := true; id := 0 |};
                 {| throw_on_copy := false; id := 0 |} ] ∧
      owns Obj_type debug w' 0
        {| data_ := {| buffer_ := Some 0; capacity_ := 3 |}; size_ := 3 |} xs' ∧
      added Objs_and_empty w' = assignments CopyAssign (cells 0 0 k)
  | _ => False
  end ∧
  (outcome (Vector_copy_assign Obj_type debug 0 0) Objs_and_empty = Ok tt ∧
   statics (after (Vector_copy_assign Obj_type debug 0 0) Objs_and_empty) =
     statics Objs_and_empty) ∧
  match Vector_copy_assign Brittle debug 0 0 brittle_4 with
  | (Ok _, w') => ∃ zs,
      Forall2 (self_assigned Brittle) [false; true; false; true] zs ∧
      (copy_assign_self_faithful Brittle → zs = [false; true; false; true]) ∧
      owns Brittle debug w' 0
        {| data_ := {| buffer_ := Some 2; capacity_ := 4 |}; size_ := 4 |} zs ∧
      added brittle_4 w' = assignments CopyAssign (cells 2 0 4)
  | (Throw _, w') => ∃ k xs',
      k < 4 ∧ length xs' = 4 ∧
      Forall2 (self_assigned Brittle) (take k [false; true; false; true]) (take k xs') ∧
      drop k xs' = drop k [false; true; false; true] ∧
      owns Brittle debug w' 0
        {| data_ := {| buffer_ := Some 2; capacity_ := 4 |}; size_ := 4 |} xs' ∧
      added brittle_4 w' = assignments CopyAssign (cells 2 0 k)
  | _ => False
  end ∧
  outcome (Vector_copy_assign Brittle debug 0 0) brittle_4 = Throw (thrown Oops) ∧
  events (Vector_copy_assign Brittle debug 0 0) brittle_4 =
    [EvAssign CopyAssign (InHeap (cell 2 0))].
Proof.
  split; [|split; [split; vm_compute; reflexivity|
                   split; [|split; vm_compute; reflexivity]]].
  - exact (self_copy_assign_assigns_each Obj_type debug Objs_and_empty 0 _ _
             sane_Obj owns_Objs_and_empty_0).
  - exact (self_copy_assign_assigns_each Brittle debug brittle_4 0 _ _
             sane_Brittle owns_brittle_4).
Defined.


(** ** Failures of [Erase] and [Emplace] *)

(** X24: an [Erase] at a position [p] of [[begin, end)] that throws: the
    assignment from the element of index [p + k + 1] has thrown, after [k]
    assignments were made, and has left its operands as they were.  Those
    [k] assignments, to the slots from the position on, are all that has
    happened: no object has been constructed or destroyed, nothing
    allocated or released, and the vector keeps its block, its capacity and
    its size.  Of its elements, those before the position are as they were,
    the next [k] are what the assignments have yielded from the elements
    [p + 1 .. p + k], then comes the source of the last assignment made
    (the element at the position itself when none was made), and the
    elements after it are as they were. *)
Theorem Erase_failure_keeps_size {T P X : Type} (E : @ElemType T P X) (Pl : Platform)
    (w : @World T P) (this : nat) (v : Vector) (xs : list T) (p : nat) :
  sane E Pl → owns E Pl w this v xs → p < length xs →
  match Erase E Pl this (begin_ v +ₚ Z.of_nat p) w with
  | (Throw e, w') => ∃ a k ys zs z,
      buffer_ (data_ v) = Some a ∧ k < length xs - S p ∧
      Forall3 (assigned E (nothrow_move_or_no_copy E)) (take k (drop (S p) xs)) ys zs ∧
      (k = 0 → xs !! p = Some z) ∧
      (0 < k → zs !! (k - 1) = Some z) ∧
      (∃ x0 ex, xs !! (S (p + k)) = Some x0 ∧ e = thrown ex ∧
         assign_threw E (nothrow_move_or_no_copy E) x0 ex) ∧
      owns E Pl w' this v (take p xs ++ ys ++ z :: drop (S (p + k)) xs) ∧
      added w w' = assignments (Erase_assignment E) (cells a p k)
  | (Ok _, _) => True
  | _ => False
  end.
Proof.
  intros Hsane Hown Hp.
  destruct (Erase E Pl this (begin_ v +ₚ Z.of_nat p) w) as [r w'] eqn:Hrun.
  pose proof (Erase_cases E Pl _ _ _ _ _ _ _ Hsane Hown Hp Hrun) as Hcases.
  destruct r as [it|e| |]; try done.
  destruct Hcases as (a & k & ys & zs & z & Hbuf & Hk & HF & Hz & Hzk & Hthrew & Hown' & Ht).
  exists a, k, ys, zs, z. do 7 (split; [done|]).
  by rewrite (added_app _ _ _ Ht).
Qed.


Lemma Erase_failure_keeps_size_witness :
  match Erase Brittle debug 0
          (begin_ {| data_ := {| buffer_ := Some 2; capacity_ := 4 |}; size_ := 4 |}
             +ₚ Z.of_nat 1) brittle_4 with
  | (Throw e, w') => ∃ a k ys zs z,
      Some 2 = Some a ∧ k < length [false; true; false; true] - 2 ∧
      Forall3 (assigned Brittle (nothrow_move_or_no_copy Brittle))
        (take k (drop 2 [false; true; false; true])) ys zs ∧
      (k = 0 → [false; true; false; true] !! 1 = Some z) ∧
      (0 < k → zs !! (k - 1) = Some z) ∧
      (∃ x0 ex, [false; true; false; true] !! (S (1 + k)) = Some x0 ∧ e = thrown ex ∧
         assign_threw Brittle (nothrow_move_or_no_copy Brittle) x0 ex) ∧
      owns Brittle debug w' 0
        {| data_ := {| buffer_ := Some 2; capacity_ := 4 |}; size_ := 4 |}
        (take 1 [false; true; false; true] ++ ys ++
           z :: drop (S (1 + k)) [false; true; false; true]) ∧
      added brittle_4 w' = assignments (Erase_assignment Brittle) (cells a 1 k)
  | (Ok _, _) => True
  | _ => False
  end ∧
  outcome (Erase Brittle debug 0 (cell 2 1)) brittle_4 = Throw (thrown Oops) ∧
  heap (after (Erase Brittle debug 0 (cell 2 1)) brittle_4) =
    [None; None; Some [Some false; Some false; Some false; Some true]] ∧
  events (Erase Brittle debug 0 (cell 2 1)) brittle_4 =
    [EvAssign CopyAssign (InHeap (cell 2 1))].
Proof.
  split; [|repeat split; vm_compute; reflexivity].
  exact (Erase_failure_keeps_size Brittle debug brittle_4 0 _ [false; true; false; true] 1
           sane_Brittle owns_brittle_4 (le_S _ _ (le_S _ _ (le_n 2)))).
Defined.

Lemma alive_Emplace_rollback (c : ctor) (b cap p k : nat) :
  alive (Emplace_rollback c b cap p k) =
    if k <? p then 1%Z else (1 + Z.of_nat p)%Z.
Proof.
  unfold Emplace_rollback.
  change [EvNew b cap; EvConstruct c (InHeap (cell b p))]
    with ([EvNew b cap] ++ [EvConstruct c (InHeap (cell b p))]).
  destruct (k <? p);
    rewrite !alive_app, ?alive_constructions, ?alive_destructions; simpl; lia.
Qed.

(** X25: for an element type that is relocated by copy, and a new element
    built from arguments that do not move from an element of a vector: an
    [Emplace] at offset [p] into a full vector that fails leaves the vector
    as it was, with its block, size, capacity and elements.  When the
    allocation was refused or the constructor of the new element has thrown,
    no object of the call is left.  When the copy constructor of the element
    of index [k] has thrown, after the new element was built in the new
    block, the new block is released with objects still in it, their
    destructors not run: the new element, and, when [k] is not before the
    position, also the copies of the [p] elements before the position;
    only the copies the failing [std::uninitialized_copy_n] has made itself
    are destroyed.  And this does happen: when the allocation is granted,
    the constructor of the new element cannot throw, and the copy
    constructor of the element of index [k] throws while those of the
    elements before it return, the call throws that exception after exactly
    these operations. *)
Theorem Emplace_failure_accounting {T P X : Type} (E : @ElemType T P X)
    (Pl : Platform) (w : @World T P) (this : nat) (v : Vector) (xs : list T) (p : nat)
    (arg : @args T P X) :
  sane E Pl → owns E Pl w this v xs → arg_ok (heap w) arg → pure_arg arg →
  p ≤ length xs → Capacity v = Size v →
  is_nothrow_move_constructible E || negb (is_copy_constructible E) = false →
  match Emplace E Pl this (begin_ v +ₚ Z.of_nat p) arg w with
  | (Throw e, w') =>
      owns E Pl w' this v xs ∧
      ((e = bad_alloc ∨ ∃ x, e = thrown x ∧ threw E (heap w) arg x) ∧
       alive (added w w') = 0%Z ∨
       (∃ y, made E (heap w) arg y (heap w)) ∧
       ∃ k x0 x s s',
         xs !! k = Some x0 ∧ T_copy E x0 s = (inl x, s') ∧ e = thrown x ∧
         added w w' =
           Emplace_rollback (ctor_of arg) (length (heap w))
             (Nat.max 1 (2 * length xs)) p k ∧
         alive (added w w') = if k <? p then 1%Z else (1 + Z.of_nat p)%Z)
  | (Ok _, _) => True
  | _ => False
  end ∧
  ∀ (k : nat) (x0 : T) (x : X),
    (Z.of_nat (Nat.max 1 (2 * length xs)) * sizeof_T E <= heap_limit Pl)%Z →
    cannot_throw E (heap w) arg →
    xs !! k = Some x0 → copy_throws E x0 x → Forall (copy_returns E) (take k xs) →
    ∃ w',
      Emplace E Pl this (begin_ v +ₚ Z.of_nat p) arg w = (Throw (thrown x), w') ∧
      owns E Pl w' this v xs ∧
      added w w' =
        Emplace_rollback (ctor_of arg) (length (heap w)) (Nat.max 1 (2 * length xs)) p k ∧
      alive (added w w') = if k <? p then 1%Z else (1 + Z.of_nat p)%Z.
Proof.
  intros Hsane Hown Hok Hpure Hp Hfull Hmv.
  pose proof Hown as [Hself Hsize Hroom Hbytes Hblock].
  unfold Capacity, Size in Hfull. rewrite Hsize in Hfull.
  destruct (Emplace E Pl this (begin_ v +ₚ Z.of_nat p) arg w) as [r w'] eqn:Hrun.
  pose proof (Emplace_grow_cases E Pl _ _ _ _ _ _ _ _ Hsane Hown Hok Hp Hfull Hrun)
    as Hcases.
  unfold nothrow_move_or_no_copy in Hcases. rewrite Hmv in Hcases.
  split.
  - destruct r as [it|e| |]; try done.
    destruct Hcases as [Hv [(-> & -> & _) | [(x & -> & Hth & Hh & Ht) |
      (y & h1 & xs1 & k & x0 & x & Hmade & Hh1 & Hk & -> & Hrel & Hh & Hl1 & _ & Ht)]]].
    + split; [done|]. left. split; [by left|]. by rewrite added_refl.
    + split.
      * eapply owns_frame; [done|done|]. rewrite Hh. by apply holds_app.
      * left. split; [right; eauto|]. by rewrite (added_app _ _ _ Ht).
    + destruct (made_pure_elements E Pl _ _ _ _ _ _ _ _ Hown Hpure Hmade Hh1 Hl1) as [-> ->].
      specialize (Hh eq_refl). destruct Hrel as (s & s' & Hrel).
      split.
      { eapply owns_frame; [done|done|]. rewrite Hh. by apply holds_app. }
      right. split; [eauto|]. exists k, x0, x, s, s'.
      do 3 (split; [done|]).
      rewrite (added_app _ _ _ Ht). fold (Emplace_rollback (ctor_of arg) (length (heap w))
        (Nat.max 1 (2 * length xs)) p k).
      split; [done|]. apply alive_Emplace_rollback.
  - intros k x0 x Hlim Hnever Hk Hthrows Hbefore.
    destruct r as [it|e| |]; try done.
    + destruct Hcases as (y & h1 & xs1 & ys1 & zs1 & ys2 & zs2 & v' & Hmade & Hh1 & Hl1 &
        HF1 & HF2 & _).
      destruct (made_pure_elements E Pl _ _ _ _ _ _ _ _ Hown Hpure Hmade Hh1 Hl1) as [-> ->].
      pose proof (Forall3_app _ _ _ _ _ _ _ HF1 HF2) as HF. rewrite take_drop in HF.
      destruct (copy_throws_not_relocated E _ _ _ _ _ _ Hk Hthrows HF).
    + destruct Hcases as [Hv [(-> & -> & Hrefused) | [(x' & -> & Hth & _) |
        (y & h1 & xs1 & k' & x0' & x' & Hmade & Hh1 & Hk' & -> & Hrel & Hh & Hl1 &
         (ys & zs & HF) & Ht)]]].
      * lia.
      * destruct (Hnever _ Hth).
      * destruct (made_pure_elements E Pl _ _ _ _ _ _ _ _ Hown Hpure Hmade Hh1 Hl1)
          as [-> ->].
        destruct (first_copy_that_throws E _ _ _ _ _ _ _ _ _ Hk Hthrows Hbefore Hk' Hrel HF)
          as [-> ->].
        specialize (Hh eq_refl).
        exists w'. split; [done|]. split.
        { eapply owns_frame; [done|done|]. rewrite Hh. by apply holds_app. }
        rewrite (added_app _ _ _ Ht). fold (Emplace_rollback (ctor_of arg) (length (heap w))
          (Nat.max 1 (2 * length xs)) p k).
        split; [done|]. apply alive_Emplace_rollback.
Qed.

Lemma owns_fragile_tt :
  owns Fragile debug fragile_tt 0
    {| data_ := {| buffer_ := Some 0; capacity_ := 2 |}; size_ := 2 |} [true; true].
Proof. split; vm_compute; (reflexivity || lia || (intros; discriminate)). Qed.

Lemma Emplace_failure_accounting_witness :
  (∃ w',
     Emplace Fragile debug 0 (cell 1 1) (ByMove (External false)) fragile_2
       = (Throw (thrown Oops), w') ∧
     owns Fragile debug w' 0
       {| data_ := {| buffer_ := Some 1; capacity_ := 2 |}; size_ := 2 |} [false; true] ∧
     added fragile_2 w' =
       [EvNew 2 4; EvConstruct MoveCtor (InHeap (cell 2 1));
        EvConstruct CopyCtor (InHeap (cell 2 0)); EvDelete 2] ∧
     alive (added fragile_2 w') = 2%Z) ∧
  (∃ w',
     Emplace Fragile debug 0 (cell 0 1) (ByMove (External false)) fragile_tt
       = (Throw (thrown Oops), w') ∧
     owns Fragile debug w' 0
       {| data_ := {| buffer_ := Some 0; capacity_ := 2 |}; size_ := 2 |} [true; true] ∧
     added fragile_tt w' =
       [EvNew 1 4; EvConstruct MoveCtor (InHeap (cell 1 1)); EvDelete 1] ∧
     alive (added fragile_tt w') = 1%Z) ∧
  match Emplace Fragile debug 0
          (begin_ {| data_ := {| buffer_ := Some 1; capacity_ := 2 |}; size_ := 2 |}
             +ₚ Z.of_nat 1) (ByMove (External false)) fragile_2 with
  | (Throw e, w') =>
      owns Fragile debug w' 0
        {| data_ := {| buffer_ := Some 1; capacity_ := 2 |}; size_ := 2 |} [false; true] ∧
      ((e = bad_alloc ∨
        ∃ x, e = thrown x ∧ threw Fragile (heap fragile_2) (ByMove (External false)) x) ∧
       alive (added fragile_2 w') = 0%Z ∨
       (∃ y, made Fragile (heap fragile_2) (ByMove (External false)) y (heap fragile_2)) ∧
       ∃ k x0 x s s',
         [false; true] !! k = Some x0 ∧ T_copy Fragile x0 s = (inl x, s') ∧
         e = thrown x ∧
         added fragile_2 w' =
           Emplace_rollback
             (ctor_of (T:=bool) (P:=unit) (X:=runtime_error) (ByMove (External false)))
             (length (heap fragile_2)) (Nat.max 1 (2 * length [false; true])) 1 k ∧
         alive (added fragile_2 w') = if k <? 1 then 1%Z else (1 + Z.of_nat 1)%Z)
  | (Ok _, _) => True
  | _ => False
  end.
Proof.
  destruct (Emplace_failure_accounting Fragile debug fragile_2 0
              {| data_ := {| buffer_ := Some 1; capacity_ := 2 |}; size_ := 2 |}
              [false; true] 1 (ByMove (External false))
              sane_Fragile owns_fragile_2 I I (le_S _ _ (le_n 1)) eq_refl eq_refl)
    as [Hcases Hleak].
  destruct (Emplace_failure_accounting Fragile debug fragile_tt 0
              {| data_ := {| buffer_ := Some 0; capacity_ := 2 |}; size_ := 2 |}
              [true; true] 1 (ByMove (External false))
              sane_Fragile owns_fragile_tt I I (le_S _ _ (le_n 1)) eq_refl eq_refl)
    as [_ Hleak'].
  split; [|split; [|exact Hcases]].
  - refine (Hleak 1 true Oops _ (Fragile_move_cannot_throw _ false) eq_refl
              Fragile_copy_throws _).
    + vm_compute. discriminate.
    + repeat constructor. exact Fragile_copy_returns.
  - refine (Hleak' 0 true Oops _ (Fragile_move_cannot_throw _ false) eq_refl
              Fragile_copy_throws _).
    + vm_compute. discriminate.
    + constructor.
Defined.


Lemma move_assign_throws_not_assigned {T P X : Type} (E : @ElemType T P X)
    (x0 : T) (x : X) (y z : T) :
  move_assign_throws E x0 x → assigned E true x0 y z → False.
Proof.
  intros Hthrows (d & s & s' & Has). destruct (Hthrows d s) as (s'' & Hth). congruence.
Qed.

Lemma move_assign_throws_what {T P X : Type} (E : @ElemType T P X)
    (x0 : T) (x x' : X) :
  move_assign_throws E x0 x → assign_threw E true x0 x' → x' = x.
Proof.
  intros Hthrows (d & s & s' & Has). destruct (Hthrows d s) as (s'' & Hth). congruence.
Qed.

Lemma move_returns_not_threw {T P X : Type} (E : @ElemType T P X) (x0 : T) (x : X) :
  move_returns E x0 → reloc_threw E true x0 x → False.
Proof.
  intros Hret (s & s' & Hth). destruct (Hret s) as (y & z & s'' & Hm). congruence.
Qed.

(** X26: for a new element built from arguments that do not move from an
    element of a vector (and element types whose members, when they throw,
    leave their operands as they were): an [Emplace] before the end into a
    vector with spare capacity that fails.  When the constructor of the new
    value, or the move constructor that moves the last element into the
    slot after it, has thrown, the vector is as it was and every object of
    the call has been destroyed.  When a move assignment has thrown, after
    [k] assignments of the shift (the one that has thrown is the next of the
    shift, or, with [k = Size - 1 - p], the one from the new value), the
    size is as it was, but the slot at index [Size] holds the object that
    was move-constructed from the last element: the call has not destroyed
    it and the size does not count it; the elements before index
    [Size - 1 - k] are those of before, the element at that index is what
    the last assignment made (or, when none was made, the move of the last
    element) has left in its source, and the [k] after it are those the
    assignments have made.  And this does happen: when the position is
    before the last element, the constructor of the new value cannot throw,
    the move constructor returns on the last element and the move
    assignment from the element before the last throws, the call throws that
    exception after the construction of the new value, the move of the last
    element and the destruction of the new value, and one object more than
    before is alive. *)
Theorem Emplace_in_place_failure {T P X : Type} (E : @ElemType T P X)
    (Pl : Platform) (w : @World T P) (this : nat) (v : Vector) (xs : list T) (p : nat)
    (arg : @args T P X) :
  sane E Pl → owns E Pl w this v xs → arg_ok (heap w) arg → pure_arg arg →
  p ≤ length xs → Size v < Capacity v →
  match Emplace E Pl this (begin_ v +ₚ Z.of_nat p) arg w with
  | (Throw e, w') =>
      vectors w' !! this = Some v ∧
      ((∃ x, e = thrown x ∧
          (threw E (heap w) arg x ∨
           ∃ xl, xs !! (length xs - 1) = Some xl ∧ reloc_threw E true xl x)) ∧
       owns E Pl w' this v xs ∧ alive (added w w') = 0%Z ∨
       p < length xs ∧
       ∃ a xl yl zl k ys zs z x0 x,
         buffer_ (data_ v) = Some a ∧
         xs !! (length xs - 1) = Some xl ∧ relocated E true xl yl zl ∧
         k ≤ length xs - 1 - p ∧
         Forall3 (assigned E true)
           (drop (length xs - 1 - k) (take (length xs - 1) xs)) ys zs ∧
         (k = 0 → z = zl) ∧ (0 < k → zs !! 0 = Some z) ∧
         (if decide (k = length xs - 1 - p) then made E (heap w) arg x0 (heap w)
          else xs !! (length xs - 2 - k) = Some x0) ∧
         e = thrown x ∧ assign_threw E true x0 x ∧
         block_at (heap w') a =
           Some ((Some <$> take (length xs - 1 - k) xs) ++ Some z :: (Some <$> ys) ++
                 Some yl :: replicate (Capacity v - S (length xs)) None) ∧
         added w w' =
           [EvConstruct (ctor_of arg) Local;
            EvConstruct MoveCtor (InHeap (cell a (length xs)))] ++
           assignments MoveAssign (reverse (cells a (length xs - k) k)) ++
           [EvDestroy Local] ∧
         alive (added w w') = 1%Z)
  | (Ok _, _) => True
  | _ => False
  end ∧
  ∀ (a : nat) (xl x0 : T) (x : X),
    buffer_ (data_ v) = Some a → p + 1 < length xs →
    cannot_throw E (heap w) arg →
    xs !! (length xs - 1) = Some xl → move_returns E xl →
    xs !! (length xs - 2) = Some x0 → move_assign_throws E x0 x →
    ∃ w' yl zl,
      Emplace E Pl this (begin_ v +ₚ Z.of_nat p) arg w = (Throw (thrown x), w') ∧
      vectors w' !! this = Some v ∧
      relocated E true xl yl zl ∧
      block_at (heap w') a =
        Some ((Some <$> take (length xs - 1) xs) ++ Some zl :: Some yl ::
              replicate (Capacity v - S (length xs)) None) ∧
      added w w' =
        [EvConstruct (ctor_of arg) Local;
         EvConstruct MoveCtor (InHeap (cell a (length xs))); EvDestroy Local] ∧
      alive (added w w') = 1%Z.
Proof.
  intros Hsane Hown Hok Hpure Hp Hspare.
  pose proof Hown as [Hself Hsize Hroom Hbytes Hblock].
  unfold Capacity, Size in *. rewrite Hsize in Hspare.
  destruct (Emplace E Pl this (begin_ v +ₚ Z.of_nat p) arg w) as [r w'] eqn:Hrun.
  pose proof (Emplace_inplace_cases E Pl _ _ _ _ _ _ _ _ Hsane Hown Hok Hp Hspare Hrun)
    as Hcases.
  assert (Hlt : ∀ a, buffer_ (data_ v) = Some a → a < length (heap w)).
  { intros a Hbuf. unfold holds in Hblock. rewrite Hbuf in Hblock.
    by eapply block_at_lt. }
  split.
  - destruct r as [it|e| |]; try done.
    destruct Hcases as [(x & -> & Hth & Hv & Hh & Ht) |
      (Hp' & a & y & h1 & xs1 & xl & Hbuf & Hmade & Hh1 & Hl1 & Hxl & Hv & Hcases)].
    + split; [by rewrite Hv|]. left. split; [eauto|]. split.
      * eapply owns_frame; [done|done|]. by rewrite Hh.
      * unfold added. by rewrite Ht, drop_all.
    + destruct (made_pure_elements E Pl _ _ _ _ _ _ _ _ Hown Hpure Hmade Hh1 Hl1) as [-> ->].
      split; [by rewrite Hv|].
      destruct Hcases as [(x & -> & Hth & Hh & Ht) |
        (yl & zl & k & ys & zs & z & x0 & x & Hrel & Hk & HF & Hz & Hzk & Hx0 & -> &
         Hthrew & Hh & Ht)].
      * left. split; [eauto 6|]. split.
        -- eapply owns_frame; [done|done|]. by rewrite Hh.
        -- by rewrite (added_app _ _ _ Ht).
      * right. split; [done|]. exists a, xl, yl, zl, k, ys, zs, z, x0, x.
        do 7 (split; [done|]). split.
        { destruct (decide (k = length xs - 1 - p)); [by subst x0|done]. }
        do 2 (split; [done|]). split.
        { rewrite Hh. apply block_at_insert_eq. by apply Hlt. }
        rewrite (added_app _ _ _ Ht). split; [done|].
        change [EvConstruct (ctor_of arg) Local;
                EvConstruct MoveCtor (InHeap (cell a (length xs)))]
          with ([EvConstruct (ctor_of arg) Local] ++
                [EvConstruct MoveCtor (InHeap (cell a (length xs)))]).
        by rewrite !alive_app, alive_assignments.
  - intros a xl x0 x Hbuf Hp' Hnever Hxl Hret Hx0 Hthrows.
    assert (Hlast : (drop (length xs - 1 - 0) (take (length xs - 1) xs)) = []).
    { rewrite Nat.sub_0_r. apply drop_ge. rewrite length_take. lia. }
    assert (Hprev : ∀ k, 0 < k → k ≤ length xs - 1 →
              drop (length xs - 1 - k) (take (length xs - 1) xs) !! (k - 1) = Some x0).
    { intros k Hk0 Hk. rewrite lookup_drop, lookup_take_lt by lia.
      by replace (length xs - 1 - k + (k - 1)) with (length xs - 2) by lia. }
    destruct r as [it|e| |]; try done.
    + destruct Hcases as (a' & y & h1 & xs1 & v' & Hbuf' & Hmade & Hh1 & Hl1 & _ & _ & Hrest).
      destruct (made_pure_elements E Pl _ _ _ _ _ _ _ _ Hown Hpure Hmade Hh1 Hl1) as [-> ->].
      rewrite decide_False in Hrest by lia.
      destruct Hrest as (y' & z' & us & xl' & ys & zs & yl & zl & Hdrop & _ & HF & _).
      assert (Hlus : length us = length xs - 1 - p).
      { apply (f_equal length) in Hdrop. rewrite length_drop, length_app in Hdrop.
        simpl in Hdrop. lia. }
      assert (Hus : us !! (length xs - 2 - p) = Some x0).
      { rewrite <- (lookup_app_l us [xl']) by lia. rewrite <- Hdrop, lookup_drop.
        by replace (p + (length xs - 2 - p)) with (length xs - 2) by lia. }
      destruct (Forall3_lookup_l _ _ _ _ _ _ HF Hus) as (y0 & z0 & _ & _ & Has).
      destruct (move_assign_throws_not_assigned E _ _ _ _ Hthrows Has).
    + destruct Hcases as [(x' & -> & Hth & _) |
        (_ & a' & y & h1 & xs1 & xl' & Hbuf' & Hmade & Hh1 & Hl1 & Hxl' & Hv & Hcases)].
      { destruct (Hnever _ Hth). }
      destruct (made_pure_elements E Pl _ _ _ _ _ _ _ _ Hown Hpure Hmade Hh1 Hl1) as [-> ->].
      assert (a' = a) as -> by congruence.
      assert (xl' = xl) as -> by congruence.
      destruct Hcases as [(x' & -> & Hth & _) |
        (yl & zl & k & ys & zs & z & x0' & x' & Hrel & Hk & HF & Hz & _ & Hx0' & -> &
         Hthrew & Hh & Ht)].
      { destruct (move_returns_not_threw E _ _ Hret Hth). }
      destruct (decide (k = 0)) as [-> | Hk0].
      * rewrite decide_False in Hx0' by lia. rewrite Nat.sub_0_r in Hx0'.
        assert (x0' = x0) as -> by congruence.
        rewrite (move_assign_throws_what E _ _ _ Hthrows Hthrew).
        rewrite Hlast in HF. apply Forall3_length_lm in HF. destruct ys; [|done].
        rewrite (Hz eq_refl) in Hh. rewrite Nat.sub_0_r in Hh.
        exists w', yl, zl. split; [done|]. split; [by rewrite Hv|]. split; [done|].
        split.
        { rewrite Hh. apply block_at_insert_eq. by apply Hlt. }
        rewrite (added_app _ _ _ Ht). split; [done|]. done.
      * assert (Hk1 : drop (length xs - 1 - k) (take (length xs - 1) xs) !! (k - 1)
                        = Some x0) by (apply Hprev; lia).
        destruct (Forall3_lookup_l _ _ _ _ _ _ HF Hk1) as (y0 & z0 & _ & _ & Has).
        destruct (move_assign_throws_not_assigned E _ _ _ _ Hthrows Has).
Qed.

Lemma owns_brittle_3 :
  owns Brittle debug brittle_3 0
    {| data_ := {| buffer_ := Some 2; capacity_ := 4 |}; size_ := 3 |}
    [false; true; true].
Proof. split; vm_compute; (reflexivity || lia || (intros; discriminate)). Qed.

Lemma Brittle_move_cannot_throw h x :
  cannot_throw Brittle h (ByMove (External x)).
Proof. intros e Hth. inversion Hth; subst. discriminate. Qed.

Lemma Brittle_move_returns x : move_returns Brittle x.
Proof. intros s. by exists x, x, s. Qed.

Lemma Brittle_move_assign_throws : move_assign_throws Brittle true Oops.
Proof. intros d s. by exists s. Qed.

Lemma Emplace_in_place_failure_witness :
  (∃ w' yl zl,
     Emplace Brittle debug 0 (cell 2 1) (ByMove (External false)) brittle_3
       = (Throw (thrown Oops), w') ∧
     vectors w' !! 0 =
       Some {| data_ := {| buffer_ := Some 2; capacity_ := 4 |}; size_ := 3 |} ∧
     relocated Brittle true true yl zl ∧
     block_at (heap w') 2 =
       Some ((Some <$> [false; true]) ++ Some zl :: Some yl :: replicate 0 None) ∧
     added brittle_3 w' =
       [EvConstruct MoveCtor Local; EvConstruct MoveCtor (InHeap (cell 2 3));
        EvDestroy Local] ∧
     alive (added brittle_3 w') = 1%Z) ∧
  heap (after (Emplace Brittle debug 0 (cell 2 1) (ByMove (External false))) brittle_3) =
    [None; None; Some [Some false; Some true; Some true; Some true]] ∧
  heap brittle_3 = [None; None; Some [Some false; Some true; Some true; None]] ∧
  match Emplace Brittle debug 0
          (begin_ {| data_ := {| buffer_ := Some 2; capacity_ := 4 |}; size_ := 3 |}
             +ₚ Z.of_nat 1) (ByMove (External false)) brittle_3 with
  | (Throw e, w') =>
      vectors w' !! 0 =
        Some {| data_ := {| buffer_ := Some 2; capacity_ := 4 |}; size_ := 3 |} ∧
      ((∃ x, e = thrown x ∧
          (threw Brittle (heap brittle_3) (ByMove (External false)) x ∨
           ∃ xl, [false; true; true] !! (length [false; true; true] - 1) = Some xl ∧
                 reloc_threw Brittle true xl x)) ∧
       owns Brittle debug w' 0
         {| data_ := {| buffer_ := Some 2; capacity_ := 4 |}; size_ := 3 |}
         [false; true; true] ∧
       alive (added brittle_3 w') = 0%Z ∨
       1 < length [false; true; true] ∧
       ∃ a xl yl zl k ys zs z x0 x,
         Some 2 = Some a ∧
         [false; true; true] !! (length [false; true; true] - 1) = Some xl ∧
         relocated Brittle true xl yl zl ∧
         k ≤ length [false; true; true] - 1 - 1 ∧
         Forall3 (assigned Brittle true)
           (drop (length [false; true; true] - 1 - k)
              (take (length [false; true; true] - 1) [false; true; true])) ys zs ∧
         (k = 0 → z = zl) ∧ (0 < k → zs !! 0 = Some z) ∧
         (if decide (k = length [false; true; true] - 1 - 1)
          then made Brittle (heap brittle_3) (ByMove (External false)) x0 (heap brittle_3)
          else [false; true; true] !! (length [false; true; true] - 2 - k) = Some x0) ∧
         e = thrown x ∧ assign_threw Brittle true x0 x ∧
         block_at (heap w') a =
           Some ((Some <$> take (length [false; true; true] - 1 - k) [false; true; true]) ++
                 Some z :: (Some <$> ys) ++
                 Some yl ::
                 replicate
                   (Capacity {| data_ := {| buffer_ := Some 2; capacity_ := 4 |};
                                size_ := 3 |} - S (length [false; true; true])) None) ∧
         added brittle_3 w' =
           [EvConstruct
              (ctor_of (T:=bool) (P:=unit) (X:=runtime_error) (ByMove (External false)))
              Local;
            EvConstruct MoveCtor (InHeap (cell a (length [false; true; true])))] ++
           assignments MoveAssign (reverse (cells a (length [false; true; true] - k) k)) ++
           [EvDestroy Local] ∧
         alive (added brittle_3 w') = 1%Z)
  | (Ok _, _) => True
  | _ => False
  end.
Proof.
  destruct (Emplace_in_place_failure Brittle debug brittle_3 0
              {| data_ := {| buffer_ := Some 2; capacity_ := 4 |}; size_ := 3 |}
              [false; true; true] 1 (ByMove (External false))
              sane_Brittle owns_brittle_3 I I (le_S _ _ (le_S _ _ (le_n 1))) (le_n 4))
    as [Hcases Hleak].
  split; [|split; [vm_compute; reflexivity|split; [vm_compute; reflexivity|exact Hcases]]].
  exact (Hleak 2 true true Oops eq_refl (le_n 3) (Brittle_move_cannot_throw _ false)
           eq_refl (Brittle_move_returns true) eq_refl Brittle_move_assign_throws).
Defined.


(** ** [Insert] followed by [Erase] *)

Section RoundTrip.
Context {T P X : Type}.
Variable E : @ElemType T P X.
Variable Pl : Platform.
Implicit Types (w : @World T P) (xs ys zs : list T) (v : Vector).

(** The elements after an [Insert] of a value that is no element of the
    vector, for an element type with value semantics. *)
Lemma Insert_values this v xs p x (arg : @args T P X) w r w' :
  sane E Pl → value_semantics E → owns E Pl w this v xs →
  arg = ByCopy (External x) ∨ arg = ByMove (External x) → p ≤ length xs →
  Insert E Pl this (begin_ v +ₚ Z.of_nat p) arg w = (r, w') →
  match r with
  | Ok it => ∃ v',
      owns E Pl w' this v' (take p xs ++ x :: drop p xs) ∧
      it = begin_ v' +ₚ Z.of_nat p ∧
      capacity_ (data_ v) ≤ capacity_ (data_ v')
  | Throw _ => True
  | _ => False
  end.
Proof.
  intros Hsane (Hc & Hm & Hca & Hma) Hown Harg Hp.
  pose proof Hown as [Hself Hsize Hroom Hbytes Hblock].
  assert (Hok : arg_ok (heap w) arg) by (by destruct Harg as [-> | ->]).
  unfold Insert. intros Hrun.
  destruct (decide (capacity_ (data_ v) = length xs)) as [Hfull | Hroomy].
  - pose proof (Emplace_grow_cases E Pl _ _ _ _ _ _ _ _ Hsane Hown Hok Hp Hfull Hrun)
      as Hcases.
    destruct r as [it|e| |]; try done.
    destruct Hcases as (y & h1 & xs1 & ys1 & zs1 & ys2 & zs2 & v' & Hmade & Hh1 & Hl1 &
      HF1 & HF2 & Hown' & -> & Hd' & _).
    destruct (made_external E _ _ _ _ _ Hc Hm Harg Hmade) as [-> ->].
    assert (xs1 = xs) as -> by (eapply holds_inj; [done| |done|done]; lia).
    apply (relocated_values E _ _ _ _ Hc Hm) in HF1, HF2. subst ys1 ys2.
    exists v'. split; [done|]. split; [done|]. rewrite Hd'. simpl. lia.
  - assert (Hlt : length xs < capacity_ (data_ v)) by lia.
    pose proof (Emplace_inplace_cases E Pl _ _ _ _ _ _ _ _ Hsane Hown Hok Hp Hlt Hrun)
      as Hcases.
    destruct r as [it|e| |]; try done.
    destruct Hcases as (a & y & h1 & xs1 & v' & Hbuf & Hmade & Hh1 & Hl1 & -> & Hd' & Hrest).
    destruct (made_external E _ _ _ _ _ Hc Hm Harg Hmade) as [-> ->].
    assert (xs1 = xs) as -> by (eapply holds_inj; [done| |done|done]; lia).
    assert (Hown' : owns E Pl w' this v' (take p xs ++ x :: drop p xs)).
    { destruct (decide (p = length xs)) as [-> | Hne].
      - destruct Hrest as [Hown' _]. by rewrite firstn_all, drop_all.
      - destruct Hrest as (y' & z' & us & xl & ys & zs & yl & zl & Hdrop & Hy' & HF &
          Hl & Hown' & _).
        apply (assigned_value E _ _ _ _ Hca Hma) in Hy'. subst y'.
        apply (assigned_values E _ _ _ _ Hca Hma) in HF. subst ys.
        assert (yl = xl) as ->.
        { destruct Hl as (s & s' & Hl). by eapply Hm. }
        by rewrite Hdrop. }
    exists v'. split; [done|]. split; [|by rewrite Hd'].
    unfold begin_, GetAddress. rewrite Hd', Hbuf. unfold cell, ptr_add. simpl.
    by rewrite Z.add_0_l.
Qed.

(** The elements after an [Erase], for an element type with value
    semantics. *)
Lemma Erase_values this v xs p w r w' :
  sane E Pl → value_semantics E → owns E Pl w this v xs → p < length xs →
  Erase E Pl this (begin_ v +ₚ Z.of_nat p) w = (r, w') →
  match r with
  | Ok it => ∃ v',
      owns E Pl w' this v' (take p xs ++ drop (S p) xs) ∧
      it = begin_ v' +ₚ Z.of_nat p ∧ data_ v' = data_ v
  | Throw _ => True
  | _ => False
  end.
Proof.
  intros Hsane (Hc & Hm & Hca & Hma) Hown Hp Hrun.
  pose proof (Erase_cases E Pl _ _ _ _ _ _ _ Hsane Hown Hp Hrun) as Hcases.
  destruct r as [it|e| |]; try done.
  destruct Hcases as (a & ys & zs & v' & Hbuf & HF & Hown' & -> & Hd' & _).
  apply (assigned_values E _ _ _ _ Hca Hma) in HF. subst ys.
  by exists v'.
Qed.

Lemma remove_inserted xs p x :
  p ≤ length xs →
  take p (take p xs ++ x :: drop p xs) ++ drop (S p) (take p xs ++ x :: drop p xs) = xs.
Proof.
  intros Hp.
  assert (Hl : length (take p xs) = p) by (rewrite length_take; lia).
  rewrite take_app_le by lia. rewrite take_ge by lia.
  rewrite drop_app_ge by lia. rewrite Hl.
  replace (S p - p) with 1 by lia. simpl. rewrite drop_0. apply take_drop.
Qed.

End RoundTrip.

(** X27: [Erase] at the iterator an [Insert] has returned undoes the
    [Insert], for an element type with value semantics and a value that is
    no element of the vector: when both calls return, the vector holds the
    elements of before the two calls, in order, with the size of before and
    a capacity that has not shrunk, and [Erase] returns the iterator it was
    given. *)
Theorem Insert_then_Erase {T P X : Type} (E : @ElemType T P X) (Pl : Platform)
    (w : @World T P) (this : nat) (v : Vector) (xs : list T) (p : nat) (x : T)
    (arg : @args T P X) :
  sane E Pl → value_semantics E → owns E Pl w this v xs →
  arg = ByCopy (External x) ∨ arg = ByMove (External x) → p ≤ length xs →
  match Insert E Pl this (begin_ v +ₚ Z.of_nat p) arg w with
  | (Ok it, w1) =>
      match Erase E Pl this it w1 with
      | (Ok it', w2) => ∃ v2,
          owns E Pl w2 this v2 xs ∧ it' = it ∧
          Size v2 = Size v ∧ Capacity v ≤ Capacity v2
      | (Throw _, _) => True
      | _ => False
      end
  | (Throw _, _) => True
  | _ => False
  end.
Proof.
  intros Hsane Hvs Hown Harg Hp.
  destruct (Insert E Pl this (begin_ v +ₚ Z.of_nat p) arg w) as [r w1] eqn:Hins.
  pose proof (Insert_values E Pl _ _ _ _ _ _ _ _ _ Hsane Hvs Hown Harg Hp Hins) as Hcases.
  destruct r as [it|e| |]; try done.
  destruct Hcases as (v1 & Hown1 & -> & Hcap1).
  destruct (Erase E Pl this (begin_ v1 +ₚ Z.of_nat p) w1) as [r w2] eqn:Hers.
  assert (Hp1 : p < length (take p xs ++ x :: drop p xs)).
  { rewrite length_app, length_take. simpl. lia. }
  pose proof (Erase_values E Pl _ _ _ _ _ _ _ Hsane Hvs Hown1 Hp1 Hers) as Hcases.
  destruct r as [it'|e| |]; try done.
  destruct Hcases as (v2 & Hown2 & -> & Hd2).
  rewrite remove_inserted in Hown2 by done.
  exists v2. split; [done|]. split.
  { unfold begin_. by rewrite Hd2. }
  destruct Hown as [_ Hs _ _ _]. destruct Hown2 as [_ Hs2 _ _ _].
  unfold Size, Capacity. rewrite Hd2. split; [congruence | done].
Qed.

Lemma Insert_then_Erase_witness :
  match Insert int_type debug 0
          (begin_ {| data_ := {| buffer_ := Some 0; capacity_ := 4 |}; size_ := 2 |}
             +ₚ Z.of_nat 1) (ByCopy (External 5%Z)) ints_12_of_4 with
  | (Ok it, w1) =>
      match Erase int_type debug 0 it w1 with
      | (Ok it', w2) => ∃ v2,
          owns int_type debug w2 0 v2 [1%Z; 2%Z] ∧ it' = it ∧
          Size v2 = Size {| data_ := {| buffer_ := Some 0; capacity_ := 4 |}; size_ := 2 |} ∧
          Capacity {| data_ := {| buffer_ := Some 0; capacity_ := 4 |}; size_ := 2 |}
            ≤ Capacity v2
      | (Throw _, _) => True
      | _ => False
      end
  | (Throw _, _) => True
  | _ => False
  end.
Proof.
  exact (Insert_then_Erase int_type debug ints_12_of_4 0 _ [1%Z; 2%Z] 1 5%Z
           (ByCopy (External 5%Z)) sane_int value_semantics_int owns_ints_12_of_4
           (or_introl eq_refl) (le_S _ _ (le_n 1))).
Defined.


(** ** [Reserve] followed by [PushBack] *)

(** The vector after a [Reserve] that returns, for an element type with
    value semantics. *)
Lemma Reserve_owns {T P X : Type} (E : @ElemType T P X) (Pl : Platform)
    (w : @World T P) (this : nat) (v : Vector) (xs : list T) (n : nat) w' :
  sane E Pl → copy_faithful E → move_faithful E → owns E Pl w this v xs →
  (Z.of_nat n * sizeof_T E < 2 ^ 64)%Z →
  Reserve E Pl this n w = (Ok tt, w') →
  ∃ v', owns E Pl w' this v' xs ∧
        capacity_ (data_ v') = Nat.max (capacity_ (data_ v)) n.
Proof.
  intros Hsane Hc Hm Hown Hn Hrun.
  pose proof (Reserve_cases E Pl _ _ _ _ _ _ _ Hsane Hown Hn Hrun) as Hcases.
  simpl in Hcases.
  destruct (n <=? capacity_ (data_ v)) eqn:Hle.
  - apply Nat.leb_le in Hle. subst w'. exists v. split; [done|lia].
  - apply Nat.leb_gt in Hle.
    destruct Hcases as (ys & zs & HF & Hlim & Hv & Hh & Ht).
    apply (relocated_values E _ _ _ _ Hc Hm) in HF. subst ys.
    pose proof Hown as [Hself Hsize Hroom Hbytes Hblock].
    exists {| data_ := {| buffer_ := Some (length (heap w)); capacity_ := n |};
              size_ := size_ v |}.
    split; [|simpl; lia].
    split; simpl.
    + rewrite Hv. apply list_lookup_insert_eq. by eapply lookup_lt_Some.
    + done.
    + lia.
    + done.
    + rewrite Hh. apply holds_release_new.
Qed.

(** X28: after a [Reserve(n)] with [n] above the size has returned, a
    [PushBack] of a value reallocates nothing, for an element type with
    value semantics: when it returns, the block and the capacity are those
    [Reserve] has left, the elements of before are followed by the new one,
    and the only operation is the construction of the new element in the
    slot at [end()]; when it throws, the vector is as [Reserve] has left it
    and nothing has happened. *)
Theorem Reserve_then_PushBack {T P X : Type} (E : @ElemType T P X) (Pl : Platform)
    (w : @World T P) (this : nat) (v : Vector) (xs : list T) (n : nat) (x : T)
    (arg : @args T P X) :
  sane E Pl → copy_faithful E → move_faithful E → owns E Pl w this v xs →
  (Z.of_nat n * sizeof_T E < 2 ^ 64)%Z → length xs < n →
  arg = ByCopy (External x) ∨ arg = ByMove (External x) →
  match Reserve E Pl this n w with
  | (Ok _, w1) =>
      ∃ v1, owns E Pl w1 this v1 xs ∧
        match PushBack E Pl this arg w1 with
        | (Ok _, w2) => ∃ v2,
            owns E Pl w2 this v2 (xs ++ [x]) ∧ data_ v2 = data_ v1 ∧
            added w1 w2 = [EvConstruct (ctor_of arg) (InHeap (end_ v1))]
        | (Throw _, w2) => owns E Pl w2 this v1 xs ∧ added w1 w2 = []
        | _ => False
        end
  | (Throw _, _) => True
  | _ => False
  end.
Proof.
  intros Hsane Hc Hm Hown Hn Hlt Harg.
  destruct (Reserve E Pl this n w) as [r w1] eqn:Hres.
  pose proof (Reserve_cases E Pl _ _ _ _ _ _ _ Hsane Hown Hn Hres) as Hdef.
  destruct r as [[]|e| |]; try done. clear Hdef.
  destruct (Reserve_owns E Pl _ _ _ _ _ _ Hsane Hc Hm Hown Hn Hres) as (v1 & Hown1 & Hcap1).
  exists v1. split; [done|].
  assert (Hok : arg_ok (heap w1) arg) by (by destruct Harg as [-> | ->]).
  destruct (PushBack E Pl this arg w1) as [r w2] eqn:Hpush.
  pose proof (PushBack_cases E Pl _ _ _ _ _ _ _ Hsane Hown1 Hok Hpush) as Hcases.
  assert (Hspare : (capacity_ (data_ v1) =? length xs) = false)
    by (apply Nat.eqb_neq; lia).
  pose proof Hown1 as [Hself1 Hsize1 Hroom1 Hbytes1 Hblock1].
  destruct r as [[]|e| |]; try done.
  - destruct Hcases as (y & h1 & xs1 & ys & v2 & Hmade & Hh1 & Hl1 & Hown2 & Hrest).
    rewrite Hspare in Hrest. destruct Hrest as (a & Hbuf & -> & Hd2 & Hh2 & Ht2).
    destruct (made_external E _ _ _ _ _ Hc Hm Harg Hmade) as [-> ->].
    assert (xs1 = xs) as -> by (eapply holds_inj; [done| |done|done]; lia).
    exists v2. split; [done|]. split; [done|].
    rewrite (added_app _ _ _ Ht2). do 3 f_equal.
    unfold end_, GetAddress. rewrite Hbuf, Hsize1. unfold cell, ptr_add. simpl.
    by rewrite Z.add_0_l.
  - destruct Hcases as [Hv [(_ & _ & Hfull) | [(x0 & -> & Hth & Hrest) |
      (Hfull & _)]]]; [lia| |lia].
    rewrite Hspare in Hrest. destruct Hrest as [Hh Ht]. split.
    + eapply owns_frame; [done|done|]. by rewrite Hh.
    + unfold added. by rewrite Ht, drop_all.
Qed.

Lemma Reserve_then_PushBack_witness :
  match Reserve int_type debug 0 3 ints_12 with
  | (Ok _, w1) =>
      ∃ v1, owns int_type debug w1 0 v1 [1%Z; 2%Z] ∧
        match PushBack int_type debug 0 (ByCopy (External 3%Z)) w1 with
        | (Ok _, w2) => ∃ v2,
            owns int_type debug w2 0 v2 ([1%Z; 2%Z] ++ [3%Z]) ∧ data_ v2 = data_ v1 ∧
            added w1 w2 =
              [EvConstruct (ctor_of (T:=Z) (P:=unit) (X:=Empty_set) (ByCopy (External 3%Z)))
                 (InHeap (end_ v1))]
        | (Throw _, w2) => owns int_type debug w2 0 v1 [1%Z; 2%Z] ∧ added w1 w2 = []
        | _ => False
        end
  | (Throw _, _) => True
  | _ => False
  end.
Proof.
  exact (Reserve_then_PushBack int_type debug ints_12 0 _ [1%Z; 2%Z] 3 3%Z
           (ByCopy (External 3%Z)) sane_int (proj1 value_semantics_int)
           (proj1 (proj2 value_semantics_int)) owns_ints_12 eq_refl (le_n 3)
           (or_introl eq_refl)).
Defined.
